(* ===== verification/_CoqProject ===== *)
-Q . S2P
Prelude.v
Utf8.v
GoStrings.v
Unicode.v
UnicodeLatin.v
Normalize.v
Whitespace.v
Collapse.v
Vocabulary.v
Check.v
Pipeline.v
CaseFolding.v
Diacritics.v
Exact.v
Observe.v
Interface.v
Mutex.v
Threads.v
Atomic.v
Progress.v
Tests.v
