(* ===== verification/Prelude.v ===== *)
(** * swearfilter: a verification development

    The program ([src/swearfilter.go]) is a profanity filter.  A filter
    ([swearFilter]) holds a set of words ([BadWords]) and five boolean
    options.  [New] makes a filter from a list of words and a list of
    options; [Add] and [Delete] change the words; [Words] lists them;
    [Check] rewrites a message in five stages and reports the words that
    occur in the result.  The stages are: lower-casing ([strings.ToLower]),
    removal of diacritics (the transform chain [NFD], [runes.Remove] of
    the nonspacing marks, [NFC], run into a buffer of the length of the
    message), tabs to spaces, deletion of zero-width spaces, and two
    regular expressions that delete whitespace.  The search is
    [strings.Index], once in the message and, with the spaced bypass on,
    once in the message without its spaces.  The four methods are the
    interface [Filter], and each holds the mutex of the filter from its
    first statement to its return: [Check] and [Words] the read lock,
    [Add] and [Delete] the write lock, so that goroutines can call one
    filter together.

    ** Files, in the order of their dependencies

    - [Prelude] (this file): Go strings as lists of bytes ([bytes], with
      [wf_bytes] for the range of a byte), the type [result] of a Go pair
      of a value and an error with its monad instances, the tactics and
      hint databases the other files share, the lemmas that turn the masks
      and shifts of the UTF-8 codec into arithmetic.
    - [Utf8]: package [unicode/utf8] as [Check] needs it: [DecodeRune],
      [EncodeRune], [ValidRune]; a string as its runes ([chunks], [decode],
      [encode], [Valid]).  Theorems: both round trips, with the invalid
      bytes read as [RuneError]; an encoding never ends inside another.
    - [GoStrings]: [strings.Index], [strings.Count] and the loop of
      [strings.Replace].  Theorems: [Index] is the first occurrence or -1;
      [Replace] of a byte and of an encoded rune as functions on bytes and
      on runes.
    - [Unicode]: the Unicode character database as an interface, the class
      [UnicodeTables] (case mapping, the category Mn, combining classes,
      decompositions, compositions, and the laws the theorems use, most of
      them about the characters that are [inert] under normalisation, the
      ASCII characters and the zero-width space, and four about the
      whitespace of the regular expressions, which is no mark, composes
      with nothing and is no composition); the characters that
      the tables show [stable] under normalisation, of which the inert
      ones are some; [strings.ToLower] with its fast path for ASCII; the
      character class of the regular expressions.
    - [UnicodeLatin]: an instance of the interface, the Latin fragment of
      the database and a few characters that reach special paths, with a
      test that shows a character of the fragment stable.
    - [Normalize]: lines 111-121 of [Check] and [unicodeSpaceSet]: [NFD],
      [Remove], [NFC] on runes by the algorithms of Unicode Standard Annex
      15, [Transform] into a buffer, [normalize_stage].  When the chain
      of package [transform] gives up with [ErrShortDst] is a parameter,
      the class [Chain]: its one law is that it does when the text does
      not fit the buffer, and it may do so earlier, as the package does
      when its scan stops short of the room a rune can take.  Theorems,
      for every such chain: a stage that succeeds returns the text
      padded with NUL bytes to the length of the message, the only error
      is [ErrShortDst], and a text longer than the message is one; ASCII
      text that passes comes out as it is; a run of stable characters
      left when the marks are removed is in the result as it is
      ([normalize_runes_segment]).  [whole_buffer] is the chain that
      gives up only when the text does not fit; the examples run it.
    - [Whitespace]: lines 123-139 of [Check]: [tab_stage],
      [zero_width_stage], and the two regular expressions as scans over
      the runes ([lead_close], [inside]); what each stage does to the
      runes of valid UTF-8 ([tab_runes], [zero_width_runes],
      [whitespace_runes]).  Theorems: each stage on bytes computes its
      function on runes; the first expression trims; between two letters
      one whitespace character is kept and two or more are deleted
      ([whitespace_runes_between]).
    - [Collapse]: the form in which the whitespace stage leaves a text
      ([trimmed], and [single]: no two whitespace characters side by
      side), and the relation [thins] of a text to what is left of it when
      whitespace is deleted.  Theorems: the stage deletes whitespace and
      nothing else, leaves a text in that form, and is idempotent
      ([whitespace_stage_normal]); the tab and the zero-width stages leave
      no tab and no U+200B.
    - [Vocabulary]: [Match], [Option] and its five constructors,
      [swearFilter], [New], [Add], [Delete], [Words].  Theorems: each
      operation on the set of words; the flags are those given to [New];
      the nil map is unreachable; when [Delete] undoes [Add].
    - [Check]: [Check] itself: [preprocess] (lines 108-139), [loop_body]
      (lines 145-170), the sentinel (lines 172-177), [Check_in] and
      [Check].  Theorems: the closed form of the loop; what is reported is
      what the specification [reported] allows, no more and no less; no
      word twice; the order of the map changes only the order of the
      result; the one error, which [Check] returns when the chain gives
      up and always when the normalised text is longer than the message
      ([Check_in_Err]); a word that one of the two searches finds is
      reported ([Check_in_finds]), the empty word in every message; the
      message searched is valid UTF-8; the word [" "] is never reported
      for a message that the normalisation shortened; two messages that
      differ in letter case only get the same answer ([Check_in_case]).
    - [Pipeline]: the five stages as one function on the runes of the
      message ([preprocess_runes]: lower-cased, normalised and padded, tab
      to space, U+200B deleted, whitespace collapsed, each under its
      option).  Theorems: when [preprocess] on bytes succeeds it computes
      that function, its only error is [ErrShortDst] of the
      normalisation, and it fails when the normalised text does not fit
      ([preprocess_refines]); the
      message that is searched is in the form of the stages that are on
      ([preprocess_clean]); without the normalisation the pipeline is
      idempotent ([preprocess_idempotent]); an index that is reported
      lies inside the rewritten message, which is no longer than the
      message ([Check_in_index]); and the words that [Check] is
      sure to report ([Check_reports]): a word of characters that no
      stage changes ([letter]: not whitespace, not skipped, and stable
      when the normalisation is on; the ASCII characters that are not
      whitespace are such, and the letters of most scripts) that stands
      among the [letters] of the message, which are its runes in lower
      case,
      without their accents when the normalisation is on, without the
      zero-width spaces when these are deleted and without the spaces and
      tabs when the spaced bypass is on.  And of the words as they are
      stored: a character of a word that is reported is a space or a rune
      of the rewritten message ([reported_Forall]), so a word with a tab
      or a zero-width space that the stages erase is never found
      ([Check_in_erased]).
    - [CaseFolding]: the ASCII capital letters through the pipeline.  The
      class [CaseTables] adds to [UnicodeTables] what the standard says of
      letter case ([unicode.ToLower] returns no ASCII capital, what it
      returns does not decompose to one, no composite is one), and
      [latin] is an instance.  Theorems: after [ToLower] the message is
      [lowered] and every stage keeps it so; a word that [Check] reports
      has no capital letter, so that a word stored with one is never
      found ([Check_in_lowered]).
    - [Diacritics]: the nonspacing marks through the pipeline, with the
      normalisation on.  A character is [marked] when its canonical
      decomposition holds a character of [unicode.Mn].  Theorems: what
      [NFD] and the removal leave has no such character, [NFC] and the
      later stages bring none back, so the message that is searched has
      none; a word that [Check] reports has none either, so that a word
      stored with an accent is never found ([Check_in_unmarked]).
    - [Exact]: which words [Check] reports, exactly.  A word is [plain]
      when its characters are valid, are [letter]s and are not NUL.
      Theorems: the composition of a text without marks composes nothing
      to a stable character and deletes nothing, so the text and its
      composition have the same runs of stable characters ([same_runs],
      [normalize_runes_same_runs]); a [Check] that succeeds, with every
      combination of the options and every chain, reports a plain word
      exactly when it stands in what the searches hear of the message
      ([Check_reports_iff], [Pipeline.heard]: the runes in lower case,
      decomposed and without their marks, through the tab, zero-width
      and whitespace stages, without what the searches skip); with the
      whitespace stage off that is to stand among the [letters] of the
      message ([Check_reports_exactly]); with every combination of the
      options a plain word that is reported stands among the letters
      without their whitespace ([Check_reports_within]).  The tables
      have to decide which characters are stable; those of
      [UnicodeLatin] do.
    - [Observe]: the equivalence [same_filter] of the filters with the
      same options and the same words, the nil map counting as the empty
      map, as the relation [≡]; [Add], [Delete], [Words], [Check_in] and
      [Check] are [Proper] for it, so that a call is rewritten with an
      equivalence in its filter.  Theorems: no call tells equivalent
      filters apart; [Add] is idempotent, calls of [Add] commute, calls
      of [Delete] commute, [Delete] undoes [Add] of new words, all up to
      [≡].
    - [Interface]: the interface [Filter] (lines 15-20) as a class of four
      methods, the contract of the package as the class [FilterLaws], and
      [swearFilter] as an instance whose laws the theorems of [Vocabulary]
      and [Check] discharge.  Theorems: of the filter of the package
      called through the interface, that after [Delete] a [Check]
      reports words the filter had and none that was deleted
      ([Check_Delete]); of every implementation of the laws, that a
      filter whose words are all deleted reports nothing, and when
      [Delete] undoes [Add].
    - [Mutex]: [sync.RWMutex] as its callers observe it, a count of
      readers, a writer flag and a pending writer, with [RLock],
      [RUnlock], [Lock] and [Unlock].  [Lock] is two steps: the caller
      becomes the pending writer ([Lock_wait]), which keeps new readers
      out, and gets the lock when the readers inside have left.  A call
      that has to wait returns [None].  Theorems: what each call needs and
      does; a writer holds the lock alone.
    - [Threads]: the four methods as goroutines run them.  A goroutine is a
      program point [pc] with its local variables; [step_Check],
      [step_Add], [step_Delete] and [step_Words] are the code between two
      points at which a method touches the shared filter (taking the lock,
      the guard, one turn of a loop, the deferred release); [step] is a
      step of any goroutine, [run] executes a schedule.  Theorems, for
      every list of calls and every schedule: the lock counts the
      goroutines inside ([lock_inv]), a writer is alone inside, a reader
      keeps what it read of the map and no writer holds the lock while
      it reads ([pc_inv], [reachable_reading]), and a goroutine stays in
      its method.
    - [Atomic]: the contract of the lock, a program [astep] in which each
      call is one step by the functions of [Vocabulary] and [Check], and
      the proof that the goroutines of [Threads] refine it: a step of a
      goroutine is a step of [astep] or none ([step_astep]), so the values
      returned and the filter left are those of the calls made one after
      the other in some order.  Read goroutine by goroutine
      ([returned_atomic]): the value a call returns is the value of
      [Check_in], [Words_in], [Add] or [Delete] on a filter that the calls
      of [Add] and [Delete] of the run leave ([evolves]); so a word that
      a call of [Check] reports was in the first filter or is added by a
      call of the run ([returned_Check_Word]).
    - [Progress]: every step lowers [measure], so no schedule runs for
      ever; in no reachable state do all the goroutines wait; and any
      number of calls of [Check] and [Words] can be inside together
      ([readers_together]).
    - [Tests]: [src/swearfilter_test.go] ([TestNew], [TestCheck]) and
      messages that show what the theorems say.  Two theorems hold with
      every chain: a message whose normalisation is longer than the
      message makes [Check] fail ([Check_half_note]), and a message that
      the pipeline, when it passes twice, rewrites twice
      ([preprocess_not_idempotent]).  The examples are run with the
      tables of [UnicodeLatin] and the chain [whole_buffer]: the two
      tests, a missed sentinel, the messages of section 8 of the
      specification with what [Check] returns for each, and two messages
      in which the search on bytes shows.

    ** Correspondence with the code

    A Go string is a list of bytes; a rune is an integer.  A method that
    changes its receiver returns the new filter.  The map [BadWords] is
    [option (gset bytes)], [None] for the nil map.  The order of a [range]
    over the map is an argument of [Check_in] and [Words_in], and every
    theorem on them holds for every order; [Check] and [Words] are the
    instances for the order of [elements].  [(T, error)] is [result]; a nil
    slice and an empty slice are the empty list.  An [Option] is a function
    on filters, as in the code.

    The functions of other packages that the code calls ([strings.ToLower],
    [strings.Index], [strings.Replace], [norm.NFD], [norm.NFC],
    [runes.Remove], the two regular expressions) are not code of the
    repository.  Each is a definition that stands for the call on the
    line that makes it, written from the documentation of its package
    and from the Unicode standard; the definitions it is built from
    ([Map], [Count], [compose_go], [DecodeRune] and the like) and the
    lock of [Mutex] stand for no line of the repository.

    The stages of [Check] are modelled twice.  On bytes they are the calls
    the code makes (lines 108-139: [ToLower], [normalize_stage],
    [tab_stage], [zero_width_stage], [whitespace_stage], composed in
    [preprocess] under the options, errors included).  On runes they are
    what those calls mean for a message of valid UTF-8 ([preprocess_runes]
    in [Pipeline]).  The second is proved to be computed by the first for
    every input, bytes that are not UTF-8 included, since [ToLower] reads
    them as U+FFFD before any other stage runs; the theorems on what
    [Check] finds are proved on runes and stated of [Check_in].

    In [Threads] the same code is cut at the points where a goroutine
    touches the shared filter, and the filter is one object that the
    goroutines change in place.  A turn of a [range] reads the map as it
    is at that turn and takes a key that was not visited, picked by the
    schedule; that the map is the same at every turn of a loop is a
    theorem ([pc_inv] is kept), not an assumption.  The functions of
    [Vocabulary] and [Check] are what the steps of one call amount to:
    that is the refinement of [Atomic].  Each goroutine makes one call; a
    goroutine that makes several is several goroutines of which each
    starts after the one before has returned, and its runs are among
    those of the model.

    ** Bounds and fuel

    [chunks] reads a string rune by rune with the length of the string as
    fuel: every rune takes at least one byte, and [chunks_fuel_irrel] shows
    that more fuel changes nothing.  [Count] uses the same fuel and
    [count_fuel_irrel] shows the same.  Everything else is structural
    recursion.  Integers are unbounded: the only arithmetic of the program
    is on lengths and offsets of strings, far below the width of [int].

    The goroutines need no fuel.  [run] takes the schedule as a list, and
    the theorems quantify over the steps themselves ([rtc step],
    [nsteps step n]).  The length of a run is bounded by [measure] of its
    first state ([run_bounded]): for each call of [Add] five steps and one
    per word, for [Delete] four and one per word, for [Check] and [Words]
    four and one per key the map can have while they run, which is at most
    the keys it has and the words the calls of [Add] may insert
    ([keys_bound]).  The count of readers of the lock is a natural number:
    the package keeps it in 30 bits, far above the number of goroutines of
    a program.

    ** What is not modelled

    - The order in which [sync.RWMutex] wakes the goroutines that wait
      when the lock is released: the readers that were waiting go before
      the next writer.  The model lets the schedule choose among the
      goroutines that find the lock free, so every run of the package is
      a run of the model and the theorems on every schedule hold of the
      package; fairness of the schedule is not stated, and no theorem
      says that a given call returns, only that some goroutine can always
      go on and that no run is infinite.
    - The memory model below the lock: a step of a goroutine is atomic,
      and the reads and writes of the map inside one step are not
      interleaved with those of another goroutine.  With the lock no two
      goroutines are inside together unless both only read
      ([reachable_exclusive]).
    - Package [norm] inserts a combining grapheme joiner after thirty
      non-starters in a row; [NFD] and [NFC] here are the algorithms of
      the standard without that limit, and agree with the package on text
      whose runs of non-starters are shorter.
    - The buffers of packages [transform] and [norm], which are not part
      of the repository.  [Transform] (line 116) writes into a buffer of
      the length of the message and returns [ErrShortDst] when it cannot
      go on; the package does so when the text does not fit, and also
      before that: it stops its scan where the buffer would end and
      flushes a character only with room for the longest encoding, so
      that a message can fail whose normalised text would fit.  Which
      messages those are is not modelled.  [Transform] takes the answer
      from the class [Chain], whose one law is that a text that does not
      fit is refused, and every theorem is proved for every chain: a
      theorem on a [Check] that returns its matches holds of the package
      whenever the package returns them, and no theorem says that
      [Check] succeeds on a message that is not given by the chain.
      What the result of a successful [Transform] is, the whole text
      with nothing cut or repeated at the seams of the three
      transformers, is taken from the contract of the package.
    - The contents of the buffer after a failed [Transform]: the caller
      returns the error at once.
    - The Unicode database outside the fragment of [UnicodeLatin]: the
      theorems of [Normalize], [Check], [Pipeline], [Diacritics] and
      [Exact] are
      proved from the laws of [UnicodeTables], those of [CaseFolding]
      from the laws of
      [CaseTables], and hold for every table that satisfies them.  That
      the tables of the standard satisfy the laws is checked for the
      fragment only; the character database and the chain are the two
      parts of the program that are modelled in part.
    - What the theorems on the words reported do not say.  For a [plain]
      word [Check_reports_iff] says exactly when it is reported, in
      terms of the message as it was given.  For a word with a character
      that is not stable there is no more than that it is reported when
      it occurs in the rewritten message ([Check_in_reported]), and that
      a word with a capital letter, with a character that a stage erases
      or, with the normalisation on, with a marked character is never
      reported ([Check_in_lowered], [Check_in_erased],
      [Check_in_unmarked]). *)

From Stdlib Require Export ZArith Lia Ascii String.
From stdpp Require Export prelude.

#[global] Open Scope Z_scope.
#[export] Set Warnings "-clear-no-such-hyp".

(** ** Notation scope

    [go_scope] holds the notation of the development: a string literal as
    the list of its bytes, [b{"foo"}]. *)

Declare Scope go_scope.
Delimit Scope go_scope with go.

(** ** Bytes and byte strings

    A Go [string] is an immutable sequence of bytes; a [byte] is an unsigned
    8-bit integer.  Bytes are integers with their range as an invariant. *)

Definition is_byte (b : Z) : Prop := 0 <= b < 256.

#[export] Instance is_byte_dec b : Decision (is_byte b).
Proof. unfold is_byte. apply _. Defined.

Abbreviation bytes := (list Z) (only parsing).

Definition wf_bytes (s : bytes) : Prop := Forall is_byte s.

#[export] Instance wf_bytes_dec s : Decision (wf_bytes s).
Proof. unfold wf_bytes. apply _. Defined.

(** The bytes of a string literal, as the Go compiler stores it. *)
Definition str (s : string) : bytes :=
  (fun a => Z.of_N (N_of_ascii a)) <$> list_ascii_of_string s.

Notation "'b{' s '}'" := (str s%string) (at level 0, s at level 0,
  format "'b{' s '}'") : go_scope.

(** ** Results of fallible operations

    Go's [(T, error)] pairs: exactly one of the two is meaningful. *)

Inductive result (E A : Type) : Type :=
| Ok (a : A)
| Err (e : E).
Arguments Ok {E A} a.
Arguments Err {E A} e.

#[export] Instance result_ret {E} : MRet (result E) := fun _ a => Ok a.

#[export] Instance result_bind {E} : MBind (result E) := fun _ _ f m =>
  match m with Ok a => f a | Err e => Err e end.

#[export] Instance result_fmap {E} : FMap (result E) := fun _ _ f m =>
  match m with Ok a => Ok (f a) | Err e => Err e end.

Definition is_Ok {E A} (m : result E A) : Prop :=
  match m with Ok _ => True | Err _ => False end.

#[export] Instance is_Ok_dec {E A} (m : result E A) : Decision (is_Ok m).
Proof. destruct m; simpl; apply _. Defined.

(** Two results that fail alike or succeed with related values. *)
Definition result_rel {E A} (R : relation A) : relation (result E A) :=
  fun m1 m2 =>
    match m1, m2 with
    | Ok a1, Ok a2 => R a1 a2
    | Err e1, Err e2 => e1 = e2
    | _, _ => False
    end.

(** ** Tactics *)

(** Linear arithmetic with division and modulo by constants. *)
Ltac zlia := Z.div_mod_to_equations; lia.

(** Case analysis on a boolean comparison of integers that occurs in the goal
    or in a hypothesis, with the comparison as a proposition in each branch. *)
Ltac case_zbool :=
  match goal with
  | |- context [Z.eqb ?a ?b] => destruct (Z.eqb_spec a b)
  | |- context [Z.ltb ?a ?b] => destruct (Z.ltb_spec a b)
  | |- context [Z.leb ?a ?b] => destruct (Z.leb_spec a b)
  | _ : context [Z.eqb ?a ?b] |- _ => destruct (Z.eqb_spec a b)
  | _ : context [Z.ltb ?a ?b] |- _ => destruct (Z.ltb_spec a b)
  | _ : context [Z.leb ?a ?b] |- _ => destruct (Z.leb_spec a b)
  end.

(** Exhaust the comparisons, discarding the impossible branches at once. *)
Ltac split_zbool := repeat (case_zbool; try lia).

(** Follow a chain of [if]s from the outside in, closing each branch that
    contradicts the hypotheses as soon as it appears. *)
Ltac case_if_lia :=
  repeat match goal with
  | |- context [if ?c then _ else _] =>
      let H := fresh in destruct c eqn:H; try lia
  end.

(** Equality of integer lists element by element. *)
Ltac cons_zlia := repeat (apply (f_equal2 cons); [zlia|]); try done.

(** Invert an equation between results or options in the context. *)
Ltac inv_result :=
  repeat match goal with
  | H : Ok _ = Ok _ |- _ => injection H as H; subst
  | H : Ok _ = Err _ |- _ => discriminate H
  | H : Err _ = Ok _ |- _ => discriminate H
  | H : Err _ = Err _ |- _ => injection H as H; subst
  end.

(** ** Hint databases

    [gostr] proves well-formedness of byte strings; [bits] rewrites the
    masks and shifts of the codec into arithmetic. *)

Create HintDb gostr discriminated.
Create Rewrite HintDb bits.

(** ** Lemmas on results *)

Section result.
Context {E A B : Type}.
Implicit Types (m : result E A) (f : A -> result E B).

Lemma result_bind_Ok m f b :
  m ≫= f = Ok b <-> exists a, m = Ok a /\ f a = Ok b.
Proof.
  destruct m as [a|e]; simpl; split;
    [by eexists | by intros (? & [= <-] & ?) | done | by intros (? & [=] & ?)].
Qed.

Lemma result_bind_Err m f e :
  m ≫= f = Err e <-> m = Err e \/ exists a, m = Ok a /\ f a = Err e.
Proof.
  destruct m as [a|e']; simpl; split;
    [right; by eexists | by intros [|(? & [= <-] & ?)]
    | intros [= ->]; by left | by intros [[= ->]|(? & [=] & ?)]].
Qed.

End result.

(** ** Lemmas on bytes *)

Lemma wf_bytes_nil : wf_bytes [].
Proof. constructor. Qed.

Lemma wf_bytes_cons b s : is_byte b -> wf_bytes s -> wf_bytes (b :: s).
Proof. by constructor. Qed.

Lemma wf_bytes_app s t : wf_bytes s -> wf_bytes t -> wf_bytes (s ++ t).
Proof. apply Forall_app_2. Qed.

Lemma wf_bytes_app_inv s t : wf_bytes (s ++ t) -> wf_bytes s /\ wf_bytes t.
Proof. apply Forall_app. Qed.

Lemma wf_bytes_take n s : wf_bytes s -> wf_bytes (take n s).
Proof. apply Forall_take. Qed.

Lemma wf_bytes_drop n s : wf_bytes s -> wf_bytes (drop n s).
Proof. apply Forall_drop. Qed.

Lemma wf_bytes_replicate n b : is_byte b -> wf_bytes (replicate n b).
Proof. intros. by apply Forall_replicate. Qed.

Lemma wf_bytes_filter (P : Z -> Prop) `{!forall x, Decision (P x)} s :
  wf_bytes s -> wf_bytes (filter P s).
Proof.
  unfold wf_bytes. rewrite !Forall_forall.
  intros Hs b [_ ?]%list_elem_of_filter. auto.
Qed.

Lemma wf_bytes_concat ss : Forall wf_bytes ss -> wf_bytes (concat ss).
Proof. induction 1; simpl; auto using wf_bytes_nil, wf_bytes_app. Qed.

Lemma wf_bytes_str s : wf_bytes (str s).
Proof.
  unfold str. apply Forall_fmap, Forall_forall. intros a _. simpl.
  unfold is_byte. pose proof (N_ascii_bounded a). lia.
Qed.

#[export] Hint Resolve wf_bytes_nil wf_bytes_cons wf_bytes_app wf_bytes_take
  wf_bytes_drop wf_bytes_replicate wf_bytes_concat wf_bytes_str : gostr.
#[export] Hint Extern 1 (is_byte _) => (unfold is_byte; lia) : gostr.

(** ** Masks and shifts as arithmetic

    The codec packs bits with [Z.land], [Z.lor], [Z.shiftl] and [Z.shiftr]
    at constant widths; these lemmas restate each as division, remainder and
    addition, where [lia] decides. *)

Lemma lor_add_disjoint a b k :
  0 <= k -> 0 <= b < 2 ^ k -> Z.lor (a * 2 ^ k) b = a * 2 ^ k + b.
Proof.
  intros Hk Hb. symmetry. apply Z.add_nocarry_lor.
  apply Z.bits_inj'. intros n Hn. rewrite Z.land_spec, Z.bits_0.
  destruct (Z.lt_ge_cases n k).
  - by rewrite Z.mul_pow2_bits_low by lia.
  - rewrite <- (Z.mod_small b (2 ^ k)) by done.
    rewrite Z.mod_pow2_bits_high by lia. apply andb_false_r.
Qed.

Lemma land_ones_const r k : 0 <= k -> Z.land r (2 ^ k - 1) = r mod 2 ^ k.
Proof. intros. rewrite <- Z.land_ones by done. by rewrite Z.ones_equiv, Z.sub_1_r. Qed.

Lemma land_0x3F r : Z.land r 0x3F = r mod 64.
Proof. apply (land_ones_const r 6). lia. Qed.

Lemma land_0x1F r : Z.land r 0x1F = r mod 32.
Proof. apply (land_ones_const r 5). lia. Qed.

Lemma land_0x0F r : Z.land r 0x0F = r mod 16.
Proof. apply (land_ones_const r 4). lia. Qed.

Lemma land_0x07 r : Z.land r 0x07 = r mod 8.
Proof. apply (land_ones_const r 3). lia. Qed.

Lemma shiftr_6 r : Z.shiftr r 6 = r / 64.
Proof. apply (Z.shiftr_div_pow2 r 6). lia. Qed.

Lemma shiftr_12 r : Z.shiftr r 12 = r / 4096.
Proof. apply (Z.shiftr_div_pow2 r 12). lia. Qed.

Lemma shiftr_18 r : Z.shiftr r 18 = r / 262144.
Proof. apply (Z.shiftr_div_pow2 r 18). lia. Qed.

Lemma shiftl_6 r : Z.shiftl r 6 = r * 64.
Proof. apply (Z.shiftl_mul_pow2 r 6). lia. Qed.

Lemma shiftl_12 r : Z.shiftl r 12 = r * 4096.
Proof. apply (Z.shiftl_mul_pow2 r 12). lia. Qed.

Lemma shiftl_18 r : Z.shiftl r 18 = r * 262144.
Proof. apply (Z.shiftl_mul_pow2 r 18). lia. Qed.

Lemma lor_0x80 x : 0 <= x < 64 -> Z.lor 0x80 x = 128 + x.
Proof. intros. apply (lor_add_disjoint 2 x 6); lia. Qed.

Lemma lor_0xC0 x : 0 <= x < 32 -> Z.lor 0xC0 x = 192 + x.
Proof. intros. apply (lor_add_disjoint 6 x 5); lia. Qed.

Lemma lor_0xE0 x : 0 <= x < 16 -> Z.lor 0xE0 x = 224 + x.
Proof. intros. apply (lor_add_disjoint 14 x 4); lia. Qed.

Lemma lor_0xF0 x : 0 <= x < 8 -> Z.lor 0xF0 x = 240 + x.
Proof. intros. apply (lor_add_disjoint 30 x 3); lia. Qed.

Lemma lor_shl_6 a x : 0 <= x < 64 -> Z.lor (a * 64) x = a * 64 + x.
Proof. intros. apply (lor_add_disjoint a x 6); lia. Qed.

Lemma lor_shl_12 a x : 0 <= x < 4096 -> Z.lor (a * 4096) x = a * 4096 + x.
Proof. intros. apply (lor_add_disjoint a x 12); lia. Qed.

Lemma lor_shl_18 a x : 0 <= x < 262144 -> Z.lor (a * 262144) x = a * 262144 + x.
Proof. intros. apply (lor_add_disjoint a x 18); lia. Qed.

Lemma lor_add_low y x k :
  0 <= k -> y mod 2 ^ k = 0 -> 0 <= x < 2 ^ k -> Z.lor y x = y + x.
Proof.
  intros Hk Hy Hx. rewrite (Z.div_mod y (2 ^ k)), Hy, Z.add_0_r by lia.
  rewrite (Z.mul_comm (2 ^ k)). by apply lor_add_disjoint.
Qed.

Lemma lor_sum2_6 a b x :
  0 <= x < 64 -> Z.lor (a * 4096 + b * 64) x = a * 4096 + b * 64 + x.
Proof. intros. apply (lor_add_low _ x 6); zlia. Qed.

Lemma lor_sum2_12 a b x :
  0 <= x < 4096 -> Z.lor (a * 262144 + b * 4096) x = a * 262144 + b * 4096 + x.
Proof. intros. apply (lor_add_low _ x 12); zlia. Qed.

Lemma lor_sum3_6 a b c x :
  0 <= x < 64 ->
  Z.lor (a * 262144 + b * 4096 + c * 64) x = a * 262144 + b * 4096 + c * 64 + x.
Proof. intros. apply (lor_add_low _ x 6); zlia. Qed.

#[export] Hint Rewrite land_0x3F land_0x1F land_0x0F land_0x07
  shiftr_6 shiftr_12 shiftr_18 shiftl_6 shiftl_12 shiftl_18 : bits.
#[export] Hint Rewrite lor_0x80 lor_0xC0 lor_0xE0 lor_0xF0
  lor_shl_6 lor_shl_12 lor_shl_18 lor_sum2_6 lor_sum2_12 lor_sum3_6
  using zlia : bits.

(** Rewrite every mask and shift of the goal, then decide it. *)
Ltac bits_lia := autorewrite with bits; try zlia.

(** ** Lemmas on lists shared by the components *)

Section lists.
Context {A : Type}.
Implicit Types (l k : list A) (n : nat).

Lemma take_drop_middle_app l1 l2 l3 :
  take (length l2) (drop (length l1) (l1 ++ l2 ++ l3)) = l2.
Proof. by rewrite drop_app_length, take_app_length. Qed.

Lemma filter_Forall_id (P : A -> Prop) `{forall x, Decision (P x)} l :
  Forall P l -> filter P l = l.
Proof.
  induction 1 as [|x l Hx _ IH]; [done|]. by rewrite filter_cons_True, IH.
Qed.

(** A map that changes only what the filter drops, to what it drops. *)
Lemma filter_fmap_drop (P : A -> Prop) `{forall x, Decision (P x)}
    (f : A -> A) l :
  (forall x, f x = x \/ (~ P x /\ ~ P (f x))) ->
  filter P (f <$> l) = filter P l.
Proof.
  intros Hf. induction l as [|x l IH]; [done|].
  rewrite fmap_cons, !filter_cons, IH.
  destruct (Hf x) as [->|[? ?]]; [done|]. by rewrite !decide_False.
Qed.

Lemma Forall_filter_weaken (P Q : A -> Prop) `{forall x, Decision (Q x)} l :
  Forall P l -> Forall P (filter Q l).
Proof.
  rewrite !Forall_forall. intros Hl x [_ ?]%list_elem_of_filter. auto.
Qed.

(** A filter that leaves [k1 ++ k2] leaves [k1] of a prefix and [k2] of
    the rest. *)
Lemma filter_app_inv (P : A -> Prop) `{forall x, Decision (P x)} l k1 k2 :
  filter P l = k1 ++ k2 ->
  exists l1 l2, l = l1 ++ l2 /\ filter P l1 = k1 /\ filter P l2 = k2.
Proof.
  revert k1. induction l as [|x l IH]; intros k1 E.
  { symmetry in E. apply app_eq_nil in E as [-> ->]. by exists [], []. }
  rewrite filter_cons in E. destruct (decide (P x)) as [Hx|Hx].
  - destruct k1 as [|y k1]; [by exists [], (x :: l); rewrite filter_cons_True|].
    injection E as <- E. destruct (IH _ E) as (l1 & l2 & -> & <- & <-).
    exists (x :: l1), l2. by rewrite filter_cons_True.
  - destruct (IH _ E) as (l1 & l2 & -> & <- & <-).
    exists (x :: l1), l2. by rewrite filter_cons_False.
Qed.

Lemma filter_middle_inv (P : A -> Prop) `{forall x, Decision (P x)} l k1 k2 k3 :
  filter P l = k1 ++ k2 ++ k3 ->
  exists l1 l2 l3, l = l1 ++ l2 ++ l3 /\ filter P l2 = k2.
Proof.
  intros (l1 & l23 & -> & _ & (l2 & l3 & -> & ? & _)%filter_app_inv)%filter_app_inv.
  by exists l1, l2, l3.
Qed.

Lemma filter_filter_l (P Q : A -> Prop)
    `{forall x, Decision (P x)} `{forall x, Decision (Q x)} l :
  (forall x, P x -> Q x) -> filter P (filter Q l) = filter P l.
Proof.
  intros HPQ. induction l as [|x l IH]; [done|].
  rewrite !filter_cons. destruct (decide (Q x)) as [HQ|HQ].
  - by rewrite filter_cons, IH.
  - rewrite IH. by rewrite decide_False by auto.
Qed.

Lemma filter_fmap_comm (P : A -> Prop) `{forall x, Decision (P x)} (f : A -> A) l :
  (forall x, P (f x) <-> P x) -> filter P (f <$> l) = f <$> filter P l.
Proof.
  intros Hf. induction l as [|x l IH]; [done|].
  rewrite fmap_cons, !filter_cons, IH.
  destruct (decide (P x)); [rewrite decide_True|rewrite decide_False];
    by rewrite ?Hf.
Qed.

Lemma filter_ext_Forall (P Q : A -> Prop)
    `{forall x, Decision (P x)} `{forall x, Decision (Q x)} l :
  Forall (fun x => P x <-> Q x) l -> filter P l = filter Q l.
Proof.
  induction 1 as [|x l Hx _ IH]; [done|]. rewrite !filter_cons, IH.
  destruct (decide (P x)); [rewrite decide_True|rewrite decide_False];
    by rewrite <- ?Hx.
Qed.

(** Sums of a weight over a list: counts and measures. *)
Lemma sum_list_with_middle (f : A -> nat) l1 x l2 :
  sum_list_with f (l1 ++ x :: l2) =
    (sum_list_with f l1 + f x + sum_list_with f l2)%nat.
Proof. rewrite sum_list_with_app. cbn. lia. Qed.

Lemma sum_list_with_0 (f : A -> nat) l :
  sum_list_with f l = 0%nat <-> Forall (fun x => f x = 0%nat) l.
Proof.
  induction l as [|x l IH]; cbn; [done|].
  rewrite Forall_cons, <- IH. lia.
Qed.

Lemma sum_list_with_pos (f : A -> nat) l :
  (0 < sum_list_with f l)%nat ->
  exists l1 x l2, l = l1 ++ x :: l2 /\ (0 < f x)%nat.
Proof.
  induction l as [|x l IH]; cbn; [lia|]. intros Hl.
  destruct (decide (0 < f x)%nat) as [Hx|Hx]; [by exists [], x, l|].
  destruct IH as (l1 & y & l2 & -> & Hy); [lia|]. by exists (x :: l1), y, l2.
Qed.

Lemma sum_list_with_le (f g : A -> nat) l :
  Forall (fun x => f x <= g x)%nat l ->
  (sum_list_with f l <= sum_list_with g l)%nat.
Proof. induction 1; cbn; lia. Qed.

(** The other elements of a list are those around [l !! i]. *)
Lemma lookup_middle l i x :
  l !! i = Some x ->
  exists l1 l2, l = l1 ++ x :: l2 /\ length l1 = i.
Proof.
  intros Hi. exists (take i l), (drop (S i) l). split.
  - by rewrite take_drop_middle.
  - apply length_take_le. apply lookup_lt_Some in Hi. lia.
Qed.

Lemma lookup_middle_ne l1 l2 x j y :
  (l1 ++ x :: l2) !! j = Some y -> j <> length l1 -> y ∈ l1 ++ l2.
Proof.
  intros Hj Hne. apply elem_of_app.
  destruct (decide (j < length l1)%nat) as [Hlt|Hge].
  - left. rewrite lookup_app_l in Hj by done. by eapply list_elem_of_lookup_2.
  - right. rewrite lookup_app_r in Hj by lia.
    destruct (j - length l1)%nat as [|k] eqn:Hk; [lia|].
    by eapply list_elem_of_lookup_2.
Qed.

End lists.
