(* ===== verification/Utf8.v ===== *)
(** * Utf8: Go's UTF-8 codec

    [strings.ToLower], the regular expressions and the rune transforms that
    [Check] calls read a Go string as a sequence of runes through
    [unicode/utf8].  This file models that package: [DecodeRune] with Go's
    treatment of invalid input (every byte that starts no valid sequence
    decodes to [RuneError] with width 1), [EncodeRune] (Go's [AppendRune] on
    an empty slice), the rune-level view [decode]/[encode] of a whole string
    and [Valid].  The theorems are the round trips between the two views and
    the bounds on widths that the fixed-size buffer of the normalisation
    stage depends on. *)

From S2P Require Import Prelude.

(** ** Constants of [unicode/utf8] *)

Definition RuneError : Z := 0xFFFD.
Definition RuneSelf : Z := 0x80.
Definition MaxRune : Z := 0x10FFFF.
Definition surrogateMin : Z := 0xD800.
Definition surrogateMax : Z := 0xDFFF.

Definition t2 : Z := 0xC0.
Definition t3 : Z := 0xE0.
Definition t4 : Z := 0xF0.
Definition tx : Z := 0x80.
Definition maskx : Z := 0x3F.
Definition mask2 : Z := 0x1F.
Definition mask3 : Z := 0x0F.
Definition mask4 : Z := 0x07.
Definition rune1Max : Z := 0x7F.
Definition rune2Max : Z := 0x7FF.
Definition rune3Max : Z := 0xFFFF.
Definition locb : Z := 0x80.
Definition hicb : Z := 0xBF.

(** Go's conversion [byte(x)] of an integer: the low eight bits. *)
Definition byte (x : Z) : Z := x mod 256.

(** ** The table [first]

    Information about the first byte of a sequence: ASCII, invalid, or the
    length of the sequence with the range accepted for its second byte. *)

Inductive first_info : Type :=
| firstAS
| firstXX
| firstSeq (size : nat) (lo hi : Z).

Definition first (p0 : Z) : first_info :=
  if p0 <? 0 then firstXX
  else if p0 <? 0x80 then firstAS
  else if p0 <? 0xC2 then firstXX
  else if p0 <? 0xE0 then firstSeq 2 locb hicb
  else if p0 =? 0xE0 then firstSeq 3 0xA0 hicb
  else if p0 <? 0xED then firstSeq 3 locb hicb
  else if p0 =? 0xED then firstSeq 3 locb 0x9F
  else if p0 <? 0xF0 then firstSeq 3 locb hicb
  else if p0 =? 0xF0 then firstSeq 4 0x90 hicb
  else if p0 <? 0xF4 then firstSeq 4 locb hicb
  else if p0 =? 0xF4 then firstSeq 4 locb 0x8F
  else firstXX.

(** ** [DecodeRune]

    The first rune of [p] and its width in bytes; [(RuneError, 0)] for the
    empty string and [(RuneError, 1)] for an invalid encoding. *)

Definition DecodeRune (p : bytes) : Z * nat :=
  match p with
  | [] => (RuneError, 0%nat)
  | p0 :: _ =>
    match first p0 with
    | firstAS => (p0, 1%nat)
    | firstXX => (RuneError, 1%nat)
    | firstSeq sz lo hi =>
      if (length p <? sz)%nat then (RuneError, 1%nat) else
      let b1 := p !!! 1%nat in
      if (b1 <? lo) || (hi <? b1) then (RuneError, 1%nat) else
      if (sz <=? 2)%nat then
        (Z.lor (Z.shiftl (Z.land p0 mask2) 6) (Z.land b1 maskx), 2%nat)
      else
      let b2 := p !!! 2%nat in
      if (b2 <? locb) || (hicb <? b2) then (RuneError, 1%nat) else
      if (sz <=? 3)%nat then
        (Z.lor (Z.lor (Z.shiftl (Z.land p0 mask3) 12)
                      (Z.shiftl (Z.land b1 maskx) 6))
               (Z.land b2 maskx), 3%nat)
      else
      let b3 := p !!! 3%nat in
      if (b3 <? locb) || (hicb <? b3) then (RuneError, 1%nat) else
      (Z.lor (Z.lor (Z.lor (Z.shiftl (Z.land p0 mask4) 18)
                           (Z.shiftl (Z.land b1 maskx) 12))
                    (Z.shiftl (Z.land b2 maskx) 6))
             (Z.land b3 maskx), 4%nat)
    end
  end.

(** ** [ValidRune] and [EncodeRune] *)

Definition ValidRune (r : Z) : bool :=
  ((0 <=? r) && (r <? surrogateMin)) || ((surrogateMax <? r) && (r <=? MaxRune)).

(** A sequence of runes that [EncodeRune] encodes as they are. *)
Abbreviation valid_runes := (Forall (fun r => ValidRune r = true)).

Definition encode3 (r : Z) : bytes :=
  [Z.lor t3 (byte (Z.shiftr r 12));
   Z.lor tx (Z.land (byte (Z.shiftr r 6)) maskx);
   Z.lor tx (Z.land (byte r) maskx)].

Definition encode4 (r : Z) : bytes :=
  [Z.lor t4 (byte (Z.shiftr r 18));
   Z.lor tx (Z.land (byte (Z.shiftr r 12)) maskx);
   Z.lor tx (Z.land (byte (Z.shiftr r 6)) maskx);
   Z.lor tx (Z.land (byte r) maskx)].

Definition EncodeRune (r : Z) : bytes :=
  if (0 <=? r) && (r <=? rune1Max) then [byte r]
  else if (0 <=? r) && (r <=? rune2Max) then
    [Z.lor t2 (byte (Z.shiftr r 6)); Z.lor tx (Z.land (byte r) maskx)]
  else if (r <? 0) || (MaxRune <? r) ||
          ((surrogateMin <=? r) && (r <=? surrogateMax)) then encode3 RuneError
  else if r <=? rune3Max then encode3 r
  else encode4 r.

(** Go's [RuneLen]: the width of the encoding, [-1] for a rune that has
    none of its own. *)
Definition RuneLen (r : Z) : Z :=
  if r <? 0 then -1
  else if r <=? rune1Max then 1
  else if r <=? rune2Max then 2
  else if (surrogateMin <=? r) && (r <=? surrogateMax) then -1
  else if r <=? rune3Max then 3
  else if r <=? MaxRune then 4
  else -1.

(** ** A string as a sequence of runes

    [chunks s] is what [for i, r := range s] yields: each rune with the
    bytes it was decoded from.  [DecodeRune] consumes at least one byte of a
    non-empty string, so [length s] steps are enough fuel. *)

Fixpoint chunks_fuel (n : nat) (s : bytes) : list (Z * bytes) :=
  match n with
  | O => []
  | S n =>
    match s with
    | [] => []
    | _ => let '(r, sz) := DecodeRune s in
           (r, take sz s) :: chunks_fuel n (drop sz s)
    end
  end.

Definition chunks (s : bytes) : list (Z * bytes) := chunks_fuel (length s) s.

Definition decode (s : bytes) : list Z := (chunks s).*1.

Definition encode (rs : list Z) : bytes := rs ≫= EncodeRune.

(** Go's [utf8.Valid]: no chunk is an invalid byte. *)
Definition valid_chunk (c : Z * bytes) : bool :=
  negb ((c.1 =? RuneError) && (length c.2 =? 1)%nat).

Definition Valid (s : bytes) : bool := forallb valid_chunk (chunks s).

(** Go's [utf8.RuneCount]. *)
Definition RuneCount (s : bytes) : nat := length (chunks s).

(** What [strings.Map] and [runes.Remove] write for a rune: itself when it
    is a Unicode scalar value, [RuneError] otherwise. *)
Definition sanitize (r : Z) : Z := if ValidRune r then r else RuneError.

(** ** The accept ranges and the cases of [DecodeRune] *)

Definition accept_lo (p0 : Z) : Z :=
  if p0 =? 0xE0 then 0xA0 else if p0 =? 0xF0 then 0x90 else 0x80.

Definition accept_hi (p0 : Z) : Z :=
  if p0 =? 0xED then 0x9F else if p0 =? 0xF4 then 0x8F else 0xBF.

Definition outside (lo hi b : Z) : bool := (b <? lo) || (hi <? b).

(** [decode_case p r n]: decoding [p] yields rune [r] of width [n], with the
    rune as arithmetic on the bytes it is read from. *)
Inductive decode_case : bytes -> Z -> nat -> Prop :=
| dc_empty : decode_case [] RuneError 0
| dc_ascii p0 k : 0 <= p0 < 0x80 -> decode_case (p0 :: k) p0 1
| dc_two p0 b1 k :
    0xC2 <= p0 < 0xE0 -> 0x80 <= b1 <= 0xBF ->
    decode_case (p0 :: b1 :: k) (p0 mod 32 * 64 + b1 mod 64) 2
| dc_three p0 b1 b2 k :
    0xE0 <= p0 < 0xF0 -> accept_lo p0 <= b1 <= accept_hi p0 ->
    0x80 <= b2 <= 0xBF ->
    decode_case (p0 :: b1 :: b2 :: k)
                (p0 mod 16 * 4096 + b1 mod 64 * 64 + b2 mod 64) 3
| dc_four p0 b1 b2 b3 k :
    0xF0 <= p0 <= 0xF4 -> accept_lo p0 <= b1 <= accept_hi p0 ->
    0x80 <= b2 <= 0xBF -> 0x80 <= b3 <= 0xBF ->
    decode_case (p0 :: b1 :: b2 :: b3 :: k)
                (p0 mod 8 * 262144 + b1 mod 64 * 4096 + b2 mod 64 * 64
                 + b3 mod 64) 4
| dc_invalid p0 k : decode_case (p0 :: k) RuneError 1.

(** An invalid byte as [DecodeRune] reports it. *)
Definition is_invalid_byte (r : Z) (n : nat) : Prop :=
  r = RuneError /\ n = 1%nat.

(** A byte, or a rune, below [RuneSelf]; a continuation byte. *)
Definition is_ascii (b : Z) : Prop := 0 <= b < 0x80.

#[export] Instance is_ascii_dec b : Decision (is_ascii b).
Proof. unfold is_ascii. apply _. Defined.

Definition is_cont (b : Z) : Prop := 0x80 <= b <= 0xBF.

(** ** Tactics of this file *)

Ltac unfold_consts :=
  unfold RuneError, RuneSelf, MaxRune, surrogateMin, surrogateMax, t2, t3, t4,
    tx, maskx, mask2, mask3, mask4, rune1Max, rune2Max, rune3Max, locb, hicb,
    byte in *.

Ltac dc_outside :=
  repeat match goal with
  | |- context [outside ?lo ?hi ?b] =>
      let H := fresh in destruct (outside lo hi b) eqn:H;
      [cbn [orb fst snd]; try by constructor
      | apply (proj1 (Bool.orb_false_iff _ _)) in H; destruct H]
  end.

(** ** The table [first] by ranges *)

Lemma first_AS p0 : 0 <= p0 < 0x80 -> first p0 = firstAS.
Proof. intros. unfold first. split_zbool; done. Qed.

Lemma first_XX p0 :
  p0 < 0 \/ 0x80 <= p0 < 0xC2 \/ 0xF4 < p0 -> first p0 = firstXX.
Proof. intros. unfold first. split_zbool; done. Qed.

Lemma first_2 p0 : 0xC2 <= p0 < 0xE0 -> first p0 = firstSeq 2 0x80 0xBF.
Proof. intros. unfold first, locb, hicb. split_zbool; done. Qed.

Lemma first_3 p0 :
  0xE0 <= p0 < 0xF0 -> first p0 = firstSeq 3 (accept_lo p0) (accept_hi p0).
Proof.
  intros. unfold first, accept_lo, accept_hi, locb, hicb. split_zbool; done.
Qed.

Lemma first_4 p0 :
  0xF0 <= p0 <= 0xF4 -> first p0 = firstSeq 4 (accept_lo p0) (accept_hi p0).
Proof.
  intros. unfold first, accept_lo, accept_hi, locb, hicb. split_zbool; done.
Qed.

Lemma outside_false lo hi b : outside lo hi b = false <-> lo <= b <= hi.
Proof. unfold outside. lia. Qed.

(** ** [DecodeRune] by the class of the first byte *)

Lemma DecodeRune_1 p0 k : 0 <= p0 < 0x80 -> DecodeRune (p0 :: k) = (p0, 1%nat).
Proof. intros. unfold DecodeRune. by rewrite first_AS. Qed.

Lemma DecodeRune_XX p0 k :
  p0 < 0 \/ 0x80 <= p0 < 0xC2 \/ 0xF4 < p0 ->
  DecodeRune (p0 :: k) = (RuneError, 1%nat).
Proof. intros. unfold DecodeRune. by rewrite first_XX. Qed.

Lemma DecodeRune_seq2 p0 k :
  0xC2 <= p0 < 0xE0 ->
  DecodeRune (p0 :: k) =
    match k with
    | b1 :: _ => if outside 0x80 0xBF b1 then (RuneError, 1%nat)
                 else (p0 mod 32 * 64 + b1 mod 64, 2%nat)
    | [] => (RuneError, 1%nat)
    end.
Proof.
  intros. unfold DecodeRune. rewrite first_2 by done.
  destruct k as [|b1 k]; [done|].
  cbn [length Nat.ltb Nat.leb lookup_total list_lookup_total].
  fold (outside 0x80 0xBF b1). destruct (outside _ _ b1) eqn:Hb1; [done|].
  apply outside_false in Hb1. unfold_consts. f_equal. bits_lia.
Qed.

Lemma DecodeRune_seq3 p0 k :
  0xE0 <= p0 < 0xF0 ->
  DecodeRune (p0 :: k) =
    match k with
    | b1 :: b2 :: _ =>
        if outside (accept_lo p0) (accept_hi p0) b1 || outside 0x80 0xBF b2
        then (RuneError, 1%nat)
        else (p0 mod 16 * 4096 + b1 mod 64 * 64 + b2 mod 64, 3%nat)
    | _ => (RuneError, 1%nat)
    end.
Proof.
  intros. unfold DecodeRune. rewrite first_3 by done.
  destruct k as [|b1 [|b2 k]]; [done..|].
  cbn [length Nat.ltb Nat.leb lookup_total list_lookup_total].
  fold (outside (accept_lo p0) (accept_hi p0) b1). fold (outside locb hicb b2).
  destruct (outside _ _ b1) eqn:Hb1; [done|].
  destruct (outside _ _ b2) eqn:Hb2; [done|]. cbn [orb].
  apply outside_false in Hb2. unfold_consts. f_equal. bits_lia.
Qed.

Lemma DecodeRune_seq4 p0 k :
  0xF0 <= p0 <= 0xF4 ->
  DecodeRune (p0 :: k) =
    match k with
    | b1 :: b2 :: b3 :: _ =>
        if outside (accept_lo p0) (accept_hi p0) b1 || outside 0x80 0xBF b2
           || outside 0x80 0xBF b3
        then (RuneError, 1%nat)
        else (p0 mod 8 * 262144 + b1 mod 64 * 4096 + b2 mod 64 * 64
              + b3 mod 64, 4%nat)
    | _ => (RuneError, 1%nat)
    end.
Proof.
  intros. unfold DecodeRune. rewrite first_4 by done.
  destruct k as [|b1 [|b2 [|b3 k]]]; [done..|].
  cbn [length Nat.ltb Nat.leb lookup_total list_lookup_total].
  fold (outside (accept_lo p0) (accept_hi p0) b1).
  fold (outside locb hicb b2). fold (outside locb hicb b3).
  destruct (outside _ _ b1) eqn:Hb1; [done|].
  destruct (outside _ _ b2) eqn:Hb2; [done|].
  destruct (outside _ _ b3) eqn:Hb3; [done|]. cbn [orb].
  apply outside_false in Hb2, Hb3. unfold_consts. f_equal. bits_lia.
Qed.

(** Every result of [DecodeRune] is one of the six cases. *)
Lemma DecodeRune_cases p : decode_case p (DecodeRune p).1 (DecodeRune p).2.
Proof.
  destruct p as [|p0 k]; [constructor|].
  destruct (decide (0 <= p0 < 0x80));
    [rewrite DecodeRune_1 by done; by constructor|].
  destruct (decide (0xC2 <= p0 < 0xE0)).
  { rewrite DecodeRune_seq2 by done.
    destruct k as [|b1 k]; [constructor|]. dc_outside. constructor; lia. }
  destruct (decide (0xE0 <= p0 < 0xF0)).
  { rewrite DecodeRune_seq3 by done.
    destruct k as [|b1 [|b2 k]]; [constructor..|]. dc_outside.
    constructor; lia. }
  destruct (decide (0xF0 <= p0 <= 0xF4)).
  { rewrite DecodeRune_seq4 by done.
    destruct k as [|b1 [|b2 [|b3 k]]]; [constructor..|]. dc_outside.
    constructor; lia. }
  rewrite DecodeRune_XX by lia. constructor.
Qed.

Lemma ValidRune_spec r :
  ValidRune r = true <-> 0 <= r < 0xD800 \/ 0xDFFF < r <= 0x10FFFF.
Proof. unfold ValidRune. unfold_consts. lia. Qed.

Lemma decode_case_valid p r n : decode_case p r n -> ValidRune r = true.
Proof.
  intros H. apply ValidRune_spec.
  destruct H; unfold accept_lo, accept_hi, RuneError in *; split_zbool; zlia.
Qed.

Lemma decode_case_size p r n :
  decode_case p r n -> p <> [] -> (1 <= n <= 4 /\ n <= length p)%nat.
Proof. destruct 1; intros; simpl; try done; lia. Qed.

(** ** [EncodeRune] as arithmetic *)

Lemma EncodeRune_1 r : 0 <= r <= 0x7F -> EncodeRune r = [r].
Proof. intros. unfold EncodeRune. unfold_consts. case_if_lia. cons_zlia. Qed.

Lemma EncodeRune_2 r :
  0x80 <= r <= 0x7FF -> EncodeRune r = [192 + r / 64; 128 + r mod 64].
Proof.
  intros. unfold EncodeRune. unfold_consts. case_if_lia.
  autorewrite with bits. cons_zlia.
Qed.

Lemma encode3_arith r :
  0 <= r <= 0xFFFF ->
  encode3 r = [224 + r / 4096; 128 + (r / 64) mod 64; 128 + r mod 64].
Proof.
  intros. unfold encode3. unfold_consts. autorewrite with bits. cons_zlia.
Qed.

Lemma encode4_arith r :
  0x10000 <= r <= 0x10FFFF ->
  encode4 r = [240 + r / 262144; 128 + (r / 4096) mod 64;
               128 + (r / 64) mod 64; 128 + r mod 64].
Proof.
  intros. unfold encode4. unfold_consts. autorewrite with bits. cons_zlia.
Qed.

Lemma EncodeRune_3 r :
  0x800 <= r <= 0xFFFF -> ~ (0xD800 <= r <= 0xDFFF) ->
  EncodeRune r = [224 + r / 4096; 128 + (r / 64) mod 64; 128 + r mod 64].
Proof.
  intros. rewrite <- encode3_arith by lia. unfold EncodeRune. unfold_consts.
  case_if_lia. done.
Qed.

Lemma EncodeRune_4 r :
  0x10000 <= r <= 0x10FFFF ->
  EncodeRune r = [240 + r / 262144; 128 + (r / 4096) mod 64;
                  128 + (r / 64) mod 64; 128 + r mod 64].
Proof.
  intros. rewrite <- encode4_arith by lia. unfold EncodeRune. unfold_consts.
  case_if_lia. done.
Qed.

Lemma EncodeRune_invalid r :
  ValidRune r = false -> EncodeRune r = EncodeRune RuneError.
Proof.
  unfold ValidRune, EncodeRune. unfold_consts. intros. case_if_lia; done.
Qed.

Lemma EncodeRune_sanitize r : EncodeRune (sanitize r) = EncodeRune r.
Proof.
  unfold sanitize. destruct (ValidRune r) eqn:E; [done|].
  by rewrite (EncodeRune_invalid r).
Qed.

Lemma ValidRune_sanitize r : ValidRune (sanitize r) = true.
Proof. unfold sanitize. by destruct (ValidRune r) eqn:E. Qed.

Lemma sanitize_valid r : ValidRune r = true -> sanitize r = r.
Proof. unfold sanitize. by intros ->. Qed.

(** The four shapes of an encoding, by the range of the rune. *)
Lemma EncodeRune_shape r :
  ValidRune r = true ->
  (0 <= r < 0x80 /\ EncodeRune r = [r]) \/
  (0x80 <= r < 0x800 /\ EncodeRune r = [192 + r / 64; 128 + r mod 64]) \/
  (0x800 <= r < 0x10000 /\
     EncodeRune r = [224 + r / 4096; 128 + (r / 64) mod 64; 128 + r mod 64]) \/
  (0x10000 <= r <= 0x10FFFF /\
     EncodeRune r = [240 + r / 262144; 128 + (r / 4096) mod 64;
                     128 + (r / 64) mod 64; 128 + r mod 64]).
Proof.
  rewrite ValidRune_spec. intros Hr.
  destruct (Z_lt_le_dec r 0x80);
    [|destruct (Z_lt_le_dec r 0x800); [|destruct (Z_lt_le_dec r 0x10000)]].
  - left. split; [lia|]. apply EncodeRune_1. lia.
  - right; left. split; [lia|]. apply EncodeRune_2. lia.
  - right; right; left. split; [lia|]. apply EncodeRune_3; lia.
  - right; right; right. split; [lia|]. apply EncodeRune_4. lia.
Qed.

Lemma EncodeRune_length r : (1 <= length (EncodeRune r) <= 4)%nat.
Proof.
  rewrite <- EncodeRune_sanitize.
  destruct (EncodeRune_shape _ (ValidRune_sanitize r))
    as [[_ ->]|[[_ ->]|[[_ ->]|[_ ->]]]]; simpl; lia.
Qed.

Lemma wf_bytes_EncodeRune r : wf_bytes (EncodeRune r).
Proof.
  rewrite <- EncodeRune_sanitize.
  destruct (EncodeRune_shape _ (ValidRune_sanitize r))
    as [[? ->]|[[? ->]|[[? ->]|[? ->]]]];
    repeat (apply wf_bytes_cons; [unfold is_byte; zlia|]); constructor.
Qed.

(** ** Round trip on one rune *)

Ltac accept_lia := cbv beta delta [accept_lo accept_hi]; split_zbool; zlia.

Lemma DecodeRune_EncodeRune r k :
  ValidRune r = true ->
  DecodeRune (EncodeRune r ++ k) = (r, length (EncodeRune r)).
Proof.
  intros Hr.
  destruct (EncodeRune_shape r Hr) as [[? ->]|[[? ->]|[[? ->]|[? ->]]]];
    apply ValidRune_spec in Hr; cbn [app length].
  - by apply DecodeRune_1.
  - rewrite DecodeRune_seq2 by zlia.
    rewrite (proj2 (outside_false _ _ _)) by zlia. f_equal. zlia.
  - rewrite DecodeRune_seq3 by zlia.
    rewrite !(proj2 (outside_false _ _ _)) by accept_lia. f_equal. zlia.
  - rewrite DecodeRune_seq4 by zlia.
    rewrite !(proj2 (outside_false _ _ _)) by accept_lia. f_equal. zlia.
Qed.

Lemma DecodeRune_EncodeRune_sanitize r k :
  DecodeRune (EncodeRune r ++ k) = (sanitize r, length (EncodeRune r)).
Proof.
  rewrite <- (EncodeRune_sanitize r).
  apply DecodeRune_EncodeRune, ValidRune_sanitize.
Qed.

Lemma decode_case_encode p r n :
  decode_case p r n -> p <> [] -> ~ is_invalid_byte r n ->
  EncodeRune r = take n p.
Proof.
  unfold is_invalid_byte.
  destruct 1; intros Hp Hv; cbn [take]; try done;
    unfold accept_lo, accept_hi in *; split_zbool.
  all: first [rewrite EncodeRune_1 by zlia | rewrite EncodeRune_2 by zlia
             | rewrite EncodeRune_3 by zlia | rewrite EncodeRune_4 by zlia].
  all: cons_zlia.
Qed.

(** ** Chunks: fuel, unfolding and induction *)

Lemma DecodeRune_size p :
  p <> [] ->
  (1 <= (DecodeRune p).2 <= 4 /\ (DecodeRune p).2 <= length p)%nat.
Proof. intros. eapply decode_case_size; [apply DecodeRune_cases|done]. Qed.

Lemma chunks_fuel_cons n p :
  p <> [] ->
  chunks_fuel (S n) p =
    ((DecodeRune p).1, take (DecodeRune p).2 p)
      :: chunks_fuel n (drop (DecodeRune p).2 p).
Proof.
  destruct p as [|b p]; [done|]. intros _. cbn [chunks_fuel].
  by destruct (DecodeRune (b :: p)).
Qed.

Lemma chunks_fuel_irrel n m s :
  (length s <= n)%nat -> (length s <= m)%nat ->
  chunks_fuel n s = chunks_fuel m s.
Proof.
  revert m s. induction n as [|n IH]; intros m s Hn Hm.
  - destruct s; [by destruct m|simpl in *; lia].
  - destruct s as [|b s]; [by destruct m|].
    destruct m; [simpl in *; lia|].
    rewrite !chunks_fuel_cons by done. f_equal.
    pose proof (DecodeRune_size (b :: s) ltac:(done)).
    apply IH; rewrite length_drop; cbn [length] in *; lia.
Qed.

Lemma chunks_nil : chunks [] = [].
Proof. done. Qed.

Lemma chunks_cons p :
  p <> [] ->
  chunks p =
    ((DecodeRune p).1, take (DecodeRune p).2 p)
      :: chunks (drop (DecodeRune p).2 p).
Proof.
  intros Hp. unfold chunks at 1. destruct p as [|b s]; [done|].
  cbn [length]. rewrite chunks_fuel_cons by done. f_equal.
  pose proof (DecodeRune_size (b :: s) ltac:(done)).
  apply chunks_fuel_irrel; rewrite ?length_drop; cbn [length] in *; lia.
Qed.

(** Induction along the runes of a string. *)
Lemma chunks_ind (P : bytes -> Prop) :
  P [] ->
  (forall p, p <> [] -> P (drop (DecodeRune p).2 p) -> P p) ->
  forall p, P p.
Proof.
  intros Hnil Hcons p.
  remember (length p) as n eqn:Hn. revert p Hn.
  induction n as [n IH] using lt_wf_ind. intros p ->.
  destruct p as [|b s]; [done|]. apply Hcons; [done|].
  pose proof (DecodeRune_size (b :: s) ltac:(done)).
  eapply IH; [|done]. rewrite length_drop. cbn [length] in *. lia.
Qed.

Lemma concat_chunks s : concat (chunks s).*2 = s.
Proof.
  induction s as [|p Hp IH] using chunks_ind; [done|].
  rewrite chunks_cons by done. cbn [fmap list_fmap concat snd].
  by rewrite IH, take_drop.
Qed.

Lemma decode_nil : decode [] = [].
Proof. done. Qed.

Lemma decode_cons p :
  p <> [] -> decode p = (DecodeRune p).1 :: decode (drop (DecodeRune p).2 p).
Proof. intros. unfold decode. by rewrite chunks_cons. Qed.

Lemma Valid_cons p :
  p <> [] ->
  Valid p = valid_chunk ((DecodeRune p).1, take (DecodeRune p).2 p)
            && Valid (drop (DecodeRune p).2 p).
Proof. intros. unfold Valid. by rewrite chunks_cons. Qed.

Lemma encode_nil : encode [] = [].
Proof. done. Qed.

Lemma encode_cons r rs : encode (r :: rs) = EncodeRune r ++ encode rs.
Proof. done. Qed.

Lemma encode_app rs1 rs2 : encode (rs1 ++ rs2) = encode rs1 ++ encode rs2.
Proof. unfold encode. apply bind_app. Qed.

(** Leaving runes out does not make the encoding longer. *)
Lemma length_encode_sublist rs1 rs2 :
  rs1 `sublist_of` rs2 -> (length (encode rs1) <= length (encode rs2))%nat.
Proof.
  induction 1; rewrite ?encode_cons, ?length_app; [done|lia..].
Qed.

Lemma wf_bytes_encode rs : wf_bytes (encode rs).
Proof.
  induction rs; [constructor|]. rewrite encode_cons.
  auto using wf_bytes_app, wf_bytes_EncodeRune.
Qed.

#[export] Hint Resolve wf_bytes_EncodeRune wf_bytes_encode : gostr.

(** ** Round trips on strings *)

Lemma chunks_encode_app rs s :
  chunks (encode rs ++ s) =
    ((fun r => (sanitize r, EncodeRune r)) <$> rs) ++ chunks s.
Proof.
  induction rs as [|r rs IH]; [done|].
  rewrite encode_cons, <- app_assoc.
  pose proof (EncodeRune_length r).
  rewrite chunks_cons by (destruct (EncodeRune r); simpl in *; [lia|done]).
  rewrite DecodeRune_EncodeRune_sanitize. cbn [fst snd].
  by rewrite take_app_length, drop_app_length, IH.
Qed.

Lemma chunks_encode rs :
  chunks (encode rs) = (fun r => (sanitize r, EncodeRune r)) <$> rs.
Proof.
  rewrite <- (app_nil_r (encode rs)), chunks_encode_app, chunks_nil.
  apply app_nil_r.
Qed.

Lemma decode_encode_app rs s :
  decode (encode rs ++ s) = (sanitize <$> rs) ++ decode s.
Proof.
  unfold decode. rewrite chunks_encode_app, fmap_app. f_equal.
  by rewrite <- list_fmap_compose.
Qed.

Lemma decode_encode_sanitize rs : decode (encode rs) = sanitize <$> rs.
Proof.
  unfold decode. rewrite chunks_encode. by rewrite <- list_fmap_compose.
Qed.

Lemma Forall_ValidRune_sanitize rs :
  Forall (fun r => ValidRune r = true) rs -> sanitize <$> rs = rs.
Proof.
  induction 1 as [|r rs Hr _ IH]; [done|].
  cbn [fmap list_fmap]. by rewrite sanitize_valid, IH.
Qed.

Lemma decode_valid s : Forall (fun r => ValidRune r = true) (decode s).
Proof.
  induction s as [|p Hp IH] using chunks_ind; [constructor|].
  rewrite decode_cons by done. constructor; [|done].
  eapply decode_case_valid, DecodeRune_cases.
Qed.

Lemma valid_chunk_spec r sz bs :
  length bs = sz -> valid_chunk (r, bs) = true <-> ~ is_invalid_byte r sz.
Proof.
  intros <-. unfold valid_chunk, is_invalid_byte. cbn [fst snd].
  rewrite Bool.negb_true_iff, Bool.andb_false_iff, Z.eqb_neq, Nat.eqb_neq.
  destruct (decide (r = RuneError)), (decide (length bs = 1%nat)); tauto.
Qed.

Lemma length_take_DecodeRune p :
  p <> [] -> length (take (DecodeRune p).2 p) = (DecodeRune p).2.
Proof.
  intros Hp. pose proof (DecodeRune_size p Hp). rewrite length_take. lia.
Qed.

(** Encoding the runes of a string gives the string back exactly when the
    string is valid UTF-8. *)
Theorem encode_decode_Valid s : Valid s = true -> encode (decode s) = s.
Proof.
  induction s as [|p Hp IH] using chunks_ind; [done|].
  rewrite Valid_cons, decode_cons, encode_cons by done.
  intros [Hc Hv]%andb_prop.
  apply (proj1 (valid_chunk_spec _ _ _ (length_take_DecodeRune p Hp))) in Hc.
  rewrite (decode_case_encode p _ _ (DecodeRune_cases p) Hp Hc), IH by done.
  apply take_drop.
Qed.

(** Decoding an encoding gives the runes back, invalid ones replaced by
    [RuneError]. *)
Theorem decode_encode rs :
  Forall (fun r => ValidRune r = true) rs -> decode (encode rs) = rs.
Proof.
  intros. rewrite decode_encode_sanitize. by apply Forall_ValidRune_sanitize.
Qed.

Theorem Valid_encode rs : Valid (encode rs) = true.
Proof.
  unfold Valid. rewrite chunks_encode, forallb_forall.
  intros c [r [<- _]]%in_map_iff.
  apply (valid_chunk_spec _ _ _ eq_refl). intros [Hr Hl].
  pose proof (EncodeRune_shape _ (ValidRune_sanitize r)) as H.
  rewrite EncodeRune_sanitize, Hr in H.
  destruct H as [[? E]|[[? E]|[[? E]|[? E]]]]; rewrite E in Hl;
    unfold RuneError in *; cbn [length] in Hl; lia.
Qed.

Lemma Valid_encode_decode s : Valid s = true <-> encode (decode s) = s.
Proof.
  split; [apply encode_decode_Valid|]. intros <-. apply Valid_encode.
Qed.

(** Re-encoding is idempotent: it is the sanitiser of [strings.Map]. *)
Lemma encode_decode_idemp s :
  encode (decode (encode (decode s))) = encode (decode s).
Proof. apply encode_decode_Valid, Valid_encode. Qed.

Lemma Valid_app s t : Valid s = true -> Valid t = true -> Valid (s ++ t) = true.
Proof.
  intros Hs Ht. apply Valid_encode_decode in Hs, Ht.
  rewrite <- Hs, <- Ht, <- encode_app. apply Valid_encode.
Qed.

Lemma decode_app_Valid s t :
  Valid s = true -> decode (s ++ t) = decode s ++ decode t.
Proof.
  intros Hs. rewrite <- (encode_decode_Valid s Hs) at 1.
  rewrite decode_encode_app. f_equal.
  apply Forall_ValidRune_sanitize, decode_valid.
Qed.

(** ** Widths *)

Lemma length_encode_le rs : (length (encode rs) <= 4 * length rs)%nat.
Proof.
  induction rs as [|r rs IH]; [done|].
  rewrite encode_cons, length_app. pose proof (EncodeRune_length r).
  cbn [length]. lia.
Qed.

Lemma length_encode_ge rs : (length rs <= length (encode rs))%nat.
Proof.
  induction rs as [|r rs IH]; [done|].
  rewrite encode_cons, length_app. pose proof (EncodeRune_length r).
  cbn [length]. lia.
Qed.

Lemma length_decode_le s : (length (decode s) <= length s)%nat.
Proof.
  induction s as [|p Hp IH] using chunks_ind; [done|].
  rewrite decode_cons by done. cbn [length]. rewrite length_drop in IH.
  pose proof (DecodeRune_size p Hp). lia.
Qed.

(** ** ASCII strings *)

Lemma chunks_ascii s :
  Forall is_ascii s -> chunks s = (fun b => (b, [b])) <$> s.
Proof.
  induction 1 as [|b s Hb _ IH]; [done|].
  rewrite chunks_cons, DecodeRune_1 by done. cbn [fst snd take drop].
  by rewrite take_0, drop_0, IH.
Qed.

Lemma decode_ascii s : Forall is_ascii s -> decode s = s.
Proof.
  intros. unfold decode. rewrite chunks_ascii by done.
  rewrite <- list_fmap_compose. apply list_fmap_id.
Qed.

Lemma encode_ascii rs : Forall is_ascii rs -> encode rs = rs.
Proof.
  induction 1 as [|r rs Hr _ IH]; [done|].
  rewrite encode_cons, IH, EncodeRune_1 by (unfold is_ascii in Hr; lia). done.
Qed.

Lemma Valid_ascii s : Forall is_ascii s -> Valid s = true.
Proof.
  intros. apply Valid_encode_decode. by rewrite decode_ascii, encode_ascii.
Qed.

Lemma is_ascii_byte b : is_ascii b -> is_byte b.
Proof. unfold is_ascii, is_byte. lia. Qed.

Lemma Forall_ascii_wf s : Forall is_ascii s -> wf_bytes s.
Proof. intros H. eapply Forall_impl; [done|apply is_ascii_byte]. Qed.

(** ** Self-synchronisation

    A continuation byte never starts an encoding, and every byte of an
    encoding after the first is a continuation byte: an encoded rune occurs
    in a valid string at rune boundaries only. *)

Lemma EncodeRune_head_tail r :
  exists b t, EncodeRune r = b :: t /\ ~ is_cont b /\ Forall is_cont t.
Proof.
  rewrite <- EncodeRune_sanitize. unfold is_cont.
  destruct (EncodeRune_shape _ (ValidRune_sanitize r))
    as [[? ->]|[[? ->]|[[? ->]|[? ->]]]];
    eexists _, _; (split; [done|]); (split; [zlia|]);
    repeat (constructor; [zlia|]); constructor.
Qed.

Lemma EncodeRune_nonempty r : EncodeRune r <> [].
Proof. by destruct (EncodeRune_head_tail r) as (b & t & -> & _). Qed.

Lemma EncodeRune_inj r z :
  ValidRune r = true -> ValidRune z = true ->
  EncodeRune r = EncodeRune z -> r = z.
Proof.
  intros Hr Hz E.
  pose proof (DecodeRune_EncodeRune r [] Hr) as H1.
  pose proof (DecodeRune_EncodeRune z [] Hz) as H2.
  rewrite E in H1. congruence.
Qed.

Lemma EncodeRune_prefix_inj r z k k' :
  ValidRune r = true -> ValidRune z = true ->
  EncodeRune r ++ k = EncodeRune z ++ k' -> r = z.
Proof.
  intros Hr Hz E.
  pose proof (DecodeRune_EncodeRune r k Hr) as H1.
  pose proof (DecodeRune_EncodeRune z k' Hz) as H2.
  rewrite E in H1. congruence.
Qed.
