(* ===== verification/GoStrings.v ===== *)
(** * GoStrings: the functions of Go's [strings] package that [Check] calls

    [strings.Index] (lines 151 and 163 of [src/swearfilter.go]) and
    [strings.Replace] (lines 125, 130 and 161), on strings as byte lists.
    [Index] is specified by its result, the first offset at which the
    substring occurs; [Replace] is the loop of the Go implementation, which
    counts the non-overlapping occurrences first and then copies the pieces
    between them.  The theorems characterise [Index] completely, give the
    unfolding equation of [Replace] and its three instances in [Check]: a
    byte for a byte, a byte for nothing and an encoded rune for nothing;
    and an ASCII string occurs among the bytes of a valid text exactly
    when it occurs among its runes ([substring_of_decode],
    [substring_of_runes]); a string occurs in a text around a character
    it does not hold, with none of its characters next to that one,
    exactly when it occurs before or after it ([substring_of_barrier]). *)

From S2P Require Import Prelude Utf8.

(** ** Definitions *)

(** [strings.HasPrefix]: [len(s) >= len(prefix) && s[:len(prefix)] == prefix]. *)
Definition HasPrefix (s prefix : bytes) : bool :=
  (length prefix <=? length s)%nat && bool_decide (take (length prefix) s = prefix).

(** The first offset at which [substr] occurs in [s]. *)
Fixpoint index_nat (s substr : bytes) : option nat :=
  if HasPrefix s substr then Some 0%nat
  else match s with
       | [] => None
       | _ :: s' => S <$> index_nat s' substr
       end.

(** [strings.Index]: that offset, or [-1]. *)
Definition Index (s substr : bytes) : Z :=
  match index_nat s substr with
  | Some i => Z.of_nat i
  | None => -1
  end.

(** [strings.Count]: the number of non-overlapping occurrences; one more
    than the number of runes for the empty substring.  Every occurrence of a
    non-empty substring consumes a byte, so [length s] steps are enough. *)
Fixpoint count_fuel (fuel : nat) (s substr : bytes) : nat :=
  match fuel with
  | O => 0
  | S fuel =>
    match index_nat s substr with
    | None => 0
    | Some i => S (count_fuel fuel (drop (i + length substr) s) substr)
    end
  end.

Definition Count (s substr : bytes) : nat :=
  match substr with
  | [] => S (RuneCount s)
  | _ => count_fuel (length s) s substr
  end.

(** The copying loop of [strings.Replace]: [n] replacements in [rest], the
    part of the string not yet copied.  [i0] says whether this is the first
    iteration, which matters for the empty [old] only.  The loop runs at
    most [Count] times, so [index_nat] finds an occurrence each time. *)
Fixpoint replace_loop (old new : bytes) (n : nat) (i0 : bool) (rest : bytes)
  : bytes :=
  match n with
  | O => rest
  | S n =>
    let j :=
      match old with
      | [] => Some (if i0 then 0%nat else (DecodeRune rest).2)
      | _ => index_nat rest old
      end in
    match j with
    | None => rest
    | Some j =>
      take j rest ++ new
        ++ replace_loop old new n false (drop (j + length old) rest)
    end
  end.

(** [strings.Replace(s, old, new, n)]; [n < 0] lifts the limit. *)
Definition Replace (s old new : bytes) (n : Z) : bytes :=
  if bool_decide (old = new) || (n =? 0) then s
  else
    let m := Count s old in
    if (m =? 0)%nat then s
    else
      let n := if (n <? 0) || (Z.of_nat m <? n) then m else Z.to_nat n in
      replace_loop old new n true s.

(** [sub] occurs in [s] at offset [i]. *)
Definition occurs_at (sub s : bytes) (i : nat) : Prop :=
  exists pre post, s = pre ++ sub ++ post /\ length pre = i.

(** [strings.Contains] as a proposition. *)
Definition substring_of (sub s : bytes) : Prop := exists i, occurs_at sub s i.

(** ** [HasPrefix] *)

Lemma HasPrefix_spec s p : HasPrefix s p = true <-> exists k, s = p ++ k.
Proof.
  unfold HasPrefix. rewrite andb_true_iff, Nat.leb_le, bool_decide_eq_true.
  split.
  - intros [_ <-]. exists (drop (length p) s). by rewrite take_drop.
  - intros [k ->]. rewrite length_app, take_app_length. split; [lia|done].
Qed.

Lemma HasPrefix_occurs s p : HasPrefix s p = true <-> occurs_at p s 0.
Proof.
  rewrite HasPrefix_spec. unfold occurs_at. split.
  - intros [k ->]. by exists [], k.
  - intros (pre & post & -> & Hpre). destruct pre; [|done]. by exists post.
Qed.

Lemma HasPrefix_nil s : HasPrefix s [] = true.
Proof. apply HasPrefix_spec. by exists s. Qed.

Lemma HasPrefix_app p k : HasPrefix (p ++ k) p = true.
Proof. apply HasPrefix_spec. by exists k. Qed.

Lemma HasPrefix_cons b c s p :
  HasPrefix (b :: s) (c :: p) = bool_decide (b = c) && HasPrefix s p.
Proof.
  apply eq_true_iff_eq.
  rewrite andb_true_iff, bool_decide_eq_true, !HasPrefix_spec. split.
  - intros [k [= -> ->]]. eauto.
  - intros [-> [k ->]]. by exists k.
Qed.

(** ** Occurrences *)

Lemma occurs_at_cons sub b s i :
  occurs_at sub (b :: s) (S i) <-> occurs_at sub s i.
Proof.
  unfold occurs_at. split.
  - intros (pre & post & E & Hl). destruct pre as [|b' pre]; [done|].
    injection E as -> ->. exists pre, post. split; [done|]. simpl in Hl. lia.
  - intros (pre & post & -> & <-). by exists (b :: pre), post.
Qed.

Lemma occurs_at_length sub s i :
  occurs_at sub s i -> (i + length sub <= length s)%nat.
Proof. intros (pre & post & -> & <-). rewrite !length_app. lia. Qed.

Lemma occurs_at_take_drop sub s i :
  occurs_at sub s i <->
  (i + length sub <= length s)%nat /\ take (length sub) (drop i s) = sub.
Proof.
  split.
  - intros H. split; [by apply occurs_at_length|].
    destruct H as (pre & post & -> & <-). apply take_drop_middle_app.
  - intros [Hl E]. exists (take i s), (drop (length sub) (drop i s)).
    rewrite <- E at 1. rewrite !take_drop. split; [done|].
    rewrite length_take. lia.
Qed.

#[export] Instance occurs_at_dec sub s i : Decision (occurs_at sub s i).
Proof.
  refine (cast_if (decide ((i + length sub <= length s)%nat /\
                           take (length sub) (drop i s) = sub)));
    by rewrite occurs_at_take_drop.
Defined.

Lemma occurs_at_app_l sub s t i : occurs_at sub s i -> occurs_at sub (s ++ t) i.
Proof.
  intros (pre & post & -> & <-). exists pre, (post ++ t).
  by rewrite <- !app_assoc.
Qed.

Lemma occurs_at_app_r sub s t i :
  occurs_at sub t i -> occurs_at sub (s ++ t) (length s + i).
Proof.
  intros (pre & post & -> & <-). exists (s ++ pre), post.
  by rewrite <- !app_assoc, length_app.
Qed.

(** ** Substrings *)

Lemma substring_of_app sub pre post : substring_of sub (pre ++ sub ++ post).
Proof. by exists (length pre), pre, post. Qed.

Lemma substring_of_inv sub s :
  substring_of sub s -> exists pre post, s = pre ++ sub ++ post.
Proof. intros (i & pre & post & -> & _). eauto. Qed.

Lemma substring_of_app_l sub s t :
  substring_of sub s -> substring_of sub (s ++ t).
Proof. intros [i Hi]. exists i. by apply occurs_at_app_l. Qed.

Lemma substring_of_trans a b c :
  substring_of a b -> substring_of b c -> substring_of a c.
Proof.
  intros (p1 & q1 & ->)%substring_of_inv (p2 & q2 & ->)%substring_of_inv.
  replace (p2 ++ (p1 ++ a ++ q1) ++ q2) with ((p2 ++ p1) ++ a ++ (q1 ++ q2))
    by by rewrite <- !(assoc_L (++)).
  apply substring_of_app.
Qed.

(** A function that leaves the characters of [sub] as they are, applied to
    every character of the string. *)
Lemma substring_of_fmap (f : Z -> Z) sub s :
  Forall (fun c => f c = c) sub ->
  substring_of sub s -> substring_of sub (f <$> s).
Proof.
  intros Hsub (pre & post & ->)%substring_of_inv. rewrite !fmap_app.
  assert (f <$> sub = sub) as ->; [|apply substring_of_app].
  rewrite <- (list_fmap_id sub) at 2. by apply Forall_fmap_ext.
Qed.

(** A filter that keeps the characters of [sub]. *)
Lemma substring_of_filter (P : Z -> Prop) `{forall c, Decision (P c)} sub s :
  Forall P sub -> substring_of sub s -> substring_of sub (filter P s).
Proof.
  intros Hsub (pre & post & ->)%substring_of_inv.
  rewrite !filter_app, (filter_Forall_id P sub) by done.
  apply substring_of_app.
Qed.

Lemma occurs_at_app_inv_r sub s t i :
  (length s <= i)%nat -> occurs_at sub (s ++ t) i ->
  occurs_at sub t (i - length s).
Proof.
  intros Hi. rewrite !occurs_at_take_drop, length_app, drop_app_ge by done.
  intros [Hl E]. split; [lia|done].
Qed.

Lemma substring_of_cons sub b s : substring_of sub s -> substring_of sub (b :: s).
Proof. intros [i Hi]. exists (S i). by apply occurs_at_cons. Qed.

Lemma substring_of_app_r sub s t :
  substring_of sub t -> substring_of sub (s ++ t).
Proof. intros [i Hi]. eexists. by apply occurs_at_app_r. Qed.

Lemma occurs_at_head sub s i b t :
  sub = b :: t -> occurs_at sub s i -> s !! i = Some b.
Proof.
  intros -> (pre & post & -> & <-). by rewrite lookup_app_r, Nat.sub_diag.
Qed.

(** ** Where a substring stands

    From an occurrence in a string that was put together or rewritten to
    an occurrence in its parts or in the string as it was. *)

(** A substring does not start in a part that has not its first
    character. *)
Lemma substring_of_app_skip b I t k :
  b ∉ t -> substring_of (b :: I) (t ++ k) -> substring_of (b :: I) k.
Proof.
  intros Hb [i Hi].
  destruct (decide (length t <= i)%nat) as [Hle|Hlt].
  { eexists. by eapply occurs_at_app_inv_r. }
  apply (occurs_at_head _ _ _ b I eq_refl) in Hi.
  rewrite lookup_app_l in Hi by lia. by apply list_elem_of_lookup_2 in Hi.
Qed.

Lemma substring_of_reverse sub s :
  substring_of sub s -> substring_of (reverse sub) (reverse s).
Proof.
  intros (pre & post & ->)%substring_of_inv.
  rewrite !reverse_app, <- (assoc_L (++)). apply substring_of_app.
Qed.

(** Nor does it end in a part that has none of its characters. *)
Lemma substring_of_app_drop w s t :
  w <> [] -> Forall (fun c => c ∉ t) w ->
  substring_of w (s ++ t) -> substring_of w s.
Proof.
  intros Hne Hw Hsub%substring_of_reverse.
  rewrite <- (reverse_involutive w), <- (reverse_involutive s).
  apply substring_of_reverse. rewrite reverse_app in Hsub.
  destruct (reverse w) as [|b I] eqn:E.
  { by apply (f_equal reverse) in E; rewrite reverse_involutive in E. }
  eapply substring_of_app_skip; [|done].
  rewrite elem_of_reverse. rewrite Forall_forall in Hw. apply Hw.
  rewrite <- elem_of_reverse, E. by left.
Qed.

Lemma substring_of_nil_inv w : substring_of w [] -> w = [].
Proof. intros (pre & post & E)%substring_of_inv. by destruct pre, w. Qed.

(** A character that the word does not have cuts the text in two. *)
Lemma substring_of_cut w s b t :
  w <> [] -> b ∉ w ->
  substring_of w (s ++ b :: t) <-> substring_of w s \/ substring_of w t.
Proof.
  intros Hne Hb. split.
  - intros (pre & post & E)%substring_of_inv.
    apply app_eq_inv in E as [(k & -> & E)|(k & -> & E)].
    + left. apply app_eq_inv in E as [(k' & -> & E)|(k' & -> & E)].
      * destruct k' as [|c k']; simplify_eq/=; [|set_solver].
        exists (length pre), pre, []. by rewrite !app_nil_r.
      * apply substring_of_app.
    + destruct k as [|c k]; simplify_eq/=; [destruct w; set_solver|].
      right. apply substring_of_app.
  - intros [?|?]; [by apply substring_of_app_l|].
    by apply substring_of_app_r, substring_of_cons.
Qed.

(** So does such a character with text around it that has no character
    of the word. *)
Lemma substring_of_barrier w l s b s' l' :
  w <> [] -> b ∉ w -> Forall (fun c => c ∉ s) w -> Forall (fun c => c ∉ s') w ->
  substring_of w (l ++ s ++ b :: s' ++ l') <->
  substring_of w l \/ substring_of w l'.
Proof.
  intros Hne Hb Hs Hs'. rewrite app_assoc, substring_of_cut by done.
  split; (intros [?|?]; [left|right]).
  - by apply (substring_of_app_drop w l s).
  - destruct Hs' as [|c w Hc _]; [done|]. by apply (substring_of_app_skip c w s').
  - by apply substring_of_app_l.
  - by apply substring_of_app_r.
Qed.

(** A function that changes no character into one of [w], applied to
    every character of the string: [w] stood where it stands. *)
Lemma substring_of_fmap_inv (f : Z -> Z) w s :
  (forall c, f c ∈ w -> f c = c) ->
  substring_of w (f <$> s) -> substring_of w s.
Proof.
  intros Hf (xs & ys & E)%substring_of_inv.
  apply fmap_app_inv in E as (xs' & r & -> & E & ->). symmetry in E.
  apply fmap_app_inv in E as (w' & ys' & -> & -> & ->).
  assert (f <$> w' = w') as E; [|rewrite E; apply substring_of_app].
  rewrite <- (list_fmap_id w') at 2. apply Forall_fmap_ext, Forall_forall.
  intros c Hc. apply Hf. by apply list_elem_of_fmap_2.
Qed.

(** ** [Index] *)

Lemma index_nat_Some s sub i :
  index_nat s sub = Some i <->
  occurs_at sub s i /\ forall j, (j < i)%nat -> ~ occurs_at sub s j.
Proof.
  revert i. induction s as [|b s IH]; intros i; cbn [index_nat].
  - destruct (HasPrefix [] sub) eqn:E.
    + apply HasPrefix_occurs in E. split.
      * intros [= <-]. split; [done|lia].
      * intros [_ Hmin]. destruct i; [done|]. destruct (Hmin 0%nat); [lia|done].
    + split; [done|]. intros [H _]. pose proof (occurs_at_length _ _ _ H) as Hl.
      destruct i; [|simpl in Hl; lia].
      apply HasPrefix_occurs in H. congruence.
  - destruct (HasPrefix (b :: s) sub) eqn:E.
    + apply HasPrefix_occurs in E. split.
      * intros [= <-]. split; [done|lia].
      * intros [_ Hmin]. destruct i; [done|]. destruct (Hmin 0%nat); [lia|done].
    + rewrite fmap_Some. split.
      * intros (i' & [H Hmin]%IH & ->). split; [by apply occurs_at_cons|].
        intros [|j] Hj; [rewrite <- HasPrefix_occurs; congruence|].
        rewrite occurs_at_cons. apply Hmin. lia.
      * intros [H Hmin]. destruct i as [|i].
        { apply HasPrefix_occurs in H. congruence. }
        exists i. split; [|done]. apply IH. split; [by apply occurs_at_cons in H|].
        intros j Hj. rewrite <- (occurs_at_cons sub b). apply Hmin. lia.
Qed.

Lemma index_nat_None s sub :
  index_nat s sub = None <-> forall i, ~ occurs_at sub s i.
Proof.
  split.
  - induction s as [|b s IH]; cbn [index_nat];
      (destruct (HasPrefix _ sub) eqn:E; [done|]).
    + intros _ i H. pose proof (occurs_at_length _ _ _ H) as Hl.
      destruct i; [|simpl in Hl; lia]. apply HasPrefix_occurs in H. congruence.
    + rewrite fmap_None. intros E' [|i] H.
      * apply HasPrefix_occurs in H. congruence.
      * apply occurs_at_cons in H. by eapply IH.
  - intros H. destruct (index_nat s sub) as [i|] eqn:E; [|done].
    apply index_nat_Some in E as [E _]. by destruct (H i).
Qed.

Lemma index_nat_nil s : index_nat s [] = Some 0%nat.
Proof. destruct s; cbn [index_nat]; by rewrite HasPrefix_nil. Qed.

Lemma index_nat_bound s sub i :
  index_nat s sub = Some i -> (i + length sub <= length s)%nat.
Proof. intros [H _]%index_nat_Some. by apply occurs_at_length. Qed.

(** No occurrence starts inside [p]: the search continues after it. *)
Lemma index_nat_skip p k sub :
  (forall j, (j < length p)%nat -> ~ occurs_at sub (p ++ k) j) ->
  index_nat (p ++ k) sub = (fun i => (length p + i)%nat) <$> index_nat k sub.
Proof.
  induction p as [|b p IH]; intros Hno.
  - cbn [app length]. by rewrite option_fmap_id.
  - cbn [app index_nat]. destruct (HasPrefix _ sub) eqn:E.
    { apply HasPrefix_occurs in E. destruct (Hno 0%nat); [simpl; lia|done]. }
    rewrite IH.
    + rewrite <- option_fmap_compose. by apply option_fmap_ext.
    + intros j Hj Hocc. apply (Hno (S j)); [simpl; lia|].
      by apply occurs_at_cons.
Qed.

Lemma Index_found s sub i :
  Index s sub = Z.of_nat i <->
  occurs_at sub s i /\ forall j, (j < i)%nat -> ~ occurs_at sub s j.
Proof.
  rewrite <- index_nat_Some. unfold Index.
  destruct (index_nat s sub) as [j|]; split; intros H; try lia;
    [f_equal; lia | by injection H as -> | done].
Qed.

Lemma Index_not_found s sub : Index s sub = -1 <-> ~ substring_of sub s.
Proof.
  unfold Index, substring_of. destruct (index_nat s sub) as [j|] eqn:E.
  - split; [lia|]. intros []. apply index_nat_Some in E as [E _]. eauto.
  - split; [|done]. intros _ [i Hi]. by eapply index_nat_None.
Qed.

Lemma Index_range s sub :
  Index s sub = -1 \/ 0 <= Index s sub <= Z.of_nat (length s) - Z.of_nat (length sub).
Proof.
  unfold Index. destruct (index_nat s sub) as [j|] eqn:E; [right|by left].
  apply index_nat_bound in E. lia.
Qed.

Lemma Index_nonneg s sub : 0 <= Index s sub <-> substring_of sub s.
Proof.
  destruct (Index_range s sub) as [E|H].
  - rewrite E. apply Index_not_found in E. split; [lia|done].
  - split; [|lia]. intros _. destruct (decide (Index s sub = -1)) as [E|]; [lia|].
    unfold Index in *. destruct (index_nat s sub) eqn:E'; [|done].
    apply index_nat_Some in E' as [? _]. by eexists.
Qed.

Lemma Index_nil s : Index s [] = 0.
Proof. unfold Index. by rewrite index_nat_nil. Qed.

(** ** [Count] and the loop of [Replace] *)

Lemma count_fuel_irrel n m s sub :
  sub <> [] -> (length s <= n)%nat -> (length s <= m)%nat ->
  count_fuel n s sub = count_fuel m s sub.
Proof.
  intros Hsub. revert m s. induction n as [|n IH]; intros m s Hn Hm.
  - destruct m; [done|]. cbn [count_fuel].
    destruct (index_nat s sub) eqn:E; [|done].
    apply index_nat_bound in E. destruct sub; [done|]. simpl in *. lia.
  - destruct m; cbn [count_fuel]; (destruct (index_nat s sub) as [i|] eqn:E; [|done]).
    + apply index_nat_bound in E. destruct sub; [done|]. simpl in *. lia.
    + f_equal. apply index_nat_bound in E.
      assert (0 < length sub)%nat by (destruct sub; [done|simpl; lia]).
      apply IH; rewrite length_drop; lia.
Qed.

Lemma Count_unfold s sub :
  sub <> [] ->
  Count s sub =
    match index_nat s sub with
    | None => 0%nat
    | Some i => S (Count (drop (i + length sub) s) sub)
    end.
Proof.
  intros Hsub. unfold Count. destruct sub as [|c sub]; [done|].
  destruct (index_nat s (c :: sub)) as [i|] eqn:E.
  - pose proof (index_nat_bound _ _ _ E) as Hl. cbn [length] in Hl.
    destruct s as [|b s]; [simpl in Hl; lia|].
    cbn [length count_fuel]. rewrite E. f_equal.
    apply count_fuel_irrel; [done|rewrite length_drop; simpl in *; lia..].
  - destruct (length s); cbn [count_fuel]; [done|by rewrite E].
Qed.

Lemma replace_loop_first old new n rest :
  old <> [] ->
  replace_loop old new n true rest = replace_loop old new n false rest.
Proof. destruct old; [done|]. by destruct n. Qed.

(** The unfolding equation of [Replace] without a limit. *)
Lemma Replace_unfold s old new :
  old <> [] ->
  Replace s old new (-1) =
    match index_nat s old with
    | None => s
    | Some j => take j s ++ new ++ Replace (drop (j + length old) s) old new (-1)
    end.
Proof.
  intros Hold. unfold Replace. case_bool_decide as Heq.
  - subst new. destruct (index_nat s old) as [j|] eqn:E; [|done].
    apply index_nat_Some in E as [E _].
    apply occurs_at_take_drop in E as [Hl E]. cbn [orb].
    rewrite <- (take_drop j s) at 1. f_equal.
    rewrite <- (take_drop (length old) (drop j s)) at 1.
    by rewrite E, drop_drop.
  - cbn [orb Z.eqb Z.ltb Z.compare]. rewrite (Count_unfold s) by done.
    destruct (index_nat s old) as [j|] eqn:E; [|done].
    cbn [Nat.eqb replace_loop]. destruct old as [|c old]; [done|]. rewrite E.
    do 2 f_equal. destruct (Count _ _) eqn:Ec; [done|]. cbn [Nat.eqb].
    by rewrite replace_loop_first.
Qed.

(** Induction along the occurrences that [Replace] rewrites. *)
Lemma Replace_ind (P : bytes -> bytes -> Prop) old new :
  old <> [] ->
  (forall s, index_nat s old = None -> P s s) ->
  (forall s j r, index_nat s old = Some j ->
     P (drop (j + length old) s) r -> P s (take j s ++ new ++ r)) ->
  forall s, P s (Replace s old new (-1)).
Proof.
  intros Hold Hnone Hsome s.
  remember (length s) as n eqn:Hn. revert s Hn.
  induction n as [n IH] using lt_wf_ind. intros s ->.
  rewrite Replace_unfold by done.
  destruct (index_nat s old) as [j|] eqn:E; [|by apply Hnone].
  apply Hsome; [done|]. eapply IH; [|done].
  apply index_nat_bound in E. rewrite length_drop.
  destruct old; [done|]. simpl in *. lia.
Qed.

(** [Replace] cuts the string at an occurrence that starts it, and copies a
    prefix in which no occurrence starts. *)
Lemma Replace_prefix old new k :
  old <> [] -> Replace (old ++ k) old new (-1) = new ++ Replace k old new (-1).
Proof.
  intros Hold. rewrite Replace_unfold by done.
  assert (index_nat (old ++ k) old = Some 0%nat) as ->.
  { apply index_nat_Some. split; [by exists [], k|lia]. }
  by rewrite take_0, Nat.add_0_l, drop_app_length.
Qed.

Lemma Replace_skip p k old new :
  old <> [] ->
  (forall j, (j < length p)%nat -> ~ occurs_at old (p ++ k) j) ->
  Replace (p ++ k) old new (-1) = p ++ Replace k old new (-1).
Proof.
  intros Hold Hno. rewrite (Replace_unfold (p ++ k)), (Replace_unfold k) by done.
  rewrite index_nat_skip by done. destruct (index_nat k old) as [j|]; [|done].
  cbn [fmap option_fmap option_map].
  rewrite take_app_add', <- Nat.add_assoc, drop_app_add' by done.
  by rewrite <- app_assoc.
Qed.

Lemma Replace_nil old new : old <> [] -> Replace [] old new (-1) = [].
Proof.
  intros. rewrite Replace_unfold by done. destruct old; [done|].
  by cbn [index_nat HasPrefix length Nat.leb andb].
Qed.

(** ** A single byte replaced: tabs to spaces, spaces to nothing *)

Lemma occurs_at_singleton c s i : occurs_at [c] s i <-> s !! i = Some c.
Proof.
  unfold occurs_at. split.
  - intros (pre & post & -> & <-). by rewrite lookup_app_r, Nat.sub_diag.
  - intros H. exists (take i s), (drop (S i) s). split.
    + by rewrite <- (take_drop_middle s i c) at 1.
    + apply lookup_lt_Some in H. rewrite length_take. lia.
Qed.

Theorem Replace_byte c new s :
  Replace s [c] new (-1) = s ≫= (fun b => if bool_decide (b = c) then new else [b]).
Proof.
  induction s as [|b s IH]; [by apply Replace_nil|].
  cbn [mbind list_bind]. rewrite <- IH. case_bool_decide as Hb.
  - subst b. by apply (Replace_prefix [c]).
  - apply (Replace_skip [b]); [done|].
    intros [|j] Hj; [|simpl in Hj; lia].
    rewrite occurs_at_singleton. cbn. congruence.
Qed.

Corollary Replace_byte_byte c d s :
  Replace s [c] [d] (-1) = (fun b => if bool_decide (b = c) then d else b) <$> s.
Proof.
  rewrite Replace_byte. induction s as [|b s IH]; [done|].
  cbn [mbind list_bind fmap list_fmap]. rewrite IH. by case_bool_decide.
Qed.

(** Replacing every occurrence of one byte by the empty string, as the
    spaced bypass does with the space, deletes the bytes equal to it and
    keeps the others in order. *)
Corollary Replace_byte_nil c s :
  Replace s [c] [] (-1) = filter (fun b => b <> c) s.
Proof.
  rewrite Replace_byte. induction s as [|b s IH]; [done|].
  cbn [mbind list_bind]. rewrite IH, filter_cons.
  case_bool_decide; case_decide; done.
Qed.

(** ** An encoded rune replaced in an encoded string

    By self-synchronisation the bytes of [old] are found at the runes equal
    to it and nowhere else: the replacement on bytes is a replacement on
    runes. *)

(** No encoding starts inside another: its first byte is no continuation
    byte. *)
Lemma EncodeRune_occurs_inner z r k j :
  (0 < j < length (EncodeRune r))%nat ->
  ~ occurs_at (EncodeRune z) (EncodeRune r ++ k) j.
Proof.
  intros Hj Hocc.
  destruct (EncodeRune_head_tail z) as (bz & tz & Ez & Hbz & _).
  destruct (EncodeRune_head_tail r) as (br & tr & Er & _ & Htr).
  destruct j as [|j]; [lia|].
  apply (occurs_at_head _ _ _ bz tz Ez) in Hocc. rewrite Er in Hocc, Hj.
  cbn [app length] in Hocc, Hj. change ((tr ++ k) !! j = Some bz) in Hocc.
  rewrite lookup_app_l in Hocc by lia.
  rewrite Forall_lookup in Htr. by apply Htr in Hocc.
Qed.

Lemma EncodeRune_no_inner_occurrence r z k j :
  ValidRune r = true -> ValidRune z = true -> r <> z ->
  (j < length (EncodeRune r))%nat ->
  ~ occurs_at (EncodeRune z) (EncodeRune r ++ k) j.
Proof.
  intros Hr Hz Hne Hj Hocc. destruct j as [|j].
  - destruct Hocc as (pre & post & E & Hpre). destruct pre; [|done].
    by apply EncodeRune_prefix_inj in E.
  - by apply EncodeRune_occurs_inner in Hocc; [|lia].
Qed.

Theorem Replace_rune rs z new :
  Forall (fun r => ValidRune r = true) rs -> ValidRune z = true ->
  Replace (encode rs) (EncodeRune z) new (-1) =
    rs ≫= (fun r => if bool_decide (r = z) then new else EncodeRune r).
Proof.
  intros Hrs Hz. pose proof (EncodeRune_nonempty z).
  induction Hrs as [|r rs Hr _ IH]; [by apply Replace_nil|].
  rewrite encode_cons. cbn [mbind list_bind]. rewrite <- IH.
  case_bool_decide as Hb.
  - subst r. by apply Replace_prefix.
  - apply Replace_skip; [done|]. intros j Hj.
    by apply EncodeRune_no_inner_occurrence.
Qed.

(** The encoding of a rune occurs in an encoded text only where the text
    has that rune: the first byte of an encoding is no continuation byte,
    so an occurrence starts where a rune of the text starts. *)
Lemma EncodeRune_in_encode z rs :
  ValidRune z = true -> valid_runes rs ->
  substring_of (EncodeRune z) (encode rs) -> z ∈ rs.
Proof.
  intros Hz Hrs [i Hi]. revert i Hi.
  induction Hrs as [|r rs Hr Hrs IH]; intros i Hi.
  - apply occurs_at_length in Hi. pose proof (EncodeRune_nonempty z).
    destruct (EncodeRune z); [done|]. cbn in Hi. lia.
  - rewrite encode_cons in Hi.
    destruct (decide (r = z)) as [->|Hne]; [left|right].
    destruct (decide (length (EncodeRune r) <= i)%nat) as [Hle|Hlt].
    + eapply IH, occurs_at_app_inv_r; done.
    + by eapply EncodeRune_no_inner_occurrence in Hi; [|done..|lia].
Qed.

(** Runes that stand together in a text stand together in its encoding. *)
Lemma substring_of_encode_map ws rs :
  substring_of ws rs -> substring_of (encode ws) (encode rs).
Proof.
  intros (xs & ys & ->)%substring_of_inv. rewrite !encode_app.
  apply substring_of_app.
Qed.

(** And runes whose encodings stand together in the encoding of a text
    stand together in the text: the occurrence starts where a rune of the
    text starts, and from there the runes are read one by one. *)
Lemma prefix_encode_inv ws rs :
  valid_runes ws -> valid_runes rs ->
  encode ws `prefix_of` encode rs -> ws `prefix_of` rs.
Proof.
  intros Hws. revert rs.
  induction Hws as [|z ws Hz _ IH]; intros rs Hrs [k E]; [apply prefix_nil|].
  destruct Hrs as [|r rs Hr Hrs].
  { rewrite encode_cons in E. pose proof (EncodeRune_nonempty z).
    by destruct (EncodeRune z). }
  rewrite !encode_cons, <- !app_assoc in E. symmetry in E.
  pose proof (EncodeRune_prefix_inj _ _ _ _ Hz Hr E) as ->.
  apply app_inv_head in E. apply prefix_cons, IH; [done|]. by exists k.
Qed.

Lemma occurs_at_app_sub a b s i : occurs_at (a ++ b) s i -> occurs_at a s i.
Proof.
  intros (pre & post & -> & <-). exists pre, (b ++ post).
  by rewrite <- app_assoc.
Qed.

Lemma substring_of_encode_inv ws rs :
  ws <> [] -> valid_runes ws -> valid_runes rs ->
  substring_of (encode ws) (encode rs) -> substring_of ws rs.
Proof.
  intros Hne Hws Hrs [i Hi]. revert i Hi.
  induction Hrs as [|r rs Hr Hrs IH]; intros i Hi.
  { apply occurs_at_length in Hi. destruct ws as [|z ws]; [done|].
    rewrite encode_cons, length_app in Hi.
    pose proof (EncodeRune_nonempty z). destruct (EncodeRune z); [done|].
    cbn in Hi. lia. }
  rewrite encode_cons in Hi.
  destruct (decide (length (EncodeRune r) <= i)%nat) as [Hle|Hlt].
  { eapply substring_of_cons, IH, occurs_at_app_inv_r; done. }
  destruct i as [|i].
  - destruct Hi as (pre & post & E & Hpre). destruct pre; [|done].
    rewrite <- encode_cons in E.
    destruct (prefix_encode_inv ws (r :: rs)) as [k ->];
      [done|by constructor|by exists post|].
    apply (substring_of_app ws []).
  - destruct ws as [|z ws]; [done|]. rewrite encode_cons in Hi.
    apply occurs_at_app_sub in Hi.
    by apply EncodeRune_occurs_inner in Hi; [|lia].
Qed.

(** An encoding of one byte is the encoding of that byte. *)
Lemma EncodeRune_ascii_inv r b : EncodeRune r = [b] -> r = b.
Proof.
  intros E. rewrite <- EncodeRune_sanitize in E.
  destruct (EncodeRune_shape _ (ValidRune_sanitize r))
    as [[Hr E']|[[? E']|[[? E']|[? E']]]]; rewrite E' in E; try done.
  injection E as <-. unfold sanitize in *. case_match; [done|].
  unfold RuneError in Hr. lia.
Qed.

Lemma encode_singleton_inv rs b : encode rs = [b] -> rs = [b].
Proof.
  destruct rs as [|r rs]; [done|]. rewrite encode_cons.
  pose proof (EncodeRune_nonempty r) as Hr.
  destruct (EncodeRune r) as [|c t] eqn:Er; [done|]. intros E.
  injection E as -> [Ht E]%app_eq_nil. subst t.
  apply EncodeRune_ascii_inv in Er as ->.
  destruct rs as [|r' rs]; [done|]. rewrite encode_cons in E.
  apply app_eq_nil in E as [E _]. by apply EncodeRune_nonempty in E.
Qed.

(** ** ASCII strings in encoded text

    An ASCII byte is the encoding of one rune and no part of another, so
    an ASCII string among the bytes of a text is among its runes, and
    among its runes it is among its bytes. *)

(** An ASCII byte at the head of an encoding is the rune. *)
Lemma EncodeRune_head_ascii r a k :
  ValidRune r = true -> is_ascii a -> EncodeRune r = a :: k -> r = a /\ k = [].
Proof.
  unfold is_ascii. intros Hr Ha.
  destruct (EncodeRune_shape r Hr) as [[? ->]|[[? ->]|[[? ->]|[? ->]]]];
    intros [= <- <-]; try done; exfalso; zlia.
Qed.

Lemma encode_ascii_prefix w rs k :
  Forall is_ascii w -> Forall (fun r => ValidRune r = true) rs ->
  encode rs = w ++ k -> exists rs', rs = w ++ rs' /\ k = encode rs'.
Proof.
  intros Hw. revert rs. induction Hw as [|a w Ha _ IH]; intros rs Hrs E.
  - by exists rs.
  - destruct Hrs as [|r rs Hr Hrs]; [done|]. rewrite encode_cons in E.
    destruct (EncodeRune r) as [|b t] eqn:Er; [by apply EncodeRune_nonempty in Er|].
    injection E as -> E.
    apply (EncodeRune_head_ascii r a t Hr Ha) in Er as [-> ->].
    destruct (IH rs Hrs E) as (rs' & -> & ->). by exists rs'.
Qed.

Lemma substring_of_encode w rs :
  Forall is_ascii w -> w <> [] -> Forall (fun r => ValidRune r = true) rs ->
  substring_of w (encode rs) -> substring_of w rs.
Proof.
  intros Hw Hne Hrs [i Hi]. revert i Hi.
  induction Hrs as [|r rs Hr Hrs IH]; intros i Hi.
  - apply occurs_at_length in Hi. destruct w; [done|]. cbn in Hi. lia.
  - rewrite encode_cons in Hi.
    destruct (decide (length (EncodeRune r) <= i)%nat) as [Hle|Hlt].
    { eapply substring_of_cons, IH, occurs_at_app_inv_r; done. }
    destruct i as [|i].
    + destruct Hi as (pre & post & E & Hpre). destruct pre; [|done].
      rewrite <- encode_cons in E.
      apply (encode_ascii_prefix w) in E as (rs' & -> & _);
        [|done|by constructor].
      by exists 0%nat, [], rs'.
    + destruct Hw as [|a w Ha _]; [done|].
      destruct (EncodeRune_head_tail r) as (b & t & Er & _ & Ht).
      apply (occurs_at_head _ _ _ a w eq_refl) in Hi. rewrite Er in Hi, Hlt.
      cbn [app length] in Hi, Hlt. change ((t ++ encode rs) !! i = Some a) in Hi.
      rewrite lookup_app_l in Hi by lia. rewrite Forall_lookup in Ht.
      apply Ht in Hi. unfold is_cont, is_ascii in *. lia.
Qed.

Lemma substring_of_decode sub s :
  Forall is_ascii sub -> sub <> [] -> Valid s = true ->
  substring_of sub s -> substring_of sub (decode s).
Proof.
  intros Hsub Hne Hs. rewrite <- (encode_decode_Valid s Hs) at 1.
  apply substring_of_encode; [done..|apply decode_valid].
Qed.

Lemma substring_of_encoded sub rs :
  Forall is_ascii sub -> substring_of sub rs -> substring_of sub (encode rs).
Proof.
  intros Hsub (xs & ys & ->)%substring_of_inv.
  rewrite !encode_app, (encode_ascii sub Hsub). apply substring_of_app.
Qed.

Lemma substring_of_runes sub s :
  Forall is_ascii sub -> Valid s = true ->
  substring_of sub (decode s) -> substring_of sub s.
Proof.
  intros Hsub Hs ?. rewrite <- (encode_decode_Valid s Hs).
  by apply substring_of_encoded.
Qed.

(** ** Well-formedness and validity *)

Lemma wf_bytes_Replace_byte c new s :
  wf_bytes s -> wf_bytes new -> wf_bytes (Replace s [c] new (-1)).
Proof.
  intros Hs Hnew. rewrite Replace_byte. induction Hs as [|b s Hb _ IH];
    [constructor|].
  cbn [mbind list_bind]. apply wf_bytes_app; [|done].
  case_bool_decide; [done|by constructor].
Qed.

(** ** [Index] in every case *)

(** [Index] returns -1 exactly when the string does not occur, and
    otherwise the offset of its first occurrence, which leaves room for the
    whole string. *)
Lemma Index_cases s sub :
  (Index s sub = -1 /\ ~ substring_of sub s) \/
  (exists i : nat,
     Index s sub = Z.of_nat i /\ occurs_at sub s i /\
     (i + length sub <= length s)%nat /\
     forall j, (j < i)%nat -> ~ occurs_at sub s j).
Proof.
  destruct (Index_range s sub) as [E|Hr].
  - left. split; [done|]. by apply Index_not_found.
  - right. exists (Z.to_nat (Index s sub)).
    assert (Index s sub = Z.of_nat (Z.to_nat (Index s sub))) as E by lia.
    split; [done|]. apply Index_found in E as [? ?]. split_and!; [done|lia|done].
Qed.
