(* ===== verification/Unicode.v ===== *)
(** * Unicode: the character data [Check] depends on

    [Check] reaches the Unicode character database through four doors:
    [strings.ToLower] (case mapping), [unicode.Is(unicode.Mn, r)] (general
    category), [norm.NFD] and [norm.NFC] (decomposition, combining class and
    composition) and the class [[\s\p{Zs}]] of its regular expressions.

    The database is an interface here, the class [UnicodeTables]: five
    tables and the laws of them that the theorems on [Check] use.  Every law
    is a fact of the Unicode standard about the ASCII range and the
    zero-width space (the characters [inert] under normalisation, which
    are [stable]: a property of a character that is read from the tables) or about
    the shape of the tables (a decomposition is fully decomposed and not
    empty, what composes with an ASCII letter is a nonspacing mark, a
    composite decomposes to the decompositions of its two parts), or
    about the whitespace of the regular expressions (no mark, starters,
    part of no composition).
    [UnicodeLatin] gives an instance, so every theorem proved against the
    interface has a model.

    The class of the regular expressions is small and is given in full, and
    so is [strings.ToLower] down to its fast path for ASCII strings. *)

From S2P Require Import Prelude Utf8 GoStrings.

(** ** The class [[\s\p{Zs}]] of the regular expressions

    [\s] is RE2's [[\t\n\f\r ]]; [\p{Zs}] is the general category
    "separator, space". *)

Definition perl_space (r : Z) : bool :=
  (r =? 0x09) || (r =? 0x0A) || (r =? 0x0C) || (r =? 0x0D) || (r =? 0x20).

Definition is_Zs (r : Z) : bool :=
  (r =? 0x20) || (r =? 0xA0) || (r =? 0x1680) ||
  ((0x2000 <=? r) && (r <=? 0x200A)) ||
  (r =? 0x202F) || (r =? 0x205F) || (r =? 0x3000).

Definition space_class (r : Z) : bool := perl_space r || is_Zs r.

(** ** The interface *)

(** The characters that the normalisation leaves as they are, wherever
    they stand: the ASCII characters and the zero-width space U+200B, which
    [Check] deletes after the normalisation.  They are starters, their own
    decomposition, no marks, and they compose with nothing but, on their
    right, a mark. *)
Definition inert (r : Z) : Prop := is_ascii r \/ r = 0x200B.

#[export] Instance inert_dec r : Decision (inert r).
Proof. unfold inert. apply _. Defined.

Class UnicodeTables : Type := {
  (** [unicode.ToLower] *)
  lower : Z -> Z;
  (** membership in the range table [unicode.Mn] *)
  is_Mn : Z -> bool;
  (** canonical combining class *)
  ccc : Z -> Z;
  (** full canonical decomposition *)
  decomp : Z -> list Z;
  (** primary composite of a starter and a following character *)
  primary : Z -> Z -> option Z;

  lower_ascii r :
    is_ascii r ->
    lower r = if (0x41 <=? r) && (r <=? 0x5A) then r + 0x20 else r;
  lower_valid r : ValidRune r = true -> ValidRune (lower r) = true;
  lower_idemp r : lower (lower r) = lower r;
  is_Mn_inert r : inert r -> is_Mn r = false;
  ccc_inert r : inert r -> ccc r = 0;
  ccc_nonneg r : 0 <= ccc r;
  decomp_inert r : inert r -> decomp r = [r];
  decomp_valid r :
    ValidRune r = true -> Forall (fun c => ValidRune c = true) (decomp r);
  decomp_idem r c : c ∈ decomp r -> decomp c = [c];
  decomp_nonempty r : decomp r <> [];
  primary_valid a c p : primary a c = Some p -> ValidRune p = true;
  primary_inert_l a c p : inert a -> primary a c = Some p -> is_Mn c = true;
  primary_inert_r a c : inert c -> primary a c = None;
  primary_decomp a c p :
    primary a c = Some p -> decomp p = decomp a ++ decomp c;
  is_Mn_space r : space_class r = true -> is_Mn r = false;
  ccc_space r : space_class r = true -> ccc r = 0;
  primary_space a c :
    space_class a = true \/ space_class c = true -> primary a c = None;
  primary_not_space a c p : primary a c = Some p -> space_class p = false;
}.

(** A character that the normalisation leaves as it is, wherever it
    stands in a text without marks: no mark, a starter, its own
    decomposition, the second part of no composite and the first part of
    composites with marks only.  The letters of most scripts are; a letter
    with an accent and a Hangul jamo are not. *)
Definition stable `{UnicodeTables} (r : Z) : Prop :=
  is_Mn r = false /\ ccc r = 0 /\ decomp r = [r] /\
  (forall a, primary a r = None) /\
  (forall c p, primary r c = Some p -> is_Mn c = true).

(** ** [strings.ToLower] *)

(** [strings.Map]: the mapping applied to every rune of the string, a
    negative result dropped, the rest encoded again.  An invalid byte of the
    input is read as [RuneError] and so written as its encoding. *)
Definition Map (mapping : Z -> Z) (s : bytes) : bytes :=
  encode (filter (fun r => 0 <= r) (mapping <$> decode s)).

(** The byte-wise lower-casing of the ASCII fast path. *)
Definition lower_ascii_byte (c : Z) : Z :=
  if (0x41 <=? c) && (c <=? 0x5A) then c + 0x20 else c.

Definition isASCII (s : bytes) : bool := forallb (fun c => c <? RuneSelf) s.

Definition hasUpper (s : bytes) : bool :=
  existsb (fun c => (0x41 <=? c) && (c <=? 0x5A)) s.

Section to_lower.
Context `{UnicodeTables}.

(** [strings.ToLower]: ASCII strings are handled byte by byte and returned
    as they are when no letter is upper case; others go through [Map]. *)
Definition ToLower (s : bytes) : bytes :=
  if isASCII s then
    if negb (hasUpper s) then s else lower_ascii_byte <$> s
  else Map lower s.

(** The reference: [Map] on every string. *)
Definition ToLower_ref (s : bytes) : bytes := Map lower s.

End to_lower.

(** ** Lemmas *)

Lemma inert_ascii r : is_ascii r -> inert r.
Proof. by left. Qed.

Lemma Forall_inert_ascii rs : Forall is_ascii rs -> Forall inert rs.
Proof. intros. eapply Forall_impl; [done|]. apply inert_ascii. Qed.

Section stable.
Context `{UnicodeTables}.

Lemma inert_stable r : inert r -> stable r.
Proof.
  intros Hr. unfold stable.
  eauto 10 using is_Mn_inert, ccc_inert, decomp_inert, primary_inert_r,
    primary_inert_l.
Qed.

(** A whitespace character that does not decompose is stable. *)
Lemma space_stable r : space_class r = true -> decomp r = [r] -> stable r.
Proof.
  intros Hr Hd. unfold stable.
  split_and!; auto using is_Mn_space, ccc_space, primary_space.
  intros c p E. by rewrite primary_space in E by auto.
Qed.

Lemma stable_Mn r : stable r -> is_Mn r = false.
Proof. by intros (? & _). Qed.

Lemma stable_ccc r : stable r -> ccc r = 0.
Proof. by intros (_ & ? & _). Qed.

Lemma stable_decomp r : stable r -> decomp r = [r].
Proof. by intros (_ & _ & ? & _). Qed.

Lemma stable_primary_r a c : stable c -> primary a c = None.
Proof. intros (_ & _ & _ & Hc & _). apply Hc. Qed.

Lemma stable_primary_l a c p :
  stable a -> primary a c = Some p -> is_Mn c = true.
Proof. intros (_ & _ & _ & _ & Ha). apply Ha. Qed.

End stable.

Lemma isASCII_spec s : wf_bytes s -> isASCII s = true <-> Forall is_ascii s.
Proof.
  intros Hs. unfold isASCII. induction Hs as [|b s Hb _ IH]; cbn [forallb].
  - split; [constructor|done].
  - rewrite andb_true_iff, Forall_cons, IH, Z.ltb_lt.
    split; intros [? ?]; (split; [|done]);
      unfold is_ascii, is_byte, RuneSelf in *; lia.
Qed.

Lemma hasUpper_false s :
  hasUpper s = false -> lower_ascii_byte <$> s = s.
Proof.
  unfold hasUpper. induction s as [|b s IH]; [done|].
  cbn [existsb]. rewrite fmap_cons. intros [Hb Hs]%orb_false_elim.
  unfold lower_ascii_byte at 1. by rewrite Hb, IH.
Qed.

Lemma lower_ascii_byte_ascii c : is_ascii c -> is_ascii (lower_ascii_byte c).
Proof. unfold is_ascii, lower_ascii_byte. intros. case_if_lia. Qed.

Lemma Forall_lower_ascii_byte s :
  Forall is_ascii s -> Forall is_ascii (lower_ascii_byte <$> s).
Proof. intros. apply Forall_fmap. eapply Forall_impl; [done|]. apply lower_ascii_byte_ascii. Qed.

Lemma space_class_ascii r :
  is_ascii r -> space_class r = perl_space r.
Proof.
  unfold space_class, is_ascii. intros.
  destruct (perl_space r) eqn:E; [done|]. unfold perl_space, is_Zs in *.
  cbn [orb]. lia.
Qed.

Section to_lower_lemmas.
Context `{UnicodeTables}.

Lemma filter_nonneg_valid rs :
  Forall (fun r => ValidRune r = true) rs -> filter (fun r => 0 <= r) rs = rs.
Proof.
  induction 1 as [|r rs Hr _ IH]; [done|].
  rewrite filter_cons, IH. apply ValidRune_spec in Hr.
  case_decide; [done|lia].
Qed.

Lemma Forall_valid_fmap_lower rs :
  Forall (fun r => ValidRune r = true) rs ->
  Forall (fun r => ValidRune r = true) (lower <$> rs).
Proof.
  intros. apply Forall_fmap. eapply Forall_impl; [done|]. apply lower_valid.
Qed.

(** [Map lower] on runes. *)
Lemma Map_lower s : Map lower s = encode (lower <$> decode s).
Proof.
  unfold Map. by rewrite filter_nonneg_valid
    by apply Forall_valid_fmap_lower, decode_valid.
Qed.

Lemma Map_lower_ascii s :
  Forall is_ascii s -> Map lower s = lower_ascii_byte <$> s.
Proof.
  intros Hs. rewrite Map_lower, decode_ascii by done.
  assert (lower <$> s = lower_ascii_byte <$> s) as ->.
  { apply Forall_fmap_ext. eapply Forall_impl; [done|]. apply lower_ascii. }
  by apply encode_ascii, Forall_lower_ascii_byte.
Qed.

(** The fast path computes what [Map] computes. *)
Theorem ToLower_fast_path s : wf_bytes s -> ToLower s = ToLower_ref s.
Proof.
  intros Hs. unfold ToLower, ToLower_ref.
  destruct (isASCII s) eqn:Ha; [|done].
  apply isASCII_spec in Ha; [|done]. rewrite Map_lower_ascii by done.
  destruct (hasUpper s) eqn:Hu; [done|]. by rewrite hasUpper_false.
Qed.

(** [ToLower] on runes: the encoding of the lower-cased runes. *)
Lemma ToLower_encode s : wf_bytes s -> ToLower s = encode (lower <$> decode s).
Proof.
  intros. rewrite ToLower_fast_path by done. unfold ToLower_ref.
  apply Map_lower.
Qed.

(** After [ToLower] a string is valid UTF-8, whatever it was before. *)
Theorem Valid_ToLower s : wf_bytes s -> Valid (ToLower s) = true.
Proof. intros. rewrite ToLower_encode by done. apply Valid_encode. Qed.

Lemma wf_bytes_ToLower s : wf_bytes s -> wf_bytes (ToLower s).
Proof. intros. rewrite ToLower_encode by done. apply wf_bytes_encode. Qed.

(** [ToLower] lower-cases the message rune by rune, on its fast path for
    ASCII as on the general path; a byte that is not UTF-8 is read as
    [RuneError]. *)
Lemma decode_ToLower s :
  wf_bytes s -> decode (ToLower s) = lower <$> decode s.
Proof.
  intros. rewrite ToLower_encode by done.
  apply decode_encode, Forall_valid_fmap_lower, decode_valid.
Qed.

Lemma ToLower_ascii s :
  Forall is_ascii s -> ToLower s = lower_ascii_byte <$> s.
Proof.
  intros Hs. rewrite ToLower_fast_path by by apply Forall_ascii_wf.
  by apply Map_lower_ascii.
Qed.

End to_lower_lemmas.
