(* ===== verification/UnicodeLatin.v ===== *)
(** * UnicodeLatin: an instance of the character tables

    A fragment of the Unicode character database, as an instance of
    [UnicodeTables]: Basic Latin, the Latin-1 Supplement, the block of
    combining diacritical marks (U+0300 to U+036F, all of them nonspacing
    marks, with their combining classes) and a few characters chosen because
    they exercise a path of [Check]:
    - U+1E08 and U+1E09, whose decomposition has two marks of different
      classes;
    - U+212B (angstrom sign), which lower-cases to a shorter encoding and
      whose decomposition is a singleton mapping;
    - U+1D15E (musical symbol half note), which decomposes into two runes
      that are not nonspacing marks and never composes again, so its
      normalisation is longer than itself;
    - the Hangul syllable U+AC00 with its two jamos U+1100 and U+1161, a
      composition of two starters.

    On the runes of the fragment the tables hold the values of the Unicode
    standard; a composition is listed when the composite is in the fragment.
    Every other rune is a starter without case, decomposition or
    composition.  The laws of the class are proved by a check of each table,
    run by the kernel. *)

From S2P Require Import Prelude Utf8 GoStrings Unicode.

(** ** Tables *)

(** Lookup in an association list by a boolean equality on the keys. *)
Definition assoc {K A} (eqb : K -> K -> bool) (k : K) (t : list (K * A)) : option A :=
  snd <$> find (fun e => eqb e.1 k) t.

Definition pair_eqb (x y : Z * Z) : bool := (x.1 =? y.1) && (x.2 =? y.2).

(** The letters of the Latin-1 Supplement with a decomposition, upper case:
    rune, base letter, mark.  The lower case letters are [0x20] above, rune
    and base. *)
Definition latin1_upper : list (Z * (Z * Z)) :=
  [ (0xC0, (0x41, 0x300)); (0xC1, (0x41, 0x301)); (0xC2, (0x41, 0x302));
    (0xC3, (0x41, 0x303)); (0xC4, (0x41, 0x308)); (0xC5, (0x41, 0x30A));
    (0xC7, (0x43, 0x327));
    (0xC8, (0x45, 0x300)); (0xC9, (0x45, 0x301)); (0xCA, (0x45, 0x302));
    (0xCB, (0x45, 0x308));
    (0xCC, (0x49, 0x300)); (0xCD, (0x49, 0x301)); (0xCE, (0x49, 0x302));
    (0xCF, (0x49, 0x308));
    (0xD1, (0x4E, 0x303));
    (0xD2, (0x4F, 0x300)); (0xD3, (0x4F, 0x301)); (0xD4, (0x4F, 0x302));
    (0xD5, (0x4F, 0x303)); (0xD6, (0x4F, 0x308));
    (0xD9, (0x55, 0x300)); (0xDA, (0x55, 0x301)); (0xDB, (0x55, 0x302));
    (0xDC, (0x55, 0x308)); (0xDD, (0x59, 0x301)) ].

Definition latin1_lower : list (Z * (Z * Z)) :=
  ((fun e => (e.1 + 0x20, (e.2.1 + 0x20, e.2.2))) <$> latin1_upper)
  ++ [ (0xFF, (0x79, 0x308)) ].

Definition latin1 : list (Z * (Z * Z)) := latin1_upper ++ latin1_lower.

(** Full canonical decompositions. *)
Definition decomp_table : list (Z * list Z) :=
  ((fun e => (e.1, [e.2.1; e.2.2])) <$> latin1)
  ++ [ (0x340, [0x300]); (0x341, [0x301]); (0x343, [0x313]);
       (0x344, [0x308; 0x301]);
       (0x1E08, [0x43; 0x327; 0x301]); (0x1E09, [0x63; 0x327; 0x301]);
       (0x212B, [0x41; 0x30A]);
       (0x1D15E, [0x1D157; 0x1D165]);
       (0xAC00, [0x1100; 0x1161]) ].

(** Primary composites: the pairs of the canonical decomposition mappings
    that are not excluded from composition. *)
Definition primary_table : list ((Z * Z) * Z) :=
  ((fun e => (e.2, e.1)) <$> latin1)
  ++ [ ((0xC7, 0x301), 0x1E08); ((0xE7, 0x301), 0x1E09);
       ((0x1100, 0x1161), 0xAC00) ].

(** Canonical combining classes, by ranges: first, last, class. *)
Definition ccc_table : list ((Z * Z) * Z) :=
  [ ((0x300, 0x314), 230); ((0x315, 0x315), 232); ((0x316, 0x319), 220);
    ((0x31A, 0x31A), 232); ((0x31B, 0x31B), 216); ((0x31C, 0x320), 220);
    ((0x321, 0x322), 202); ((0x323, 0x326), 220); ((0x327, 0x328), 202);
    ((0x329, 0x333), 220); ((0x334, 0x338), 1);   ((0x339, 0x33C), 220);
    ((0x33D, 0x344), 230); ((0x345, 0x345), 240); ((0x346, 0x346), 230);
    ((0x347, 0x349), 220); ((0x34A, 0x34C), 230); ((0x34D, 0x34E), 220);
    ((0x350, 0x352), 230); ((0x353, 0x356), 220); ((0x357, 0x357), 230);
    ((0x358, 0x358), 232); ((0x359, 0x35A), 220); ((0x35B, 0x35B), 230);
    ((0x35C, 0x35C), 233); ((0x35D, 0x35E), 234); ((0x35F, 0x35F), 233);
    ((0x360, 0x361), 234); ((0x362, 0x362), 233); ((0x363, 0x36F), 230);
    ((0x1D165, 0x1D165), 216) ].

Definition in_range (r : Z) (e : (Z * Z) * Z) : bool :=
  (e.1.1 <=? r) && (r <=? e.1.2).

(** ** The five tables of the interface *)

Definition lower_latin (r : Z) : Z :=
  if (0x41 <=? r) && (r <=? 0x5A) then r + 0x20
  else if (0xC0 <=? r) && (r <=? 0xDE) && negb (r =? 0xD7) then r + 0x20
  else if r =? 0x1E08 then 0x1E09
  else if r =? 0x212B then 0xE5
  else r.

Definition is_Mn_latin (r : Z) : bool := (0x300 <=? r) && (r <=? 0x36F).

Definition ccc_latin (r : Z) : Z :=
  match find (in_range r) ccc_table with
  | Some e => e.2
  | None => 0
  end.

Definition decomp_latin (r : Z) : list Z :=
  default [r] (assoc Z.eqb r decomp_table).

Definition primary_latin (a c : Z) : option Z :=
  assoc pair_eqb (a, c) primary_table.

(** A test of the tables that shows a character [stable]. *)
Definition stable_latin (r : Z) : bool :=
  negb (is_Mn_latin r) && (ccc_latin r =? 0) &&
  bool_decide (decomp_latin r = [r]) &&
  forallb (fun e => negb (e.1.2 =? r)) primary_table &&
  forallb (fun e => negb (e.1.1 =? r) || is_Mn_latin e.1.2) primary_table.

(** The test that an entry of a table is not about an ASCII character or
    the zero-width space. *)
Definition not_inert (r : Z) : bool := (0x80 <=? r) && negb (r =? 0x200B).

(** ** Lemmas on the lookups *)

Lemma forallb_Forall {A} (f : A -> bool) l :
  forallb f l = true -> Forall (fun x => f x = true) l.
Proof.
  induction l as [|x l IH]; [constructor|]. cbn [forallb].
  intros [? ?]%andb_true_iff. constructor; auto.
Qed.

Lemma find_forallb {A} (f P : A -> bool) l x :
  forallb P l = true -> find f l = Some x -> P x = true /\ f x = true.
Proof.
  rewrite forallb_forall. intros HP [Hx Hf]%find_some. auto.
Qed.

Lemma assoc_forallb {K A} (eqb : K -> K -> bool) (P : K * A -> bool) k t v :
  (forall x y, eqb x y = true -> x = y) ->
  forallb P t = true -> assoc eqb k t = Some v -> P (k, v) = true.
Proof.
  intros Heqb HP. unfold assoc.
  destruct (find _ t) as [[k' v']|] eqn:E; [|done]. intros [= <-].
  apply (find_forallb _ P) in E as [HPe Hk%Heqb]; [|done].
  cbn [fst] in Hk. by subst.
Qed.

Lemma pair_eqb_eq x y : pair_eqb x y = true -> x = y.
Proof.
  destruct x, y. unfold pair_eqb. cbn [fst snd].
  intros [?%Z.eqb_eq ?%Z.eqb_eq]%andb_true_iff. congruence.
Qed.

Lemma Z_eqb_eq x y : (x =? y) = true -> x = y.
Proof. apply Z.eqb_eq. Qed.

(** What a check of the table shows of every rune with a decomposition. *)
Lemma decomp_latin_forallb (P : Z * list Z -> bool) r :
  forallb P decomp_table = true ->
  decomp_latin r = [r] \/ P (r, decomp_latin r) = true.
Proof.
  intros HP. unfold decomp_latin.
  destruct (assoc Z.eqb r decomp_table) as [l|] eqn:E; [|by left].
  right. by eapply assoc_forallb; [apply Z_eqb_eq|..].
Qed.

Lemma primary_latin_forallb (P : (Z * Z) * Z -> bool) a c p :
  forallb P primary_table = true ->
  primary_latin a c = Some p -> P ((a, c), p) = true.
Proof. intros HP. by apply assoc_forallb; [apply pair_eqb_eq|]. Qed.

Lemma ccc_latin_forallb (P : (Z * Z) * Z -> bool) r :
  forallb P ccc_table = true ->
  ccc_latin r = 0 \/
  exists lo hi, lo <= r <= hi /\ P ((lo, hi), ccc_latin r) = true.
Proof.
  intros HP. unfold ccc_latin.
  destruct (find _ ccc_table) as [[[lo hi] c]|] eqn:E; [|by left].
  apply (find_forallb _ P) in E as [HPe Hr]; [|done].
  right. exists lo, hi. unfold in_range in Hr. cbn [fst snd] in *.
  split; [lia|done].
Qed.

(** ** The laws *)

Lemma lower_latin_ascii r :
  is_ascii r ->
  lower_latin r = if (0x41 <=? r) && (r <=? 0x5A) then r + 0x20 else r.
Proof. unfold is_ascii, lower_latin. intros. repeat case_if_lia. Qed.

Lemma lower_latin_valid r :
  ValidRune r = true -> ValidRune (lower_latin r) = true.
Proof.
  rewrite !ValidRune_spec. unfold lower_latin. unfold_consts.
  intros. repeat case_if_lia.
Qed.

Lemma lower_latin_idemp r : lower_latin (lower_latin r) = lower_latin r.
Proof.
  unfold lower_latin at 2 3. repeat case_if_lia; unfold lower_latin;
    repeat case_if_lia.
Qed.

Lemma is_Mn_latin_inert r : inert r -> is_Mn_latin r = false.
Proof. unfold inert, is_ascii, is_Mn_latin. lia. Qed.

Lemma ccc_latin_inert r : inert r -> ccc_latin r = 0.
Proof.
  intros [Hr| ->]; [|done].
  destruct (ccc_latin_forallb (fun e => 0x300 <=? e.1.1) r)
    as [?|(lo & hi & ? & Hlo)]; [done..|].
  unfold is_ascii in Hr. cbn [fst snd] in Hlo. lia.
Qed.

Lemma ccc_latin_nonneg r : 0 <= ccc_latin r.
Proof.
  destruct (ccc_latin_forallb (fun e => 0 <=? e.2) r)
    as [->|(lo & hi & _ & Hc)]; [done..|].
  cbn [fst snd] in Hc. lia.
Qed.

Lemma decomp_latin_inert r : inert r -> decomp_latin r = [r].
Proof.
  intros [Hr| ->]; [|done].
  destruct (decomp_latin_forallb (fun e => 0x80 <=? e.1) r) as [?|Hk];
    [done..|].
  unfold is_ascii in Hr. cbn [fst snd] in Hk. lia.
Qed.

Lemma decomp_latin_valid r :
  ValidRune r = true -> Forall (fun c => ValidRune c = true) (decomp_latin r).
Proof.
  intros Hr.
  destruct (decomp_latin_forallb (fun e => forallb ValidRune e.2) r)
    as [->|Hk]; [done|by repeat constructor|].
  cbn [fst snd] in Hk. by apply forallb_Forall.
Qed.

Lemma decomp_latin_idem r c : c ∈ decomp_latin r -> decomp_latin c = [c].
Proof.
  destruct (decomp_latin_forallb
    (fun e => forallb (fun c => bool_decide (decomp_latin c = [c])) e.2) r)
    as [Hr|Hk]; [done| |].
  - rewrite Hr. by intros ->%list_elem_of_singleton.
  - cbn [fst snd] in Hk. apply forallb_Forall in Hk.
    rewrite Forall_forall in Hk. intros Hc%Hk.
    by apply bool_decide_eq_true in Hc.
Qed.

Lemma decomp_latin_nonempty r : decomp_latin r <> [].
Proof.
  destruct (decomp_latin_forallb (fun e => bool_decide (e.2 <> [])) r)
    as [->|Hk]; [done..|].
  by apply bool_decide_eq_true in Hk.
Qed.

Lemma primary_latin_valid a c p :
  primary_latin a c = Some p -> ValidRune p = true.
Proof. by apply (primary_latin_forallb (fun e => ValidRune e.2)). Qed.

Lemma not_inert_spec r : not_inert r = true -> ~ inert r.
Proof. unfold not_inert, inert, is_ascii. lia. Qed.

Lemma primary_latin_inert_l a c p :
  inert a -> primary_latin a c = Some p -> is_Mn_latin c = true.
Proof.
  intros Ha Hp.
  apply (primary_latin_forallb
    (fun e => not_inert e.1.1 || is_Mn_latin e.1.2)) in Hp; [|done].
  cbn [fst snd] in Hp.
  by apply orb_true_iff in Hp as [?%not_inert_spec|?].
Qed.

Lemma primary_latin_inert_r a c : inert c -> primary_latin a c = None.
Proof.
  intros Hc. destruct (primary_latin a c) as [p|] eqn:Hp; [|done].
  apply (primary_latin_forallb (fun e => not_inert e.1.2)) in Hp; [|done].
  by apply not_inert_spec in Hp.
Qed.

(** A primary composite decomposes to what its two parts decompose to. *)
Lemma primary_latin_decomp a c p :
  primary_latin a c = Some p ->
  decomp_latin p = decomp_latin a ++ decomp_latin c.
Proof.
  intros Hp.
  apply (primary_latin_forallb (fun e =>
    bool_decide (decomp_latin e.2 = decomp_latin e.1.1 ++ decomp_latin e.1.2)))
    in Hp; [|done].
  by apply bool_decide_eq_true in Hp.
Qed.

(** The whitespace of the regular expressions is in none of the
    tables. *)
Lemma is_Mn_latin_space r : space_class r = true -> is_Mn_latin r = false.
Proof. unfold space_class, perl_space, is_Zs, is_Mn_latin. lia. Qed.

Lemma ccc_latin_space r : space_class r = true -> ccc_latin r = 0.
Proof.
  intros Hr.
  destruct (ccc_latin_forallb
    (fun e => (0x300 <=? e.1.1) && ((e.1.2 <=? 0x36F) || (e.1.1 =? 0x1D165))
              && (e.1.2 <=? 0x1D165)) r)
    as [?|(lo & hi & ? & Hlo)]; [done..|].
  cbn [fst snd] in Hlo. unfold space_class, perl_space, is_Zs in Hr. lia.
Qed.

Lemma primary_latin_space a c :
  space_class a = true \/ space_class c = true -> primary_latin a c = None.
Proof.
  intros Hac. destruct (primary_latin a c) as [p|] eqn:Hp; [|done].
  apply (primary_latin_forallb
    (fun e => negb (space_class e.1.1) && negb (space_class e.1.2)))
    in Hp; [|done].
  cbn [fst snd] in Hp. destruct Hac as [E|E]; rewrite E in Hp;
    by rewrite ?andb_false_r in Hp.
Qed.

Lemma primary_latin_not_space a c p :
  primary_latin a c = Some p -> space_class p = false.
Proof.
  intros Hp.
  apply (primary_latin_forallb (fun e => negb (space_class e.2))) in Hp;
    [|done].
  by apply negb_true_iff in Hp.
Qed.

(** ** The instance *)

#[export] Instance latin : UnicodeTables := {|
  lower := lower_latin;
  is_Mn := is_Mn_latin;
  ccc := ccc_latin;
  decomp := decomp_latin;
  primary := primary_latin;
  lower_ascii := lower_latin_ascii;
  lower_valid := lower_latin_valid;
  lower_idemp := lower_latin_idemp;
  is_Mn_inert := is_Mn_latin_inert;
  ccc_inert := ccc_latin_inert;
  ccc_nonneg := ccc_latin_nonneg;
  decomp_inert := decomp_latin_inert;
  decomp_valid := decomp_latin_valid;
  decomp_idem := decomp_latin_idem;
  decomp_nonempty := decomp_latin_nonempty;
  primary_valid := primary_latin_valid;
  primary_inert_l := primary_latin_inert_l;
  primary_inert_r := primary_latin_inert_r;
  primary_decomp := primary_latin_decomp;
  is_Mn_space := is_Mn_latin_space;
  ccc_space := ccc_latin_space;
  primary_space := primary_latin_space;
  primary_not_space := primary_latin_not_space;
|}.

(** ** Stable characters of the fragment *)

Lemma stable_latin_spec r : stable_latin r = true -> stable r.
Proof.
  unfold stable_latin, stable. cbn [is_Mn ccc decomp primary latin].
  rewrite !andb_true_iff, negb_true_iff, bool_decide_eq_true.
  intros ((((? & ?%Z.eqb_eq) & ?) & Hr) & Hl). split_and!; [done..| |].
  - intros a. destruct (primary_latin a r) as [p|] eqn:E; [|done].
    apply (primary_latin_forallb _ _ _ _ Hr) in E. cbn in E.
    by rewrite Z.eqb_refl in E.
  - intros c p E. apply (primary_latin_forallb _ _ _ _ Hl) in E. cbn in E.
    by rewrite Z.eqb_refl in E.
Qed.

Lemma assoc_is_Some {K A} (eqb : K -> K -> bool) (e : K * A) t :
  (forall k, eqb k k = true) -> e ∈ t -> is_Some (assoc eqb e.1 t).
Proof.
  intros Hrefl He. unfold assoc.
  destruct (find (fun e' => eqb e'.1 e.1) t) as [x|] eqn:E; [by eexists|].
  apply list_elem_of_In in He. eapply find_none in E; [|done].
  cbn in E. by rewrite Hrefl in E.
Qed.

Lemma primary_latin_is_Some e :
  e ∈ primary_table -> is_Some (primary_latin e.1.1 e.1.2).
Proof.
  intros He. unfold primary_latin. destruct e as [[a c] p]. cbn [fst snd].
  apply (assoc_is_Some pair_eqb ((a, c), p)); [|done].
  intros k. unfold pair_eqb. by rewrite !Z.eqb_refl.
Qed.

(** The test is exact. *)
Lemma stable_latin_complete r : stable r -> stable_latin r = true.
Proof.
  unfold stable_latin, stable. cbn [is_Mn ccc decomp primary latin].
  intros (HMn & Hccc & Hd & Hr & Hl).
  rewrite HMn, Hccc, (bool_decide_eq_true_2 _ Hd). cbn [negb andb Z.eqb].
  apply andb_true_iff. split; apply forallb_forall; intros e He%list_elem_of_In.
  - destruct (Z.eqb_spec e.1.2 r) as [<-|]; [|done].
    apply primary_latin_is_Some in He as [p Hp]. by rewrite Hr in Hp.
  - destruct (Z.eqb_spec e.1.1 r) as [<-|]; [|done]. cbn [negb orb].
    apply primary_latin_is_Some in He as [p Hp]. by eapply Hl.
Qed.

#[export] Instance stable_latin_dec r : Decision (stable r).
Proof.
  refine (cast_if (decide (stable_latin r = true)));
    [by apply stable_latin_spec|].
  intros Hr. by apply stable_latin_complete in Hr.
Defined.

(** ** [ToLower] with these tables

    An ASCII letter, the angstrom sign U+212B (three bytes, lower-cased to
    U+00E5 in two) and a byte that is not UTF-8. *)

Lemma decode_ToLower_witness :
  decode (ToLower [0x46; 0xE2; 0x84; 0xAB; 0xFF]) =
    lower <$> decode [0x46; 0xE2; 0x84; 0xAB; 0xFF].
Proof. apply decode_ToLower. compute_done. Defined.
