(* ===== verification/Normalize.v ===== *)
(** * Normalize: the diacritic stage of [Check]

    Lines 111-121 of [src/swearfilter.go]: the chain
    [transform.Chain(norm.NFD, runes.Remove(unicodeSet), norm.NFC)] run once
    over the message into a zeroed buffer of the message's length, and the
    whole buffer taken as the new message.  [unicodeSet] (lines 29 and
    221-226) is the set of nonspacing marks.

    The two normalisation forms are the algorithms of Unicode Standard Annex
    15 over the tables of [UnicodeTables]: decomposition of every rune and
    canonical ordering of the runs of combining marks ([NFD]), then the
    canonical composition pass with its blocking rule ([NFC]).

    The chain writes into a buffer that cannot grow, and packages
    [transform] and [norm], which are not part of the repository, return
    [ErrShortDst] when the text does not fit and also on some texts that
    would: the scan of [norm] stops where the buffer would end and a
    character is flushed only with room for the longest encoding.  When
    the chain gives up is therefore a parameter, the class [Chain], with
    the one law that a text longer than the buffer is refused; the
    theorems hold for every chain.  [whole_buffer] is the chain that
    refuses nothing else.

    The theorems show that a stage that succeeds returns the input's
    length (so a message that shrinks is padded with NUL bytes), that
    its only error is [ErrShortDst] and that it fails when the result is
    longer than the input, that the normalisation leaves ASCII text
    unchanged, alone or between other text, and that a run of
    [stable] characters (the ASCII characters, the zero-width space, the
    letters that take no part in a composition) that is left when the
    marks are removed is in the result as it is
    ([normalize_runes_segment]): the letters under the accents. *)

From S2P Require Import Prelude Utf8 GoStrings Unicode UnicodeLatin.

(** ** Definitions *)

(** [type unicodeSpaceSet struct{}] and [var unicodeSet]. *)
Inductive unicodeSpaceSet : Type := mk_unicodeSpaceSet.

Definition unicodeSet : unicodeSpaceSet := mk_unicodeSpaceSet.

(** The errors of package [transform] that a chain can return. *)
Inductive error : Type :=
| ErrShortDst
| ErrShortSrc.

#[export] Instance error_eq_dec : EqDecision error.
Proof. solve_decision. Defined.

Section normalize.
Context `{UnicodeTables}.

(** [func (u unicodeSpaceSet) Contains(r rune) bool]. *)
Definition Contains (u : unicodeSpaceSet) (r : Z) : bool := is_Mn r.

(** Canonical ordering: a combining mark moves left past the marks of a
    greater class, never past a starter. [run] is the run of marks since the
    last starter, already ordered. *)
Fixpoint insert_mark (c : Z) (run : list Z) : list Z :=
  match run with
  | [] => [c]
  | d :: run' => if ccc c <? ccc d then c :: run else d :: insert_mark c run'
  end.

Fixpoint reorder (run : list Z) (l : list Z) : list Z :=
  match l with
  | [] => run
  | c :: l' =>
    if ccc c =? 0 then run ++ c :: reorder [] l'
    else reorder (insert_mark c run) l'
  end.

(** [norm.NFD] on runes. *)
Definition NFD (rs : list Z) : list Z := reorder [] (rs ≫= decomp).

(** [runes.Remove(set)] on runes. *)
Definition Remove (set : unicodeSpaceSet) (rs : list Z) : list Z :=
  filter (fun r => Contains set r = false) rs.

(** A character is blocked from the last starter by a character between
    them whose class is not smaller than its own. *)
Definition blocked (pending : list Z) (c : Z) : bool :=
  existsb (fun b => ccc c <=? ccc b) pending.

Definition flush (L : option Z) (pending : list Z) : list Z :=
  match L with
  | Some s => s :: pending
  | None => pending
  end.

(** The canonical composition pass. [L] is the last starter and [pending]
    the characters after it that did not combine with it. *)
Fixpoint compose_go (L : option Z) (pending : list Z) (l : list Z) : list Z :=
  match l with
  | [] => flush L pending
  | c :: l' =>
    let p := match L with
             | Some s => if blocked pending c then None else primary s c
             | None => None
             end in
    match p with
    | Some sc => compose_go (Some sc) pending l'
    | None =>
      if ccc c =? 0 then flush L pending ++ compose_go (Some c) [] l'
      else compose_go L (pending ++ [c]) l'
    end
  end.

(** [norm.NFC] on runes. *)
Definition NFC (rs : list Z) : list Z := compose_go None [] (NFD rs).

(** The chain [normalize] of line 112, on runes. *)
Definition normalize_runes (rs : list Z) : list Z :=
  NFC (Remove unicodeSet (NFD rs)).

(** The text that the chain writes when it succeeds.  [src] is read as
    its runes: [Check] calls the transform on the result of [ToLower],
    which is valid UTF-8 ([Valid_ToLower]). *)
Definition normalized (src : bytes) : bytes :=
  encode (normalize_runes (decode src)).

(** When the chain gives up.  A chain of package [transform] returns
    [ErrShortDst] when the result does not fit [dst], and the
    transformers of package [norm] also return it before that: they write
    a segment only when [dst] has room for four bytes for each of its
    runes, and they stop reading at the length of [dst].  Which texts
    that fit are refused is a matter of that package and is left open
    here: [short_dst n src] says whether the chain gives up on [src] with
    a buffer of [n] bytes, and the one law is that it does when the
    result is longer than the buffer. *)
Class Chain := {
  short_dst : nat -> bytes -> bool;
  short_dst_long n src :
    (n < length (normalized src))%nat -> short_dst n src = true;
}.

Context {chain : Chain}.

(** [normalize.Transform(dst, src, true)], line 116: [ErrShortDst] when
    the chain gives up, and otherwise the whole result written at the
    start of [dst].  The counts [nDst] and [nSrc] are dropped by the
    caller and are not modelled; the contents of [dst] after a failure
    are not either, the caller returns at once. *)
Definition Transform (dst src : bytes) : result error bytes :=
  let out := normalized src in
  if short_dst (length dst) src then Err ErrShortDst
  else Ok (out ++ drop (length out) dst).

(** Lines 111-121: [bytes := make([]byte, len(message))], the transform,
    [message = string(bytes)]. *)
Definition normalize_stage (message : bytes) : result error bytes :=
  let bytes := replicate (length message) 0 in
  Transform bytes message.

(** A sequence without nonspacing marks. *)
Definition Mn_free (rs : list Z) : Prop := Forall (fun r => is_Mn r = false) rs.

(** ** Canonical ordering *)

Lemma insert_mark_Forall (P : Z -> Prop) c run :
  P c -> Forall P run -> Forall P (insert_mark c run).
Proof.
  intros Hc. induction 1 as [|d run Hd Hrun IH]; cbn [insert_mark].
  - by repeat constructor.
  - case_match; repeat constructor; done.
Qed.

Lemma reorder_Forall (P : Z -> Prop) run l :
  Forall P run -> Forall P l -> Forall P (reorder run l).
Proof.
  intros Hrun Hl. revert run Hrun.
  induction Hl as [|c l Hc Hl IH]; intros run Hrun; cbn [reorder]; [done|].
  case_match.
  - apply Forall_app. split; [done|]. constructor; [done|]. by apply IH.
  - by apply IH, insert_mark_Forall.
Qed.

Lemma reorder_app_starter run xs a ys :
  ccc a = 0 ->
  reorder run (xs ++ a :: ys) = reorder run xs ++ a :: reorder [] ys.
Proof.
  intros Ha. revert run. induction xs as [|c xs IH]; intros run.
  - cbn [app reorder]. by rewrite Ha.
  - cbn [app reorder]. case_match; [|done]. by rewrite IH, <- app_assoc.
Qed.

Lemma reorder_starters l :
  Forall (fun r => ccc r = 0) l -> reorder [] l = l.
Proof.
  induction 1 as [|c l Hc _ IH]; [done|].
  cbn [reorder]. by rewrite Hc, IH.
Qed.

Lemma insert_mark_length c run : length (insert_mark c run) = S (length run).
Proof.
  induction run as [|d run IH]; [done|]. cbn [insert_mark].
  case_match; cbn; by rewrite ?IH.
Qed.

Lemma reorder_length run l :
  length (reorder run l) = (length run + length l)%nat.
Proof.
  revert run. induction l as [|c l IH]; intros run; cbn [reorder].
  { cbn. lia. }
  case_match; rewrite ?length_app; cbn [length];
    rewrite IH, ?insert_mark_length; cbn; lia.
Qed.

(** ** Decomposition *)

Lemma NFD_app_stable xs a ys :
  stable a -> NFD (xs ++ a :: ys) = NFD xs ++ a :: NFD ys.
Proof.
  intros Ha. unfold NFD. rewrite bind_app, bind_cons, stable_decomp by done.
  cbn [app]. by rewrite reorder_app_starter by by apply stable_ccc.
Qed.

Lemma NFD_nil : NFD [] = [].
Proof. done. Qed.

Lemma NFD_cons_stable a ys : stable a -> NFD (a :: ys) = a :: NFD ys.
Proof. intros. by apply (NFD_app_stable [] a ys). Qed.

Lemma NFD_stable_prefix w ys : Forall stable w -> NFD (w ++ ys) = w ++ NFD ys.
Proof.
  induction 1 as [|a w Ha _ IH]; [done|].
  cbn [app]. by rewrite NFD_cons_stable, IH.
Qed.

Lemma NFD_stable rs : Forall stable rs -> NFD rs = rs.
Proof.
  intros. rewrite <- (app_nil_r rs) at 1. by rewrite NFD_stable_prefix, app_nil_r.
Qed.

Lemma bind_decomp_Forall (P : Z -> Prop) rs :
  (forall r, r ∈ rs -> Forall P (decomp r)) -> Forall P (rs ≫= decomp).
Proof.
  induction rs as [|r rs IH]; intros Hrs; [constructor|].
  rewrite bind_cons. apply Forall_app. split.
  - apply Hrs. by left.
  - apply IH. intros. apply Hrs. by right.
Qed.

Lemma NFD_valid rs :
  Forall (fun r => ValidRune r = true) rs ->
  Forall (fun r => ValidRune r = true) (NFD rs).
Proof.
  intros Hrs. apply reorder_Forall; [constructor|].
  apply bind_decomp_Forall. intros r Hr. apply decomp_valid.
  by eapply Forall_forall in Hrs.
Qed.

(** Every rune of a decomposed sequence is its own decomposition. *)
Lemma NFD_decomposed rs : Forall (fun c => decomp c = [c]) (NFD rs).
Proof.
  apply reorder_Forall; [constructor|].
  apply bind_decomp_Forall. intros r _. apply Forall_forall.
  intros c Hc. by eapply decomp_idem.
Qed.

Lemma bind_decomp_id l : Forall (fun c => decomp c = [c]) l -> l ≫= decomp = l.
Proof.
  induction 1 as [|c l Hc _ IH]; [done|]. by rewrite bind_cons, Hc, IH.
Qed.

(** ** Removal of the marks *)

Lemma Remove_Mn_free rs : Mn_free (Remove unicodeSet rs).
Proof.
  apply Forall_forall. by intros r [? _]%list_elem_of_filter.
Qed.

Lemma Remove_app rs1 rs2 :
  Remove unicodeSet (rs1 ++ rs2) = Remove unicodeSet rs1 ++ Remove unicodeSet rs2.
Proof. apply filter_app. Qed.

Lemma Remove_cons_stable a rs :
  stable a -> Remove unicodeSet (a :: rs) = a :: Remove unicodeSet rs.
Proof.
  intros Ha. unfold Remove. rewrite filter_cons.
  unfold Contains. by rewrite stable_Mn.
Qed.

Lemma Remove_stable rs : Forall stable rs -> Remove unicodeSet rs = rs.
Proof.
  induction 1 as [|a rs Ha _ IH]; [done|]. by rewrite Remove_cons_stable, IH.
Qed.

Lemma Remove_Forall (P : Z -> Prop) rs :
  Forall P rs -> Forall P (Remove unicodeSet rs).
Proof.
  rewrite !Forall_forall. intros Hrs r [_ ?]%list_elem_of_filter. auto.
Qed.

(** The decomposition that [NFC] starts with only reorders what the first
    two links left: no mark comes back. *)
Lemma NFD_Remove_NFD rs :
  NFD (Remove unicodeSet (NFD rs)) = reorder [] (Remove unicodeSet (NFD rs)).
Proof.
  unfold NFD at 1.
  by rewrite bind_decomp_id by apply Remove_Forall, NFD_decomposed.
Qed.

Lemma NFD_Remove_NFD_Mn_free rs : Mn_free (NFD (Remove unicodeSet (NFD rs))).
Proof.
  rewrite NFD_Remove_NFD. apply reorder_Forall; [constructor|].
  apply Remove_Mn_free.
Qed.

(** ** Composition *)

Lemma compose_go_app_stable L p xs a ys :
  stable a ->
  compose_go L p (xs ++ a :: ys) = compose_go L p xs ++ compose_go (Some a) [] ys.
Proof.
  intros Ha. revert L p. induction xs as [|c xs IH]; intros L p.
  - cbn [app compose_go]. rewrite stable_ccc by done.
    destruct L as [s|]; [|done]. rewrite stable_primary_r by done.
    by destruct (blocked p a).
  - cbn [app compose_go]. repeat case_match; rewrite ?IH, <- ?app_assoc; done.
Qed.

Lemma compose_go_stable_head a p ys :
  stable a -> Mn_free ys ->
  compose_go (Some a) p ys = a :: compose_go None p ys.
Proof.
  intros Ha Hys. revert p. induction Hys as [|c ys Hc _ IH]; intros p; [done|].
  cbn [compose_go].
  assert ((if blocked p c then None else primary a c) = None) as ->.
  { destruct (blocked p c); [done|]. destruct (primary a c) eqn:E; [|done].
    apply stable_primary_l in E; [congruence|done]. }
  case_match; [done|]. apply IH.
Qed.

Lemma compose_go_starters L p l :
  Forall (fun c => forall s, primary s c = None) l ->
  Forall (fun r => ccc r = 0) l ->
  compose_go L p l = flush L p ++ l.
Proof.
  intros Hl Hc. revert L p.
  induction Hl as [|c l Hp _ IH]; intros L p.
  { cbn. by rewrite app_nil_r. }
  apply Forall_cons in Hc as [Hc Hcs]. cbn [compose_go].
  assert (match L with
          | Some s => if blocked p c then None else primary s c
          | None => None
          end = None) as ->.
  { destruct L; [|done]. destruct (blocked p c); [done|apply Hp]. }
  rewrite Hc. cbn [Z.eqb]. by rewrite IH.
Qed.

(** A property of the characters that the primary composites of two
    characters with it have is kept by the composition pass. *)
Lemma compose_go_closed (P : Z -> Prop) L p l :
  (forall a c sc, P a -> P c -> primary a c = Some sc -> P sc) ->
  (forall s, L = Some s -> P s) -> Forall P p -> Forall P l ->
  Forall P (compose_go L p l).
Proof.
  intros Hprim HL Hp Hl. revert L p HL Hp.
  induction Hl as [|c l Hc _ IH]; intros L p HL Hp; cbn [compose_go].
  - destruct L; cbn; [constructor; auto|done].
  - repeat case_match; simplify_eq.
    all: try (apply IH; [by intros ? [= <-]; eauto|done]).
    all: try (apply Forall_app; split;
              [constructor; eauto | apply IH; [by intros ? [= <-]|constructor]]).
    all: try (apply Forall_app; split;
              [done | apply IH; [by intros ? [= <-]|constructor]]).
    all: try (apply IH; [done|apply Forall_app; split; [done|by constructor]]).
Qed.

Lemma compose_go_Forall (P : Z -> Prop) L p l :
  (forall a c sc, primary a c = Some sc -> P sc) ->
  (forall s, L = Some s -> P s) -> Forall P p -> Forall P l ->
  Forall P (compose_go L p l).
Proof. intros Hprim. apply compose_go_closed. eauto. Qed.

(** The pass deletes nothing: it writes every starter and every character
    that does not combine. *)
Lemma compose_go_nil L p l :
  compose_go L p l = [] -> L = None /\ p = [] /\ l = [].
Proof.
  revert L p. induction l as [|c l IH]; intros L p; cbn [compose_go].
  { destruct L; cbn; [done|]. by intros ->. }
  repeat case_match.
  all: try (intros (? & ? & ?)%IH; simplify_eq; by destruct p).
  all: intros [_ (? & ? & ?)%IH]%app_eq_nil; simplify_eq.
Qed.

(** A composite has a decomposition of two characters or more, and a
    stable character is its own. *)
Lemma primary_not_stable a c sc : primary a c = Some sc -> ~ stable sc.
Proof.
  intros E%primary_decomp Hsc. rewrite (stable_decomp sc) in E by done.
  pose proof (decomp_nonempty a). pose proof (decomp_nonempty c).
  destruct (decomp a) as [|? [|? ?]], (decomp c); done.
Qed.

(** ** The chain on runes *)

Lemma normalize_runes_compose rs :
  normalize_runes rs =
    compose_go None [] (reorder [] (Remove unicodeSet (NFD rs))).
Proof. unfold normalize_runes, NFC. by rewrite NFD_Remove_NFD. Qed.

Lemma normalize_runes_nil : normalize_runes [] = [].
Proof. done. Qed.

(** A stable character splits the composition of a text when no mark
    follows it. *)
Lemma NFC_app_stable xs a ys :
  stable a -> Mn_free (NFD ys) -> NFC (xs ++ a :: ys) = NFC xs ++ a :: NFC ys.
Proof.
  intros Ha Hys. unfold NFC. rewrite NFD_app_stable, compose_go_app_stable by done.
  by rewrite compose_go_stable_head.
Qed.

Lemma Mn_free_stable w : Forall stable w -> Mn_free w.
Proof. intros. eapply Forall_impl; [done|]. apply stable_Mn. Qed.

Lemma NFD_stable_prefix_Mn_free w ys :
  Forall stable w -> Mn_free (NFD ys) -> Mn_free (NFD (w ++ ys)).
Proof.
  intros Hw Hys. rewrite NFD_stable_prefix by done.
  by apply Forall_app_2; [apply Mn_free_stable|].
Qed.

Lemma NFC_app_stable_word xs w ys :
  Forall stable w -> w <> [] -> Mn_free (NFD ys) ->
  NFC (xs ++ w ++ ys) = NFC xs ++ w ++ NFC ys.
Proof.
  intros Hw. revert xs. induction Hw as [|a w Ha Hw IH]; intros xs Hne Hys; [done|].
  cbn [app]. rewrite NFC_app_stable by auto using NFD_stable_prefix_Mn_free.
  do 2 f_equal. destruct w as [|a' w]; [done|]. by apply (IH []).
Qed.

(** A decomposed text without marks has none after [NFD], which only
    reorders it. *)
Lemma NFD_Mn_free l :
  Mn_free l -> Forall (fun c => decomp c = [c]) l -> Mn_free (NFD l).
Proof.
  intros Hmn Hd. unfold NFD. rewrite bind_decomp_id by done.
  by apply reorder_Forall; [constructor|].
Qed.

(** An ASCII character is a fixed point of the chain and splits it. *)
Theorem normalize_runes_app_ascii xs a ys :
  is_ascii a ->
  normalize_runes (xs ++ a :: ys) =
    normalize_runes xs ++ a :: normalize_runes ys.
Proof.
  intros Ha%inert_ascii%inert_stable. unfold normalize_runes.
  rewrite NFD_app_stable by done.
  rewrite Remove_app, Remove_cons_stable by done.
  by rewrite NFC_app_stable by (done || apply NFD_Remove_NFD_Mn_free).
Qed.

(** An ASCII word passes through the chain unchanged and cuts it in two:
    what stands before the word and what stands after it are normalised
    apart, so no accent or mark around a word changes it. *)
Lemma normalize_runes_app_ascii_word xs w ys :
  Forall is_ascii w -> w <> [] ->
  normalize_runes (xs ++ w ++ ys) =
    normalize_runes xs ++ w ++ normalize_runes ys.
Proof.
  intros Hw. revert xs. induction Hw as [|a w Ha Hw IH]; intros xs Hne; [done|].
  cbn [app]. rewrite normalize_runes_app_ascii by done. do 2 f_equal.
  destruct w as [|a' w]; [done|]. by apply (IH []).
Qed.

Lemma normalize_runes_cons_ascii a ys :
  is_ascii a -> normalize_runes (a :: ys) = a :: normalize_runes ys.
Proof. intros. by apply (normalize_runes_app_ascii [] a ys). Qed.

(** A run of stable characters in the text is in the text once it is
    decomposed and its marks are removed. *)
Lemma Remove_NFD_keeps_word w rs :
  Forall stable w ->
  substring_of w rs -> substring_of w (Remove unicodeSet (NFD rs)).
Proof.
  intros Hw (xs & ys & ->)%substring_of_inv.
  destruct Hw as [|a w Ha Hw]; [exact (substring_of_app [] [] _)|].
  cbn [app]. rewrite NFD_app_stable, NFD_stable_prefix by done.
  rewrite Remove_app, Remove_cons_stable, Remove_app, (Remove_stable w) by done.
  apply (substring_of_app (a :: w)).
Qed.

(** A run of stable characters that stands in the text once it is
    decomposed and its marks are removed stands in the result of the
    chain, between the composition of what is before it and of what is
    after it: the letters under the accents are found. *)
Lemma normalize_runes_segment xs w ys rs :
  Forall stable w -> w <> [] ->
  Remove unicodeSet (NFD rs) = xs ++ w ++ ys ->
  normalize_runes rs = NFC xs ++ w ++ NFC ys.
Proof.
  intros Hw Hne E. unfold normalize_runes.
  pose proof (Remove_Mn_free (NFD rs)) as Hmn.
  pose proof (Remove_Forall _ _ (NFD_decomposed rs)) as Hd.
  rewrite E in Hmn, Hd |- *. unfold Mn_free in Hmn.
  rewrite !Forall_app in Hmn, Hd.
  rewrite NFC_app_stable_word; [done..|]. apply NFD_Mn_free; tauto.
Qed.

Lemma normalize_runes_ascii rs : Forall is_ascii rs -> normalize_runes rs = rs.
Proof.
  induction 1 as [|a rs Ha _ IH]; [done|].
  by rewrite normalize_runes_cons_ascii, IH.
Qed.

Lemma normalize_runes_valid rs :
  Forall (fun r => ValidRune r = true) rs ->
  Forall (fun r => ValidRune r = true) (normalize_runes rs).
Proof.
  intros Hrs. unfold normalize_runes, NFC.
  apply compose_go_Forall; [apply primary_valid|done|constructor|].
  by apply NFD_valid, Remove_Forall, NFD_valid.
Qed.

(** ** The stage on bytes *)

(** A chain that does not give up had room for the result. *)
Lemma short_dst_fits n src :
  short_dst n src = false -> (length (normalized src) <= n)%nat.
Proof.
  intros E. destruct (decide (n < length (normalized src))%nat) as [Hlt|];
    [|lia].
  apply short_dst_long in Hlt. congruence.
Qed.

Lemma Transform_Ok dst src out :
  Transform dst src = Ok out <->
  short_dst (length dst) src = false /\
  out = normalized src ++ drop (length (normalized src)) dst.
Proof.
  unfold Transform. cbv zeta. case_match.
  - split; [done|]. by intros [? _].
  - split; [by intros [= <-]|by intros [_ ->]].
Qed.

Lemma Transform_Err dst src e :
  Transform dst src = Err e <->
  e = ErrShortDst /\ short_dst (length dst) src = true.
Proof.
  unfold Transform. cbv zeta. case_match.
  - split; [by intros [= <-]|by intros [-> _]].
  - split; [done|]. by intros [_ ?].
Qed.

(** A transform that succeeds leaves the buffer at its length. *)
Lemma Transform_length dst src out :
  Transform dst src = Ok out -> length out = length dst.
Proof.
  intros [Hle%short_dst_fits ->]%Transform_Ok.
  rewrite length_app, length_drop. lia.
Qed.

Lemma normalize_stage_Ok message out :
  normalize_stage message = Ok out <->
  short_dst (length message) message = false /\
  out = normalized message ++
        replicate (length message - length (normalized message)) 0.
Proof.
  unfold normalize_stage. cbv zeta.
  by rewrite Transform_Ok, drop_replicate, length_replicate.
Qed.

Lemma normalize_stage_Err message e :
  normalize_stage message = Err e <->
  e = ErrShortDst /\ short_dst (length message) message = true.
Proof.
  unfold normalize_stage. cbv zeta. by rewrite Transform_Err, length_replicate.
Qed.

(** The stage fails when the normalised text is longer than the message. *)
Lemma normalize_stage_long message :
  (length message < length (normalized message))%nat ->
  normalize_stage message = Err ErrShortDst.
Proof. intros Hlt. apply normalize_stage_Err. auto using short_dst_long. Qed.

(** The stage never changes the length of the message: the caller takes
    the whole buffer, not the bytes written. *)
Theorem normalize_stage_length message out :
  normalize_stage message = Ok out -> length out = length message.
Proof.
  unfold normalize_stage. cbv zeta. intros ->%Transform_length.
  apply length_replicate.
Qed.

Lemma normalized_ascii s : Forall is_ascii s -> normalized s = s.
Proof.
  intros. unfold normalized.
  by rewrite decode_ascii, normalize_runes_ascii, encode_ascii.
Qed.

(** An ASCII message leaves the stage as it is, when the chain does not
    give up on it. *)
Lemma normalize_stage_ascii message out :
  Forall is_ascii message -> normalize_stage message = Ok out ->
  out = message.
Proof.
  intros Hm [_ ->]%normalize_stage_Ok. rewrite normalized_ascii by done.
  by rewrite Nat.sub_diag, app_nil_r.
Qed.

Lemma Valid_normalized s : Valid (normalized s) = true.
Proof. apply Valid_encode. Qed.

Lemma decode_normalized s : decode (normalized s) = normalize_runes (decode s).
Proof. apply decode_encode, normalize_runes_valid, decode_valid. Qed.

Lemma Forall_ascii_replicate_0 n : Forall is_ascii (replicate n 0).
Proof. apply Forall_replicate. unfold is_ascii. lia. Qed.

Lemma Valid_normalize_stage message out :
  normalize_stage message = Ok out -> Valid out = true.
Proof.
  intros [_ ->]%normalize_stage_Ok.
  apply Valid_app; [apply Valid_normalized|].
  apply Valid_ascii, Forall_ascii_replicate_0.
Qed.

Lemma wf_bytes_normalize_stage message out :
  normalize_stage message = Ok out -> wf_bytes out.
Proof.
  intros [_ ->]%normalize_stage_Ok.
  apply wf_bytes_app; [apply wf_bytes_encode|].
  apply Forall_ascii_wf, Forall_ascii_replicate_0.
Qed.

(** The runes of the stage's result: those of the chain, then one NUL for
    every byte the chain saved. *)
Lemma decode_normalize_stage message out :
  normalize_stage message = Ok out ->
  decode out = normalize_runes (decode message) ++
               replicate (length message - length (normalized message)) 0.
Proof.
  intros [_ ->]%normalize_stage_Ok.
  rewrite decode_app_Valid, decode_normalized by apply Valid_normalized.
  by rewrite (decode_ascii (replicate _ _)) by apply Forall_ascii_replicate_0.
Qed.

(** When the chain shortens the message (a mark is removed, a character
    composes), the message that leaves the stage ends in a NUL byte: it is
    not the normalised text. *)
Lemma normalize_stage_padded message out :
  normalize_stage message = Ok out ->
  (length (normalized message) < length message)%nat ->
  last out = Some 0.
Proof.
  intros [_ ->]%normalize_stage_Ok Hlt.
  destruct (length message - length (normalized message))%nat as [|k] eqn:E;
    [lia|].
  by rewrite replicate_S_end, app_assoc, last_snoc.
Qed.

End normalize.

(** ** A chain for the examples

    The chain that gives up only when the result does not fit the buffer.
    The examples of the development are run with it and with the tables
    of [UnicodeLatin]; every theorem is proved for every chain. *)

Definition whole_buffer `{UnicodeTables} : Chain :=
  {| short_dst n src := (n <? length (normalized src))%nat;
     short_dst_long n src := proj2 (Nat.ltb_lt n (length (normalized src))) |}.

Definition latin_chain : @Chain latin := whole_buffer.

#[local] Existing Instance latin_chain.

(** ** The theorems at concrete messages

    With the tables of [UnicodeLatin]: e with an acute accent, U+00E9, is
    two bytes and its normalisation is one. *)

Lemma normalize_stage_padded_witness : last [0x65; 0x00] = Some 0.
Proof.
  apply (normalize_stage_padded [0xC3; 0xA9]); [vm_compute; reflexivity|].
  compute_done.
Defined.

Lemma normalize_stage_length_witness :
  length [0x65; 0x00] = length [0xC3; 0xA9].
Proof.
  apply (normalize_stage_length [0xC3; 0xA9]). vm_compute. reflexivity.
Defined.

Lemma normalize_runes_app_ascii_word_witness :
  normalize_runes ([0xE9] ++ [0x66; 0x6F; 0x6F] ++ [0x301; 0x62]) =
    normalize_runes [0xE9] ++ [0x66; 0x6F; 0x6F] ++ normalize_runes [0x301; 0x62].
Proof.
  apply normalize_runes_app_ascii_word; [compute_done|discriminate].
Defined.
