(* ===== verification/Whitespace.v ===== *)
(** * Whitespace: the three whitespace stages of [Check]

    Lines 123-139 of [src/swearfilter.go]: tabs turned into spaces
    ([strings.Replace]), zero-width spaces deleted ([strings.Replace] with
    the encoding of U+200B), and the two regular expressions, each used with
    [ReplaceAllString(message, "")]:
    - [^[\s\p{Zs}]+|[\s\p{Zs}]+$] deletes the leading and the trailing run
      of whitespace;
    - [[\s\p{Zs}]{2,}] deletes every run of two or more whitespace
      characters and keeps a whitespace character that stands alone.

    A regular expression of Go reads its input rune by rune, an invalid byte
    as [RuneError], which is in no class here.  Both replacements are
    written as the scan the matcher makes over the runes of the message
    ([chunks]), with the run of whitespace read so far as its state; the
    theorems relate the scans to what they mean: the trimmed text is the
    message without a whitespace prefix and suffix, and it neither starts
    nor ends with whitespace.  Each stage on bytes computes a function on
    the runes of valid UTF-8 ([tab_runes], [zero_width_runes],
    [whitespace_runes]), and a rune that no stage looks for is still in
    the message after each stage. *)

From S2P Require Import Prelude Utf8 GoStrings Unicode.

(** ** Definitions *)

(** The string literals of lines 125, 130 and 146. *)
Definition tab : bytes := [0x09].
Definition space : bytes := [0x20].
Definition zwsp : bytes := [0xE2; 0x80; 0x8B].

(** Lines 124-126, the body of the conditional. *)
Definition tab_stage (message : bytes) : bytes := Replace message tab space (-1).

(** Lines 129-131, the body of the conditional. *)
Definition zero_width_stage (message : bytes) : bytes :=
  Replace message zwsp [] (-1).

Section scan.
Context {A : Type} (sp : A -> bool).

(** What a replace-all of [{2,}] leaves of a maximal run of the class. *)
Definition emit (run : list A) : list A :=
  if (2 <=? length run)%nat then [] else run.

(** The scan of [[\s\p{Zs}]{2,}]: [run] is the run of the class that ends at
    the current position. *)
Fixpoint inside (run l : list A) : list A :=
  match l with
  | [] => emit run
  | c :: l' =>
    if sp c then inside (run ++ [c]) l'
    else emit run ++ c :: inside [] l'
  end.

(** The scan of [^[\s\p{Zs}]+|[\s\p{Zs}]+$]: a run is deleted when it
    starts the text ([start]) or when the text ends with it. *)
Fixpoint lead_close (start : bool) (run l : list A) : list A :=
  match l with
  | [] => []
  | c :: l' =>
    if sp c then lead_close start (run ++ [c]) l'
    else (if start then [] else run) ++ c :: lead_close false [] l'
  end.

(** A text that neither starts nor ends with a character of the class. *)
Definition trimmed (l : list A) : Prop :=
  (forall c, head l = Some c -> sp c = false) /\
  (forall c, last l = Some c -> sp c = false).

(** A text in which no two characters of the class stand side by side. *)
Fixpoint single (l : list A) : bool :=
  match l with
  | c :: (c' :: _) as l' => negb (sp c && sp c') && single l'
  | _ => true
  end.

End scan.

Definition is_space_chunk (c : Z * bytes) : bool := space_class c.1.

(** The text of a sequence of runes, each with the bytes it was read from. *)
Definition text (cs : list (Z * bytes)) : bytes := concat cs.*2.

(** Lines 135-136. *)
Definition regexLeadCloseWhitepace (message : bytes) : bytes :=
  text (lead_close is_space_chunk true [] (chunks message)).

(** Lines 137-138. *)
Definition regexInsideWhitespace (message : bytes) : bytes :=
  text (inside is_space_chunk [] (chunks message)).

(** Lines 134-139, the body of the conditional. *)
Definition whitespace_stage (message : bytes) : bytes :=
  regexInsideWhitespace (regexLeadCloseWhitepace message).

(** What the three stages do to the runes of a message of valid UTF-8: the
    stages on bytes are proved to compute them. *)
Definition tab_runes (rs : list Z) : list Z :=
  (fun r => if bool_decide (r = 0x09) then 0x20 else r) <$> rs.

Definition zero_width_runes (rs : list Z) : list Z :=
  filter (fun r => r <> 0x200B) rs.

Definition whitespace_runes (rs : list Z) : list Z :=
  inside space_class [] (lead_close space_class true [] rs).

(** ** The scans *)

Section scan_lemmas.
Context {A : Type} (sp : A -> bool).
Implicit Types run l w : list A.

Lemma emit_sublist run : emit run = [] \/ emit run = run.
Proof. unfold emit. case_match; auto. Qed.

Lemma inside_app_word run w l :
  Forall (fun c => sp c = false) w -> w <> [] ->
  inside sp run (w ++ l) = emit run ++ w ++ inside sp [] l.
Proof.
  intros Hw. revert run. induction Hw as [|c w Hc Hw IH]; intros run Hne; [done|].
  cbn [app inside]. rewrite Hc. do 2 f_equal.
  destruct w as [|c' w]; [done|]. by rewrite IH.
Qed.

(** A word without whitespace survives [inside], wherever it stands. *)
Lemma inside_keeps_word run xs w ys :
  Forall (fun c => sp c = false) w -> w <> [] ->
  exists xs', inside sp run (xs ++ w ++ ys) = xs' ++ w ++ inside sp [] ys.
Proof.
  intros Hw Hne. revert run. induction xs as [|x xs IH]; intros run.
  - exists (emit run). rewrite app_nil_l. by apply inside_app_word.
  - cbn [app inside]. destruct (sp x).
    + apply IH.
    + destruct (IH []) as [xs' ->]. exists (emit run ++ x :: xs').
      by rewrite <- app_assoc.
Qed.

Lemma lead_close_app_word start run w l :
  Forall (fun c => sp c = false) w -> w <> [] ->
  lead_close sp start run (w ++ l) =
    (if start then [] else run) ++ w ++ lead_close sp false [] l.
Proof.
  intros Hw. revert start run.
  induction Hw as [|c w Hc Hw IH]; intros start run Hne; [done|].
  cbn [app lead_close]. rewrite Hc. do 2 f_equal.
  destruct w as [|c' w]; [done|]. by rewrite IH.
Qed.

(** A word without whitespace survives [lead_close], wherever it stands. *)
Lemma lead_close_keeps_word start run xs w ys :
  Forall (fun c => sp c = false) w -> w <> [] ->
  exists xs',
    lead_close sp start run (xs ++ w ++ ys) = xs' ++ w ++ lead_close sp false [] ys.
Proof.
  intros Hw Hne. revert start run. induction xs as [|x xs IH]; intros start run.
  - eexists. rewrite app_nil_l. by apply lead_close_app_word.
  - cbn [app lead_close]. destruct (sp x).
    + apply IH.
    + destruct (IH false []) as [xs' ->].
      exists ((if start then [] else run) ++ x :: xs').
      by rewrite <- app_assoc.
Qed.

(** A text of whitespace only is deleted whole. *)
Lemma lead_close_spaces start run l :
  Forall (fun c => sp c = true) l -> lead_close sp start run l = [].
Proof.
  intros Hl. revert run. induction Hl as [|c l Hc _ IH]; intros run; [done|].
  cbn [lead_close]. by rewrite Hc.
Qed.

(** The scan after the first character that is not whitespace: a suffix of
    whitespace is cut from [run ++ l], and nothing else. *)
Lemma lead_close_false_spec run l :
  Forall (fun c => sp c = true) run ->
  exists post,
    run ++ l = lead_close sp false run l ++ post /\
    Forall (fun c => sp c = true) post /\
    (forall c, last (lead_close sp false run l) = Some c -> sp c = false).
Proof.
  revert run. induction l as [|c l IH]; intros run Hrun.
  - exists run. by rewrite app_nil_r.
  - cbn [lead_close]. destruct (sp c) eqn:Hc.
    + destruct (IH (run ++ [c])) as (post & E & Hpost & Hlast).
      { apply Forall_app. by repeat constructor. }
      exists post. by rewrite <- E, <- app_assoc.
    + destruct (IH []) as (post & E & Hpost & Hlast); [constructor|].
      exists post. cbn [app] in E. rewrite <- !app_assoc. cbn [app].
      rewrite <- E. split; [done|]. split; [done|].
      intros d. rewrite last_app, last_cons.
      destruct (last (lead_close sp false [] l)) eqn:El; naive_solver.
Qed.

(** The scan from the start of the text, with the run read so far. *)
Lemma lead_close_true_spec run l :
  Forall (fun c => sp c = true) run ->
  exists pre post,
    run ++ l = pre ++ lead_close sp true run l ++ post /\
    Forall (fun c => sp c = true) pre /\
    Forall (fun c => sp c = true) post /\
    trimmed sp (lead_close sp true run l).
Proof.
  revert run. induction l as [|c l IH]; intros run Hrun.
  - exists run, []. by rewrite !app_nil_r.
  - cbn [lead_close]. destruct (sp c) eqn:Hc.
    + destruct (IH (run ++ [c])) as (pre & post & E & ?);
        [apply Forall_app; by repeat constructor|].
      exists pre, post. by rewrite <- E, <- app_assoc.
    + destruct (lead_close_false_spec [] l) as (post & E & Hpost & Hlast);
        [constructor|].
      exists run, post. cbn [app] in *. rewrite <- E.
      repeat split; [done..|by intros ? [= <-]|].
      intros d. rewrite last_cons.
      destruct (last (lead_close sp false [] l)) eqn:El; naive_solver.
Qed.

(** C11: [lead_close] trims: the text is a whitespace prefix, the result
    and a whitespace suffix, and the result neither starts nor ends with
    whitespace. *)
Theorem lead_close_trims l :
  exists pre post,
    l = pre ++ lead_close sp true [] l ++ post /\
    Forall (fun c => sp c = true) pre /\
    Forall (fun c => sp c = true) post /\
    trimmed sp (lead_close sp true [] l).
Proof. by apply (lead_close_true_spec []). Qed.

(** The scans commute with a renaming of the characters. *)
Lemma lead_close_fmap {B} (f : B -> A) start (run l : list B) :
  lead_close sp start (f <$> run) (f <$> l) =
    f <$> lead_close (sp ∘ f) start run l.
Proof.
  revert start run. induction l as [|c l IH]; intros start run; [done|].
  cbn [fmap list_fmap lead_close compose].
  destruct (sp (f c)).
  - by rewrite <- IH, fmap_app.
  - rewrite fmap_app, fmap_cons, <- (IH false []). by destruct start.
Qed.

Lemma emit_fmap {B} (f : B -> A) (run : list B) :
  emit (f <$> run) = f <$> emit run.
Proof. unfold emit. rewrite length_fmap. by case_match. Qed.

Lemma inside_fmap {B} (f : B -> A) (run l : list B) :
  inside sp (f <$> run) (f <$> l) = f <$> inside (sp ∘ f) run l.
Proof.
  revert run. induction l as [|c l IH]; intros run; [apply emit_fmap|].
  cbn [fmap list_fmap inside compose].
  destruct (sp (f c)).
  - by rewrite <- IH, fmap_app.
  - by rewrite fmap_app, fmap_cons, <- (IH []), emit_fmap.
Qed.

Lemma emit_Forall (P : A -> Prop) run : Forall P run -> Forall P (emit run).
Proof. intros. by destruct (emit_sublist run) as [-> | ->]. Qed.

Lemma inside_Forall (P : A -> Prop) run l :
  Forall P run -> Forall P l -> Forall P (inside sp run l).
Proof.
  intros Hrun Hl. revert run Hrun.
  induction Hl as [|c l Hc _ IH]; intros run Hrun; cbn [inside].
  - by apply emit_Forall.
  - case_match; [apply IH, Forall_app; by repeat constructor|].
    apply Forall_app. split; [by apply emit_Forall|].
    constructor; [done|]. by apply IH.
Qed.

Lemma lead_close_Forall (P : A -> Prop) start run l :
  Forall P run -> Forall P l -> Forall P (lead_close sp start run l).
Proof.
  intros Hrun Hl. revert start run Hrun.
  induction Hl as [|c l Hc _ IH]; intros start run Hrun; cbn [lead_close];
    [constructor|].
  case_match; [apply IH, Forall_app; by repeat constructor|].
  apply Forall_app. split; [by destruct start|].
  constructor; [done|]. by apply IH.
Qed.

(** A character that is not whitespace cuts both scans in two. *)
Lemma inside_app_letter run l a l2 :
  sp a = false ->
  inside sp run (l ++ a :: l2) = inside sp run (l ++ [a]) ++ inside sp [] l2.
Proof.
  intros Ha. revert run. induction l as [|c l IH]; intros run; cbn [app inside].
  - rewrite Ha. cbn. by rewrite <- app_assoc.
  - destruct (sp c); [done|]. by rewrite IH, <- app_assoc.
Qed.

Lemma lead_close_app_letter start run l a l2 :
  sp a = false ->
  lead_close sp start run (l ++ a :: l2) =
    lead_close sp start run (l ++ [a]) ++ lead_close sp false [] l2.
Proof.
  intros Ha. revert start run.
  induction l as [|c l IH]; intros start run; cbn [app lead_close].
  - rewrite Ha. cbn. by rewrite <- app_assoc.
  - destruct (sp c); [done|]. by rewrite IH, <- app_assoc.
Qed.

Lemma lead_close_snoc_letter start run l a :
  sp a = false ->
  exists l', lead_close sp start run (l ++ [a]) = l' ++ [a].
Proof.
  intros Ha. destruct (lead_close_keeps_word start run l [a] []) as [l' E];
    [by constructor|done|].
  cbn [app lead_close] in E. by exists l'.
Qed.

(** A run of whitespace between two letters is kept by the first scan,
    and the second scan deletes it when it has two characters or more. *)
Lemma lead_close_run run l b l2 :
  Forall (fun c => sp c = true) l -> sp b = false ->
  lead_close sp false run (l ++ b :: l2) =
    run ++ l ++ lead_close sp true [] (b :: l2).
Proof.
  intros Hl Hb. revert run. induction Hl as [|c l Hc _ IH]; intros run.
  - cbn [app lead_close]. by rewrite Hb.
  - cbn [app lead_close]. by rewrite Hc, IH, <- app_assoc.
Qed.

Lemma inside_run run l b l2 :
  Forall (fun c => sp c = true) l -> sp b = false ->
  inside sp run (l ++ b :: l2) = emit (run ++ l) ++ inside sp [] (b :: l2).
Proof.
  intros Hl Hb. revert run. induction Hl as [|c l Hc _ IH]; intros run.
  - cbn [app inside]. by rewrite Hb, app_nil_r.
  - cbn [app inside]. rewrite Hc, IH. by rewrite <- app_assoc.
Qed.

End scan_lemmas.

(** ** Tabs and zero-width spaces *)

(** Every tab becomes a space and no other byte changes. *)
Lemma tab_stage_spec message :
  tab_stage message =
    (fun b => if bool_decide (b = 0x09) then 0x20 else b) <$> message.
Proof. apply Replace_byte_byte. Qed.

Lemma length_tab_stage message : length (tab_stage message) = length message.
Proof. by rewrite tab_stage_spec, length_fmap. Qed.

Lemma zwsp_EncodeRune : zwsp = EncodeRune 0x200B.
Proof. done. Qed.

Lemma bind_EncodeRune_filter z rs :
  rs ≫= (fun r => if bool_decide (r = z) then [] else EncodeRune r) =
    encode (filter (fun r => r <> z) rs).
Proof.
  induction rs as [|r rs IH]; [done|].
  rewrite bind_cons, filter_cons, IH.
  case_bool_decide; case_decide; done.
Qed.

(** On valid UTF-8 the deletion of the three bytes is the deletion of the
    rune U+200B. *)
Theorem zero_width_stage_runes message :
  Valid message = true ->
  zero_width_stage message = encode (zero_width_runes (decode message)).
Proof.
  intros Hm. rewrite <- (encode_decode_Valid message Hm) at 1.
  unfold zero_width_stage. rewrite zwsp_EncodeRune.
  rewrite Replace_rune by (done || apply decode_valid).
  apply bind_EncodeRune_filter.
Qed.

(** The message without its spaces, as the second search reads it (line
    160), is the message without the rune U+0020. *)
Lemma Replace_space_runes message :
  Valid message = true ->
  Replace message space [] (-1) =
    encode (filter (fun r => r <> 0x20) (decode message)).
Proof.
  intros Hm. rewrite <- (encode_decode_Valid message Hm) at 1.
  change space with (EncodeRune 0x20).
  rewrite Replace_rune by (done || apply decode_valid).
  apply bind_EncodeRune_filter.
Qed.

(** ** The regular expressions on valid UTF-8 *)

Lemma chunks_Valid s :
  Valid s = true -> chunks s = (fun r => (r, EncodeRune r)) <$> decode s.
Proof.
  intros Hs. rewrite <- (encode_decode_Valid s Hs) at 1.
  rewrite chunks_encode. apply Forall_fmap_ext.
  eapply Forall_impl; [apply decode_valid|].
  intros r Hr. cbn. by rewrite sanitize_valid.
Qed.

Lemma text_runes rs : text ((fun r => (r, EncodeRune r)) <$> rs) = encode rs.
Proof.
  unfold text. induction rs as [|r rs IH]; [done|].
  rewrite !fmap_cons, encode_cons. cbn [concat snd]. by rewrite IH.
Qed.

Lemma regexLeadCloseWhitepace_runes message :
  Valid message = true ->
  regexLeadCloseWhitepace message =
    encode (lead_close space_class true [] (decode message)).
Proof.
  intros Hm. unfold regexLeadCloseWhitepace. rewrite chunks_Valid by done.
  by rewrite (lead_close_fmap is_space_chunk _ true []), text_runes.
Qed.

Lemma regexInsideWhitespace_runes message :
  Valid message = true ->
  regexInsideWhitespace message =
    encode (inside space_class [] (decode message)).
Proof.
  intros Hm. unfold regexInsideWhitespace. rewrite chunks_Valid by done.
  by rewrite (inside_fmap is_space_chunk _ []), text_runes.
Qed.

(** The whole stage on runes. *)
Theorem whitespace_stage_runes message :
  Valid message = true ->
  whitespace_stage message = encode (whitespace_runes (decode message)).
Proof.
  intros Hm. unfold whitespace_stage.
  rewrite regexLeadCloseWhitepace_runes by done.
  rewrite regexInsideWhitespace_runes by apply Valid_encode.
  rewrite decode_encode; [done|].
  apply lead_close_Forall; [constructor|apply decode_valid].
Qed.

Lemma tab_stage_runes message :
  Valid message = true ->
  tab_stage message = encode (tab_runes (decode message)).
Proof.
  intros Hm. rewrite <- (encode_decode_Valid message Hm) at 1.
  unfold tab_stage, tab. change [0x09] with (EncodeRune 0x09).
  rewrite Replace_rune by (done || apply decode_valid). unfold tab_runes.
  induction (decode message) as [|r rs IH]; [done|].
  rewrite bind_cons, fmap_cons, encode_cons, IH. by case_bool_decide.
Qed.

Lemma Valid_tab_stage message :
  Valid message = true -> Valid (tab_stage message) = true.
Proof. intros. rewrite tab_stage_runes by done. apply Valid_encode. Qed.

(** ** The stages as functions on runes

    On valid UTF-8, and the message is valid when the stages run, each
    stage commutes with decoding.  The functions on runes keep the runes
    valid, so the stages compose on runes as they do on bytes. *)

Lemma tab_runes_valid rs : valid_runes rs -> valid_runes (tab_runes rs).
Proof.
  intros. apply Forall_fmap. eapply Forall_impl; [done|]. intros r Hr. cbn.
  by case_bool_decide.
Qed.

Lemma zero_width_runes_valid rs :
  valid_runes rs -> valid_runes (zero_width_runes rs).
Proof. apply Forall_filter_weaken. Qed.

Lemma whitespace_runes_valid rs :
  valid_runes rs -> valid_runes (whitespace_runes rs).
Proof. intros. apply inside_Forall, lead_close_Forall; by try constructor. Qed.

(** A stage on bytes that computes [g] on the runes of valid UTF-8 sends
    the encoding of [rs] to the encoding of [g rs]. *)
Lemma stage_encode (f : bytes -> bytes) (g : list Z -> list Z) rs :
  (forall m, Valid m = true -> f m = encode (g (decode m))) ->
  valid_runes rs -> f (encode rs) = encode (g rs).
Proof. intros Hf Hrs. by rewrite Hf, decode_encode by auto using Valid_encode. Qed.

Lemma tab_stage_refines message :
  Valid message = true ->
  decode (tab_stage message) = tab_runes (decode message).
Proof.
  intros. rewrite tab_stage_runes by done.
  apply decode_encode, tab_runes_valid, decode_valid.
Qed.

(** The zero-width stage deletes the rune U+200B and nothing else; no byte
    of another rune is touched. *)
Lemma zero_width_stage_refines message :
  Valid message = true ->
  decode (zero_width_stage message) = zero_width_runes (decode message).
Proof.
  intros. rewrite zero_width_stage_runes by done.
  apply decode_encode, zero_width_runes_valid, decode_valid.
Qed.

(** The whitespace stage is the scan of the first expression and then the
    scan of the second over the runes of the message: the leading and
    trailing whitespace goes, then every run of two or more. *)
Lemma whitespace_stage_refines message :
  Valid message = true ->
  decode (whitespace_stage message) = whitespace_runes (decode message).
Proof.
  intros. rewrite whitespace_stage_runes by done.
  apply decode_encode, whitespace_runes_valid, decode_valid.
Qed.

(** C13: the whitespace between two letters, wherever they stand in the
    message: one whitespace character is kept as it is, and two or more
    are deleted, not made one; what is before the first letter and what is
    after the second are rewritten apart. *)
Theorem whitespace_runes_between xs a run b ys :
  space_class a = false -> space_class b = false ->
  Forall (fun c => space_class c = true) run ->
  whitespace_runes (xs ++ [a] ++ run ++ [b] ++ ys) =
    whitespace_runes (xs ++ [a]) ++
    (if (2 <=? length run)%nat then [] else run) ++
    whitespace_runes (b :: ys).
Proof.
  intros Ha Hb Hrun.
  change (if (2 <=? length run)%nat then [] else run) with (emit run).
  unfold whitespace_runes. cbn [app].
  rewrite lead_close_app_letter, lead_close_run by done.
  destruct (lead_close_snoc_letter space_class true [] xs a Ha) as [l' ->].
  cbn [app]. rewrite <- app_assoc. cbn [app].
  rewrite inside_app_letter by done.
  f_equal. cbn [lead_close]. rewrite Hb. cbn [app].
  by apply (inside_run space_class []).
Qed.

Lemma Valid_zero_width_stage message :
  Valid message = true -> Valid (zero_width_stage message) = true.
Proof. intros. rewrite zero_width_stage_runes by done. apply Valid_encode. Qed.

Lemma Valid_whitespace_stage message :
  Valid message = true -> Valid (whitespace_stage message) = true.
Proof. intros. rewrite whitespace_stage_runes by done. apply Valid_encode. Qed.

(** A message of whitespace only becomes the empty string, the case the
    sentinel word is for. *)
Lemma whitespace_stage_spaces message :
  Valid message = true ->
  Forall (fun r => space_class r = true) (decode message) ->
  whitespace_stage message = [].
Proof.
  intros Hm Hsp. rewrite whitespace_stage_runes by done.
  unfold whitespace_runes. by rewrite lead_close_spaces.
Qed.

(** A word without whitespace, somewhere among the runes of a message, is
    still there when the tabs have become spaces. *)
Lemma tab_runes_keeps_word w rs :
  Forall (fun b => space_class b = false) w ->
  substring_of w rs -> substring_of w (tab_runes rs).
Proof.
  intros Hw. apply substring_of_fmap.
  eapply Forall_impl; [exact Hw|]. intros b Hb. cbn.
  case_bool_decide; [by subst|done].
Qed.

(** ** A rune that is not whitespace

    A rune that no stage looks for, the NUL of a padded message for one,
    is in the message after every stage, valid UTF-8 or not before it. *)

Lemma inside_keeps_elem {A} (sp : A -> bool) run l c :
  c ∈ l -> sp c = false -> c ∈ inside sp run l.
Proof.
  intros (xs & ys & ->)%list_elem_of_split Hc.
  destruct (inside_keeps_word sp run xs [c] ys) as [xs' E];
    [by constructor|done|].
  cbn [app] in E. rewrite E. set_solver.
Qed.

Lemma lead_close_keeps_elem {A} (sp : A -> bool) start run l c :
  c ∈ l -> sp c = false -> c ∈ lead_close sp start run l.
Proof.
  intros (xs & ys & ->)%list_elem_of_split Hc.
  destruct (lead_close_keeps_word sp start run xs [c] ys) as [xs' E];
    [by constructor|done|].
  cbn [app] in E. rewrite E. set_solver.
Qed.

Lemma elem_of_decode_encode r rs :
  ValidRune r = true -> r ∈ rs -> r ∈ decode (encode rs).
Proof.
  intros Hr Hin. rewrite decode_encode_sanitize, list_elem_of_fmap.
  exists r. by rewrite sanitize_valid.
Qed.

Section keeps_rune.
Context (c : Z).
Hypothesis Hvalid : ValidRune c = true.
Hypothesis Hspace : space_class c = false.
Hypothesis Hzwsp : c <> 0x200B.

Lemma tab_stage_keeps_rune message :
  Valid message = true -> c ∈ decode message -> c ∈ decode (tab_stage message).
Proof.
  intros Hm Hc. rewrite tab_stage_runes by done.
  apply elem_of_decode_encode; [done|]. apply list_elem_of_fmap.
  exists c. split; [|done]. case_bool_decide; [by subst|done].
Qed.

Lemma zero_width_stage_keeps_rune message :
  Valid message = true ->
  c ∈ decode message -> c ∈ decode (zero_width_stage message).
Proof.
  intros Hm Hc. rewrite zero_width_stage_runes by done.
  apply elem_of_decode_encode; [done|]. by apply list_elem_of_filter.
Qed.

Lemma whitespace_stage_keeps_rune message :
  Valid message = true ->
  c ∈ decode message -> c ∈ decode (whitespace_stage message).
Proof.
  intros Hm Hc. rewrite whitespace_stage_runes by done.
  apply elem_of_decode_encode; [done|].
  apply inside_keeps_elem; [by apply lead_close_keeps_elem|done].
Qed.

End keeps_rune.

(** ** The theorems at concrete messages *)

Local Open Scope go_scope.

(** Between [a] and [b] two spaces, in a message that starts with a space
    and ends with [c] after one. *)
Lemma whitespace_runes_between_witness :
  whitespace_runes (b{" "} ++ b{"a"} ++ b{"  "} ++ b{"b"} ++ b{" c"}) =
    whitespace_runes (b{" "} ++ b{"a"}) ++ [] ++
    whitespace_runes (0x62 :: b{" c"}).
Proof.
  apply (whitespace_runes_between b{" "} 0x61 b{"  "} 0x62 b{" c"});
    [done..|compute_done].
Defined.

Lemma whitespace_stage_refines_witness :
  decode (whitespace_stage b{"  a  b c  "}) =
    whitespace_runes (decode b{"  a  b c  "}).
Proof. apply whitespace_stage_refines. vm_compute. reflexivity. Defined.
