(* ===== verification/Collapse.v ===== *)
(** * Collapse: what the whitespace stage leaves

    The two scans of [Whitespace] ([lead_close] for the first regular
    expression of lines 135-136, [inside] for the second, lines 137-138)
    bring a text into a normal form: it neither starts nor ends with
    whitespace ([trimmed]) and no two whitespace characters stand side by
    side ([single]).  A text in that form is a fixed point of both scans,
    so the stage is idempotent; it is stated for the scans over any type of
    character and then for the stage on the runes and on the bytes of a
    message.  Both scans only delete whitespace ([thins]), so a word
    without whitespace stays in one piece wherever it stands, also in what
    a filter leaves of the text.  A character that is no whitespace cuts
    both scans in two: the stage on a text around such a character is the
    stage on what stands before it, the character, and the stage on what
    stands after it, up to whitespace on either side of the character
    ([whitespace_runes_barrier]). *)

From S2P Require Import Prelude Utf8 GoStrings Unicode Whitespace.

(** ** Definitions *)

(** [thins sp l k]: [k] is [l] without some of its characters of the class
    [sp].  The scans delete whitespace and nothing else. *)
Inductive thins {A} (sp : A -> bool) : list A -> list A -> Prop :=
| thins_nil : thins sp [] []
| thins_keep x l k : thins sp l k -> thins sp (x :: l) (x :: k)
| thins_drop x l k : sp x = true -> thins sp l k -> thins sp (x :: l) k.

(** ** The scans *)

Section normal_form.
Context {A : Type} (sp : A -> bool).
Implicit Types run l : list A.

Lemma single_cons_false c l : sp c = false -> single sp (c :: l) = single sp l.
Proof.
  intros Hc. destruct l as [|c' l]; [done|]. cbn [single]. by rewrite Hc.
Qed.

Lemma single_cons_inv c l : single sp (c :: l) = true -> single sp l = true.
Proof. destruct l as [|c' l]; [done|]. cbn [single]. by intros [_ ?]%andb_prop. Qed.

Lemma single_app_r l1 l2 : single sp (l1 ++ l2) = true -> single sp l2 = true.
Proof. induction l1; eauto using single_cons_inv. Qed.

(** What [emit] returns is empty or one character. *)
Lemma emit_short run :
  emit run = [] \/ exists c, run = [c] /\ emit run = [c].
Proof. destruct run as [|x [|y run]]; eauto. Qed.

Lemma single_emit_app run c l :
  sp c = false -> single sp (emit run ++ c :: l) = single sp l.
Proof.
  intros Hc. rewrite <- (single_cons_false c l) by done.
  destruct (emit_short run) as [-> | (x & _ & ->)]; [done|].
  cbn [app single]. by rewrite Hc, andb_false_r.
Qed.

(** Whatever the text, [inside] leaves no two whitespace characters side by
    side. *)
Lemma inside_single run l : single sp (inside sp run l) = true.
Proof.
  revert run. induction l as [|c l IH]; intros run; cbn [inside].
  - by destruct (emit_short run) as [-> | (x & _ & ->)].
  - destruct (sp c) eqn:Hc; [apply IH|]. by rewrite single_emit_app.
Qed.

Lemma last_inside run l c :
  last l = Some c -> sp c = false -> last (inside sp run l) = Some c.
Proof.
  intros [l' ->]%last_Some Hc.
  destruct (inside_keeps_word sp run l' [c] []) as [xs E];
    [by constructor|done|].
  cbn in E. rewrite E. by rewrite last_snoc.
Qed.

(** [inside] deletes nothing at the ends of a trimmed text. *)
Lemma inside_trimmed l : trimmed sp l -> trimmed sp (inside sp [] l).
Proof.
  intros [Hhead Hlast]. split; intros c.
  - destruct l as [|c0 l]; [done|]. cbn [inside].
    rewrite (Hhead c0) by done. cbn. intros [= <-]. by apply Hhead.
  - destruct (last l) as [c1|] eqn:E.
    + rewrite (last_inside [] l c1) by auto. intros [= <-]. auto.
    + by apply last_None in E as ->.
Qed.

Lemma emit_id run : (length run <= 1)%nat -> emit run = run.
Proof. destruct run as [|x [|y run]]; [done..|]. cbn. lia. Qed.

(** A text in which the whitespace stands alone is left as it is by
    [inside]; [run] is the whitespace character before it, if any. *)
Lemma inside_id run l :
  Forall (fun c => sp c = true) run -> (length run <= 1)%nat ->
  single sp (run ++ l) = true -> inside sp run l = run ++ l.
Proof.
  revert run. induction l as [|c l IH]; intros run Hrun Hlen Hs; cbn [inside].
  - by rewrite app_nil_r, emit_id.
  - destruct (sp c) eqn:Hc.
    + destruct run as [|x [|y run]]; [|exfalso..].
      * apply (IH [c]); [by repeat constructor|done..].
      * apply Forall_inv in Hrun. cbn in Hs. by rewrite Hrun, Hc in Hs.
      * cbn in Hlen. lia.
    + rewrite emit_id, (IH []); [done|constructor|cbn; lia| |done].
      eapply single_cons_inv, single_app_r, Hs.
Qed.

(** A trimmed text is left as it is by [lead_close]. *)
Lemma lead_close_id l : trimmed sp l -> lead_close sp true [] l = l.
Proof.
  intros [Hhead Hlast].
  destruct (lead_close_true_spec sp [] l) as (pre & post & E & Hpre & Hpost & _);
    [constructor|].
  cbn [app] in E. destruct Hpre as [|x pre Hx _].
  - destruct post as [|y post _] using rev_ind; [by rewrite app_nil_r in E|].
    apply Forall_app in Hpost as [_ [Hy _]%Forall_cons].
    specialize (Hlast y). rewrite E, !app_assoc, last_snoc in Hlast.
    rewrite Hlast in Hy; done.
  - specialize (Hhead x). rewrite E in Hhead. rewrite Hhead in Hx; done.
Qed.

End normal_form.

(** ** Thinning *)

Section thinning.
Context {A : Type} (sp : A -> bool).
Implicit Types run l k w : list A.

Lemma thins_refl l : thins sp l l.
Proof. induction l; by constructor. Qed.

Lemma thins_all l : Forall (fun x => sp x = true) l -> thins sp l [].
Proof. induction 1; by constructor. Qed.

Lemma thins_app l1 l2 k1 k2 :
  thins sp l1 k1 -> thins sp l2 k2 -> thins sp (l1 ++ l2) (k1 ++ k2).
Proof. induction 1; cbn [app]; intros; try done; constructor; auto. Qed.

Lemma thins_trans l k m : thins sp l k -> thins sp k m -> thins sp l m.
Proof.
  intros Hlk. revert m.
  induction Hlk as [|x l k _ IH|x l k Hx _ IH]; intros m Hkm; [done|..].
  - inversion Hkm; subst; constructor; auto.
  - constructor; auto.
Qed.

Lemma thins_filter (P : A -> Prop) `{forall x, Decision (P x)} l k :
  thins sp l k -> thins sp (filter P l) (filter P k).
Proof.
  induction 1 as [|x l k _ IH|x l k Hx _ IH]; [constructor|..];
    rewrite ?filter_cons; destruct (decide (P x)); by try constructor.
Qed.

(** What is deleted is whitespace: a filter that keeps none sees no
    difference. *)
Lemma thins_filter_eq (P : A -> Prop) `{forall x, Decision (P x)} l k :
  (forall x, P x -> sp x = false) -> thins sp l k ->
  filter P l = filter P k.
Proof.
  intros HP. induction 1 as [|x l k _ IH|x l k Hx _ IH]; [done|..];
    rewrite ?filter_cons, IH; [done|].
  destruct (decide (P x)) as [Hx'%HP|]; [congruence|done].
Qed.

Lemma thins_sublist l k : thins sp l k -> k `sublist_of` l.
Proof. induction 1; by constructor. Qed.

Lemma thins_app_inv l1 l2 k :
  thins sp (l1 ++ l2) k ->
  exists k1 k2, k = k1 ++ k2 /\ thins sp l1 k1 /\ thins sp l2 k2.
Proof.
  revert k. induction l1 as [|x l1 IH]; intros k Hk.
  { exists [], k. split_and!; [done|constructor|done]. }
  cbn [app] in Hk. inversion Hk as [|? ? k' Hk'|? ? ? Hx Hk']; subst;
    destruct (IH _ Hk') as (k1 & k2 & -> & ? & ?).
  - exists (x :: k1), k2. split_and!; [done|by constructor|done].
  - exists k1, k2. split_and!; [done|by constructor|done].
Qed.

(** Nothing is taken from a text without a character of the class. *)
Lemma thins_word w k : Forall (fun x => sp x = false) w -> thins sp w k -> k = w.
Proof.
  intros Hw. revert k. induction Hw as [|x w Hx _ IH]; intros k Hk.
  - by inversion Hk.
  - inversion Hk; subst; [f_equal; auto|congruence].
Qed.

(** A word without a character of the class stays where it is, in one
    piece. *)
Lemma thins_keeps_word xs w ys k :
  Forall (fun x => sp x = false) w -> thins sp (xs ++ w ++ ys) k ->
  exists xs' ys', k = xs' ++ w ++ ys'.
Proof.
  intros Hw (xs' & k' & -> & _ &
    (w' & ys' & -> & Hw' & _)%thins_app_inv)%thins_app_inv.
  apply thins_word in Hw' as ->; eauto.
Qed.

Lemma emit_thins run :
  Forall (fun x => sp x = true) run -> thins sp run (emit run).
Proof.
  intros. destruct (emit_sublist run) as [-> | ->];
    auto using thins_all, thins_refl.
Qed.

Lemma inside_thins run l :
  Forall (fun x => sp x = true) run -> thins sp (run ++ l) (inside sp run l).
Proof.
  revert run. induction l as [|c l IH]; intros run Hrun; cbn [inside].
  - rewrite app_nil_r. by apply emit_thins.
  - destruct (sp c) eqn:Hc.
    + rewrite cons_middle, (assoc_L (++)).
      apply IH, Forall_app_2; by repeat constructor.
    + apply thins_app; [by apply emit_thins|]. constructor. by apply (IH []).
Qed.

Lemma lead_close_thins start run l :
  Forall (fun x => sp x = true) run ->
  thins sp (run ++ l) (lead_close sp start run l).
Proof.
  revert start run.
  induction l as [|c l IH]; intros start run Hrun; cbn [lead_close].
  - rewrite app_nil_r. by apply thins_all.
  - destruct (sp c) eqn:Hc.
    + rewrite cons_middle, (assoc_L (++)).
      apply IH, Forall_app_2; by repeat constructor.
    + apply thins_app; [destruct start; auto using thins_all, thins_refl|].
      constructor. by apply (IH false []).
Qed.

End thinning.

(** ** A letter cuts the scans in two *)

Section barrier.
Context {A : Type} (sp : A -> bool).
Implicit Types run l s : list A.

Local Abbreviation spaces := (Forall (fun c => sp c = true)).

Lemma inside_spaces run l : spaces l -> inside sp run l = emit (run ++ l).
Proof.
  intros Hl. revert run. induction Hl as [|c l Hc _ IH]; intros run.
  - by rewrite app_nil_r.
  - cbn [inside]. by rewrite Hc, IH, <- app_assoc.
Qed.

Lemma inside_snoc_letter run l b :
  sp b = false -> inside sp run (l ++ [b]) = inside sp run l ++ [b].
Proof.
  intros Hb. revert run. induction l as [|c l IH]; intros run; cbn [app inside].
  - by rewrite Hb.
  - destruct (sp c); [done|]. by rewrite IH, <- app_assoc.
Qed.

(** The scan that has passed a letter leaves what the scan from the start
    leaves, after the whitespace that the latter cuts. *)
Lemma lead_close_false_true run l :
  spaces run ->
  exists s, spaces s /\
    lead_close sp false run l = s ++ lead_close sp true run l.
Proof.
  intros Hrun. revert run Hrun.
  induction l as [|c l IH]; intros run Hrun; cbn [lead_close];
    [by exists []|].
  destruct (sp c) eqn:Hc; [|by exists run].
  apply IH, Forall_app. by repeat constructor.
Qed.

Lemma lead_close_snoc start run l b :
  spaces run -> sp b = false ->
  exists s, spaces s /\
    lead_close sp start run (l ++ [b]) = lead_close sp start run l ++ s ++ [b].
Proof.
  intros Hrun Hb. revert start run Hrun.
  induction l as [|c l IH]; intros start run Hrun; cbn [app lead_close].
  - rewrite Hb. exists (if start then [] else run).
    split; [by destruct start|done].
  - destruct (sp c) eqn:Hc.
    + apply IH, Forall_app. by repeat constructor.
    + destruct (IH false []) as (s & Hs & ->); [done|].
      exists s. by rewrite <- !app_assoc.
Qed.

(** After a trimmed text a run of whitespace is scanned by itself. *)
Lemma inside_trimmed_app l s :
  trimmed sp l -> spaces s ->
  inside sp [] (l ++ s) = inside sp [] l ++ emit s.
Proof.
  intros [_ Hlast] Hs. destruct l as [|c l _] using rev_ind.
  - cbn [app]. by rewrite (inside_spaces [] s).
  - rewrite <- app_assoc. cbn [app].
    rewrite inside_app_letter by apply Hlast, last_snoc.
    by rewrite (inside_spaces [] s).
Qed.

Lemma inside_app_trimmed s l :
  spaces s -> trimmed sp l ->
  inside sp [] (s ++ l) = emit s ++ inside sp [] l.
Proof.
  intros Hs [Hhead _]. destruct l as [|c l].
  - change (inside sp [] []) with (@nil A).
    by rewrite !app_nil_r, (inside_spaces [] s).
  - by rewrite inside_run, app_nil_l by auto.
Qed.

End barrier.

(** ** The stage *)

(** What the stage leaves is trimmed and has no run of whitespace. *)
Lemma whitespace_runes_normal rs :
  trimmed space_class (whitespace_runes rs) /\
  single space_class (whitespace_runes rs) = true.
Proof.
  split; [|apply inside_single]. apply inside_trimmed.
  by destruct (lead_close_true_spec space_class [] rs) as (? & ? & ? & ? & ? & ?).
Qed.

(** The stage changes nothing in a text that is trimmed and has no run. *)
Lemma whitespace_runes_id rs :
  trimmed space_class rs -> single space_class rs = true ->
  whitespace_runes rs = rs.
Proof.
  intros Ht Hs. unfold whitespace_runes. rewrite lead_close_id by done.
  apply (inside_id space_class []); [constructor|cbn; lia|done].
Qed.

Lemma whitespace_runes_idemp rs :
  whitespace_runes (whitespace_runes rs) = whitespace_runes rs.
Proof. apply whitespace_runes_id; apply whitespace_runes_normal. Qed.

(** The stage deletes whitespace and nothing else. *)
Lemma whitespace_runes_thins rs : thins space_class rs (whitespace_runes rs).
Proof.
  eapply thins_trans;
    [apply (lead_close_thins _ true [])|apply (inside_thins _ [])];
    constructor.
Qed.

Lemma whitespace_runes_Forall (P : Z -> Prop) rs :
  Forall P rs -> Forall P (whitespace_runes rs).
Proof. intros. apply inside_Forall, lead_close_Forall; by try constructor. Qed.

(** ** A letter cuts the stage in two *)

Lemma whitespace_runes_snoc l b :
  space_class b = false ->
  exists s, Forall (fun c => space_class c = true) s /\
    whitespace_runes (l ++ [b]) = whitespace_runes l ++ s ++ [b].
Proof.
  intros Hb. unfold whitespace_runes.
  destruct (lead_close_snoc space_class true [] l b) as (s & Hs & ->);
    [done..|].
  destruct (lead_close_trims space_class l) as (_ & _ & _ & _ & _ & Ht).
  exists (emit s). split; [by apply emit_Forall|].
  by rewrite !app_assoc, inside_snoc_letter, inside_trimmed_app.
Qed.

(** A character that is not whitespace cuts the stage in two, up to the
    whitespace on either side of it. *)
Lemma whitespace_runes_barrier l1 b l2 :
  space_class b = false ->
  exists s s',
    Forall (fun c => space_class c = true) s /\
    Forall (fun c => space_class c = true) s' /\
    whitespace_runes (l1 ++ b :: l2) =
      whitespace_runes l1 ++ s ++ b :: s' ++ whitespace_runes l2.
Proof.
  intros Hb.
  destruct (whitespace_runes_snoc l1 b Hb) as (s & Hs & E).
  destruct (lead_close_false_true space_class [] l2) as (s' & Hs' & E');
    [done|].
  destruct (lead_close_trims space_class l2) as (_ & _ & _ & _ & _ & Ht).
  exists s, (emit s'). split_and!; [done|by apply emit_Forall|].
  unfold whitespace_runes in *.
  rewrite lead_close_app_letter by done.
  destruct (lead_close_snoc_letter space_class true [] l1 b Hb) as [l' El].
  rewrite El in E |- *. rewrite <- app_assoc. cbn [app].
  rewrite inside_app_letter, E, E', inside_app_trimmed by done.
  by rewrite <- !app_assoc.
Qed.

(** ** The tab and the zero-width space

    What the other two stages leave, and what they leave as it is. *)

Lemma tab_runes_no_tab rs : Forall (fun r => r <> 0x09) (tab_runes rs).
Proof.
  apply Forall_fmap, Forall_true. intros r. cbn. by case_bool_decide.
Qed.

Lemma tab_runes_id rs : Forall (fun r => r <> 0x09) rs -> tab_runes rs = rs.
Proof.
  induction 1 as [|r rs Hr _ IH]; [done|]. unfold tab_runes in *.
  rewrite fmap_cons, IH. by rewrite bool_decide_false.
Qed.

Lemma zero_width_runes_Forall (P : Z -> Prop) rs :
  Forall P rs -> Forall P (zero_width_runes rs).
Proof. apply Forall_filter_weaken. Qed.

Lemma zero_width_runes_no_zwsp rs :
  Forall (fun r => r <> 0x200B) (zero_width_runes rs).
Proof. apply Forall_forall. by intros r [? _]%list_elem_of_filter. Qed.

Lemma zero_width_runes_id rs :
  Forall (fun r => r <> 0x200B) rs -> zero_width_runes rs = rs.
Proof. apply filter_Forall_id. Qed.

(** The stage on bytes is idempotent on valid UTF-8. *)
Lemma whitespace_stage_idemp message :
  Valid message = true ->
  whitespace_stage (whitespace_stage message) = whitespace_stage message.
Proof.
  intros Hm. rewrite (whitespace_stage_runes message) by done.
  rewrite (stage_encode whitespace_stage whitespace_runes)
    by auto using whitespace_stage_runes, whitespace_runes_valid, decode_valid.
  by rewrite whitespace_runes_idemp.
Qed.

(** C33: what the whitespace stage does to a message of valid UTF-8: it
    deletes whitespace characters and nothing else, what it leaves neither
    starts nor ends with whitespace and has no two whitespace characters
    side by side, and it would not change it again. *)
Theorem whitespace_stage_normal message :
  Valid message = true ->
  thins space_class (decode message) (decode (whitespace_stage message)) /\
  trimmed space_class (decode (whitespace_stage message)) /\
  single space_class (decode (whitespace_stage message)) = true /\
  whitespace_stage (whitespace_stage message) = whitespace_stage message.
Proof.
  intros Hm. rewrite whitespace_stage_idemp by done.
  rewrite whitespace_stage_runes, decode_encode
    by auto using whitespace_runes_valid, decode_valid.
  pose proof (whitespace_runes_normal (decode message)) as [? ?].
  split_and!; auto using whitespace_runes_thins.
Qed.

(** ** The theorem at a concrete message

    Two spaces, [a], two spaces, [b], one space, [c], a no-break space and
    a line feed. *)

Lemma whitespace_stage_normal_witness :
  thins space_class
    (decode [0x20; 0x20; 0x61; 0x20; 0x20; 0x62; 0x20; 0x63; 0xC2; 0xA0; 0x0A])
    (decode [0x61; 0x62; 0x20; 0x63]) /\
  trimmed space_class (decode [0x61; 0x62; 0x20; 0x63]) /\
  single space_class (decode [0x61; 0x62; 0x20; 0x63]) = true /\
  whitespace_stage [0x61; 0x62; 0x20; 0x63] = [0x61; 0x62; 0x20; 0x63].
Proof.
  apply (whitespace_stage_normal
    [0x20; 0x20; 0x61; 0x20; 0x20; 0x62; 0x20; 0x63; 0xC2; 0xA0; 0x0A]).
  vm_compute. reflexivity.
Defined.
