(* ===== verification/Vocabulary.v ===== *)
(** * Vocabulary: the filter, its options and its word list

    The data of [src/swearfilter.go]: [Match] (lines 24-27), [Option] and
    its five constructors (lines 31-66), the struct [swearFilter] (lines
    69-80), and the operations on the word list: [New] (lines 83-97), [Add]
    (lines 183-194), [Delete] (lines 197-204), [Words] (lines 207-219).

    The map [BadWords map[string]struct{}] is a finite set of strings that
    may be nil: [option (gset bytes)], [None] for the nil map.  A method with
    a pointer receiver that changes the filter returns the new filter.  A
    [range] over a Go map visits each key once in an order that is not
    specified; [Words] takes the order as an argument ([Words_in]), and
    [Words] itself is the instance for one order.  A nil slice and an empty
    slice are both the empty list.

    The theorems give each operation as an operation on sets, show that the
    flags of a filter never change after [New], that the nil map cannot be
    reached from [New], and settle when deleting a word after adding it
    restores the word list. *)

From stdpp Require Import gmap.
From S2P Require Import Prelude.

(** ** Definitions *)

(** [type Match struct]. *)
Record Match : Type := mk_Match {
  Word : bytes;
  Index : Z;
}.

#[export] Instance Match_eq_dec : EqDecision Match.
Proof. solve_decision. Defined.

(** [type swearFilter struct], without its mutex. *)
Record swearFilter : Type := mk_swearFilter {
  disableNormalize : bool;
  disableSpacedTab : bool;
  disableMultiWhitespaceStripping : bool;
  disableZeroWidthStripping : bool;
  enableSpacedBypass : bool;
  BadWords : option (gset bytes);
}.

(** [type Option func(s *swearFilter)]. *)
Definition Option : Type := swearFilter -> swearFilter.

Definition DisableNormalize : Option := fun s =>
  mk_swearFilter true (disableSpacedTab s) (disableMultiWhitespaceStripping s)
    (disableZeroWidthStripping s) (enableSpacedBypass s) (BadWords s).

Definition DisableSpacedTab : Option := fun s =>
  mk_swearFilter (disableNormalize s) true (disableMultiWhitespaceStripping s)
    (disableZeroWidthStripping s) (enableSpacedBypass s) (BadWords s).

Definition DisableMultiWhitespaceStripping : Option := fun s =>
  mk_swearFilter (disableNormalize s) (disableSpacedTab s) true
    (disableZeroWidthStripping s) (enableSpacedBypass s) (BadWords s).

Definition DisableZeroWidthStripping : Option := fun s =>
  mk_swearFilter (disableNormalize s) (disableSpacedTab s)
    (disableMultiWhitespaceStripping s) true (enableSpacedBypass s) (BadWords s).

Definition EnableSpacedBypass : Option := fun s =>
  mk_swearFilter (disableNormalize s) (disableSpacedTab s)
    (disableMultiWhitespaceStripping s) (disableZeroWidthStripping s) true
    (BadWords s).

(** The options a client can build: the type of the filter is not exported,
    so no other function of this type can be written outside the package. *)
Inductive is_Option : Option -> Prop :=
| is_DisableNormalize : is_Option DisableNormalize
| is_DisableSpacedTab : is_Option DisableSpacedTab
| is_DisableMultiWhitespaceStripping : is_Option DisableMultiWhitespaceStripping
| is_DisableZeroWidthStripping : is_Option DisableZeroWidthStripping
| is_EnableSpacedBypass : is_Option EnableSpacedBypass.

Definition set_BadWords (m : option (gset bytes)) (s : swearFilter) : swearFilter :=
  mk_swearFilter (disableNormalize s) (disableSpacedTab s)
    (disableMultiWhitespaceStripping s) (disableZeroWidthStripping s)
    (enableSpacedBypass s) m.

(** [filter.BadWords[word] = struct{}{}].  The assignment panics on the nil
    map; no caller reaches it with one ([New] and [Add] make the map
    first), and the nil map is left as it is here. *)
Definition assign (filter : swearFilter) (word : bytes) : swearFilter :=
  set_BadWords ((fun m => {[word]} ∪ m) <$> BadWords filter) filter.

(** [delete(filter.BadWords, word)], a no-op on the nil map. *)
Definition delete_word (filter : swearFilter) (word : bytes) : swearFilter :=
  set_BadWords ((fun m => m ∖ {[word]}) <$> BadWords filter) filter.

(** [func New(filterWords []string, opts ...Option) Filter]. *)
Definition New (filterWords : list bytes) (opts : list Option) : swearFilter :=
  let filter := mk_swearFilter false false false false false (Some ∅) in
  let filter := foldl (fun s opt => opt s) filter opts in
  foldl assign filter filterWords.

(** [func (filter *swearFilter) Add(badWords ...string)]. *)
Definition Add (filter : swearFilter) (badWords : list bytes) : swearFilter :=
  let filter :=
    match BadWords filter with
    | None => set_BadWords (Some ∅) filter
    | Some _ => filter
    end in
  foldl assign filter badWords.

(** [func (filter *swearFilter) Delete(badWords ...string)]. *)
Definition Delete (filter : swearFilter) (badWords : list bytes) : swearFilter :=
  foldl delete_word filter badWords.

(** The set of the map, empty for the nil map, and its length. *)
Definition words (filter : swearFilter) : gset bytes := default ∅ (BadWords filter).

(** [keys] is an order in which [range] may visit the map. *)
Definition ranges (filter : swearFilter) (keys : list bytes) : Prop :=
  keys ≡ₚ elements (words filter).

(** [func (filter *swearFilter) Words() (activeWords []string)], with the
    order of the [range]. *)
Definition Words_in (keys : list bytes) (filter : swearFilter) : list bytes :=
  match BadWords filter with
  | None => []
  | Some _ => foldl (fun activeWords word => activeWords ++ [word]) [] keys
  end.

Definition Words (filter : swearFilter) : list bytes :=
  Words_in (elements (words filter)) filter.

(** The flags of a filter. *)
Definition flags (s : swearFilter) : bool * bool * bool * bool * bool :=
  (disableNormalize s, disableSpacedTab s, disableMultiWhitespaceStripping s,
   disableZeroWidthStripping s, enableSpacedBypass s).

(** The calls that change a filter, and the filters a client can hold: made
    by [New] with options of the package, then changed by [Add] and
    [Delete]. *)
Inductive reachable : swearFilter -> Prop :=
| reach_New filterWords opts :
    Forall is_Option opts -> reachable (New filterWords opts)
| reach_Add filter badWords :
    reachable filter -> reachable (Add filter badWords)
| reach_Delete filter badWords :
    reachable filter -> reachable (Delete filter badWords).

(** ** The operations as operations on sets *)

Lemma flags_set_BadWords m s : flags (set_BadWords m s) = flags s.
Proof. done. Qed.

Lemma BadWords_set_BadWords m s : BadWords (set_BadWords m s) = m.
Proof. done. Qed.

Lemma foldl_assign filter ws :
  BadWords (foldl assign filter ws) =
    (fun m => list_to_set ws ∪ m) <$> BadWords filter /\
  flags (foldl assign filter ws) = flags filter.
Proof.
  revert filter. induction ws as [|w ws IH]; intros filter.
  - cbn [foldl]. split; [|done]. destruct (BadWords filter) as [m|]; [|done].
    cbn. f_equal. set_solver.
  - cbn [foldl]. destruct (IH (assign filter w)) as [-> ->]. split; [|done].
    unfold assign. rewrite BadWords_set_BadWords.
    destruct (BadWords filter) as [m|]; [|done]. cbn. f_equal. set_solver.
Qed.

Lemma foldl_delete_word filter ws :
  BadWords (foldl delete_word filter ws) =
    (fun m => m ∖ list_to_set ws) <$> BadWords filter /\
  flags (foldl delete_word filter ws) = flags filter.
Proof.
  revert filter. induction ws as [|w ws IH]; intros filter.
  - cbn [foldl]. split; [|done]. destruct (BadWords filter) as [m|]; [|done].
    cbn. f_equal. set_solver.
  - cbn [foldl]. destruct (IH (delete_word filter w)) as [-> ->].
    split; [|done]. unfold delete_word. rewrite BadWords_set_BadWords.
    destruct (BadWords filter) as [m|]; [|done]. cbn. f_equal. set_solver.
Qed.

Lemma is_Option_BadWords opt s : is_Option opt -> BadWords (opt s) = BadWords s.
Proof. by intros []. Qed.

Lemma foldl_options_BadWords opts s :
  Forall is_Option opts ->
  BadWords (foldl (fun s (opt : Option) => opt s) s opts) = BadWords s.
Proof.
  intros Hopts. revert s. induction Hopts as [|opt opts Hopt _ IH]; intros s;
    [done|].
  cbn [foldl]. by rewrite IH, is_Option_BadWords.
Qed.

(** [New] holds the set of its words, whatever the options. *)
Lemma New_BadWords filterWords opts :
  Forall is_Option opts ->
  BadWords (New filterWords opts) = Some (list_to_set filterWords).
Proof.
  intros Hopts. unfold New. cbv zeta.
  rewrite (proj1 (foldl_assign _ _)), foldl_options_BadWords by done.
  cbn. f_equal. set_solver.
Qed.

(** Without options every flag is off: every stage of [Check] runs and the
    spaced bypass does not. *)
Lemma New_default_flags filterWords :
  flags (New filterWords []) = (false, false, false, false, false).
Proof. unfold New. cbv zeta. by rewrite (proj2 (foldl_assign _ _)). Qed.

Lemma Add_BadWords filter badWords :
  BadWords (Add filter badWords) = Some (list_to_set badWords ∪ words filter).
Proof.
  unfold Add, words. cbv zeta. rewrite (proj1 (foldl_assign _ _)).
  destruct (BadWords filter) as [m|] eqn:E; [by rewrite E|done].
Qed.

Lemma Add_flags filter badWords : flags (Add filter badWords) = flags filter.
Proof.
  unfold Add. cbv zeta. rewrite (proj2 (foldl_assign _ _)).
  by destruct (BadWords filter).
Qed.

Lemma Delete_BadWords filter badWords :
  BadWords (Delete filter badWords) =
    (fun m => m ∖ list_to_set badWords) <$> BadWords filter.
Proof. apply foldl_delete_word. Qed.

Lemma Delete_flags filter badWords :
  flags (Delete filter badWords) = flags filter.
Proof. apply foldl_delete_word. Qed.

Lemma words_Add filter badWords :
  words (Add filter badWords) = list_to_set badWords ∪ words filter.
Proof. unfold words at 1. by rewrite Add_BadWords. Qed.

Lemma words_Delete filter badWords :
  words (Delete filter badWords) = words filter ∖ list_to_set badWords.
Proof.
  unfold words. rewrite Delete_BadWords.
  destruct (BadWords filter); [done|]. cbn. set_solver.
Qed.

Lemma words_New filterWords opts :
  Forall is_Option opts -> words (New filterWords opts) = list_to_set filterWords.
Proof. intros. unfold words. by rewrite New_BadWords. Qed.

(** ** [Words] *)

Lemma foldl_snoc_id {A} (keys acc : list A) :
  foldl (fun activeWords word => activeWords ++ [word]) acc keys = acc ++ keys.
Proof.
  revert acc. induction keys as [|k keys IH]; intros acc.
  - by rewrite app_nil_r.
  - cbn [foldl]. by rewrite IH, <- app_assoc.
Qed.

Lemma Words_in_ranges filter keys :
  ranges filter keys -> Words_in keys filter ≡ₚ elements (words filter).
Proof.
  unfold ranges, Words_in, words. intros Hkeys.
  destruct (BadWords filter) as [m|]; [by rewrite foldl_snoc_id|].
  cbn. by rewrite elements_empty.
Qed.

(** C20: [Words] lists the words of the filter, each once, in whatever
    order the map is visited. *)
Theorem Words_in_spec filter keys :
  ranges filter keys ->
  NoDup (Words_in keys filter) /\
  forall w, w ∈ Words_in keys filter <-> w ∈ words filter.
Proof.
  intros Hk%Words_in_ranges. split.
  - rewrite Hk. apply NoDup_elements.
  - intros w. rewrite Hk. apply elem_of_elements.
Qed.

Lemma ranges_elements filter : ranges filter (elements (words filter)).
Proof. by unfold ranges. Qed.

Lemma Words_spec filter w : w ∈ Words filter <-> w ∈ words filter.
Proof.
  unfold Words. by rewrite (Words_in_ranges _ _ (ranges_elements filter)),
    elem_of_elements.
Qed.

(** ** Adding and deleting *)

Lemma words_Delete_Add filter badWords :
  words (Delete (Add filter badWords) badWords) =
    words filter ∖ list_to_set badWords.
Proof. rewrite words_Delete, words_Add. set_solver. Qed.

Lemma difference_fresh (m : gset bytes) badWords :
  Forall (fun w => w ∉ m) badWords -> m ∖ list_to_set badWords = m.
Proof.
  rewrite Forall_forall. intros Hfresh. apply set_eq. intros w.
  rewrite elem_of_difference, elem_of_list_to_set. naive_solver.
Qed.

(** C18: deleting after adding restores the word list when none of the
    words was in it. *)
Theorem Delete_Add_fresh filter badWords :
  Forall (fun w => w ∉ words filter) badWords ->
  words (Delete (Add filter badWords) badWords) = words filter.
Proof. intros Hfresh. by rewrite words_Delete_Add, difference_fresh. Qed.

(** C19: it does not when one of them was: the word is gone, and the word
    list is not what it was before the two calls. *)
Theorem Delete_Add_present filter w :
  w ∈ words filter ->
  (w ∉ words (Delete (Add filter [w]) [w])) /\
  words (Delete (Add filter [w]) [w]) <> words filter.
Proof.
  intros Hw. rewrite words_Delete, words_Add.
  assert (w ∉ (list_to_set [w] ∪ words filter) ∖ list_to_set [w]) as Hnot
    by set_solver.
  split; [done|]. intros E. by rewrite E in Hnot.
Qed.

Lemma Add_idemp filter badWords :
  words (Add (Add filter badWords) badWords) = words (Add filter badWords).
Proof. rewrite !words_Add. set_solver. Qed.

(** ** Invariants of the filters a client can hold *)

Lemma is_Option_enableSpacedBypass opt s :
  is_Option opt ->
  enableSpacedBypass (opt s) = true <->
  enableSpacedBypass s = true \/ opt = EnableSpacedBypass.
Proof.
  intros []; cbn; (split; [by auto|]); intros [?|E]; try done.
  all: by apply (f_equal (fun o : Option => enableSpacedBypass
         (o (mk_swearFilter false false false false false None)))) in E.
Qed.

Lemma flags_foldl_options opts s :
  Forall is_Option opts ->
  enableSpacedBypass (foldl (fun s (opt : Option) => opt s) s opts) = true <->
  enableSpacedBypass s = true \/ EnableSpacedBypass ∈ opts.
Proof.
  intros Hopts. revert s. induction Hopts as [|opt opts Hopt _ IH]; intros s.
  - cbn. rewrite elem_of_nil. tauto.
  - cbn [foldl]. rewrite IH, elem_of_cons, is_Option_enableSpacedBypass by done.
    naive_solver.
Qed.

Lemma New_flags filterWords opts :
  flags (New filterWords opts) =
    flags (foldl (fun s (opt : Option) => opt s)
             (mk_swearFilter false false false false false (Some ∅)) opts).
Proof. apply foldl_assign. Qed.

(** C17: the spaced bypass is on exactly when [New] was given its option;
    it is off by default. *)
Theorem New_enableSpacedBypass filterWords opts :
  Forall is_Option opts ->
  enableSpacedBypass (New filterWords opts) = true <->
  EnableSpacedBypass ∈ opts.
Proof.
  intros Hopts. pose proof (New_flags filterWords opts) as [= _ _ _ _ ->].
  rewrite flags_foldl_options by done. cbn. naive_solver.
Qed.

(** After [New] no operation changes a flag. *)
Lemma reachable_flags filter :
  reachable filter ->
  exists filterWords opts,
    Forall is_Option opts /\ flags filter = flags (New filterWords opts).
Proof.
  induction 1 as [ws opts Hopts|filter ws _ IH|filter ws _ IH].
  - by exists ws, opts.
  - destruct IH as (ws' & opts & ? & E). exists ws', opts.
    by rewrite Add_flags.
  - destruct IH as (ws' & opts & ? & E). exists ws', opts.
    by rewrite Delete_flags.
Qed.

(** C21: the map of a filter made by [New] is never nil, whatever is added
    and deleted afterwards: the nil branches of [Check], [Add] and [Words]
    are not taken. *)
Theorem reachable_BadWords filter :
  reachable filter -> BadWords filter = Some (words filter).
Proof.
  unfold words. induction 1 as [ws opts Hopts|filter ws _ IH|filter ws _ IH].
  - by rewrite New_BadWords.
  - by rewrite Add_BadWords.
  - rewrite Delete_BadWords, IH. done.
Qed.

(** The words of a new filter are the words it was made with, whatever
    the options. *)
Lemma New_words filterWords opts w :
  Forall is_Option opts ->
  w ∈ Words (New filterWords opts) <-> w ∈ filterWords.
Proof.
  intros. by rewrite Words_spec, words_New, elem_of_list_to_set.
Qed.

(** ** The theorems at concrete filters *)

Local Open Scope go_scope.

Lemma New_words_witness :
  b{"foo"} ∈ Words (New [b{"foo"}; b{"bar"}; b{"foo"}] [EnableSpacedBypass])
  <-> b{"foo"} ∈ [b{"foo"}; b{"bar"}; b{"foo"}].
Proof. apply New_words. repeat constructor. Defined.

Lemma New_enableSpacedBypass_witness :
  enableSpacedBypass (New [] [DisableNormalize; EnableSpacedBypass]) = true <->
  EnableSpacedBypass ∈ [DisableNormalize; EnableSpacedBypass].
Proof. apply New_enableSpacedBypass. repeat constructor. Defined.

Lemma Delete_Add_fresh_witness :
  words (Delete (Add (New [b{"foo"}] []) [b{"bar"}]) [b{"bar"}]) =
    words (New [b{"foo"}] []).
Proof. apply Delete_Add_fresh. repeat constructor. compute_done. Defined.

Lemma Delete_Add_present_witness :
  (b{"foo"} ∉ words (Delete (Add (New [b{"foo"}] []) [b{"foo"}]) [b{"foo"}])) /\
  words (Delete (Add (New [b{"foo"}] []) [b{"foo"}]) [b{"foo"}]) <>
    words (New [b{"foo"}] []).
Proof. apply Delete_Add_present. compute_done. Defined.

Lemma Words_in_spec_witness :
  NoDup (Words_in (elements (words (New [b{"foo"}; b{"bar"}] [])))
           (New [b{"foo"}; b{"bar"}] [])) /\
  forall w,
    w ∈ Words_in (elements (words (New [b{"foo"}; b{"bar"}] [])))
          (New [b{"foo"}; b{"bar"}] []) <->
    w ∈ words (New [b{"foo"}; b{"bar"}] []).
Proof. apply Words_in_spec. unfold ranges. reflexivity. Defined.

Lemma reachable_BadWords_witness :
  BadWords (Delete (Add (New [b{"foo"}] []) [b{"bar"}]) [b{"foo"}]) =
    Some (words (Delete (Add (New [b{"foo"}] []) [b{"bar"}]) [b{"foo"}])).
Proof. apply reachable_BadWords. repeat constructor. Defined.

Lemma reachable_flags_witness :
  exists filterWords opts,
    Forall is_Option opts /\
    flags (Add (New [b{"foo"}] [EnableSpacedBypass]) [b{"bar"}]) =
      flags (New filterWords opts).
Proof. apply reachable_flags. repeat constructor. Defined.
