(* ===== verification/Check.v ===== *)
(** * Check: the pipeline and the matching loop

    [func (filter *swearFilter) Check(msg string) ([]Match, error)], lines
    100-180 of [src/swearfilter.go]: the guard on the empty word list, the
    five stages that rewrite the message ([preprocess]), the loop over the
    words with its two searches ([loop_body]) and the sentinel for the word
    [" "].

    The order in which [range] visits the words is an argument
    ([Check_in]); [Check] is the instance for one order.  The theorems hold
    for every order: the result is given in closed form, as the reports of
    every word but [" "] in the order of the visit and then the sentinel;
    what is reported is exactly what the specification [reported] allows;
    no word is reported twice; two orders give the same reports up to a
    permutation; [Check] fails exactly when the filter has words, the
    normalisation is on and the chain gives up, which it does when the
    normalised text is longer than the message ([Check_in_Err]); a word
    without whitespace that one of the two searches finds is reported
    ([Check_in_finds]), the empty word in every message; and two
    messages with the same characters up to letter case get the same
    answer ([Check_in_case]). *)

From stdpp Require Import gmap.
From S2P Require Import Prelude Utf8 GoStrings Unicode UnicodeLatin.
From S2P Require Import Normalize Whitespace Vocabulary.

(** ** Definitions *)

(** The match appended when the message is empty and [" "] is a word. *)
Definition sentinel : Match := mk_Match space 0.

(** [sub] occurs in [s], and first at offset [i]. *)
Definition first_at (sub s : bytes) (i : Z) : Prop :=
  exists n : nat, i = Z.of_nat n /\ occurs_at sub s n /\
    forall j, (j < n)%nat -> ~ occurs_at sub s j.

Section check.
Context `{UnicodeTables} {chain : Chain}.

(** Lines 108-139: the message as the loop reads it, or the error of the
    transform. *)
Definition preprocess (filter : swearFilter) (msg : bytes) : result error bytes :=
  let message := ToLower msg in
  message ← (if negb (disableNormalize filter) then normalize_stage message
             else Ok message);
  let message :=
    if negb (disableSpacedTab filter) then tab_stage message else message in
  let message :=
    if negb (disableZeroWidthStripping filter) then zero_width_stage message
    else message in
  let message :=
    if negb (disableMultiWhitespaceStripping filter) then whitespace_stage message
    else message in
  Ok message.

(** Lines 145-170, the body of the loop: the state is [trippedWords] and
    [checkSpace]. *)
Definition loop_body (filter : swearFilter) (message : bytes)
    (st : list Match * bool) (swear : bytes) : list Match * bool :=
  let '(trippedWords, checkSpace) := st in
  if bool_decide (swear = space) then (trippedWords, true)
  else
    let idx := GoStrings.Index message swear in
    if negb (idx =? -1) then (trippedWords ++ [mk_Match swear idx], checkSpace)
    else if enableSpacedBypass filter then
      let nospaceMessage := Replace message space [] (-1) in
      let idx := GoStrings.Index nospaceMessage swear in
      if negb (idx =? -1) then
        (trippedWords ++ [mk_Match swear idx], checkSpace)
      else (trippedWords, checkSpace)
    else (trippedWords, checkSpace).

(** [Check], with the order of the [range] over the words. *)
Definition Check_in (keys : list bytes) (filter : swearFilter) (msg : bytes)
    : result error (list Match) :=
  if bool_decide (BadWords filter = None)
     || bool_decide (size (words filter) = 0%nat)
  then Ok []
  else
    message ← preprocess filter msg;
    let '(trippedWords, checkSpace) :=
      foldl (loop_body filter message) ([], false) keys in
    if checkSpace && bool_decide (message = []) then
      Ok (trippedWords ++ [sentinel])
    else Ok trippedWords.

Definition Check (filter : swearFilter) (msg : bytes) : result error (list Match) :=
  Check_in (elements (words filter)) filter msg.

(** What one word contributes: the match of the first search, or of the
    second when the first fails and the spaced bypass is on. *)
Definition match_of (filter : swearFilter) (message swear : bytes) : option Match :=
  let idx := GoStrings.Index message swear in
  if negb (idx =? -1) then Some (mk_Match swear idx)
  else if enableSpacedBypass filter then
    let idx := GoStrings.Index (Replace message space [] (-1)) swear in
    if negb (idx =? -1) then Some (mk_Match swear idx) else None
  else None.

(** The reports of the words visited in the order [keys]. *)
Definition reports (flt : swearFilter) (message : bytes) (keys : list bytes)
    : list Match :=
  omap (match_of flt message) (filter (fun w => w <> space) keys).

(** The three stages after the normalisation, lines 123-139. *)
Definition whitespace_stages (flt : swearFilter) (message : bytes) : bytes :=
  let message :=
    if negb (disableSpacedTab flt) then tab_stage message else message in
  let message :=
    if negb (disableZeroWidthStripping flt) then zero_width_stage message
    else message in
  if negb (disableMultiWhitespaceStripping flt) then whitespace_stage message
  else message.

(** [Check] in closed form: what the theorems below are proved of. *)
Definition Check_spec (keys : list bytes) (flt : swearFilter) (msg : bytes)
    : result error (list Match) :=
  if bool_decide (words flt = ∅) then Ok []
  else
    message ← preprocess flt msg;
    Ok (reports flt message keys ++
        if bool_decide (space ∈ keys) && bool_decide (message = [])
        then [sentinel] else []).

(** The specification of a report: the word is a word of the filter; the
    sentinel stands for the empty message; any other word is reported at
    its first occurrence in the message or, when it does not occur and the
    spaced bypass is on, at its first occurrence in the message without
    its spaces. *)
Definition reported (filter : swearFilter) (message : bytes) (mt : Match) : Prop :=
  Word mt ∈ words filter /\
  if bool_decide (Word mt = space) then Index mt = 0 /\ message = []
  else
    first_at (Word mt) message (Index mt) \/
    (~ substring_of (Word mt) message /\ enableSpacedBypass filter = true /\
     first_at (Word mt) (Replace message space [] (-1)) (Index mt)).

End check.

(** ** The first occurrence *)

Lemma Index_first_at s sub i :
  first_at sub s i <-> GoStrings.Index s sub = i /\ i <> -1.
Proof.
  split.
  - intros (n & -> & Hn). split; [by apply Index_found|lia].
  - intros [E Hi]. destruct (Index_range s sub) as [?|?]; [congruence|].
    exists (Z.to_nat i). split; [lia|]. apply Index_found. lia.
Qed.

Lemma first_at_substring s sub i : first_at sub s i -> substring_of sub s.
Proof. intros (n & _ & Hn & _). by exists n. Qed.

Lemma first_at_unique s sub i j : first_at sub s i -> first_at sub s j -> i = j.
Proof. rewrite !Index_first_at. intros [<- _] [<- _]. done. Qed.

Lemma first_at_exists s sub :
  substring_of sub s -> first_at sub s (GoStrings.Index s sub).
Proof.
  intros Hs. apply Index_first_at. split; [done|].
  intros E. by apply Index_not_found in E.
Qed.

(** ** The loop *)

Section check_lemmas.
Context `{UnicodeTables} {chain : Chain}.
Implicit Types (flt : swearFilter) (message msg w : bytes) (keys : list bytes).

Lemma loop_body_match_of flt message trippedWords checkSpace swear :
  loop_body flt message (trippedWords, checkSpace) swear =
    if bool_decide (swear = space) then (trippedWords, true)
    else (trippedWords ++ option_list (match_of flt message swear), checkSpace).
Proof.
  unfold loop_body, match_of. cbv zeta.
  repeat case_match; cbn [option_list]; by rewrite ?app_nil_r.
Qed.

Lemma reports_cons flt message w keys :
  reports flt message (w :: keys) =
    (if bool_decide (w = space) then []
     else option_list (match_of flt message w)) ++ reports flt message keys.
Proof.
  unfold reports. rewrite filter_cons. case_bool_decide; case_decide; try done.
  cbn [omap list_omap]. by destruct (match_of flt message w).
Qed.

Lemma foldl_loop_body flt message keys trippedWords checkSpace :
  foldl (loop_body flt message) (trippedWords, checkSpace) keys =
    (trippedWords ++ reports flt message keys,
     checkSpace || bool_decide (space ∈ keys)).
Proof.
  revert trippedWords checkSpace.
  induction keys as [|w keys IH]; intros tw cs.
  - cbn. by rewrite app_nil_r, orb_false_r.
  - cbn [foldl]. rewrite loop_body_match_of, reports_cons.
    destruct (bool_decide_reflect (w = space)) as [Hw|Hw]; rewrite IH; f_equal.
    + subst w. rewrite (bool_decide_eq_true_2 (space ∈ _ :: _)) by left.
      by rewrite orb_true_r.
    + by rewrite app_assoc.
    + f_equal. apply bool_decide_ext. rewrite elem_of_cons. naive_solver.
Qed.

Lemma guard_words flt :
  bool_decide (BadWords flt = None) || bool_decide (size (words flt) = 0%nat) =
    bool_decide (words flt = ∅).
Proof.
  assert (bool_decide (size (words flt) = 0%nat) = bool_decide (words flt = ∅))
    as -> by (apply bool_decide_ext; by rewrite size_empty_iff, leibniz_equiv_iff).
  unfold words. destruct (BadWords flt).
  - by rewrite bool_decide_eq_false_2.
  - by rewrite !bool_decide_eq_true_2.
Qed.

(** [Check] computes its closed form, for every order of the visit. *)
Theorem Check_in_closed_form keys flt msg :
  Check_in keys flt msg = Check_spec keys flt msg.
Proof.
  unfold Check_in, Check_spec. rewrite guard_words. case_bool_decide; [done|].
  destruct (preprocess flt msg) as [message|e]; [|done]. cbn.
  rewrite foldl_loop_body. cbn [app orb]. case_match; [done|].
  by rewrite app_nil_r.
Qed.

(** C3: with no word in the filter, the map nil or empty, [Check] returns
    no match and no error, whatever the message. *)
Theorem Check_in_empty keys flt msg :
  words flt = ∅ -> Check_in keys flt msg = Ok [].
Proof.
  intros Hw. rewrite Check_in_closed_form. unfold Check_spec.
  by rewrite bool_decide_eq_true_2.
Qed.

(** ** What is reported *)

Lemma match_of_Word flt message w mt :
  match_of flt message w = Some mt -> Word mt = w.
Proof. unfold match_of. cbv zeta. repeat case_match; by intros [= <-]. Qed.

Lemma match_of_Some flt message w i :
  match_of flt message w = Some (mk_Match w i) <->
  first_at w message i \/
  (~ substring_of w message /\ enableSpacedBypass flt = true /\
   first_at w (Replace message space [] (-1)) i).
Proof.
  unfold match_of. cbv zeta. rewrite !Index_first_at, <- Index_not_found.
  destruct (Z.eqb_spec (GoStrings.Index message w) (-1)); cbn [negb];
    [|naive_solver].
  destruct (enableSpacedBypass flt); [|naive_solver].
  destruct (Z.eqb_spec (GoStrings.Index (Replace message space [] (-1)) w) (-1));
    cbn [negb]; naive_solver.
Qed.

(** A match is where one of the two searches found the word. *)
Lemma match_of_substring flt message w mt :
  match_of flt message w = Some mt ->
  substring_of (Word mt) message \/
  (enableSpacedBypass flt = true /\
   substring_of (Word mt) (Replace message space [] (-1))).
Proof.
  intros Hm. pose proof (match_of_Word _ _ _ _ Hm) as Hw.
  destruct mt as [w' i]. cbn [Word] in *. subst w'.
  apply match_of_Some in Hm as [Hf|(_ & ? & Hf)];
    apply first_at_substring in Hf; auto.
Qed.

Lemma elem_of_reports flt message keys mt :
  mt ∈ reports flt message keys <->
  Word mt ∈ keys /\ Word mt <> space /\
  match_of flt message (Word mt) = Some mt.
Proof.
  unfold reports. rewrite list_elem_of_omap. split.
  - intros (w & [Hw Hk]%list_elem_of_filter & Hm).
    by rewrite (match_of_Word _ _ _ _ Hm).
  - intros (Hk & Hw & Hm). exists (Word mt). by rewrite list_elem_of_filter.
Qed.

Lemma elem_of_sentinel (b : bool) mt :
  mt ∈ (if b then [sentinel] else []) <-> b = true /\ mt = sentinel.
Proof.
  destruct b; rewrite ?list_elem_of_singleton, ?elem_of_nil; naive_solver.
Qed.

(** A word that is reported is a key of the visit. *)
Lemma Check_in_Word keys flt msg res mt :
  Check_in keys flt msg = Ok res -> mt ∈ res -> Word mt ∈ keys.
Proof.
  rewrite Check_in_closed_form. unfold Check_spec.
  case_bool_decide; [by intros [= <-] ?%elem_of_nil|].
  destruct (preprocess flt msg) as [message|e]; [|done]. cbn.
  intros [= <-] [Hm|Hm]%elem_of_app.
  - by apply elem_of_reports in Hm as [Hm _].
  - apply elem_of_sentinel in Hm as [[Hs _]%andb_prop ->].
    by apply bool_decide_eq_true in Hs.
Qed.

(** What is reported is in the rewritten message, or with the spaced
    bypass on in that message without its spaces, or is the word [" "] of
    lines 172-177. *)
Lemma Check_in_substring keys flt msg res mt :
  Check_in keys flt msg = Ok res -> mt ∈ res ->
  exists message, preprocess flt msg = Ok message /\
    (substring_of (Word mt) message \/
     (enableSpacedBypass flt = true /\
      substring_of (Word mt) (Replace message space [] (-1))) \/
     mt = sentinel).
Proof.
  rewrite Check_in_closed_form. unfold Check_spec.
  case_bool_decide; [by intros [= <-] ?%elem_of_nil|].
  destruct (preprocess flt msg) as [message|e]; [|done]. cbn.
  intros [= <-] [Hm|Hm]%elem_of_app; exists message; (split; [done|]).
  - apply elem_of_reports in Hm as (_ & _ & Hm).
    apply match_of_substring in Hm. tauto.
  - apply elem_of_sentinel in Hm as [_ ->]. auto.
Qed.

(** A filter with a word runs the stages. *)
Lemma Check_in_Ok_preprocess keys flt msg res w :
  w ∈ words flt -> Check_in keys flt msg = Ok res ->
  exists message, preprocess flt msg = Ok message.
Proof.
  intros Hw. rewrite Check_in_closed_form. unfold Check_spec.
  rewrite bool_decide_eq_false_2 by set_solver.
  destruct (preprocess flt msg); [eauto|done].
Qed.

(** The index of a match is the offset of an occurrence of its word, in
    the message that one of the two searches read. *)
Lemma Check_in_occurs keys flt msg res mt :
  Check_in keys flt msg = Ok res -> mt ∈ res ->
  exists message,
    preprocess flt msg = Ok message /\
    (mt = sentinel \/
     exists n : nat,
       Index mt = Z.of_nat n /\
       (occurs_at (Word mt) message n \/
        occurs_at (Word mt) (Replace message space [] (-1)) n)).
Proof.
  rewrite Check_in_closed_form. unfold Check_spec.
  case_bool_decide; [by intros [= <-] ?%elem_of_nil|].
  destruct (preprocess flt msg) as [message|e]; [|done]. cbn.
  intros [= <-] [Hm|Hm]%elem_of_app; exists message; (split; [done|]).
  - apply elem_of_reports in Hm as (_ & _ & Hm). right.
    destruct mt as [w i]. cbn [Word Index] in *.
    apply match_of_Some in Hm
      as [(n & ? & ? & _)|(_ & _ & n & ? & ? & _)]; eauto.
  - apply elem_of_sentinel in Hm as [_ ->]. by left.
Qed.

(** C1: [Check] reports exactly what [reported] specifies: a word of the
    filter at its first occurrence in the rewritten message, or at its
    first occurrence in the message without spaces when it does not occur
    and the spaced bypass is on, and the word [" "] at 0 when the rewritten
    message is empty.  This holds for every order of the visit. *)
Theorem Check_in_reported keys flt msg message res mt :
  ranges flt keys -> preprocess flt msg = Ok message ->
  Check_in keys flt msg = Ok res ->
  mt ∈ res <-> reported flt message mt.
Proof.
  intros Hkeys Hpre. rewrite Check_in_closed_form. unfold Check_spec, reported.
  assert (forall w, w ∈ keys <-> w ∈ words flt) as Hk
    by (intros w; by rewrite Hkeys, elem_of_elements).
  case_bool_decide as Hempty; [intros [= <-]; rewrite Hempty; set_solver|].
  rewrite Hpre. cbn. intros [= <-].
  rewrite elem_of_app, elem_of_reports, elem_of_sentinel, andb_true_iff,
    !bool_decide_eq_true, !Hk.
  destruct mt as [w i]. cbn [Word Index]. rewrite match_of_Some.
  unfold sentinel. case_bool_decide; naive_solver.
Qed.

Lemma Word_reports_sublist flt message keys :
  Word <$> reports flt message keys `sublist_of` keys.
Proof.
  induction keys as [|w keys IH]; [done|]. rewrite reports_cons.
  case_bool_decide; [by apply sublist_cons|].
  destruct (match_of flt message w) as [mt|] eqn:E; [|by apply sublist_cons].
  cbn. rewrite (match_of_Word _ _ _ _ E). by apply sublist_skip.
Qed.

(** C4: no word is reported twice, however often it occurs in the
    message. *)
Theorem Check_in_NoDup keys flt msg res :
  NoDup keys -> Check_in keys flt msg = Ok res -> NoDup (Word <$> res).
Proof.
  intros Hnd. rewrite Check_in_closed_form. unfold Check_spec.
  case_bool_decide; [intros [= <-]; constructor|].
  destruct (preprocess flt msg) as [message|]; [|done]. cbn. intros [= <-].
  rewrite fmap_app. apply NoDup_app. split_and!.
  - by eapply sublist_NoDup, Word_reports_sublist.
  - intros w [mt [-> (_ & Hw & _)%elem_of_reports]]%list_elem_of_fmap.
    intros [mt' [E [_ ->]%elem_of_sentinel]]%list_elem_of_fmap. done.
  - case_match; [apply NoDup_singleton|constructor].
Qed.

Lemma reports_Permutation flt message keys1 keys2 :
  keys1 ≡ₚ keys2 -> reports flt message keys1 ≡ₚ reports flt message keys2.
Proof. intros Hk. unfold reports. by rewrite Hk. Qed.

(** C5: the order in which the map is visited changes the order of the
    result and nothing else. *)
Theorem Check_in_Permutation keys1 keys2 flt msg :
  keys1 ≡ₚ keys2 ->
  result_rel (≡ₚ) (Check_in keys1 flt msg) (Check_in keys2 flt msg).
Proof.
  intros Hk. rewrite !Check_in_closed_form. unfold Check_spec.
  case_bool_decide; [by cbn|].
  destruct (preprocess flt msg) as [message|]; [|by cbn]. cbn.
  rewrite (bool_decide_ext (space ∈ keys1) (space ∈ keys2)) by by rewrite Hk.
  by rewrite (reports_Permutation _ _ _ _ Hk).
Qed.

(** ** Errors *)

Lemma preprocess_unfold flt msg :
  preprocess flt msg =
    (message ← (if negb (disableNormalize flt)
                then normalize_stage (ToLower msg) else Ok (ToLower msg));
     Ok (whitespace_stages flt message)).
Proof. done. Qed.

Lemma preprocess_Err flt msg e :
  preprocess flt msg = Err e <->
  disableNormalize flt = false /\ e = ErrShortDst /\
  short_dst (length (ToLower msg)) (ToLower msg) = true.
Proof.
  rewrite preprocess_unfold, <- normalize_stage_Err.
  destruct (disableNormalize flt); cbn [negb]; [by split; [|intros []]|].
  destruct (normalize_stage (ToLower msg)); cbn; naive_solver.
Qed.

Lemma Check_in_Err_iff keys flt msg e :
  Check_in keys flt msg = Err e <->
  words flt <> ∅ /\ disableNormalize flt = false /\ e = ErrShortDst /\
  short_dst (length (ToLower msg)) (ToLower msg) = true.
Proof.
  rewrite Check_in_closed_form, <- preprocess_Err. unfold Check_spec.
  case_bool_decide; [naive_solver|].
  destruct (preprocess flt msg); cbn; naive_solver.
Qed.

(** C2: [Check] fails in one case only, with every chain: the filter has
    a word, the normalisation is on and the chain gives up on the
    lower-cased message; the error is then [ErrShortDst].  No other stage
    fails and a filter without words fails on no message.  And [Check]
    does fail when the filter has a word, the normalisation is on and the
    normalised text needs more bytes than the lower-cased message has. *)
Theorem Check_in_Err keys flt msg :
  (forall e,
     Check_in keys flt msg = Err e <->
     words flt <> ∅ /\ disableNormalize flt = false /\ e = ErrShortDst /\
     short_dst (length (ToLower msg)) (ToLower msg) = true) /\
  (words flt <> ∅ -> disableNormalize flt = false ->
   (length (ToLower msg) < length (normalized (ToLower msg)))%nat ->
   Check_in keys flt msg = Err ErrShortDst).
Proof.
  split; [intros e; apply Check_in_Err_iff|]. intros ? ? ?.
  apply Check_in_Err_iff. auto using short_dst_long.
Qed.

(** ** Invariants of the pipeline *)

(** What each of the three stages keeps, the three of them keep, with every
    combination of options. *)
Lemma whitespace_stages_ind (P : bytes -> Prop) flt message :
  (forall m, P m -> P (tab_stage m)) ->
  (forall m, P m -> P (zero_width_stage m)) ->
  (forall m, P m -> P (whitespace_stage m)) ->
  P message -> P (whitespace_stages flt message).
Proof.
  intros Htab Hzw Hws Hm. unfold whitespace_stages. cbv zeta.
  destruct (disableSpacedTab flt), (disableZeroWidthStripping flt),
    (disableMultiWhitespaceStripping flt); cbn [negb]; auto.
Qed.

Lemma Valid_whitespace_stages flt message :
  Valid message = true -> Valid (whitespace_stages flt message) = true.
Proof.
  apply (whitespace_stages_ind (fun m => Valid m = true));
    auto using Valid_tab_stage, Valid_zero_width_stage, Valid_whitespace_stage.
Qed.

(** What holds of the lower-cased message when the normalisation is off,
    and of the normalised message when it is on, and is kept by the
    whitespace stages, holds of the message that is searched. *)
Lemma preprocess_ind (P : bytes -> Prop) flt msg message :
  (disableNormalize flt = true -> P (ToLower msg)) ->
  (forall out, disableNormalize flt = false ->
     normalize_stage (ToLower msg) = Ok out -> P out) ->
  (forall m, P m -> P (whitespace_stages flt m)) ->
  preprocess flt msg = Ok message -> P message.
Proof.
  intros Hoff Hon Hws. rewrite preprocess_unfold.
  destruct (disableNormalize flt); cbn [negb]; [intros [= <-]; auto|].
  destruct (normalize_stage (ToLower msg)) as [m|] eqn:E; [|done].
  intros [= <-]. auto.
Qed.

(** C7: whatever bytes [Check] is given, the message the loop searches is
    valid UTF-8: the lower-casing makes it so and every stage keeps it so. *)
Theorem preprocess_Valid flt msg message :
  wf_bytes msg -> preprocess flt msg = Ok message -> Valid message = true.
Proof.
  intros Hmsg. apply (preprocess_ind (fun m => Valid m = true)).
  - intros _. by apply Valid_ToLower.
  - intros out _. apply Valid_normalize_stage.
  - apply Valid_whitespace_stages.
Qed.

(** ** ASCII messages *)

(** The normalisation changes nothing in an ASCII message. *)
Lemma preprocess_ascii flt msg message :
  Forall is_ascii msg -> preprocess flt msg = Ok message ->
  message = whitespace_stages flt (lower_ascii_byte <$> msg).
Proof.
  intros Hm. rewrite preprocess_unfold, ToLower_ascii by done.
  destruct (disableNormalize flt); cbn [negb]; [by intros [= <-]|].
  destruct (normalize_stage _) as [out|] eqn:E; [|done].
  apply normalize_stage_ascii in E as ->;
    [by intros [= <-]|by apply Forall_lower_ascii_byte].
Qed.

(** A word of the filter other than [" "] that occurs in the message that
    is searched is reported at its first occurrence. *)
Lemma reports_substring keys flt message w :
  ranges flt keys -> w ∈ words flt -> w <> space -> substring_of w message ->
  mk_Match w (GoStrings.Index message w) ∈ reports flt message keys.
Proof.
  intros Hkeys Hw Hsp Hsub. apply elem_of_reports. cbn [Word]. split_and!.
  - unfold ranges in Hkeys. rewrite Hkeys. by apply elem_of_elements.
  - done.
  - apply match_of_Some. left. by apply first_at_exists.
Qed.

(** A word of the filter other than [" "] that one of the two searches
    finds is reported: in the message, or with the spaced bypass on in the
    message without its spaces. *)
Lemma reports_found keys flt message w :
  ranges flt keys -> w ∈ words flt -> w <> space ->
  substring_of w message \/
    (enableSpacedBypass flt = true /\
     substring_of w (Replace message space [] (-1))) ->
  exists i, mk_Match w i ∈ reports flt message keys.
Proof.
  intros Hkeys Hw Hsp Hsub.
  destruct (decide (GoStrings.Index message w = -1)) as [Hout|Hin].
  - apply Index_not_found in Hout.
    destruct Hsub as [?|[Hby Hsub%first_at_exists]]; [done|].
    eexists. apply elem_of_reports. cbn [Word]. split_and!.
    + unfold ranges in Hkeys. rewrite Hkeys. by apply elem_of_elements.
    + done.
    + apply match_of_Some. by right.
  - eexists. apply reports_substring; [done..|].
    apply Index_nonneg. destruct (Index_range message w); lia.
Qed.

(** When every message that is searched holds the word for one of the
    searches, [Check] reports the word or fails. *)
Lemma Check_in_finds keys flt msg w :
  ranges flt keys -> w ∈ words flt -> w <> space ->
  (forall message, preprocess flt msg = Ok message ->
     substring_of w message \/
       (enableSpacedBypass flt = true /\
        substring_of w (Replace message space [] (-1)))) ->
  Check_in keys flt msg = Err ErrShortDst \/
  exists res i, Check_in keys flt msg = Ok res /\ mk_Match w i ∈ res.
Proof.
  intros Hkeys Hw Hsp Hsub.
  rewrite Check_in_closed_form. unfold Check_spec.
  rewrite bool_decide_eq_false_2 by set_solver.
  destruct (preprocess flt msg) as [message|e] eqn:E; cbn.
  - right. destruct (reports_found keys flt message w) as [i Hi]; auto.
    eexists _, i. split; [done|]. apply elem_of_app. by left.
  - left. by apply preprocess_Err in E as (_ & -> & _).
Qed.

(** C24: [Check] reads the message through [ToLower] and through nothing
    else.  Two messages whose runes are the same up to the case of their
    letters, a byte that is not UTF-8 counting as U+FFFD, get the same
    answer, the same error included, from every filter, in every order
    of the visit and with every chain; and a message that was lower-cased
    beforehand gets the answer of the message as it was. *)
Theorem Check_in_case keys flt msg1 msg2 :
  wf_bytes msg1 -> wf_bytes msg2 ->
  lower <$> decode msg1 = lower <$> decode msg2 ->
  Check_in keys flt msg1 = Check_in keys flt msg2 /\
  Check_in keys flt (ToLower msg1) = Check_in keys flt msg2.
Proof.
  intros H1 H2 E.
  assert (forall m1 m2, ToLower m1 = ToLower m2 ->
    Check_in keys flt m1 = Check_in keys flt m2) as Hsame.
  { intros m1 m2 Hm. rewrite !Check_in_closed_form. unfold Check_spec.
    by rewrite !preprocess_unfold, Hm. }
  split; apply Hsame; [by rewrite !ToLower_encode, E by done|].
  rewrite (ToLower_encode (ToLower msg1)) by by apply wf_bytes_ToLower.
  rewrite decode_ToLower, (ToLower_encode msg2), <- E by done.
  rewrite <- list_fmap_compose. f_equal. apply list_fmap_ext.
  intros _ r _. apply lower_idemp.
Qed.

(** C25: the empty word, when it is a word of the filter, is reported at
    index 0 for every message that [Check] does not fail on, the empty
    message included. *)
Theorem Check_in_empty_word keys flt msg :
  ranges flt keys -> [] ∈ words flt ->
  Check_in keys flt msg = Err ErrShortDst \/
  exists res, Check_in keys flt msg = Ok res /\ mk_Match [] 0 ∈ res.
Proof.
  intros Hkeys Hw. rewrite Check_in_closed_form. unfold Check_spec.
  rewrite bool_decide_eq_false_2 by set_solver.
  destruct (preprocess flt msg) as [message|e] eqn:E; cbn.
  - right. eexists. split; [done|]. apply elem_of_app. left.
    rewrite <- (Index_nil message). apply reports_substring; [done..|].
    apply (substring_of_app [] [] message).
  - left. by apply preprocess_Err in E as (_ & -> & _).
Qed.

(** ** The padded message *)

Lemma whitespace_stages_keep_rune flt c message :
  ValidRune c = true -> space_class c = false -> c <> 0x200B ->
  Valid message = true -> c ∈ decode message ->
  Valid (whitespace_stages flt message) = true /\
  c ∈ decode (whitespace_stages flt message).
Proof.
  intros Hv Hs Hz Hm Hc.
  apply (whitespace_stages_ind (fun m => Valid m = true /\ c ∈ decode m));
    [intros m [? ?]..|done];
    auto using Valid_tab_stage, tab_stage_keeps_rune, Valid_zero_width_stage,
      zero_width_stage_keeps_rune, Valid_whitespace_stage,
      whitespace_stage_keeps_rune.
Qed.

(** When the normalisation shortens the message, the message that reaches
    the loop holds a NUL and is not empty. *)
Lemma preprocess_padded flt msg message :
  disableNormalize flt = false ->
  (length (normalized (ToLower msg)) < length (ToLower msg))%nat ->
  preprocess flt msg = Ok message -> message <> [].
Proof.
  intros Hn Hlt. rewrite preprocess_unfold, Hn. cbn [negb].
  destruct (normalize_stage (ToLower msg)) as [m|] eqn:E; [|done].
  intros [= <-] Hnil.
  destruct (whitespace_stages_keep_rune flt 0 m) as [_ Hin];
    [by vm_compute|by vm_compute|done| | |].
  - by eapply Valid_normalize_stage.
  - rewrite (decode_normalize_stage _ _ E). apply elem_of_app. right.
    destruct (length (ToLower msg) - length (normalized (ToLower msg)))%nat
      eqn:Ek; [lia|by left].
  - rewrite Hnil in Hin. by apply elem_of_nil in Hin.
Qed.

(** C34: when the normalisation shortens the message, one removed accent
    is enough, the word [" "] is not reported, whatever else the message
    holds: the message the loop reads is not empty. *)
Theorem Check_in_sentinel_padded keys flt msg res i :
  disableNormalize flt = false ->
  (length (normalized (ToLower msg)) < length (ToLower msg))%nat ->
  Check_in keys flt msg = Ok res -> mk_Match space i ∉ res.
Proof.
  intros Hn Hlt. rewrite Check_in_closed_form. unfold Check_spec.
  case_bool_decide; [intros [= <-]; apply not_elem_of_nil|].
  destruct (preprocess flt msg) as [message|] eqn:E; [|done]. cbn.
  intros [= <-].
  rewrite elem_of_app, elem_of_reports, elem_of_sentinel, andb_true_iff,
    !bool_decide_eq_true.
  pose proof (preprocess_padded _ _ _ Hn Hlt E). cbn [Word]. naive_solver.
Qed.

End check_lemmas.

(** ** The theorems at concrete filters and messages

    With the tables of [UnicodeLatin] and the chain [whole_buffer]. *)

Local Open Scope go_scope.
#[local] Existing Instance latin_chain.

Lemma Check_in_reported_witness :
  mk_Match b{"foo"} 7 ∈ [mk_Match b{"foo"} 7] <->
  reported (New [b{"foo"}] [EnableSpacedBypass]) b{"what the f o o dude"}
    (mk_Match b{"foo"} 7).
Proof.
  apply (Check_in_reported [b{"foo"}] (New [b{"foo"}] [EnableSpacedBypass])
           b{"What the F o o dude"});
    vm_compute; reflexivity.
Defined.

Lemma Check_in_empty_witness :
  Check_in [] (New [] [DisableNormalize]) b{"foo"} = Ok [].
Proof. apply Check_in_empty. vm_compute. reflexivity. Defined.

Lemma Check_in_NoDup_witness :
  NoDup (Word <$> [mk_Match b{"foo"} 0; mk_Match b{"oo"} 1]).
Proof.
  apply (Check_in_NoDup [b{"foo"}; b{"oo"}] (New [b{"foo"}; b{"oo"}] [])
           b{"foo foo"}); [compute_done|vm_compute; reflexivity].
Defined.

Lemma Check_in_Permutation_witness :
  result_rel (≡ₚ)
    (Check_in [b{"foo"}; b{"oo"}] (New [b{"foo"}; b{"oo"}] []) b{"foo"})
    (Check_in [b{"oo"}; b{"foo"}] (New [b{"foo"}; b{"oo"}] []) b{"foo"}).
Proof. apply Check_in_Permutation. apply perm_swap. Defined.

Lemma preprocess_Valid_witness :
  Valid [0x66; 0xEF; 0xBF; 0xBD; 0x20; 0x6F; 0x6F] = true.
Proof.
  apply (preprocess_Valid (New [] []) [0x46; 0xFF; 0x09; 0x4F; 0x4F]);
    [compute_done|vm_compute; reflexivity].
Defined.

(** The message is the half note U+1D15E, four bytes that the
    normalisation makes eight. *)
Lemma Check_in_Err_witness :
  (forall e,
     Check_in [b{"foo"}] (New [b{"foo"}] []) [0xF0; 0x9D; 0x85; 0x9E] = Err e
     <->
     words (New [b{"foo"}] []) <> ∅ /\
     disableNormalize (New [b{"foo"}] []) = false /\ e = ErrShortDst /\
     short_dst (length (ToLower [0xF0; 0x9D; 0x85; 0x9E]))
       (ToLower [0xF0; 0x9D; 0x85; 0x9E]) = true) /\
  (words (New [b{"foo"}] []) <> ∅ ->
   disableNormalize (New [b{"foo"}] []) = false ->
   Nat.lt (length (ToLower [0xF0; 0x9D; 0x85; 0x9E]))
     (length (normalized (ToLower [0xF0; 0x9D; 0x85; 0x9E]))) ->
   Check_in [b{"foo"}] (New [b{"foo"}] []) [0xF0; 0x9D; 0x85; 0x9E]
     = Err ErrShortDst).
Proof. apply Check_in_Err. Defined.

(** The messages are ["FoO"] and ["fOo"]. *)
Lemma Check_in_case_witness :
  Check_in [b{"foo"}] (New [b{"foo"}] []) b{"FoO"} =
    Check_in [b{"foo"}] (New [b{"foo"}] []) b{"fOo"} /\
  Check_in [b{"foo"}] (New [b{"foo"}] []) (ToLower b{"FoO"}) =
    Check_in [b{"foo"}] (New [b{"foo"}] []) b{"fOo"}.
Proof. apply Check_in_case; [compute_done..|vm_compute; reflexivity]. Defined.

(** The empty word in the empty message. *)
Lemma Check_in_empty_word_witness :
  Check_in [[]] (New [[]] []) [] = Err ErrShortDst \/
  exists res, Check_in [[]] (New [[]] []) [] = Ok res /\ mk_Match [] 0 ∈ res.
Proof. apply Check_in_empty_word; [vm_compute; reflexivity|compute_done]. Defined.

Lemma Check_in_sentinel_padded_witness : mk_Match space 0 ∉ [].
Proof.
  apply (Check_in_sentinel_padded [space] (New [space] []) (encode [0x301]));
    [reflexivity|compute_done|vm_compute; reflexivity].
Defined.
