(* ===== verification/Pipeline.v ===== *)
(** * Pipeline: the five stages of [Check] on runes

    Lines 108-139 of [src/swearfilter.go] rewrite the message with calls on
    strings: [strings.ToLower], the transform into a buffer, two calls of
    [strings.Replace] and two regular expressions.  This file gives what
    the five of them compute together as one function on the runes of the
    message ([preprocess_runes]): the runes are lower-cased, normalised and
    padded with one NUL for every byte the normalisation saves, then the
    tab becomes a space, U+200B is deleted and the whitespace is trimmed
    and its runs deleted, each stage under its option.

    [preprocess_refines] is the refinement: on every message, with every
    combination of options and every chain, a [preprocess] that succeeds
    returns the encoding of [preprocess_runes], its only error is
    [ErrShortDst] with the normalisation on, and it fails when the
    normalised text does not fit ([fits]).  The theorems that follow are
    proved on runes and hold of
    the bytes through it: what the stages that are on guarantee of the
    message the loop searches ([preprocess_clean]); that the pipeline
    without the normalisation rewrites its result to itself
    ([preprocess_idempotent]); that an index that is reported lies
    inside the rewritten message ([Check_in_index]); and which words
    [Check] is sure to report
    ([Check_reports]): those made of characters that no stage changes
    ([letter]) that stand among the [letters] of the message, whatever case
    the message has them in, whatever accents are on them and whatever
    zero-width spaces and, with the spaced bypass on, spaces and tabs are
    between them.

    The last part turns to the words: a word is searched as it was stored,
    so every character of a word that is reported is a space or a rune of
    the rewritten message ([reported_Forall]), and a word with a character
    that the stages erase is never reported ([Check_in_erased]). *)

From stdpp Require Import gmap.
From S2P Require Import Prelude Utf8 GoStrings Unicode UnicodeLatin.
From S2P Require Import Normalize Whitespace Collapse Vocabulary Check.

(** ** Definitions *)

Section pipeline.
Context `{UnicodeTables} {chain : Chain}.

(** Whether the normalisation of [rs] fits the buffer of line 111, which
    is as long as the encoding of [rs]. *)
Definition fits (rs : list Z) : bool :=
  (length (encode (normalize_runes rs)) <=? length (encode rs))%nat.

(** Whether the chain gives up on [rs] with that buffer, line 116. *)
Definition gives_up (rs : list Z) : bool :=
  short_dst (length (encode rs)) (encode rs).

(** The runes of the buffer after the transform, lines 111-120: those of
    the chain, then one NUL for every byte of the buffer it did not
    write. *)
Definition normalize_padded (rs : list Z) : list Z :=
  normalize_runes rs ++
  replicate (length (encode rs) - length (encode (normalize_runes rs))) 0.

(** Lines 123-139 on runes. *)
Definition stages_runes (flt : swearFilter) (rs : list Z) : list Z :=
  let rs := if negb (disableSpacedTab flt) then tab_runes rs else rs in
  let rs :=
    if negb (disableZeroWidthStripping flt) then zero_width_runes rs else rs in
  if negb (disableMultiWhitespaceStripping flt) then whitespace_runes rs
  else rs.

(** Lines 108-139 on runes, when the transform succeeds. *)
Definition preprocess_runes (flt : swearFilter) (msg : bytes) : list Z :=
  let rs := lower <$> decode msg in
  stages_runes flt
    (if negb (disableNormalize flt) then normalize_padded rs else rs).

(** The pipeline in closed form. *)
Definition preprocess_spec (flt : swearFilter) (msg : bytes)
    : result error bytes :=
  if disableNormalize flt || negb (gives_up (lower <$> decode msg))
  then Ok (encode (preprocess_runes flt msg))
  else Err ErrShortDst.

(** The form in which the stages that are on leave a text: no tab, no
    U+200B, no whitespace at its ends and no two whitespace characters
    side by side. *)
Definition clean (flt : swearFilter) (rs : list Z) : Prop :=
  (disableSpacedTab flt = false -> Forall (fun r => r <> 0x09) rs) /\
  (disableZeroWidthStripping flt = false -> Forall (fun r => r <> 0x200B) rs) /\
  (disableMultiWhitespaceStripping flt = false ->
   trimmed space_class rs /\ single space_class rs = true).

(** A message that the pipeline rewrites to itself. *)
Definition fixed (flt : swearFilter) (message : bytes) : Prop :=
  preprocess flt message = Ok message.

(** The characters that [Check] takes out from between the letters of a
    message: U+200B when the zero-width spaces are deleted (line 130) and,
    with the spaced bypass on, the space (line 160) and the tab that became
    one (line 125). *)
Definition skipped (flt : swearFilter) (r : Z) : bool :=
  (negb (disableZeroWidthStripping flt) && (r =? 0x200B)) ||
  (enableSpacedBypass flt &&
   ((r =? 0x20) || (negb (disableSpacedTab flt) && (r =? 0x09)))).

(** The letters of the message, as the words are compared with them: its
    runes in lower case and, when the normalisation is on, decomposed and
    without their marks, and without the characters that are [skipped]. *)
Definition letters (flt : swearFilter) (msg : bytes) : list Z :=
  let rs := lower <$> decode msg in
  filter (fun r => skipped flt r = false)
    (if negb (disableNormalize flt) then Remove unicodeSet (NFD rs) else rs).

(** What the searches hear of the message: its runes in lower case and,
    when the normalisation is on, decomposed and without their marks, as
    the three later stages leave them, without the characters that are
    [skipped].  The composition and the padding of the normalisation are
    left out. *)
Definition heard (flt : swearFilter) (msg : bytes) : list Z :=
  let rs := lower <$> decode msg in
  filter (fun r => skipped flt r = false)
    (stages_runes flt
       (if negb (disableNormalize flt) then Remove unicodeSet (NFD rs)
        else rs)).

(** A character of a word that [Check] compares as it is: it is not
    whitespace, it is not [skipped] and, when the normalisation is on, it
    is [stable].  An ASCII character that is not whitespace is one, and so
    is a letter of most scripts. *)
Definition letter (flt : swearFilter) (r : Z) : Prop :=
  space_class r = false /\ skipped flt r = false /\
  (disableNormalize flt = false -> stable r).

(** The characters that the stages leave in no message: the tab when it
    is turned into a space (line 125) and U+200B when it is deleted
    (line 130). *)
Definition erased (flt : swearFilter) (r : Z) : bool :=
  (negb (disableSpacedTab flt) && (r =? 0x09)) ||
  (negb (disableZeroWidthStripping flt) && (r =? 0x200B)).

End pipeline.

(** ** The refinement *)

Section pipeline_lemmas.
Context `{UnicodeTables} {chain : Chain}.
Implicit Types (flt : swearFilter) (rs : list Z) (msg message : bytes).

Lemma normalize_padded_valid rs :
  valid_runes rs -> valid_runes (normalize_padded rs).
Proof.
  intros. apply Forall_app_2; [|by apply Forall_replicate].
  by apply normalize_runes_valid.
Qed.

Lemma encode_normalize_padded rs :
  encode (normalize_padded rs) =
    encode (normalize_runes rs) ++
    replicate (length (encode rs) - length (encode (normalize_runes rs))) 0.
Proof.
  unfold normalize_padded. rewrite encode_app.
  by rewrite (encode_ascii (replicate _ _)) by apply Forall_ascii_replicate_0.
Qed.

(** The normalisation stage on the encoding of [rs]. *)
Lemma normalize_stage_encode rs :
  valid_runes rs ->
  normalize_stage (encode rs) =
    if gives_up rs then Err ErrShortDst else Ok (encode (normalize_padded rs)).
Proof.
  intros Hrs. unfold normalize_stage, Transform, normalized, gives_up.
  cbv zeta. rewrite decode_encode, length_replicate, drop_replicate by done.
  by rewrite encode_normalize_padded.
Qed.

(** The chain gives up on a text whose normalisation does not fit. *)
Lemma gives_up_fits rs : valid_runes rs -> fits rs = false -> gives_up rs = true.
Proof.
  intros Hrs Hfit%Nat.leb_gt. apply short_dst_long. unfold normalized.
  by rewrite decode_encode.
Qed.

Lemma stages_runes_ind (P : list Z -> Prop) flt rs :
  (forall l, P l -> P (tab_runes l)) ->
  (forall l, P l -> P (zero_width_runes l)) ->
  (forall l, P l -> P (whitespace_runes l)) ->
  P rs -> P (stages_runes flt rs).
Proof.
  intros Htab Hzw Hws Hrs. unfold stages_runes. cbv zeta.
  destruct (disableSpacedTab flt), (disableZeroWidthStripping flt),
    (disableMultiWhitespaceStripping flt); cbn [negb]; auto.
Qed.

Lemma stages_runes_valid flt rs :
  valid_runes rs -> valid_runes (stages_runes flt rs).
Proof.
  apply (stages_runes_ind valid_runes);
    auto using tab_runes_valid, zero_width_runes_valid, whitespace_runes_valid.
Qed.

(** The three stages on bytes compute the three stages on runes. *)
Lemma whitespace_stages_encode flt rs :
  valid_runes rs ->
  whitespace_stages flt (encode rs) = encode (stages_runes flt rs).
Proof.
  intros Hrs. unfold whitespace_stages, stages_runes. cbv zeta.
  destruct (disableSpacedTab flt), (disableZeroWidthStripping flt),
    (disableMultiWhitespaceStripping flt); cbn [negb];
    rewrite ?(stage_encode tab_stage tab_runes),
      ?(stage_encode zero_width_stage zero_width_runes),
      ?(stage_encode whitespace_stage whitespace_runes);
    auto using tab_stage_runes, zero_width_stage_runes,
      whitespace_stage_runes, tab_runes_valid, zero_width_runes_valid.
Qed.

Lemma lowered_runes_valid msg : valid_runes (lower <$> decode msg).
Proof. apply Forall_valid_fmap_lower, decode_valid. Qed.

Lemma preprocess_runes_valid flt msg : valid_runes (preprocess_runes flt msg).
Proof.
  apply stages_runes_valid. destruct (disableNormalize flt); cbn [negb];
    auto using normalize_padded_valid, lowered_runes_valid.
Qed.

(** The five stages on bytes compute the five stages on runes. *)
Lemma preprocess_closed_form flt msg :
  wf_bytes msg -> preprocess flt msg = preprocess_spec flt msg.
Proof.
  intros Hmsg. rewrite preprocess_unfold, ToLower_encode by done.
  pose proof (lowered_runes_valid msg) as Hrs.
  unfold preprocess_spec, preprocess_runes. cbv zeta.
  destruct (disableNormalize flt); cbn [negb orb].
  - cbn. by rewrite whitespace_stages_encode.
  - rewrite normalize_stage_encode by done. case_match; [done|].
    cbn. by rewrite whitespace_stages_encode by by apply normalize_padded_valid.
Qed.

(** The runes of the message that is searched. *)
Lemma preprocess_Ok_runes flt msg message :
  wf_bytes msg -> preprocess flt msg = Ok message ->
  message = encode (preprocess_runes flt msg) /\
  decode message = preprocess_runes flt msg.
Proof.
  intros Hmsg. rewrite preprocess_closed_form by done. unfold preprocess_spec.
  case_match; [|done]. intros [= <-]. split; [done|].
  apply decode_encode, preprocess_runes_valid.
Qed.

(** C14: the five stages on bytes compute the five stages on runes, with
    every combination of options, on every message and with every chain:
    when the stages succeed, the message that [Check] searches is valid
    UTF-8 and its runes are [preprocess_runes]; they fail only with
    [ErrShortDst] and only with the normalisation on; and with the
    normalisation on they do fail when the normalised text does not fit
    the buffer. *)
Theorem preprocess_refines flt msg :
  wf_bytes msg ->
  match preprocess flt msg with
  | Ok message =>
    Valid message = true /\ decode message = preprocess_runes flt msg /\
    (disableNormalize flt = false -> fits (lower <$> decode msg) = true)
  | Err e => e = ErrShortDst /\ disableNormalize flt = false
  end /\
  (disableNormalize flt = false -> fits (lower <$> decode msg) = false ->
   preprocess flt msg = Err ErrShortDst).
Proof.
  intros Hmsg. pose proof (gives_up_fits _ (lowered_runes_valid msg)) as Hg.
  split.
  - destruct (preprocess flt msg) as [message|e] eqn:E.
    + pose proof E as [-> ?]%preprocess_Ok_runes; [|done].
      split_and!; [apply Valid_encode|done|]. intros Hn.
      rewrite preprocess_closed_form in E by done. unfold preprocess_spec in E.
      rewrite Hn in E. destruct (fits _); [done|]. by rewrite Hg in E.
    + rewrite preprocess_closed_form in E by done. unfold preprocess_spec in E.
      destruct (disableNormalize flt), (gives_up _); naive_solver.
  - intros Hn Hfit. rewrite preprocess_closed_form by done.
    unfold preprocess_spec. by rewrite Hn, Hg.
Qed.

(** ** The length of the message that is searched *)

Lemma length_encode_tab_runes l :
  length (encode (tab_runes l)) = length (encode l).
Proof.
  unfold tab_runes. induction l as [|r l IH]; [done|].
  rewrite fmap_cons, !encode_cons, !length_app, IH.
  by case_bool_decide; subst.
Qed.

Lemma length_stages_runes flt rs :
  (length (encode (stages_runes flt rs)) <= length (encode rs))%nat.
Proof.
  apply (stages_runes_ind
           (fun l => (length (encode l) <= length (encode rs))%nat));
    [| | |done]; intros l Hl; (etrans; [|exact Hl]).
  - by rewrite length_encode_tab_runes.
  - apply length_encode_sublist, sublist_filter.
  - apply length_encode_sublist, (thins_sublist space_class),
      whitespace_runes_thins.
Qed.

(** The buffer of line 111 is as long as the message, and no stage makes
    the message longer. *)
Lemma length_preprocess_runes flt msg message :
  wf_bytes msg -> preprocess flt msg = Ok message ->
  (length (encode (preprocess_runes flt msg)) <= length (ToLower msg))%nat.
Proof.
  intros Hmsg. rewrite preprocess_closed_form, ToLower_encode by done.
  unfold preprocess_spec, preprocess_runes. cbv zeta. intros Hok.
  etrans; [apply length_stages_runes|].
  destruct (disableNormalize flt); cbn [negb orb] in *; [done|].
  destruct (gives_up _) eqn:Hg; [done|].
  apply short_dst_fits in Hg. unfold normalized in Hg.
  rewrite decode_encode in Hg by apply lowered_runes_valid.
  rewrite encode_normalize_padded, length_app, length_replicate. lia.
Qed.

(** C27: the index of a match is an offset in the message that was
    searched, which is never longer than the lower-cased message: the
    index is not negative, the word ends inside the searched message,
    and that message has at most the bytes of [ToLower msg], because the
    buffer of the normalisation has its length and no later stage adds
    a byte.  The word [" "] of the sentinel is the exception: it is
    reported at 0 for a message with no byte. *)
Theorem Check_in_index keys flt msg res mt :
  wf_bytes msg -> Check_in keys flt msg = Ok res -> mt ∈ res ->
  0 <= Index mt /\
  (length (encode (preprocess_runes flt msg)) <= length (ToLower msg))%nat /\
  (mt <> sentinel ->
   Index mt + Z.of_nat (length (Word mt))
     <= Z.of_nat (length (encode (preprocess_runes flt msg)))).
Proof.
  intros Hmsg Hres Hmt.
  destruct (Check_in_occurs _ _ _ _ _ Hres Hmt) as (message & Hpre & Hocc).
  pose proof (length_preprocess_runes _ _ _ Hmsg Hpre) as Hlen.
  pose proof Hpre as [-> Hd]%preprocess_Ok_runes; [|done].
  destruct Hocc as [->|(n & -> & Hn)]; [done|].
  split_and!; [lia|done|]. intros _.
  destruct Hn as [Hn%occurs_at_length|Hn%occurs_at_length]; [lia|].
  rewrite Replace_space_runes, Hd in Hn by apply Valid_encode.
  pose proof (length_encode_sublist _ _
    (sublist_filter (fun r => r <> 0x20) (preprocess_runes flt msg))). lia.
Qed.

(** ** What the stages guarantee *)

Lemma stages_runes_clean flt rs : clean flt (stages_runes flt rs).
Proof.
  unfold clean, stages_runes. cbv zeta.
  destruct (disableSpacedTab flt), (disableZeroWidthStripping flt),
    (disableMultiWhitespaceStripping flt); cbn [negb];
    repeat split; try done;
    auto using whitespace_runes_Forall, zero_width_runes_Forall,
      tab_runes_no_tab, zero_width_runes_no_zwsp, inside_single;
    apply whitespace_runes_normal.
Qed.

(** The stages change nothing in a text that is in their form. *)
Lemma stages_runes_id flt rs : clean flt rs -> stages_runes flt rs = rs.
Proof.
  intros (Htab & Hzw & Hws). unfold stages_runes. cbv zeta.
  destruct (disableSpacedTab flt); cbn [negb];
    rewrite ?tab_runes_id by auto;
    (destruct (disableZeroWidthStripping flt); cbn [negb];
     rewrite ?zero_width_runes_id by auto);
    (destruct (disableMultiWhitespaceStripping flt); cbn [negb]; [done|]);
    destruct Hws; auto using whitespace_runes_id.
Qed.

Lemma stages_runes_idemp flt rs :
  stages_runes flt (stages_runes flt rs) = stages_runes flt rs.
Proof. apply stages_runes_id, stages_runes_clean. Qed.

Lemma preprocess_runes_clean flt msg : clean flt (preprocess_runes flt msg).
Proof. apply stages_runes_clean. Qed.

(** C15: the message that [Check] searches is in the form of the stages
    that are on: it has no tab when tabs are turned into spaces, no U+200B
    when the zero-width spaces are deleted and, when the whitespace is
    collapsed, no whitespace at its ends and no two whitespace characters
    side by side. *)
Theorem preprocess_clean flt msg message :
  wf_bytes msg -> preprocess flt msg = Ok message ->
  clean flt (decode message).
Proof.
  intros Hmsg [_ ->]%preprocess_Ok_runes; [|done]. apply preprocess_runes_clean.
Qed.

(** ** The pipeline run twice

    Spec section 8 asks that the pipeline change nothing in a message it
    has already rewritten.  Without the normalisation it is so: the stages
    leave their own results as they are ([stages_runes_idemp]) and
    [unicode.ToLower] changes no character it returns.  With the
    normalisation it is not ([Tests.preprocess_not_idempotent]). *)

Lemma lower_fixed_stages flt rs :
  Forall (fun r => lower r = r) rs ->
  Forall (fun r => lower r = r) (stages_runes flt rs).
Proof.
  apply (stages_runes_ind (Forall (fun r => lower r = r)));
    auto using zero_width_runes_Forall, whitespace_runes_Forall.
  intros l Hl. apply Forall_fmap. eapply Forall_impl; [done|].
  intros r Hr. cbn. case_bool_decide; [by rewrite lower_ascii|done].
Qed.

Lemma fmap_lower_fixed rs : Forall (fun r => lower r = r) rs -> lower <$> rs = rs.
Proof.
  intros. rewrite <- (list_fmap_id rs) at 2. by apply Forall_fmap_ext.
Qed.

(** C16: with the normalisation off the pipeline is idempotent: the
    message that [Check] searches is rewritten to itself, whatever the
    other options. *)
Theorem preprocess_idempotent flt msg message :
  disableNormalize flt = true -> wf_bytes msg ->
  preprocess flt msg = Ok message -> fixed flt message.
Proof.
  intros Hoff Hmsg [-> _]%preprocess_Ok_runes; [|done]. unfold fixed.
  rewrite preprocess_closed_form by apply wf_bytes_encode.
  unfold preprocess_spec, preprocess_runes. cbv zeta.
  rewrite Hoff, decode_encode by apply stages_runes_valid, lowered_runes_valid.
  cbn [negb orb]. rewrite fmap_lower_fixed, stages_runes_idemp; [done|].
  apply lower_fixed_stages, Forall_fmap, Forall_true. intros r. apply lower_idemp.
Qed.

(** ** The words that are found

    A word whose characters are [letter]s is never changed by a stage,
    and what stands between its letters and is [skipped] is taken out
    before the search that finds it. *)

Section keeps_word.
Context (flt : swearFilter) (w : list Z).
Hypothesis Hne : w <> [].
Hypothesis Hw : Forall (letter flt) w.

Local Abbreviation kept := (fun r => skipped flt r = false).

Lemma skipped_inert r : skipped flt r = true -> inert r.
Proof. unfold skipped, inert, is_ascii. lia. Qed.

Lemma letter_space : Forall (fun b => space_class b = false) w.
Proof. eapply Forall_impl; [exact Hw|]. by intros r (? & _). Qed.

Lemma kept_word : Forall kept w.
Proof. eapply Forall_impl; [exact Hw|]. by intros r (_ & ? & _). Qed.

Lemma kept_segment xs I ys :
  filter kept I = w -> substring_of w (filter kept (xs ++ I ++ ys)).
Proof. intros <-. rewrite !filter_app. apply substring_of_app. Qed.

(** The normalisation composes nothing with a letter of the word or with
    what is skipped between two of them. *)
Lemma normalize_padded_kept rs :
  disableNormalize flt = false ->
  substring_of w (filter kept (Remove unicodeSet (NFD rs))) ->
  substring_of w (filter kept (normalize_padded rs)).
Proof.
  intros Hn
    (k1 & k3 & (xs & I & ys & E & HI)%filter_middle_inv)%substring_of_inv.
  unfold normalize_padded.
  rewrite (normalize_runes_segment xs I ys), <- !app_assoc;
    [by apply kept_segment| |by intros ->|done].
  apply Forall_forall. intros c Hc.
  destruct (skipped flt c) eqn:Hs; [by eapply inert_stable, skipped_inert|].
  assert (c ∈ w) as Hcw by (rewrite <- HI; by apply list_elem_of_filter).
  eapply Forall_forall in Hw; [|done]. by apply Hw.
Qed.

(** The tab is skipped when the space is. *)
Lemma filter_kept_tab_runes rs :
  disableSpacedTab flt = false ->
  filter kept (tab_runes rs) = tab_runes (filter kept rs).
Proof.
  intros Htab. apply filter_fmap_comm.
  intros r. cbn. case_bool_decide as Hr; [subst r|done].
  unfold skipped. rewrite Htab.
  by destruct (enableSpacedBypass flt), (disableZeroWidthStripping flt).
Qed.

Lemma tab_runes_kept rs :
  disableSpacedTab flt = false ->
  substring_of w (filter kept rs) -> substring_of w (filter kept (tab_runes rs)).
Proof.
  intros Htab Hsub. rewrite filter_kept_tab_runes by done.
  by apply tab_runes_keeps_word; [apply letter_space|].
Qed.

Lemma zero_width_runes_kept rs :
  disableZeroWidthStripping flt = false ->
  filter kept (zero_width_runes rs) = filter kept rs.
Proof.
  intros Hzw. apply filter_filter_l. intros r. unfold skipped. rewrite Hzw. lia.
Qed.

(** The whitespace stage deletes whitespace and nothing else. *)
Lemma whitespace_runes_kept rs :
  substring_of w (filter kept rs) ->
  substring_of w (filter kept (whitespace_runes rs)).
Proof.
  intros (xs & ys & E)%substring_of_inv.
  pose proof (thins_filter space_class kept _ _ (whitespace_runes_thins rs)) as Ht.
  rewrite E in Ht.
  apply thins_keeps_word in Ht as (xs' & ys' & ->); [|apply letter_space].
  apply substring_of_app.
Qed.

Lemma stages_runes_kept rs :
  substring_of w (filter kept rs) ->
  substring_of w (filter kept (stages_runes flt rs)).
Proof.
  intros Hsub. unfold stages_runes. cbv zeta.
  destruct (disableMultiWhitespaceStripping flt); cbn [negb];
    [|apply whitespace_runes_kept];
    (destruct (disableZeroWidthStripping flt) eqn:Hzw; cbn [negb];
     [|rewrite zero_width_runes_kept by done]);
    (destruct (disableSpacedTab flt) eqn:Htab; cbn [negb];
     [done|by apply tab_runes_kept]).
Qed.

(** In a text that the stages have left, only the space is skipped, and
    only with the spaced bypass on. *)
Lemma clean_skipped rs :
  clean flt rs ->
  Forall (fun r => skipped flt r = enableSpacedBypass flt && (r =? 0x20)) rs.
Proof.
  intros (Htab & Hzw & _). apply Forall_forall. intros r Hr. unfold skipped.
  destruct (disableZeroWidthStripping flt); cbn [negb andb orb];
    [|eapply Forall_forall in Hzw; [|done..]];
    (destruct (disableSpacedTab flt); cbn [negb andb orb];
     [|eapply Forall_forall in Htab; [|done..]]);
    destruct (enableSpacedBypass flt); lia.
Qed.

(** The word is among the runes that are searched, without those that
    are skipped: one of the two searches finds it. *)
Lemma kept_found msg message :
  wf_bytes msg -> substring_of w (filter kept (preprocess_runes flt msg)) ->
  preprocess flt msg = Ok message ->
  substring_of (encode w) message \/
    (enableSpacedBypass flt = true /\
     substring_of (encode w) (Replace message space [] (-1))).
Proof.
  intros Hmsg Hk [-> _]%preprocess_Ok_runes; [|done].
  pose proof (preprocess_runes_valid flt msg) as Hv.
  pose proof (clean_skipped _ (preprocess_runes_clean flt msg)) as Hc.
  destruct (enableSpacedBypass flt) eqn:Hby; [right; split; [done|]|left].
  - rewrite Replace_space_runes, decode_encode by auto using Valid_encode.
    apply substring_of_encode_map.
    rewrite (filter_ext_Forall _ kept); [done|].
    eapply Forall_impl; [exact Hc|]. intros r ->. cbn. lia.
  - apply substring_of_encode_map.
    rewrite filter_Forall_id in Hk; [done|].
    eapply Forall_impl; [exact Hc|]. by intros r ->.
Qed.

(** The word is among the letters of the message: one of the two searches
    finds it. *)
Lemma letters_found msg message :
  wf_bytes msg -> substring_of w (letters flt msg) ->
  preprocess flt msg = Ok message ->
  substring_of (encode w) message \/
    (enableSpacedBypass flt = true /\
     substring_of (encode w) (Replace message space [] (-1))).
Proof.
  intros Hmsg Hsub. apply kept_found; [done|].
  apply stages_runes_kept. unfold letters in Hsub. cbv zeta in Hsub.
  unfold preprocess_runes. cbv zeta.
  destruct (disableNormalize flt) eqn:Hn; cbn [negb] in *; [done|].
  by apply normalize_padded_kept.
Qed.

(** The word is not the word [" "]. *)
Lemma letter_not_space : encode w <> space.
Proof.
  intros E%encode_singleton_inv. rewrite E in Hw.
  by apply Forall_cons in Hw as [(? & _) _].
Qed.

End keeps_word.

(** An ASCII character that is not whitespace is a letter. *)
Lemma ascii_letter flt b :
  is_ascii b -> space_class b = false -> letter flt b.
Proof.
  intros Hb Hsp.
  split_and!; [done| |intros _; by apply inert_stable, inert_ascii].
  unfold skipped. unfold is_ascii in Hb.
  destruct (Z.eqb_spec b 0x20) as [->|]; [done|].
  destruct (Z.eqb_spec b 0x09) as [->|]; [done|].
  destruct (Z.eqb_spec b 0x200B) as [->|]; [lia|].
  by rewrite !andb_false_r.
Qed.

Lemma Forall_ascii_letter flt w :
  Forall is_ascii w -> Forall (fun b => space_class b = false) w ->
  Forall (letter flt) w.
Proof.
  intros Ha Hs.
  eapply Forall_impl; [apply Forall_and; split; [exact Ha|exact Hs]|].
  intros b [? ?]. by apply ascii_letter.
Qed.

(** C6: a word whose characters are letters (not whitespace, not skipped
    and, with the normalisation on, stable: the ASCII characters that are
    not whitespace and the letters of most scripts) and that stands
    among the letters of the message is reported, whatever the message
    holds around and between them that [Check] does not compare: the
    letters in whatever case, under whatever accents and marks when the
    normalisation is on, with zero-width spaces between them when these are
    deleted, with spaces and tabs between them when the spaced bypass is
    on, and among whitespace, marks and bytes that are not UTF-8.  This
    holds with every combination of options and every order of the visit,
    unless [Check] fails, which it does only with [ErrShortDst]. *)
Theorem Check_reports keys flt msg w :
  ranges flt keys -> encode w ∈ words flt ->
  w <> [] -> Forall (letter flt) w ->
  wf_bytes msg -> substring_of w (letters flt msg) ->
  Check_in keys flt msg = Err ErrShortDst \/
  exists res i,
    Check_in keys flt msg = Ok res /\ mk_Match (encode w) i ∈ res.
Proof.
  intros Hkeys Hw Hne Hl Hmsg Hsub.
  apply Check_in_finds; eauto using letters_found, letter_not_space.
Qed.

(** ** The words that are reported

    A word is searched as it is stored, among the bytes of a message that
    the stages have rewritten: what no rune of that message is, no
    character of a word that is found can be. *)

(** A word that is reported stands among the bytes of an encoded text whose
    runes are runes of the rewritten message, or the space of the word
    [" "]. *)
Lemma reported_runes keys flt msg res mt :
  wf_bytes msg -> Check_in keys flt msg = Ok res -> mt ∈ res ->
  exists rs, substring_of (Word mt) (encode rs) /\ valid_runes rs /\
    forall z, z ∈ rs -> z = 0x20 \/ z ∈ preprocess_runes flt msg.
Proof.
  intros Hmsg Hres Hmt.
  destruct (Check_in_substring _ _ _ _ _ Hres Hmt) as (message & Hpre & Hs).
  pose proof (preprocess_runes_valid flt msg) as Hv.
  apply preprocess_Ok_runes in Hpre as [-> Hd]; [|done].
  destruct Hs as [Hs|[[_ Hs]| ->]].
  - eauto.
  - rewrite Replace_space_runes, Hd in Hs by by apply Valid_encode.
    eexists. split_and!; [done|by apply Forall_filter_weaken|].
    intros z [_ ?]%list_elem_of_filter. auto.
  - exists [0x20].
    split_and!; [by exists 0%nat, [], []|by repeat constructor|].
    intros z ->%list_elem_of_singleton. auto.
Qed.

(** What holds of the space and of every rune of the rewritten message
    holds of every character of a word that is reported. *)
Lemma reported_Forall (P : Z -> Prop) keys flt msg res mt z :
  P 0x20 -> Forall P (preprocess_runes flt msg) ->
  wf_bytes msg -> Check_in keys flt msg = Ok res -> mt ∈ res ->
  ValidRune z = true -> substring_of (EncodeRune z) (Word mt) -> P z.
Proof.
  intros Hsp HP Hmsg Hres Hmt Hz Hsub. rewrite Forall_forall in HP.
  destruct (reported_runes _ _ _ _ _ Hmsg Hres Hmt) as (rs & Hs & Hv & Hrs).
  destruct (Hrs z) as [->|Hin]; [|done|by apply HP].
  eapply EncodeRune_in_encode, substring_of_trans; done.
Qed.

Lemma preprocess_runes_erased flt msg :
  Forall (fun r => erased flt r = false) (preprocess_runes flt msg).
Proof.
  destruct (preprocess_runes_clean flt msg) as (Htab & Hzw & _).
  apply Forall_forall. intros r Hr. unfold erased.
  rewrite orb_false_iff, !andb_false_iff, !negb_false_iff, !Z.eqb_neq.
  rewrite Forall_forall in Htab, Hzw.
  split; [destruct (disableSpacedTab flt)|
          destruct (disableZeroWidthStripping flt)]; auto.
Qed.

(** C10: a word that [Check] reports holds no character that the stages
    erase, whatever the message and the order of the visit: no tab while
    the tabs are turned into spaces and no U+200B while the zero-width
    spaces are deleted.  The stages rewrite the message and no word, so a
    word put in the vocabulary with a tab or a zero-width space is never
    reported while that stage is on. *)
Theorem Check_in_erased keys flt msg res mt z :
  wf_bytes msg -> Check_in keys flt msg = Ok res -> mt ∈ res ->
  ValidRune z = true -> substring_of (EncodeRune z) (Word mt) ->
  erased flt z = false.
Proof.
  apply (reported_Forall (fun r => erased flt r = false)).
  - unfold erased. cbn. by rewrite !andb_false_r.
  - apply preprocess_runes_erased.
Qed.

End pipeline_lemmas.

(** ** The theorems at concrete filters and messages

    With the tables of [UnicodeLatin] and the chain [whole_buffer]. *)

Local Open Scope go_scope.
#[local] Existing Instance latin_chain.

(** The message is [a], tab, [É], U+200B: the normalisation saves one byte
    and pads with one NUL. *)
Lemma preprocess_refines_witness :
  (Valid [0x61; 0x20; 0x65; 0x00] = true /\
   decode [0x61; 0x20; 0x65; 0x00] =
     preprocess_runes (New [] [])
       [0x61; 0x09; 0xC3; 0x89; 0xE2; 0x80; 0x8B] /\
   (disableNormalize (New [] []) = false ->
    fits (lower <$> decode [0x61; 0x09; 0xC3; 0x89; 0xE2; 0x80; 0x8B])
      = true)) /\
  (disableNormalize (New [] []) = false ->
   fits (lower <$> decode [0x61; 0x09; 0xC3; 0x89; 0xE2; 0x80; 0x8B])
     = false ->
   preprocess (New [] []) [0x61; 0x09; 0xC3; 0x89; 0xE2; 0x80; 0x8B]
     = Err ErrShortDst).
Proof.
  pose proof (preprocess_refines (New [] [])
                [0x61; 0x09; 0xC3; 0x89; 0xE2; 0x80; 0x8B]) as Hw.
  vm_compute (preprocess _ _) in Hw at 1. apply Hw. compute_done.
Defined.

(** The message is two spaces and ["foo"]: the word is found at 0 in the
    message without the two spaces. *)
Lemma Check_in_index_witness :
  0 <= Index (mk_Match b{"foo"} 0) /\
  (length (encode (preprocess_runes (New [b{"foo"}] []) b{"  foo"}))
     <= length (ToLower b{"  foo"}))%nat /\
  (mk_Match b{"foo"} 0 <> sentinel ->
   Index (mk_Match b{"foo"} 0) + Z.of_nat (length (Word (mk_Match b{"foo"} 0)))
     <= Z.of_nat
          (length (encode (preprocess_runes (New [b{"foo"}] []) b{"  foo"})))).
Proof.
  apply (Check_in_index [b{"foo"}] (New [b{"foo"}] []) b{"  foo"}
           [mk_Match b{"foo"} 0]);
    [compute_done|vm_compute; reflexivity|by apply list_elem_of_singleton].
Defined.

Lemma preprocess_clean_witness :
  clean (New [] []) (decode [0x61; 0x20; 0x65; 0x00]).
Proof.
  apply (preprocess_clean (New [] [])
           [0x61; 0x09; 0xC3; 0x89; 0xE2; 0x80; 0x8B]);
    [compute_done|vm_compute; reflexivity].
Defined.

(** The message is tab, [A], [É], U+200B, two spaces, [b], space, [c],
    space; it is rewritten to [aéb c]. *)
Lemma preprocess_idempotent_witness :
  fixed (New [] [DisableNormalize]) [0x61; 0xC3; 0xA9; 0x62; 0x20; 0x63].
Proof.
  apply (preprocess_idempotent (New [] [DisableNormalize])
    [0x09; 0x41; 0xC3; 0x89; 0xE2; 0x80; 0x8B; 0x20; 0x20; 0x62; 0x20; 0x63;
     0x20]); [done|compute_done|vm_compute; reflexivity].
Defined.

(** The word is [f], [o], [ß]; the message has it in capitals, under an
    accent, with a zero-width space and a space between its letters, before
    a byte that is not UTF-8: [F], U+200B, [Ó], space, [ß], [0xFF], and
    the spaced bypass is on. *)
Lemma Check_reports_witness :
  Check_in [encode [0x66; 0x6F; 0xDF]]
      (New [encode [0x66; 0x6F; 0xDF]] [EnableSpacedBypass])
      [0x46; 0xE2; 0x80; 0x8B; 0xC3; 0x93; 0x20; 0xC3; 0x9F; 0xFF]
    = Err ErrShortDst \/
  exists res i,
    Check_in [encode [0x66; 0x6F; 0xDF]]
      (New [encode [0x66; 0x6F; 0xDF]] [EnableSpacedBypass])
      [0x46; 0xE2; 0x80; 0x8B; 0xC3; 0x93; 0x20; 0xC3; 0x9F; 0xFF] = Ok res /\
    mk_Match (encode [0x66; 0x6F; 0xDF]) i ∈ res.
Proof.
  apply Check_reports.
  - vm_compute. reflexivity.
  - compute_done.
  - discriminate.
  - repeat (apply Forall_cons; split;
      [split_and!; [done|done|];
       intros _; apply stable_latin_spec; vm_compute; reflexivity|]).
    constructor.
  - compute_done.
  - exists 0%nat, [], [0xFFFD]. vm_compute. split; reflexivity.
Defined.

(** The vocabulary holds [a], tab, [b] and ["a b"]; the message is the
    first of them, and only ["a b"] is reported. *)
Lemma Check_in_erased_witness :
  erased (New [[0x61; 0x09; 0x62]; b{"a b"}] []) 0x20 = false.
Proof.
  apply (Check_in_erased [[0x61; 0x09; 0x62]; b{"a b"}]
           (New [[0x61; 0x09; 0x62]; b{"a b"}] []) [0x61; 0x09; 0x62]
           [mk_Match b{"a b"} 0] (mk_Match b{"a b"} 0) 0x20);
    [compute_done|vm_compute; reflexivity|set_solver|done|].
  by exists 1%nat, [0x61], [0x62].
Defined.

