(* ===== verification/CaseFolding.v ===== *)
(** * CaseFolding: the letter case of the words

    [Check] lower-cases the message (line 108 of [src/swearfilter.go]) and
    searches the words as [New] and [Add] stored them (lines 145-170): no
    word is lower-cased.  This file follows the ASCII capital letters
    through the pipeline: after [strings.ToLower] the message has none, and
    no stage brings one back, neither the normalisation (a decomposition of
    a lower-cased rune has no capital, a composite is not ASCII) nor the
    three whitespace stages (they write spaces and delete runes), nor the
    deletion of the spaces for the spaced bypass.  The message that the loop
    searches is [lowered], therefore so is every word that is reported: a
    word stored with a capital letter is never found.

    What the character tables must satisfy for this is the class
    [CaseTables], three facts of the Unicode standard on top of
    [UnicodeTables]; the fragment [latin] is an instance, by a check of its
    tables. *)

From stdpp Require Import gmap.
From S2P Require Import Prelude Utf8 GoStrings Unicode UnicodeLatin.
From S2P Require Import Normalize Whitespace Vocabulary Check.

(** ** Definitions *)

(** An ASCII capital letter, as a byte or as a rune: the test
    ['A' <= c && c <= 'Z'] of [strings.ToLower]. *)
Definition upper (c : Z) : Prop := 0x41 <= c <= 0x5A.

#[export] Instance upper_dec c : Decision (upper c).
Proof. unfold upper. apply _. Defined.

(** A string, or a sequence of runes, without an ASCII capital letter. *)
Definition lowered (l : list Z) : Prop := Forall (fun c => ~ upper c) l.

#[export] Instance lowered_dec l : Decision (lowered l).
Proof. unfold lowered. apply _. Defined.

(** The letter case in the character tables: [unicode.ToLower] returns no
    ASCII capital; the canonical decomposition of what it returns holds
    none (the characters that decompose to an ASCII capital and marks are
    upper-case letters); a primary composite is not an ASCII capital. *)
Class CaseTables `{UnicodeTables} : Prop := {
  lower_lowered r : ~ upper (lower r);
  decomp_lower_lowered r : lowered (decomp (lower r));
  primary_lowered a c sc : primary a c = Some sc -> ~ upper sc;
}.

(** ** Strings without capital letters *)

Lemma hasUpper_lowered s : hasUpper s = false <-> lowered s.
Proof.
  unfold hasUpper, lowered, upper. induction s as [|b s IH]; cbn [existsb].
  - split; [constructor|done].
  - rewrite orb_false_iff, Forall_cons, IH.
    split; intros [? ?]; (split; [lia|done]).
Qed.

Lemma lowered_substring w s : substring_of w s -> lowered s -> lowered w.
Proof.
  intros (i & pre & post & -> & _). unfold lowered.
  rewrite !Forall_app. tauto.
Qed.

(** The bytes of a rune that is not a capital are not capitals: a rune
    above U+007F is encoded in bytes above 0x7F. *)
Lemma lowered_EncodeRune r :
  ValidRune r = true -> ~ upper r -> lowered (EncodeRune r).
Proof.
  intros Hr Hu. unfold lowered, upper in *.
  destruct (EncodeRune_shape r Hr) as [[? ->]|[[? ->]|[[? ->]|[? ->]]]];
    repeat (constructor; [zlia|]); constructor.
Qed.

Lemma lowered_bytes s : Valid s = true -> lowered (decode s) -> lowered s.
Proof.
  intros Hs Hl. rewrite <- (encode_decode_Valid s Hs).
  apply Forall_bind. pose proof (decode_valid s) as Hv.
  eapply Forall_impl; [apply Forall_and; split; [exact Hv|exact Hl]|].
  intros r [? ?]. by apply lowered_EncodeRune.
Qed.

(** Runes that are encoded and read back: an invalid one comes back as
    [RuneError]. *)
Lemma lowered_decode_encode rs : lowered rs -> lowered (decode (encode rs)).
Proof.
  intros Hl. rewrite decode_encode_sanitize. apply Forall_fmap.
  eapply Forall_impl; [done|]. intros r Hr. cbn. unfold sanitize.
  case_match; [done|]. unfold upper, RuneError. lia.
Qed.

(** ** The whitespace stages *)

Lemma lowered_tab_stage message :
  Valid message = true -> lowered (decode message) ->
  lowered (decode (tab_stage message)).
Proof.
  intros Hm Hl. rewrite tab_stage_runes by done. apply lowered_decode_encode.
  apply Forall_fmap. eapply Forall_impl; [done|]. intros r Hr. cbn.
  case_bool_decide; [unfold upper; lia|done].
Qed.

Lemma lowered_zero_width_stage message :
  Valid message = true -> lowered (decode message) ->
  lowered (decode (zero_width_stage message)).
Proof.
  intros Hm Hl. rewrite zero_width_stage_runes by done.
  apply lowered_decode_encode. unfold lowered in *.
  rewrite Forall_forall in *. intros r [_ ?]%list_elem_of_filter. auto.
Qed.

Lemma lowered_whitespace_stage message :
  Valid message = true -> lowered (decode message) ->
  lowered (decode (whitespace_stage message)).
Proof.
  intros Hm Hl. rewrite whitespace_stage_runes by done.
  apply lowered_decode_encode.
  apply inside_Forall; [constructor|]. by apply lead_close_Forall; [constructor|].
Qed.

Section pipeline.
Context `{CaseTables} {chain : Chain}.

Lemma lowered_whitespace_stages flt message :
  Valid message = true /\ lowered (decode message) ->
  Valid (whitespace_stages flt message) = true /\
  lowered (decode (whitespace_stages flt message)).
Proof.
  apply (whitespace_stages_ind
    (fun m => Valid m = true /\ lowered (decode m))); intros m [? ?];
    auto using Valid_tab_stage, lowered_tab_stage, Valid_zero_width_stage,
      lowered_zero_width_stage, Valid_whitespace_stage, lowered_whitespace_stage.
Qed.

(** ** The lower-casing and the normalisation *)

(** The runes of the lower-cased message: none is a capital and none
    decomposes to one. *)
Lemma ToLower_lowered msg :
  wf_bytes msg ->
  lowered (decode (ToLower msg)) /\
  Forall (fun r => lowered (decomp r)) (decode (ToLower msg)).
Proof.
  intros Hmsg. rewrite ToLower_encode by done.
  rewrite decode_encode by apply Forall_valid_fmap_lower, decode_valid.
  split; apply Forall_fmap, Forall_true; intros r; cbn;
    [apply lower_lowered|apply decomp_lower_lowered].
Qed.

Lemma lowered_normalize_runes rs :
  Forall (fun r => lowered (decomp r)) rs -> lowered (normalize_runes rs).
Proof.
  intros Hrs. rewrite normalize_runes_compose.
  apply compose_go_Forall; [apply primary_lowered|done|constructor|].
  apply reorder_Forall; [constructor|]. apply Remove_Forall.
  apply reorder_Forall; [constructor|]. apply bind_decomp_Forall.
  intros r Hr. by eapply Forall_forall in Hrs.
Qed.

(** The NUL runes of the padding are no capitals either. *)
Lemma lowered_normalize_stage msg out :
  wf_bytes msg -> normalize_stage (ToLower msg) = Ok out ->
  lowered (decode out).
Proof.
  intros Hmsg E. rewrite (decode_normalize_stage _ _ E).
  apply Forall_app. split.
  - by apply lowered_normalize_runes, ToLower_lowered.
  - apply Forall_replicate. unfold upper. lia.
Qed.

(** ** The message that is searched *)

Lemma lowered_preprocess flt msg message :
  wf_bytes msg -> preprocess flt msg = Ok message -> lowered message.
Proof.
  intros Hmsg Hpre. apply lowered_bytes.
  all: revert Hpre; apply (preprocess_ind
    (fun m => Valid m = true /\ lowered (decode m)));
    [intros _; split; [by apply Valid_ToLower|by apply ToLower_lowered]
    |intros out _ E; split;
       [by eapply Valid_normalize_stage|by eapply lowered_normalize_stage]
    |apply lowered_whitespace_stages].
Qed.

(** A word that is found, in the message or in the message without its
    spaces, is a substring of a string without capitals. *)
Lemma lowered_match_of flt message w mt :
  lowered message -> match_of flt message w = Some mt -> lowered (Word mt).
Proof.
  intros Hl [Hs|[_ Hs]]%match_of_substring; eapply lowered_substring;
    [done..|].
  unfold space. rewrite Replace_byte. apply Forall_bind.
  eapply Forall_impl; [done|]. intros b Hb. cbn.
  case_bool_decide; by repeat constructor.
Qed.

(** C23: a word that [Check] reports has no ASCII capital letter, whatever
    the message, the options and the order of the visit: the message is
    lower-cased, no stage of the pipeline brings a capital back, and the
    words are searched as they were stored.  A word put in the vocabulary
    with a capital letter is therefore never reported. *)
Theorem Check_in_lowered keys flt msg res mt :
  wf_bytes msg -> Check_in keys flt msg = Ok res -> mt ∈ res ->
  lowered (Word mt).
Proof.
  intros Hmsg. rewrite Check_in_closed_form. unfold Check_spec.
  case_bool_decide; [by intros [= <-] ?%elem_of_nil|].
  destruct (preprocess flt msg) as [message|e] eqn:E; [|done]. cbn.
  intros [= <-] [Hm|Hm]%elem_of_app.
  - apply elem_of_reports in Hm as (_ & _ & Hm).
    eapply lowered_match_of; [|done]. by eapply lowered_preprocess.
  - apply elem_of_sentinel in Hm as [_ ->]. compute_done.
Qed.

End pipeline.

(** ** The fragment [latin] *)

Lemma lower_latin_lowered r : ~ upper (lower_latin r).
Proof. unfold upper, lower_latin. repeat case_if_lia. Qed.

(** Every character of the table that decomposes to an ASCII capital is
    changed by [lower_latin]. *)
Lemma decomp_lower_latin_lowered r : lowered (decomp_latin (lower_latin r)).
Proof.
  pose proof (lower_latin_idemp r) as Hidem.
  pose proof (lower_latin_lowered r) as Hlow.
  destruct (decomp_latin_forallb
    (fun e => bool_decide (lower_latin e.1 <> e.1) || bool_decide (lowered e.2))
    (lower_latin r)) as [->|Hk]; [done|by repeat constructor|].
  cbn [fst snd] in Hk.
  apply orb_true_iff in Hk as [Hk|Hk]; apply bool_decide_eq_true in Hk; done.
Qed.

Lemma primary_latin_lowered a c sc : primary_latin a c = Some sc -> ~ upper sc.
Proof.
  intros Hp.
  apply (primary_latin_forallb (fun e => 0x80 <=? e.2)) in Hp; [|done].
  cbn [fst snd] in Hp. unfold upper. lia.
Qed.

#[export] Instance latin_CaseTables : CaseTables := {|
  lower_lowered := lower_latin_lowered;
  decomp_lower_lowered := decomp_lower_latin_lowered;
  primary_lowered := primary_latin_lowered;
|}.

(** ** The theorem at a concrete filter

    The vocabulary holds ["foo"] and ["Bar"]; the message holds both, and
    only ["foo"] is reported. *)

Local Open Scope go_scope.
#[local] Existing Instance latin_chain.

Lemma Check_in_lowered_witness : lowered (Word (mk_Match b{"foo"} 0)).
Proof.
  apply (Check_in_lowered [b{"foo"}; b{"Bar"}] (New [b{"foo"}; b{"Bar"}] [])
           b{"Foo Bar"} [mk_Match b{"foo"} 0]);
    [compute_done|vm_compute; reflexivity|set_solver].
Defined.
