(* ===== verification/Diacritics.v ===== *)
(** * Diacritics: the marks of the words

    With the normalisation on, [Check] takes the nonspacing marks out of
    the message (lines 111-120 of [src/swearfilter.go]) and searches the
    words as [New] and [Add] stored them (lines 145-170): no word is
    normalised.  This file follows the marks through the pipeline: after
    [norm.NFD] and the removal of [unicode.Mn] every character is its own
    decomposition and no mark, [norm.NFC] composes such characters to
    characters that decompose to them, the padding is NUL, and the three
    whitespace stages write spaces and delete runes, as does the deletion
    of the spaces for the spaced bypass.  The message that the loop
    searches has no character that is [marked], therefore neither has a
    word that is reported: a word stored with an accent is never found
    while the normalisation is on.

    That a character of a word that is found is a rune of the message is
    [Pipeline.reported_Forall]; the law of the character tables that the
    composition needs is [primary_decomp] of [UnicodeTables]. *)

From stdpp Require Import gmap.
From S2P Require Import Prelude Utf8 GoStrings Unicode UnicodeLatin Normalize Whitespace Collapse Vocabulary Check Pipeline.

(** ** Definitions *)

Section definitions.
Context `{UnicodeTables} {chain : Chain}.

(** A character with a diacritic: its full canonical decomposition holds a
    character of [unicode.Mn].  A letter with an accent is one, and so is a
    mark of the tables of Unicode, which decomposes to itself or to other
    marks. *)
Definition marked (r : Z) : bool := existsb is_Mn (decomp r).

(** A sequence of runes without such a character. *)
Definition unmarked (rs : list Z) : Prop :=
  Forall (fun r => marked r = false) rs.

End definitions.

Section marks.
Context `{UnicodeTables} {chain : Chain}.

(** ** The characters *)

Lemma marked_inert r : inert r -> marked r = false.
Proof.
  intros Hr. unfold marked. rewrite decomp_inert by done. cbn.
  by rewrite is_Mn_inert.
Qed.

Lemma marked_primary a c sc :
  marked a = false -> marked c = false -> primary a c = Some sc ->
  marked sc = false.
Proof.
  unfold marked. intros Ha Hc ->%primary_decomp.
  by rewrite existsb_app, Ha, Hc.
Qed.

(** ** The normalisation *)

(** What the decomposition and the removal leave is decomposed and no
    mark. *)
Lemma unmarked_Remove_NFD rs : unmarked (Remove unicodeSet (NFD rs)).
Proof.
  apply Forall_forall. intros c [Hc Hin]%list_elem_of_filter.
  pose proof (NFD_decomposed rs) as Hd. rewrite Forall_forall in Hd.
  unfold marked. rewrite (Hd c Hin). cbn. unfold Contains in Hc.
  by rewrite Hc.
Qed.

Lemma unmarked_normalize_runes rs : unmarked (normalize_runes rs).
Proof.
  rewrite normalize_runes_compose.
  apply compose_go_closed; [apply marked_primary|done|constructor|].
  apply reorder_Forall; [constructor|]. apply unmarked_Remove_NFD.
Qed.

(** ** The whitespace stages *)

Lemma unmarked_stages_runes flt rs :
  unmarked rs -> unmarked (stages_runes flt rs).
Proof.
  apply stages_runes_ind; intros l Hl.
  - apply Forall_fmap. eapply Forall_impl; [done|]. intros r Hr. cbn.
    case_bool_decide; [apply marked_inert; by left|done].
  - by apply zero_width_runes_Forall.
  - by apply whitespace_runes_Forall.
Qed.

(** ** The message that is searched *)

Lemma unmarked_preprocess_runes flt msg :
  disableNormalize flt = false -> unmarked (preprocess_runes flt msg).
Proof.
  intros Hn. unfold preprocess_runes. cbv zeta. rewrite Hn. cbn [negb].
  apply unmarked_stages_runes, Forall_app. split.
  - apply unmarked_normalize_runes.
  - apply Forall_replicate, marked_inert. by left.
Qed.

(** C12: with the normalisation on, a word that [Check] reports holds no
    character with a diacritic, whatever the message, the other options
    and the order of the visit: wherever the encoding of a character [z]
    stands in the word, [z] is not [marked].  The marks are taken out of
    the message and of no word, so a word put in the vocabulary with an
    accent or a combining mark is never reported, not even for a message
    that is that word. *)
Theorem Check_in_unmarked keys flt msg res mt z :
  wf_bytes msg -> disableNormalize flt = false ->
  Check_in keys flt msg = Ok res -> mt ∈ res ->
  ValidRune z = true -> substring_of (EncodeRune z) (Word mt) ->
  marked z = false.
Proof.
  intros Hmsg Hn.
  apply (reported_Forall (fun r => marked r = false)); [| |done].
  - apply marked_inert. by left.
  - by apply unmarked_preprocess_runes.
Qed.

End marks.

(** ** The fragment [latin] *)

(** Every nonspacing mark of the fragment is [marked]. *)
Lemma is_Mn_latin_marked r : is_Mn_latin r = true -> marked r = true.
Proof.
  intros Hr. unfold marked. cbn [decomp is_Mn latin].
  destruct (decomp_latin_forallb
    (fun e => existsb is_Mn_latin e.2 || negb (is_Mn_latin e.1)) r)
    as [->|Hk]; [done|by cbn; rewrite Hr|].
  cbn [fst snd] in Hk. by rewrite Hr, orb_false_r in Hk.
Qed.

(** ** The theorem at a concrete filter

    The vocabulary holds the words "foo" with two acute accents and
    ["foo"]; the message is the first of them with a capital, and only
    ["foo"] is reported. *)

Local Open Scope go_scope.
#[local] Existing Instance latin_chain.

Lemma Check_in_unmarked_witness : marked 0x6F = false.
Proof.
  apply (Check_in_unmarked [encode [0x66; 0xF3; 0xF3]; b{"foo"}]
           (New [encode [0x66; 0xF3; 0xF3]; b{"foo"}] [])
           (encode [0x46; 0xD3; 0xF3]) [mk_Match b{"foo"} 0]
           (mk_Match b{"foo"} 0) 0x6F);
    [compute_done|done|vm_compute; reflexivity|set_solver|done|].
  by exists 1%nat, [0x66], [0x6F].
Defined.

(** The word with the accents is not found in itself, and is found when
    the normalisation is off. *)
Example accented_word_not_found (w := encode [0x66; 0xF3; 0xF3]) :
  Check_in [w] (New [w] []) w = Ok [] /\
  Check_in [w] (New [w] [DisableNormalize]) w = Ok [mk_Match w 0].
Proof. by vm_compute. Qed.
