(* ===== verification/Exact.v ===== *)
(** * Exact: what [Check] reports, in terms of the message as it was given

    [Pipeline.Check_reports] says which words [Check] is sure to report:
    those among the [letters] of the message.  This file proves exactly
    which words are reported, for the words that are [plain]: valid
    characters that no stage changes, none of them NUL.  [Check] reports
    a plain word of the filter exactly when it stands in what the
    searches hear of the message ([Pipeline.heard]): the runes of the
    message in lower case, decomposed and without their marks, as the
    tab, zero-width and whitespace stages leave them, without what the
    two searches skip ([Check_reports_iff]).  The composition and the
    NUL padding of the normalisation, and the bytes, play no part.

    Two corollaries are stated on the letters of the message, before any
    stage.  With the whitespace stage off, a plain word is reported
    exactly when it stands among the letters ([Check_reports_exactly]).
    With every combination of the options, a plain word that is reported
    stands among the letters that are not whitespace
    ([Check_reports_within]); the converse fails, since the stage keeps
    one whitespace character between two letters and deletes two
    ([Whitespace.whitespace_runes_between], [Tests.multi_whitespace]).

    Every step of [Pipeline] is taken in both directions.  The search is
    on the bytes of valid UTF-8 and no encoding starts inside another, so
    a word that is found stands among the runes.  The composition
    composes no character to a stable one and deletes none: the text and
    its composition have the same runs of stable characters, with
    something that is not stable between two runs in both or in neither
    ([same_runs], [normalize_runes_same_runs]).  A character that is not
    stable
    is no whitespace and no letter of the word, and neither is NUL: it
    cuts the three stages in two ([stages_runes_barrier]), so that the
    word is heard in a text exactly when it is heard in one of its runs
    ([same_runs_hears]).  To cut the text at its stable characters the
    tables have to decide which characters are stable; those of
    [UnicodeLatin] do. *)

From stdpp Require Import gmap.
From S2P Require Import Prelude Utf8 GoStrings Unicode UnicodeLatin Normalize Whitespace Collapse Vocabulary Check Pipeline.

(** ** Definitions *)

(** A word that [Check] compares as it is, given by its runes: they are
    valid, they are [letter]s, none is NUL, and the word is not empty. *)
Definition plain `{UnicodeTables} (flt : swearFilter) (w : list Z) : Prop :=
  w <> [] /\
  Forall (fun r => ValidRune r = true /\ letter flt r /\ r <> 0) w.

(** Two texts with the same characters outside [B], in the same order,
    and with characters of [B] between two of them in both texts or in
    neither. *)
Inductive same_runs {A} (B : A -> Prop) : list A -> list A -> Prop :=
| same_runs_nil : same_runs B [] []
| same_runs_keep a Y X : same_runs B Y X -> same_runs B (a :: Y) (a :: X)
| same_runs_run U V Y X :
    U <> [] -> V <> [] -> Forall B U -> Forall B V ->
    same_runs B Y X -> same_runs B (U ++ Y) (V ++ X).

(** ** Texts with the same runs *)

Lemma same_runs_app {A} (B : A -> Prop) U V Y X :
  (U = [] -> V = []) -> (V = [] -> U = []) -> Forall B U -> Forall B V ->
  same_runs B Y X -> same_runs B (U ++ Y) (V ++ X).
Proof.
  intros HU HV ? ? ?. destruct U as [|u U].
  - by rewrite HU.
  - apply same_runs_run; [done| |done..]. intros E. by apply HV in E.
Qed.

Lemma same_runs_mono {A} (B B' : A -> Prop) Y X :
  Forall (fun c => B c -> B' c) Y -> Forall (fun c => B c -> B' c) X ->
  same_runs B Y X -> same_runs B' Y X.
Proof.
  intros HY HX Hr. induction Hr as [|a Y X _ IH|U V Y X ? ? HU HV _ IH].
  - constructor.
  - apply Forall_cons in HY as [_ ?], HX as [_ ?]. constructor. auto.
  - apply Forall_app in HY as [HU' ?], HX as [HV' ?].
    rewrite Forall_forall in HU, HV, HU', HV'.
    apply same_runs_run; [done..| | |auto]; apply Forall_forall; auto.
Qed.

(** ** The composition keeps the runs of stable characters *)

Section reflect.
Context `{UnicodeTables} {chain : Chain} {stable_dec : forall r, Decision (stable r)}.

(** The canonical reordering and the composition pass, which is [NFC] of
    a text that is decomposed. *)
Local Abbreviation compose X := (compose_go None [] (reorder [] X)).

Lemma compose_nil X : compose X = [] -> X = [].
Proof.
  intros (_ & _ & E)%compose_go_nil. apply (f_equal length) in E.
  rewrite reorder_length in E. by destruct X.
Qed.

Lemma compose_not_stable X :
  Forall (fun r => ~ stable r) X -> Forall (fun r => ~ stable r) (compose X).
Proof.
  intros HX. apply compose_go_Forall; [|done|constructor|].
  - intros a c sc. apply primary_not_stable.
  - by apply reorder_Forall; [constructor|].
Qed.

Lemma compose_app_stable xs a ys :
  stable a -> Mn_free ys ->
  compose (xs ++ a :: ys) = compose xs ++ a :: compose ys.
Proof.
  intros Ha Hys.
  rewrite reorder_app_starter, compose_go_app_stable
    by auto using stable_ccc.
  rewrite compose_go_stable_head; [done..|].
  by apply reorder_Forall; [constructor|].
Qed.

(** A text has no stable character, or a first one. *)
Lemma stable_split X :
  Forall (fun r => ~ stable r) X \/
  exists s a X',
    X = s ++ a :: X' /\ Forall (fun r => ~ stable r) s /\ stable a.
Proof.
  induction X as [|r X IH]; [by left|].
  destruct (decide (stable r)) as [Hr|Hr]; [right; by exists [], r, X|].
  destruct IH as [IH|(s & a & X' & -> & Hs & Ha)]; [left; by constructor|].
  right. exists (r :: s), a, X'. split_and!; [done|by constructor|done].
Qed.

(** The text and its composition have the same runs of stable
    characters. *)
Lemma compose_same_runs_le n X :
  (length X <= n)%nat -> Mn_free X ->
  same_runs (fun r => ~ stable r) (compose X) X.
Proof.
  revert X. induction n as [|n IH]; intros X Hn Hmn.
  { destruct X; [constructor|cbn in Hn; lia]. }
  destruct (stable_split X) as [HX|(s & a & X' & -> & Hs & Ha)].
  - pose proof (same_runs_app (fun r => ~ stable r) (compose X) X [] [])
      as Hr.
    rewrite !app_nil_r in Hr. apply Hr;
      [by intros ?%compose_nil|by intros ->|by apply compose_not_stable|
       done|constructor].
  - apply Forall_app in Hmn as [_ [_ Hmn]%Forall_cons].
    rewrite compose_app_stable by done.
    apply same_runs_app;
      [by intros ?%compose_nil|by intros ->|by apply compose_not_stable|
       done|].
    constructor. apply IH; [|done]. rewrite length_app in Hn. cbn in Hn. lia.
Qed.
Lemma normalize_runes_same_runs rs :
  same_runs (fun r => ~ stable r) (normalize_runes rs)
    (Remove unicodeSet (NFD rs)).
Proof.
  rewrite normalize_runes_compose.
  apply (compose_same_runs_le _ _ (Nat.le_refl _)), Remove_Mn_free.
Qed.

(** Whitespace that is decomposed is stable, and the composition makes no
    whitespace. *)
Lemma Remove_NFD_space_stable rs :
  Forall (fun c => space_class c = true -> stable c)
    (Remove unicodeSet (NFD rs)).
Proof.
  apply Remove_Forall. eapply Forall_impl; [apply NFD_decomposed|].
  intros c Hd Hc. by apply space_stable.
Qed.

Lemma normalize_runes_space_stable rs :
  Forall (fun c => space_class c = true -> stable c) (normalize_runes rs).
Proof.
  rewrite normalize_runes_compose.
  apply compose_go_Forall; [|done|constructor|].
  - intros a c sc Hsc%primary_not_space. congruence.
  - apply reorder_Forall; [constructor|]. apply Remove_NFD_space_stable.
Qed.

End reflect.

(** ** From the searches to the runes *)

Section found.
Context `{UnicodeTables} {chain : Chain} {stable_dec : forall r, Decision (stable r)}.
Context (flt : swearFilter) (w : list Z).
Hypothesis Hw : plain flt w.

Local Abbreviation kept := (fun r => skipped flt r = false).
Local Abbreviation bare :=
  (fun r => space_class r = false /\ skipped flt r = false).
Local Abbreviation barrier := (fun c => bare c /\ c ∉ w).
Local Abbreviation spaces := (Forall (fun c => space_class c = true)).
Local Abbreviation hears l :=
  (substring_of w (filter kept (stages_runes flt l))).

Lemma plain_valid : valid_runes w.
Proof.
  destruct Hw as [_ Hall]. eapply Forall_impl; [done|].
  by intros ? (? & ? & ?).
Qed.

Lemma plain_letter : Forall (letter flt) w.
Proof.
  destruct Hw as [_ Hall]. eapply Forall_impl; [done|].
  by intros ? (? & ? & ?).
Qed.

Lemma plain_kept : Forall kept w.
Proof.
  eapply Forall_impl; [exact plain_letter|]. by intros r (_ & ? & _).
Qed.

Lemma kept_0 : skipped flt 0 = false.
Proof. unfold skipped. cbn. by rewrite !andb_false_r. Qed.

(** One of the two searches finds the word: it stands among the runes
    that are searched, without those that are skipped. *)
Lemma found_kept msg message :
  wf_bytes msg -> preprocess flt msg = Ok message ->
  substring_of (encode w) message \/
    (enableSpacedBypass flt = true /\
     substring_of (encode w) (Replace message space [] (-1))) ->
  substring_of w (filter kept (preprocess_runes flt msg)).
Proof.
  intros Hmsg [-> Hd]%preprocess_Ok_runes Hs; [|done].
  pose proof (preprocess_runes_valid flt msg) as Hv.
  destruct Hw as [Hne _]. destruct Hs as [Hs|[Hby Hs]].
  - apply substring_of_filter; [apply plain_kept|].
    by apply substring_of_encode_inv in Hs; [|done|apply plain_valid|].
  - rewrite Replace_space_runes, Hd in Hs by by apply Valid_encode.
    apply substring_of_encode_inv in Hs;
      [|done|apply plain_valid|by apply Forall_filter_weaken].
    apply (substring_of_filter kept) in Hs; [|apply plain_kept].
    rewrite filter_filter_l in Hs; [done|].
    intros r. unfold skipped. rewrite Hby. lia.
Qed.

(** ** What is not stable cuts the stages in two *)

(** A character that is neither whitespace nor skipped cuts the stages in
    two, up to the whitespace on either side of it. *)
Lemma stages_runes_barrier l1 b l2 :
  bare b ->
  exists s s', spaces s /\ spaces s' /\
    stages_runes flt (l1 ++ b :: l2) =
      stages_runes flt l1 ++ s ++ b :: s' ++ stages_runes flt l2.
Proof.
  intros [Hsp Hsk].
  assert (tab_runes (l1 ++ b :: l2) = tab_runes l1 ++ b :: tab_runes l2) as Etab.
  { unfold tab_runes. rewrite fmap_app, fmap_cons.
    by rewrite bool_decide_eq_false_2 by by intros ->. }
  assert (disableZeroWidthStripping flt = false ->
    forall k1 k2, zero_width_runes (k1 ++ b :: k2) =
      zero_width_runes k1 ++ b :: zero_width_runes k2) as Ezw.
  { intros Hzw k1 k2. unfold zero_width_runes.
    rewrite filter_app, filter_cons_True; [done|].
    intros ->. unfold skipped in Hsk. rewrite Hzw in Hsk. done. }
  unfold stages_runes. cbv zeta.
  destruct (disableMultiWhitespaceStripping flt),
    (disableZeroWidthStripping flt), (disableSpacedTab flt); cbn [negb];
    rewrite ?Etab, ?Ezw by done;
    first [by apply whitespace_runes_barrier|by exists [], []].
Qed.

Lemma hears_nil : ~ hears [].
Proof.
  destruct Hw as [Hne _]. intros Hs.
  assert (stages_runes flt [] = []) as E.
  { unfold stages_runes. by destruct (disableMultiWhitespaceStripping flt),
      (disableZeroWidthStripping flt), (disableSpacedTab flt). }
  rewrite E in Hs. by apply substring_of_nil_inv in Hs.
Qed.

Lemma spaces_not_word s : spaces s -> Forall (fun c => c ∉ filter kept s) w.
Proof.
  intros Hs. eapply Forall_impl; [exact plain_letter|].
  intros c [Hc _] [_ Hin]%list_elem_of_filter.
  rewrite Forall_forall in Hs. apply Hs in Hin. congruence.
Qed.

Lemma hears_cut l1 b l2 :
  bare b -> b ∉ w -> hears (l1 ++ b :: l2) <-> hears l1 \/ hears l2.
Proof.
  intros Hb Hbw. pose proof Hw as [Hne _].
  destruct (stages_runes_barrier l1 b l2 Hb) as (s & s' & Hs & Hs' & ->).
  rewrite !filter_app, filter_cons_True, filter_app by apply Hb.
  apply substring_of_barrier; auto using spaces_not_word.
Qed.

Lemma hears_skip U l : Forall barrier U -> hears (U ++ l) <-> hears l.
Proof.
  induction 1 as [|u U [Hu Hw'] _ IH]; [done|].
  rewrite (hears_cut [] u (U ++ l)) by done. pose proof hears_nil. tauto.
Qed.

Lemma hears_run l1 U l2 :
  U <> [] -> Forall barrier U -> hears (l1 ++ U ++ l2) <-> hears l1 \/ hears l2.
Proof.
  intros Hne HU. destruct HU as [|u U [Hu Hw'] HU]; [done|].
  cbn [app]. by rewrite hears_cut, hears_skip.
Qed.

Lemma same_runs_hears p Y X :
  same_runs barrier Y X -> hears (p ++ Y) <-> hears (p ++ X).
Proof.
  intros Hr. revert p.
  induction Hr as [|a Y X _ IH|U V Y X ? ? HU HV _ IH]; intros p; [done| |].
  - by rewrite 2!cons_middle, 2!app_assoc.
  - rewrite !hears_run by done. by rewrite (IH []).
Qed.

Lemma hears_drop l U : Forall barrier U -> hears (l ++ U) <-> hears l.
Proof.
  intros HU. destruct U as [|u U]; [by rewrite app_nil_r|].
  rewrite <- (app_nil_r (u :: U)), hears_run by done.
  pose proof hears_nil. tauto.
Qed.

(** With the normalisation on, a character that is not stable is met by
    no stage and is no letter of the word. *)
Lemma unstable_barrier c :
  disableNormalize flt = false ->
  (space_class c = true -> stable c) -> ~ stable c -> barrier c.
Proof.
  intros Hn Hsp Hc. split_and!.
  - destruct (space_class c); [by destruct Hc; auto|done].
  - destruct (skipped flt c) eqn:E; [|done].
    destruct Hc. by eapply inert_stable, skipped_inert.
  - intros Hin. pose proof plain_letter as Hl.
    rewrite Forall_forall in Hl. apply Hl in Hin as (_ & _ & ?). auto.
Qed.

(** The composition and the padding are not heard. *)
Lemma hears_normalize_padded rs :
  disableNormalize flt = false ->
  hears (normalize_padded rs) <-> hears (Remove unicodeSet (NFD rs)).
Proof.
  intros Hn. unfold normalize_padded. rewrite hears_drop.
  2:{ apply Forall_replicate. destruct Hw as [_ Hall].
      split_and!; [done|apply kept_0|]. intros Hin.
      rewrite Forall_forall in Hall. by apply Hall in Hin as (_ & _ & ?). }
  apply (same_runs_hears [] (normalize_runes rs) (Remove unicodeSet (NFD rs))).
  apply (same_runs_mono (fun r => ~ stable r));
    [..|apply normalize_runes_same_runs];
    (eapply Forall_impl;
     [apply normalize_runes_space_stable || apply Remove_NFD_space_stable|]);
    intros c; by apply unstable_barrier.
Qed.

Lemma hears_preprocess_runes msg :
  substring_of w (filter kept (preprocess_runes flt msg)) <->
  substring_of w (heard flt msg).
Proof.
  unfold heard, preprocess_runes. cbv zeta.
  destruct (disableNormalize flt) eqn:Hn; cbn [negb]; [done|].
  by apply hears_normalize_padded.
Qed.

(** One of the two searches finds the word exactly when it is heard. *)
Lemma found_heard msg message :
  wf_bytes msg -> preprocess flt msg = Ok message ->
  substring_of (encode w) message \/
    (enableSpacedBypass flt = true /\
     substring_of (encode w) (Replace message space [] (-1))) <->
  substring_of w (heard flt msg).
Proof.
  intros Hmsg Hpre. rewrite <- hears_preprocess_runes.
  destruct Hw as [Hne _]. split; [by apply found_kept|].
  intros Hk. eapply kept_found; eauto using plain_letter.
Qed.

(** ** With the whitespace stage off *)


(** The word has no space, so it stood where it stands before the tabs
    were turned into spaces. *)
Lemma tab_runes_kept_inv rs :
  disableSpacedTab flt = false ->
  substring_of w (filter kept (tab_runes rs)) ->
  substring_of w (filter kept rs).
Proof.
  intros Htab. rewrite filter_kept_tab_runes by done.
  apply substring_of_fmap_inv. intros c Hc. case_bool_decide; [|done].
  pose proof plain_letter as Hl. rewrite Forall_forall in Hl.
  by apply Hl in Hc as [? _].
Qed.

Lemma stages_runes_kept_inv rs :
  disableMultiWhitespaceStripping flt = true ->
  substring_of w (filter kept (stages_runes flt rs)) ->
  substring_of w (filter kept rs).
Proof.
  intros Hws. unfold stages_runes. cbv zeta. rewrite Hws. cbn [negb].
  (destruct (disableZeroWidthStripping flt) eqn:Hzw; cbn [negb];
   [|rewrite zero_width_runes_kept by done]);
  (destruct (disableSpacedTab flt) eqn:Htab; cbn [negb];
   [done|by apply tab_runes_kept_inv]).
Qed.

(** With the whitespace stage off the word is heard exactly when it is
    among the letters of the message. *)
Lemma heard_letters msg :
  disableMultiWhitespaceStripping flt = true ->
  substring_of w (heard flt msg) <-> substring_of w (letters flt msg).
Proof.
  intros Hws. destruct Hw as [Hne _]. unfold heard, letters. cbv zeta.
  split; [by apply stages_runes_kept_inv|].
  eauto using stages_runes_kept, plain_letter.
Qed.

(** ** Without the whitespace

    What the stages change is whitespace or skipped: the runes that are
    neither are those of the text, in their order. *)

Lemma plain_bare : Forall bare w.
Proof.
  eapply Forall_impl; [exact plain_letter|]. by intros r (? & ? & _).
Qed.

Lemma tab_runes_bare l : filter bare (tab_runes l) = filter bare l.
Proof.
  apply filter_fmap_drop. intros r. case_bool_decide as Hr; [subst r|by left].
  right. split; by intros [? _].
Qed.

Lemma zero_width_runes_bare l :
  disableZeroWidthStripping flt = false ->
  filter bare (zero_width_runes l) = filter bare l.
Proof.
  intros Hzw. apply filter_filter_l. intros r [_ Hr]. unfold skipped in Hr.
  rewrite Hzw in Hr. lia.
Qed.

Lemma whitespace_runes_bare l :
  filter bare (whitespace_runes l) = filter bare l.
Proof.
  symmetry. apply (thins_filter_eq space_class); [by intros r [? _]|].
  apply whitespace_runes_thins.
Qed.

Lemma stages_runes_bare rs :
  filter bare (stages_runes flt rs) = filter bare rs.
Proof.
  unfold stages_runes. cbv zeta.
  destruct (disableMultiWhitespaceStripping flt),
    (disableZeroWidthStripping flt) eqn:Hzw, (disableSpacedTab flt);
    cbn [negb];
    by rewrite ?whitespace_runes_bare, ?zero_width_runes_bare, ?tab_runes_bare.
Qed.

(** The word that is heard is among the letters of the message that are
    not whitespace. *)
Lemma heard_within msg :
  substring_of w (heard flt msg) ->
  substring_of w (filter (fun r => space_class r = false) (letters flt msg)).
Proof.
  intros Hs.
  apply (substring_of_filter (fun r => space_class r = false)) in Hs.
  2:{ eapply Forall_impl; [exact plain_bare|]. by intros r [? _]. }
  unfold heard, letters in *. cbv zeta in *.
  by rewrite list_filter_filter, stages_runes_bare in Hs;
    rewrite list_filter_filter.
Qed.

End found.

(** ** The theorems *)

Section exact.
Context `{UnicodeTables} {chain : Chain} {stable_dec : forall r, Decision (stable r)}.

(** A word of ASCII characters that are neither whitespace nor NUL is
    plain, whatever the options. *)
Lemma ascii_plain flt w :
  w <> [] ->
  Forall (fun b => is_ascii b /\ space_class b = false /\ b <> 0) w ->
  plain flt w.
Proof.
  intros Hne Hall. split; [done|]. eapply Forall_impl; [done|].
  intros b (Hb & ? & ?). split_and!; [|by apply ascii_letter|done].
  apply ValidRune_spec. unfold is_ascii in Hb. lia.
Qed.

(** A plain word of the filter is reported exactly when one of the two
    searches finds it. *)
Lemma reported_found keys flt msg message res w :
  ranges flt keys -> encode w ∈ words flt -> plain flt w ->
  preprocess flt msg = Ok message -> Check_in keys flt msg = Ok res ->
  (exists i, mk_Match (encode w) i ∈ res) <->
  substring_of (encode w) message \/
    (enableSpacedBypass flt = true /\
     substring_of (encode w) (Replace message space [] (-1))).
Proof.
  intros Hkeys Hin Hw Hpre Hres. pose proof Hw as [Hne _].
  assert (encode w <> space) as Hsp
    by eauto using letter_not_space, plain_letter.
  split.
  - intros [i Hi].
    destruct (Check_in_substring _ _ _ _ _ Hres Hi) as (m & Hm & Hs).
    rewrite Hpre in Hm. injection Hm as <-.
    destruct Hs as [?|[?|[= ? _]]]; [by left|by right|done].
  - intros Hs.
    destruct (Check_in_finds keys flt msg (encode w))
      as [E|(res' & i & E & Hi)];
      [done..|intros m; rewrite Hpre; by intros [= <-]| |].
    + by rewrite E in Hres.
    + rewrite E in Hres. injection Hres as ->. eauto.
Qed.

(** C8: [Check] reports a plain word of the filter exactly when the word
    is heard in the message: when it stands among the runes of the
    message in lower case, decomposed and without their marks when the
    normalisation is on, as the tab, zero-width and whitespace stages
    that are on leave them, without the spaces when the spaced bypass is
    on.  The composition and the NUL padding of the normalisation change
    nothing of it.  This holds with every combination of the options, on
    every message, for every order of the visit and with every chain. *)
Theorem Check_reports_iff keys flt msg res w :
  ranges flt keys -> encode w ∈ words flt -> plain flt w -> wf_bytes msg ->
  Check_in keys flt msg = Ok res ->
  (exists i, mk_Match (encode w) i ∈ res) <-> substring_of w (heard flt msg).
Proof.
  intros Hkeys Hin Hw Hmsg Hres.
  destruct (Check_in_Ok_preprocess keys flt msg res (encode w))
    as [message Hpre]; [done..|].
  by rewrite reported_found, found_heard.
Qed.

(** C9: with the whitespace stage off, [Check] reports a plain word of the
    filter exactly when the word stands among the letters of the message:
    its runes in lower case, decomposed and without their marks when the
    normalisation is on, without the zero-width spaces when these are
    deleted, and without the spaces and the tabs turned into spaces when
    the spaced bypass is on.  This holds with every combination of the
    other options, on every message and for every order of the visit. *)
Theorem Check_reports_exactly keys flt msg res w :
  ranges flt keys -> encode w ∈ words flt -> plain flt w -> wf_bytes msg ->
  disableMultiWhitespaceStripping flt = true ->
  Check_in keys flt msg = Ok res ->
  (exists i, mk_Match (encode w) i ∈ res) <->
  substring_of w (letters flt msg).
Proof.
  intros Hkeys Hin Hw Hmsg Hws Hres.
  destruct (Check_in_Ok_preprocess keys flt msg res (encode w))
    as [message Hpre]; [done..|].
  by rewrite reported_found, found_heard, heard_letters.
Qed.

(** C32: whatever the options, a plain word that [Check] reports stands
    among the letters of the message once the whitespace is left out of
    them: the stages and the second search bring together only letters
    that whitespace or skipped characters separate, and no stage makes a
    letter, moves one or deletes one. *)
Theorem Check_reports_within keys flt msg res w i :
  plain flt w -> wf_bytes msg -> Check_in keys flt msg = Ok res ->
  mk_Match (encode w) i ∈ res ->
  substring_of w (filter (fun r => space_class r = false) (letters flt msg)).
Proof.
  intros Hw Hmsg Hres Hi. pose proof Hw as [Hne _].
  assert (encode w <> space) as Hsp
    by eauto using letter_not_space, plain_letter.
  destruct (Check_in_substring _ _ _ _ _ Hres Hi) as (message & Hpre & Hs).
  eapply heard_within, found_heard; [done..|].
  destruct Hs as [?|[?|[= ? _]]]; [by left|by right|done].
Qed.

End exact.

(** ** The theorem at a concrete filter

    The words are [f], [o], [ß] and ["fox"]; the message is [F], U+200B,
    [Ó], space, [ß], [x].  With the spaced bypass on and the whitespace
    stage off the first word is reported and ["fox"] is not. *)

Local Open Scope go_scope.
#[local] Existing Instance latin_chain.

(** A word of the tables of [UnicodeLatin] is plain: its characters pass
    the test [stable_latin]. *)
Ltac solve_plain :=
  split; [done|];
  repeat (apply Forall_cons; split;
    [split_and!; [done| |done]; (split_and!; [done|done|]);
     intros _; apply stable_latin_spec; vm_compute; reflexivity|]);
  constructor.

Lemma Check_reports_exactly_witness :
  (exists i,
     mk_Match (encode [0x66; 0x6F; 0xDF]) i ∈
       [mk_Match (encode [0x66; 0x6F; 0xDF]) 0]) <->
  substring_of [0x66; 0x6F; 0xDF]
    (letters (New [encode [0x66; 0x6F; 0xDF]; b{"fox"}]
                [EnableSpacedBypass; DisableMultiWhitespaceStripping])
       [0x46; 0xE2; 0x80; 0x8B; 0xC3; 0x93; 0x20; 0xC3; 0x9F; 0x78]).
Proof.
  apply (Check_reports_exactly [b{"fox"}; encode [0x66; 0x6F; 0xDF]]);
    [vm_compute; reflexivity|compute_done| |compute_done|done|
     vm_compute; reflexivity].
  solve_plain.
Defined.

(** Every stage is on and the message is [F], two spaces, [Ó], U+200B,
    [ß]: the word [f], [o], [ß] is heard and reported. *)
Lemma Check_reports_iff_witness :
  (exists i,
     mk_Match (encode [0x66; 0x6F; 0xDF]) i ∈
       [mk_Match (encode [0x66; 0x6F; 0xDF]) 0]) <->
  substring_of [0x66; 0x6F; 0xDF]
    (heard (New [encode [0x66; 0x6F; 0xDF]] [])
       [0x46; 0x20; 0x20; 0xC3; 0x93; 0xE2; 0x80; 0x8B; 0xC3; 0x9F]).
Proof.
  apply (Check_reports_iff [encode [0x66; 0x6F; 0xDF]]);
    [vm_compute; reflexivity|compute_done| |compute_done|
     vm_compute; reflexivity].
  solve_plain.
Defined.

(** The message is [F], two spaces, [Ó], [ß] and every stage is on: the
    whitespace stage deletes the two spaces and the word [f], [o], [ß] is
    reported, which stands among the letters without the whitespace. *)
Lemma Check_reports_within_witness :
  substring_of [0x66; 0x6F; 0xDF]
    (filter (fun r => space_class r = false)
       (letters (New [encode [0x66; 0x6F; 0xDF]] [])
          [0x46; 0x20; 0x20; 0xC3; 0x93; 0xC3; 0x9F])).
Proof.
  apply (Check_reports_within [encode [0x66; 0x6F; 0xDF]] _ _
           [mk_Match (encode [0x66; 0x6F; 0xDF]) 0] _ 0);
    [|compute_done|vm_compute; reflexivity|by apply list_elem_of_singleton].
  solve_plain.
Defined.
