(* ===== verification/Observe.v ===== *)
(** * Observe: the filters that no call tells apart

    The methods of a filter read its five options and the set of its
    words, and nothing else: the nil map and the empty map are the same to
    them.  [Check] tests both at line 104 of [src/swearfilter.go], [Add]
    makes the map when it is nil (lines 187-189), [delete] does nothing on
    a nil map, and [Words] returns no word for either.

    [same_filter] is that equivalence, the relation [≡] on filters.  The
    methods respect it ([Proper]): equivalent filters give the same result
    to every call and are equivalent after every call, so that a call can
    be rewritten with an equivalence in its filter.  The laws of [Add] and
    [Delete] are equivalences: [Add] twice is [Add] once, two calls of
    [Add] commute, and [Delete] undoes [Add] of new words. *)

From stdpp Require Import gmap.
From S2P Require Import Prelude Utf8 GoStrings Unicode UnicodeLatin.
From S2P Require Import Normalize Whitespace Vocabulary Check.

(** ** Definitions *)

(** The same options and the same words. *)
Definition same_filter (f g : swearFilter) : Prop :=
  flags f = flags g /\ words f = words g.

#[export] Instance swearFilter_equiv : Equiv swearFilter := same_filter.

(** A filter with the nil map: what a client cannot make with [New]. *)
Definition nil_map (filter : swearFilter) : swearFilter :=
  set_BadWords None filter.

(** ** The equivalence *)

#[export] Instance same_filter_equivalence : Equivalence (≡@{swearFilter}).
Proof.
  split; [done|by intros f g []|].
  intros f g h [? ?] [? ?]. split; congruence.
Qed.

#[export] Instance flags_proper : Proper ((≡) ==> (=)) flags.
Proof. by intros f g [? ?]. Qed.

#[export] Instance words_proper : Proper ((≡) ==> (=)) words.
Proof. by intros f g [? ?]. Qed.

(** ** The methods respect it *)

#[export] Instance Add_proper : Proper ((≡) ==> (=) ==> (≡)) Add.
Proof.
  intros f g [Hf Hw] ws ? <-.
  split; [by rewrite !Add_flags|by rewrite !words_Add, Hw].
Qed.

#[export] Instance Delete_proper : Proper ((≡) ==> (=) ==> (≡)) Delete.
Proof.
  intros f g [Hf Hw] ws ? <-.
  split; [by rewrite !Delete_flags|by rewrite !words_Delete, Hw].
Qed.

Lemma Words_elements filter : Words filter = elements (words filter).
Proof.
  unfold Words, Words_in, words.
  destruct (BadWords filter); cbn; [by rewrite foldl_snoc_id|].
  by rewrite elements_empty.
Qed.

#[export] Instance Words_proper : Proper ((≡) ==> (=)) Words.
Proof. intros f g [_ Hw]. by rewrite !Words_elements, Hw. Qed.

Section check.
Context `{UnicodeTables} {chain : Chain}.

(** The stages read the options, and the searches the spaced bypass. *)
Lemma preprocess_flags f g msg :
  flags f = flags g -> preprocess f msg = preprocess g msg.
Proof.
  destruct f, g. intros [= -> -> -> -> ->].
  by rewrite !preprocess_unfold.
Qed.

Lemma reports_flags f g message keys :
  flags f = flags g -> reports f message keys = reports g message keys.
Proof. destruct f, g. by intros [= -> -> -> -> ->]. Qed.

#[export] Instance Check_in_proper keys :
  Proper ((≡) ==> (=) ==> (=)) (Check_in keys).
Proof.
  intros f g [Hf Hw] msg ? <-. rewrite !Check_in_closed_form.
  unfold Check_spec. rewrite Hw, (preprocess_flags f g) by done.
  destruct (preprocess g msg); [|done]. cbn.
  by rewrite (reports_flags f g).
Qed.

#[export] Instance Check_proper : Proper ((≡) ==> (=) ==> (=)) Check.
Proof.
  intros f g Hfg msg ? <-. unfold Check.
  by rewrite (words_proper _ _ Hfg), Hfg.
Qed.

End check.

(** ** The laws of [Add] and [Delete] *)

(** The nil map is the empty map. *)
Lemma nil_map_equiv filter : words filter = ∅ -> nil_map filter ≡ filter.
Proof. intros Hw. split; [done|]. by rewrite Hw. Qed.

Lemma Add_idemp_equiv filter badWords :
  Add (Add filter badWords) badWords ≡ Add filter badWords.
Proof. split; [by rewrite Add_flags|apply Add_idemp]. Qed.

Lemma Add_comm filter ws1 ws2 :
  Add (Add filter ws1) ws2 ≡ Add (Add filter ws2) ws1.
Proof.
  split; [by rewrite !Add_flags|]. rewrite !words_Add. set_solver.
Qed.

Lemma Delete_comm filter ws1 ws2 :
  Delete (Delete filter ws1) ws2 ≡ Delete (Delete filter ws2) ws1.
Proof.
  split; [by rewrite !Delete_flags|]. rewrite !words_Delete. set_solver.
Qed.

Lemma Delete_Add_equiv filter badWords :
  Forall (fun w => w ∉ words filter) badWords ->
  Delete (Add filter badWords) badWords ≡ filter.
Proof.
  intros Hfresh. split; [by rewrite Delete_flags, Add_flags|].
  by rewrite words_Delete_Add, difference_fresh.
Qed.

(** A filter made by [New] and emptied is the filter made without words. *)
Lemma Delete_New_equiv filterWords opts :
  Forall is_Option opts ->
  Delete (New filterWords opts) filterWords ≡ New [] opts.
Proof.
  intros Hopts. split.
  - by rewrite Delete_flags, !New_flags.
  - rewrite words_Delete, !words_New by done. set_solver.
Qed.

(** C26: no call tells equivalent filters apart.  Two filters with the same
    options and the same words, the nil map counting as the empty map,
    give every message the same result of [Check], in every order of the
    visit, have the same [Words], and are equivalent again after the same
    call of [Add] or [Delete]. *)
Theorem same_filter_observations `{UnicodeTables} {chain : Chain} f g :
  same_filter f g ->
  (forall keys msg, Check_in keys f msg = Check_in keys g msg) /\
  Words f = Words g /\
  (forall badWords, same_filter (Add f badWords) (Add g badWords)) /\
  (forall badWords, same_filter (Delete f badWords) (Delete g badWords)).
Proof.
  intros Hfg. change (f ≡ g) in Hfg.
  split_and!; intros; by rewrite Hfg.
Qed.

(** ** Rewriting a call *)

Section rewriting.
Context `{UnicodeTables} {chain : Chain}.

(** [Check] after words were added and deleted again. *)
Lemma Check_in_Delete_Add keys filter badWords msg :
  Forall (fun w => w ∉ words filter) badWords ->
  Check_in keys (Delete (Add filter badWords) badWords) msg =
    Check_in keys filter msg.
Proof. intros Hfresh. by rewrite Delete_Add_equiv. Qed.

(** [Check] does not see in which order the words were added. *)
Lemma Check_in_Add_comm keys filter ws1 ws2 msg :
  Check_in keys (Add (Add filter ws1) ws2) msg =
    Check_in keys (Add (Add filter ws2) ws1) msg.
Proof. by rewrite Add_comm. Qed.

(** A filter whose map is nil answers as the filter made without words. *)
Lemma Check_nil_map opts msg :
  Forall is_Option opts ->
  Check (nil_map (New [] opts)) msg = Check (New [] opts) msg.
Proof. intros Hopts. by rewrite nil_map_equiv by by rewrite words_New. Qed.

End rewriting.

(** ** The theorem at a concrete filter

    The zero value of the struct, with its nil map, and the filter that
    [New] makes without words. *)

#[local] Existing Instance latin_chain.

Lemma same_filter_observations_witness :
  (forall keys msg,
     Check_in keys (mk_swearFilter false false false false false None) msg =
       Check_in keys (New [] []) msg) /\
  Words (mk_swearFilter false false false false false None) = Words (New [] []) /\
  (forall badWords,
     same_filter (Add (mk_swearFilter false false false false false None) badWords)
       (Add (New [] []) badWords)) /\
  (forall badWords,
     same_filter
       (Delete (mk_swearFilter false false false false false None) badWords)
       (Delete (New [] []) badWords)).
Proof. apply same_filter_observations. split; reflexivity. Defined.
