(* ===== verification/Interface.v ===== *)
(** * Interface: the interface [Filter]

    [type Filter interface], lines 15-20 of [src/swearfilter.go]: the four
    methods a client of the package can call on what [New] returns.  The
    interface is the class [Filter]; a method that changes its receiver
    returns it.  What the package promises of the methods, whatever is
    behind the interface, is the class [FilterLaws]: the words are a set
    that [Add] and [Delete] change as their names say, and [Check] reports
    words of that set only and nothing when it is empty.

    [swearFilter] with the functions of [Vocabulary] and [Check] is an
    instance, and its laws are discharged by the theorems of those files.
    Two lemmas of a client are proved from the laws alone: a filter
    whose words are all deleted reports nothing, and deleting after
    adding restores the words when they were new.  The theorem is on the
    filter of the package called through the interface: after [Delete]
    a [Check] reports words the filter had and none that was deleted
    ([Check_Delete]). *)

From stdpp Require Import gmap.
From S2P Require Import Prelude Utf8 GoStrings Unicode UnicodeLatin.
From S2P Require Import Normalize Whitespace Vocabulary Check.

(** ** Definitions *)

Class Filter (T : Type) : Type := {
  Check : T -> bytes -> result error (list Match);
  Add : T -> list bytes -> T;
  Delete : T -> list bytes -> T;
  Words : T -> list bytes;
}.

Class FilterLaws (T : Type) `{Filter T} : Prop := {
  Words_NoDup t : NoDup (Words t);
  Words_Add t badWords w :
    w ∈ Words (Add t badWords) <-> w ∈ badWords \/ w ∈ Words t;
  Words_Delete t badWords w :
    w ∈ Words (Delete t badWords) <-> w ∈ Words t /\ w ∉ badWords;
  Check_Words t msg trippedWords mt :
    Check t msg = Ok trippedWords -> mt ∈ trippedWords -> Word mt ∈ Words t;
  Check_nil t msg : Words t = [] -> Check t msg = Ok [];
}.

(** The implementation of the package. *)
#[export] Instance swearFilter_Filter `{UnicodeTables} {chain : Chain} : Filter swearFilter := {|
  Check := Check.Check;
  Add := Vocabulary.Add;
  Delete := Vocabulary.Delete;
  Words := Vocabulary.Words;
|}.

(** ** The implementation keeps the promises *)

Section implementation.
Context `{UnicodeTables} {chain : Chain}.

Lemma Words_nil filter : Vocabulary.Words filter = [] -> words filter = ∅.
Proof.
  intros Hnil. apply set_eq. intros w.
  rewrite <- Words_spec, Hnil. set_solver.
Qed.

Lemma Check_Word filter msg trippedWords mt :
  Check.Check filter msg = Ok trippedWords -> mt ∈ trippedWords ->
  Word mt ∈ words filter.
Proof.
  intros Hcheck Hmt. eapply elem_of_elements, Check_in_Word; done.
Qed.

#[export] Instance swearFilter_FilterLaws : FilterLaws swearFilter.
Proof.
  split; cbn.
  - intros filter. unfold Vocabulary.Words, Words_in.
    destruct (BadWords filter); [|constructor].
    rewrite foldl_snoc_id. apply NoDup_elements.
  - intros filter badWords w. rewrite !Words_spec, words_Add. set_solver.
  - intros filter badWords w. rewrite !Words_spec, words_Delete. set_solver.
  - intros filter msg trippedWords mt Hcheck Hmt. rewrite Words_spec.
    by eapply Check_Word.
  - intros filter msg Hnil%Words_nil. unfold Check.Check.
    rewrite Check_in_closed_form. unfold Check_spec.
    by rewrite bool_decide_eq_true_2.
Qed.

End implementation.

(** ** What a client knows *)

Section client.
Context `{FilterLaws T}.
Implicit Types (t : T) (w : bytes) (badWords : list bytes).

(** A filter whose words are all deleted reports nothing. *)
Lemma Check_Delete_Words t msg : Check (Delete t (Words t)) msg = Ok [].
Proof.
  apply Check_nil, elem_of_nil_inv. intros w [Hw Hnw]%Words_Delete. done.
Qed.

(** Deleting after adding restores the words, when they were new. *)
Lemma Words_Delete_Add t badWords :
  Forall (fun w => w ∉ Words t) badWords ->
  Words (Delete (Add t badWords) badWords) ≡ₚ Words t.
Proof.
  rewrite Forall_forall. intros Hnew.
  apply NoDup_Permutation; [apply Words_NoDup..|]. intros w.
  rewrite Words_Delete, Words_Add. naive_solver.
Qed.

End client.

(** ** The filter of the package behind the interface *)

(** C40: the filter of the package, called through the interface: after
    [Delete] of a list of words, a [Check] that succeeds reports words
    that the filter had before and none of the words that were deleted,
    the word [" "] of the sentinel included, whatever the message and
    the options. *)
Theorem Check_Delete `{UnicodeTables} {chain : Chain}
    (filter : swearFilter) badWords msg trippedWords mt :
  @Check swearFilter swearFilter_Filter (Delete filter badWords) msg
    = Ok trippedWords ->
  mt ∈ trippedWords ->
  Word mt ∈ Words filter /\ Word mt ∉ badWords.
Proof. intros Hcheck Hmt. by eapply Words_Delete, Check_Words. Qed.

#[local] Existing Instance latin_chain.

(** After two words and the deletion of one. *)
Lemma Check_Delete_witness :
  Word (mk_Match (str "bar") 4) ∈ Words (New [str "foo"; str "bar"] []) /\
  Word (mk_Match (str "bar") 4) ∉ [str "foo"].
Proof.
  apply (Check_Delete (New [str "foo"; str "bar"] []) [str "foo"]
           (str "foo bar") [mk_Match (str "bar") 4]);
    [vm_compute; reflexivity|set_solver].
Defined.
