(* ===== verification/Mutex.v ===== *)
(** * Mutex: the reader/writer lock of the filter

    The field [mutex sync.RWMutex] of [swearFilter] (line 79 of
    [src/swearfilter.go]) and the four methods of package [sync] the filter
    calls on it: [RLock], [RUnlock], [Lock], [Unlock].  The package is not
    part of the repository; the lock is modelled from its documentation as
    the state a caller can observe: how many readers hold it, whether a
    writer holds it, and whether a writer has called [Lock] and waits for
    the readers to leave ([pending]).

    A call of [Lock] is two steps.  The first ([Lock_wait]) makes the
    caller the pending writer: from then on a call of [RLock] waits, so
    that the readers inside leave and the writer gets the lock.  The second
    ([Lock]) returns the lock to the caller when the last reader has left.
    A second writer waits at its first step until the first has called
    [Unlock].

    A call that has to wait returns [None] and the caller stays where it
    is.  [RUnlock] and [Unlock] of a lock that is not held are fatal errors
    of the run time; here they return [None] too, and the theorems of
    [Threads] show that no method of the filter reaches them.

    The theorems give what each method needs and does, and show that the
    methods keep the lock well formed: a writer holds it alone. *)

From S2P Require Import Prelude.

(** ** Definitions *)

Record RWMutex : Type := mk_RWMutex {
  readers : nat;
  writer : bool;
  pending : bool;
}.

#[export] Instance RWMutex_eq_dec : EqDecision RWMutex.
Proof. solve_decision. Defined.

(** The zero value, an unlocked mutex. *)
Definition unlocked : RWMutex := mk_RWMutex 0 false false.

(** [rw.RLock()]: waits while a writer holds the lock or is pending. *)
Definition RLock (rw : RWMutex) : option RWMutex :=
  if writer rw || pending rw then None
  else Some (mk_RWMutex (S (readers rw)) false false).

(** [rw.RUnlock()]: undoes one [RLock]. *)
Definition RUnlock (rw : RWMutex) : option RWMutex :=
  match readers rw with
  | O => None
  | S n => Some (mk_RWMutex n (writer rw) (pending rw))
  end.

(** [rw.Lock()], its first step: the caller becomes the pending writer,
    after any other writer. *)
Definition Lock_wait (rw : RWMutex) : option RWMutex :=
  if writer rw || pending rw then None
  else Some (mk_RWMutex (readers rw) false true).

(** [rw.Lock()], its second step: the pending writer gets the lock when no
    reader holds it. *)
Definition Lock (rw : RWMutex) : option RWMutex :=
  if pending rw && (readers rw =? 0)%nat then Some (mk_RWMutex 0 true false)
  else None.

(** [rw.Unlock()]. *)
Definition Unlock (rw : RWMutex) : option RWMutex :=
  if writer rw then Some (mk_RWMutex (readers rw) false (pending rw)) else None.

(** A writer holds the lock alone, and no writer is pending meanwhile. *)
Definition exclusive (rw : RWMutex) : Prop :=
  writer rw = true -> readers rw = 0%nat /\ pending rw = false.

(** ** The four methods *)

Lemma RLock_Some rw rw' :
  RLock rw = Some rw' <->
  writer rw = false /\ pending rw = false /\
  rw' = mk_RWMutex (S (readers rw)) false false.
Proof. unfold RLock. destruct (writer rw), (pending rw); naive_solver. Qed.

Lemma RUnlock_Some rw rw' :
  RUnlock rw = Some rw' <->
  readers rw = S (readers rw') /\ writer rw' = writer rw /\
  pending rw' = pending rw.
Proof.
  unfold RUnlock. destruct rw as [[|n] w p], rw' as [n' w' p']; cbn; naive_solver.
Qed.

Lemma Lock_wait_Some rw rw' :
  Lock_wait rw = Some rw' <->
  writer rw = false /\ pending rw = false /\
  rw' = mk_RWMutex (readers rw) false true.
Proof. unfold Lock_wait. destruct (writer rw), (pending rw); naive_solver. Qed.

Lemma Lock_Some rw rw' :
  Lock rw = Some rw' <->
  pending rw = true /\ readers rw = 0%nat /\ rw' = mk_RWMutex 0 true false.
Proof. unfold Lock. destruct rw as [[|n] w []]; cbn; naive_solver. Qed.

Lemma Unlock_Some rw rw' :
  Unlock rw = Some rw' <->
  writer rw = true /\ rw' = mk_RWMutex (readers rw) false (pending rw).
Proof. unfold Unlock. destruct (writer rw); naive_solver. Qed.

(** Read what a successful call says of the lock. *)
Ltac mutex_inv :=
  repeat match goal with
  | H : RLock _ = Some _ |- _ => apply RLock_Some in H as (? & ? & ->)
  | H : Lock_wait _ = Some _ |- _ => apply Lock_wait_Some in H as (? & ? & ->)
  | H : Lock _ = Some _ |- _ => apply Lock_Some in H as (? & ? & ->)
  | H : Unlock _ = Some _ |- _ => apply Unlock_Some in H as [? ->]
  | H : RUnlock _ = Some ?rw |- _ =>
      apply RUnlock_Some in H as (? & ? & ?); destruct rw; simplify_eq/=
  end.

(** Every method keeps the lock well formed. *)
Lemma exclusive_unlocked : exclusive unlocked.
Proof. done. Qed.

Lemma exclusive_step (method : RWMutex -> option RWMutex) rw rw' :
  method = RLock \/ method = RUnlock \/ method = Lock_wait \/
    method = Lock \/ method = Unlock ->
  exclusive rw -> method rw = Some rw' -> exclusive rw'.
Proof.
  unfold exclusive. intros Hm Hrw Hstep.
  destruct Hm as [->|[->|[->|[->| ->]]]]; mutex_inv; cbn in *;
    try done; naive_solver lia.
Qed.

(** A lock that is free can be taken either way; the pending writer gets
    the lock when the readers have left; a lock that is held can be
    released by its holder. *)
Lemma RLock_free rw :
  writer rw = false -> pending rw = false -> is_Some (RLock rw).
Proof. unfold RLock. intros -> ->. by eexists. Qed.

Lemma Lock_wait_free rw :
  writer rw = false -> pending rw = false -> is_Some (Lock_wait rw).
Proof. unfold Lock_wait. intros -> ->. by eexists. Qed.

Lemma Lock_pending rw :
  pending rw = true -> readers rw = 0%nat -> is_Some (Lock rw).
Proof. unfold Lock. intros -> ->. by eexists. Qed.

Lemma Unlock_held rw : writer rw = true -> is_Some (Unlock rw).
Proof. unfold Unlock. intros ->. by eexists. Qed.

Lemma RUnlock_held rw : (0 < readers rw)%nat -> is_Some (RUnlock rw).
Proof. unfold RUnlock. destruct (readers rw); [lia|by eexists]. Qed.
