(* ===== verification/Threads.v ===== *)
(** * Threads: the methods of the filter under their lock

    The four methods of [swearFilter] as goroutines run them: [Check]
    (lines 100-180 of [src/swearfilter.go]), [Add] (lines 183-194),
    [Delete] (lines 197-204) and [Words] (lines 207-219), each from its
    [Lock] or [RLock] to its deferred [Unlock] or [RUnlock].

    A goroutine is a program point [pc] with the values of its local
    variables.  A step of a goroutine ([step_Check], [step_Add],
    [step_Delete], [step_Words]) is the code between two points at which
    it touches the shared filter: taking the lock, the guard, one turn of
    a loop, the deferred release.  The state of the program is the shared
    object (the filter and its mutex) and the list of the goroutines; a
    step of the program ([step]) is a step of one of them.  A goroutine
    that waits for the lock has no step.

    A turn of [for k := range m] reads the map as it is at that turn: the
    loop is over when every key has been visited, and otherwise the run
    time picks a key that has not been ([range]); the pick is an argument
    of the step.  [step_at] and [run] execute a schedule, a list of
    goroutines to step with their picks.

    The theorems are invariants of the states that can be reached from
    [init]: the lock counts the goroutines that are inside their methods,
    a goroutine that writes the map is alone inside, a reader sees the map
    it took the lock on and no writer holds the lock while it reads
    ([reachable_reading]), and every goroutine stays inside the method it
    was called with. *)

From stdpp Require Import gmap.
From S2P Require Import Prelude Utf8 GoStrings Unicode UnicodeLatin.
From S2P Require Import Normalize Whitespace Vocabulary Check Mutex.

(** ** Definitions *)

(** The struct [swearFilter] as the goroutines share it: the fields of
    [Vocabulary.swearFilter] and the mutex. *)
Record object : Type := mk_object {
  data : swearFilter;
  mutex : RWMutex;
}.

(** A call of a method of the interface [Filter], and what it returns. *)
Inductive call : Type :=
| call_Check (msg : bytes)
| call_Add (badWords : list bytes)
| call_Delete (badWords : list bytes)
| call_Words.

Inductive value : Type :=
| ret_Check (r : result error (list Match))
| ret_unit
| ret_Words (activeWords : list bytes).

(** The program points of the four methods, with the local variables that
    are live there.  [Called]: before the first statement.  [Check_guard]:
    line 104, the read lock taken.  [Check_range]: line 145, at the head
    of the loop, with the keys the loop has visited.  [Check_defer]: the
    result is computed and the deferred [RUnlock] is to run.  [Add_Lock]:
    inside the call of [Lock] of line 184, the pending writer.  The points
    of the other methods are named alike. *)
Inductive pc : Type :=
| Called (c : call)
| Check_guard (msg : bytes)
| Check_range (msg message : bytes) (visited : list bytes)
    (st : list Match * bool)
| Check_defer (r : result error (list Match))
| Add_Lock (badWords : list bytes)
| Add_guard (badWords : list bytes)
| Add_range (badWords : list bytes)
| Add_defer
| Delete_Lock (badWords : list bytes)
| Delete_range (badWords : list bytes)
| Delete_defer
| Words_guard
| Words_range (activeWords : list bytes)
| Words_defer (activeWords : list bytes)
| Returned (v : value).

(** One turn of [for key := range m]. *)
Inductive turn : Type :=
| Over
| Yield (key : bytes).

Definition range (m : gset bytes) (visited : list bytes) (pick : bytes)
    : option turn :=
  if bool_decide (m ⊆ list_to_set visited) then Some Over
  else if bool_decide (pick ∈ m) && bool_decide (pick ∉ visited)
  then Some (Yield pick)
  else None.

(** A goroutine takes or releases the lock and goes on at [p]; it has no
    step while the lock is not to be had. *)
Definition with_mutex (method : RWMutex -> option RWMutex) (o : object) (p : pc)
    : option (object * pc) :=
  match method (mutex o) with
  | Some rw => Some (mk_object (data o) rw, p)
  | None => None
  end.

Section threads.
Context `{UnicodeTables} {chain : Chain}.

(** [Check], lines 100-180. *)
Definition step_Check (pick : bytes) (o : object) (p : pc) : option (object * pc) :=
  let filter := data o in
  match p with
  | Called (call_Check msg) =>
      with_mutex RLock o (Check_guard msg)
  | Check_guard msg =>
      if bool_decide (BadWords filter = None)
         || bool_decide (size (words filter) = 0%nat)
      then Some (o, Check_defer (Ok []))
      else
        match preprocess filter msg with
        | Err err => Some (o, Check_defer (Err err))
        | Ok message => Some (o, Check_range msg message [] ([], false))
        end
  | Check_range msg message visited st =>
      match range (words filter) visited pick with
      | None => None
      | Some (Yield swear) =>
          Some (o, Check_range msg message (visited ++ [swear])
                     (loop_body filter message st swear))
      | Some Over =>
          let '(trippedWords, checkSpace) := st in
          if checkSpace && bool_decide (message = []) then
            Some (o, Check_defer (Ok (trippedWords ++ [sentinel])))
          else Some (o, Check_defer (Ok trippedWords))
      end
  | Check_defer r =>
      with_mutex RUnlock o (Returned (ret_Check r))
  | _ => None
  end.

(** [Add], lines 183-194. *)
Definition step_Add (o : object) (p : pc) : option (object * pc) :=
  let filter := data o in
  match p with
  | Called (call_Add badWords) =>
      with_mutex Lock_wait o (Add_Lock badWords)
  | Add_Lock badWords =>
      with_mutex Lock o (Add_guard badWords)
  | Add_guard badWords =>
      let filter :=
        match BadWords filter with
        | None => set_BadWords (Some ∅) filter
        | Some _ => filter
        end in
      Some (mk_object filter (mutex o), Add_range badWords)
  | Add_range (word :: badWords) =>
      Some (mk_object (assign filter word) (mutex o), Add_range badWords)
  | Add_range [] => Some (o, Add_defer)
  | Add_defer =>
      with_mutex Unlock o (Returned ret_unit)
  | _ => None
  end.

(** [Delete], lines 197-204. *)
Definition step_Delete (o : object) (p : pc) : option (object * pc) :=
  let filter := data o in
  match p with
  | Called (call_Delete badWords) =>
      with_mutex Lock_wait o (Delete_Lock badWords)
  | Delete_Lock badWords =>
      with_mutex Lock o (Delete_range badWords)
  | Delete_range (word :: badWords) =>
      Some (mk_object (delete_word filter word) (mutex o), Delete_range badWords)
  | Delete_range [] => Some (o, Delete_defer)
  | Delete_defer =>
      with_mutex Unlock o (Returned ret_unit)
  | _ => None
  end.

(** [Words], lines 207-219. *)
Definition step_Words (pick : bytes) (o : object) (p : pc) : option (object * pc) :=
  let filter := data o in
  match p with
  | Called call_Words =>
      with_mutex RLock o Words_guard
  | Words_guard =>
      match BadWords filter with
      | None => Some (o, Words_defer [])
      | Some _ => Some (o, Words_range [])
      end
  | Words_range activeWords =>
      match range (words filter) activeWords pick with
      | None => None
      | Some (Yield word) => Some (o, Words_range (activeWords ++ [word]))
      | Some Over => Some (o, Words_defer activeWords)
      end
  | Words_defer activeWords =>
      with_mutex RUnlock o (Returned (ret_Words activeWords))
  | _ => None
  end.

(** A step of a goroutine: a step of the method it is in. *)
Definition step_thread (pick : bytes) (o : object) (p : pc) : option (object * pc) :=
  match p with
  | Called (call_Check _) | Check_guard _ | Check_range _ _ _ _ | Check_defer _ =>
      step_Check pick o p
  | Called (call_Add _) | Add_Lock _ | Add_guard _ | Add_range _ | Add_defer =>
      step_Add o p
  | Called (call_Delete _) | Delete_Lock _ | Delete_range _ | Delete_defer =>
      step_Delete o p
  | Called call_Words | Words_guard | Words_range _ | Words_defer _ =>
      step_Words pick o p
  | Returned _ => None
  end.

(** The program: the shared object and the goroutines. *)
Record state : Type := mk_state {
  shared : object;
  threads : list pc;
}.

(** A step of the program is a step of one goroutine. *)
Inductive step : state -> state -> Prop :=
| step_intro pick o o' p p' l1 l2 :
    step_thread pick o p = Some (o', p') ->
    step (mk_state o (l1 ++ p :: l2)) (mk_state o' (l1 ++ p' :: l2)).

(** The goroutine [i] takes a step. *)
Definition step_at (i : nat) (pick : bytes) (s : state) : option state :=
  p ← threads s !! i;
  '(o', p') ← step_thread pick (shared s) p;
  Some (mk_state o' (<[i := p']> (threads s))).

(** A schedule: which goroutine steps, and its pick. *)
Fixpoint run (schedule : list (nat * bytes)) (s : state) : option state :=
  match schedule with
  | [] => Some s
  | (i, pick) :: schedule => s' ← step_at i pick s; run schedule s'
  end.

(** The calls are made on a filter whose mutex nobody holds. *)
Definition init (filter : swearFilter) (calls : list call) : state :=
  mk_state (mk_object filter unlocked) (Called <$> calls).

Definition reachable_from (filter : swearFilter) (calls : list call) (s : state)
    : Prop :=
  rtc step (init filter calls) s.

End threads.

(** An execution: a call of [Check] and a call of [Words] that are inside
    together, each visiting the one word of the filter, while a call of
    [Add] waits for them to leave; then the call of [Add]. *)
Definition demo_filter : swearFilter := New [str "foo"] [].

Definition demo_calls : list call :=
  [call_Check (str "a foo"); call_Words; call_Add [str "bar"]].

Definition demo_schedule : list (nat * bytes) :=
  [(0, []); (1, []); (2, []); (0, []); (1, []); (0, str "foo"); (1, str "foo");
   (0, []); (1, []); (0, []); (1, []);
   (2, []); (2, []); (2, []); (2, []); (2, [])]%nat.

(** A goroutine that holds the read lock, one that holds the write lock,
    and one that waits for it inside [Lock]. *)
Definition reading (p : pc) : bool :=
  match p with
  | Check_guard _ | Check_range _ _ _ _ | Check_defer _
  | Words_guard | Words_range _ | Words_defer _ => true
  | _ => false
  end.

Definition writing (p : pc) : bool :=
  match p with
  | Add_guard _ | Add_range _ | Add_defer | Delete_range _ | Delete_defer => true
  | _ => false
  end.

Definition waiting (p : pc) : bool :=
  match p with
  | Add_Lock _ | Delete_Lock _ => true
  | _ => false
  end.

(** How many goroutines of a list satisfy [P]. *)
Definition count (P : pc -> bool) (l : list pc) : nat :=
  sum_list_with (fun p => Nat.b2n (P p)) l.

(** The lock counts the goroutines that hold it and the one that waits
    for it. *)
Definition lock_inv (s : state) : Prop :=
  readers (mutex (shared s)) = count reading (threads s) /\
  Nat.b2n (writer (mutex (shared s))) = count writing (threads s) /\
  Nat.b2n (pending (mutex (shared s))) = count waiting (threads s) /\
  exclusive (mutex (shared s)).

Section invariants.
Context `{UnicodeTables} {chain : Chain}.

(** What a reader knows of the map [filter] while it holds the lock. *)
Definition pc_inv (filter : swearFilter) (p : pc) : Prop :=
  match p with
  | Check_range msg message visited st =>
      bool_decide (BadWords filter = None)
        || bool_decide (size (words filter) = 0%nat) = false /\
      preprocess filter msg = Ok message /\
      NoDup visited /\ Forall (fun w => w ∈ words filter) visited /\
      st = foldl (loop_body filter message) ([], false) visited
  | Words_range activeWords =>
      BadWords filter <> None /\
      NoDup activeWords /\ Forall (fun w => w ∈ words filter) activeWords
  | _ => True
  end.

Definition state_inv (s : state) : Prop :=
  lock_inv s /\ Forall (pc_inv (data (shared s))) (threads s).

End invariants.

(** A goroutine is in the method it was called with, or has returned a
    value of the type of that method. *)
Definition typed (c : call) (p : pc) : Prop :=
  match c, p with
  | _, Called c' => c' = c
  | call_Check msg, (Check_guard msg' | Check_range msg' _ _ _) => msg' = msg
  | call_Check _, (Check_defer _ | Returned (ret_Check _)) => True
  | call_Add badWords, (Add_Lock badWords' | Add_guard badWords') =>
      badWords' = badWords
  | call_Add _, (Add_range _ | Add_defer | Returned ret_unit) => True
  | call_Delete badWords, Delete_Lock badWords' => badWords' = badWords
  | call_Delete _, (Delete_range _ | Delete_defer | Returned ret_unit) => True
  | call_Words, (Words_guard | Words_range _ | Words_defer _ | Returned (ret_Words _)) =>
      True
  | _, _ => False
  end.

(** ** Counting goroutines *)

Section count.
Implicit Types (P : pc -> bool) (l : list pc).

Lemma count_middle P l1 p l2 :
  count P (l1 ++ p :: l2) = (count P l1 + Nat.b2n (P p) + count P l2)%nat.
Proof. apply (sum_list_with_middle (fun p => Nat.b2n (P p))). Qed.

Lemma count_0 P l : count P l = 0%nat <-> Forall (fun p => P p = false) l.
Proof.
  unfold count. rewrite sum_list_with_0. apply Forall_proper; [|done].
  intros p. by destruct (P p).
Qed.

Lemma count_pos P l :
  (0 < count P l)%nat -> exists l1 p l2, l = l1 ++ p :: l2 /\ P p = true.
Proof.
  intros Hl.
  apply (sum_list_with_pos (fun p => Nat.b2n (P p))) in Hl
    as (l1 & p & l2 & -> & Hp).
  exists l1, p, l2. split; [done|]. destruct (P p); [done|cbn in Hp; lia].
Qed.

Lemma count_app P l1 l2 : count P (l1 ++ l2) = (count P l1 + count P l2)%nat.
Proof. apply sum_list_with_app. Qed.

Lemma count_Called P calls :
  (forall c, P (Called c) = false) -> count P (Called <$> calls) = 0%nat.
Proof. intros HP. by apply count_0, Forall_fmap, Forall_true. Qed.

End count.

(** ** A turn of a range *)

Section range.
Implicit Types (m : gset bytes) (visited : list bytes).

Lemma range_Yield m visited pick key :
  range m visited pick = Some (Yield key) <->
  key = pick /\ pick ∈ m /\ (pick ∉ visited) /\ ~ (m ⊆ list_to_set visited).
Proof. unfold range. repeat case_bool_decide; naive_solver. Qed.

Lemma range_Over m visited pick :
  range m visited pick = Some Over <-> m ⊆ list_to_set visited.
Proof. unfold range. repeat case_bool_decide; naive_solver. Qed.

(** The run time can always take the turn. *)
Lemma range_total m visited : exists pick, is_Some (range m visited pick).
Proof.
  destruct (decide (m ⊆ list_to_set visited)) as [Hm|Hm].
  - exists []. exists Over. by apply range_Over.
  - destruct (set_choose_L (m ∖ list_to_set visited)) as [pick Hpick].
    { intros Hempty. apply Hm. set_solver. }
    exists pick, (Yield pick). apply range_Yield. set_solver.
Qed.

(** The keys visited so far, with one more. *)
Lemma visited_snoc m visited key :
  NoDup visited -> Forall (fun w => w ∈ m) visited ->
  key ∈ m -> key ∉ visited ->
  NoDup (visited ++ [key]) /\ Forall (fun w => w ∈ m) (visited ++ [key]).
Proof.
  intros Hnd Hin Hk Hnk. split.
  - apply NoDup_app. split_and!; [done|set_solver|apply NoDup_singleton].
  - apply Forall_app. by repeat constructor.
Qed.

(** When the loop is over, the keys were visited in an order of the map. *)
Lemma visited_Over m visited :
  NoDup visited -> Forall (fun w => w ∈ m) visited ->
  m ⊆ list_to_set visited -> visited ≡ₚ elements m.
Proof.
  intros Hnd Hin Hm. apply NoDup_Permutation; [done|apply NoDup_elements|].
  intros w. rewrite elem_of_elements. rewrite Forall_forall in Hin. set_solver.
Qed.

(** The keys visited are fewer than the keys while the loop goes on. *)
Lemma visited_length m visited key :
  NoDup visited -> Forall (fun w => w ∈ m) visited ->
  key ∈ m -> key ∉ visited -> (length visited < size m)%nat.
Proof.
  intros Hnd Hin Hk Hnk.
  destruct (visited_snoc m visited key) as [Hnd' Hin']; [done..|].
  assert (list_to_set (visited ++ [key]) ⊆ m) as Hsub.
  { rewrite Forall_forall in Hin'. set_solver. }
  apply subseteq_size in Hsub. rewrite size_list_to_set in Hsub by done.
  rewrite length_app in Hsub. cbn in Hsub. lia.
Qed.

End range.

(** ** Tactics *)

(** Read what a turn of a range says of the keys. *)
Ltac range_inv :=
  repeat match goal with
  | Hr : range _ _ _ = Some Over |- _ => apply range_Over in Hr
  | Hr : range _ _ _ = Some (Yield _) |- _ =>
      apply range_Yield in Hr as (-> & ? & ? & ?)
  end.

(** The cases of a step of a goroutine, one per branch of its method. *)
Ltac step_inv H :=
  match type of H with
  | step_thread _ _ ?p = Some _ =>
      destruct p as
        [[]| | | | | |[|word badWords]| | |[|word badWords]| | | | |];
      cbn [step_thread step_Check step_Add step_Delete step_Words] in H;
      unfold with_mutex in H;
      repeat case_match; simplify_eq; mutex_inv; range_inv
  end.

(** ** A schedule is a sequence of steps *)

Section run.
Context `{UnicodeTables} {chain : Chain}.

Lemma step_at_step i pick s s' : step_at i pick s = Some s' -> step s s'.
Proof.
  unfold step_at. destruct s as [o ts]. cbn. intros Hs.
  destruct (ts !! i) as [p|] eqn:Hi; [|done]. cbn in Hs.
  destruct (step_thread pick o p) as [[o' p']|] eqn:Hp; simplify_eq/=.
  destruct (lookup_middle _ _ _ Hi) as (l1 & l2 & -> & <-).
  rewrite insert_app_r_alt, Nat.sub_diag by done. by econstructor.
Qed.

Lemma run_nsteps schedule s s' :
  run schedule s = Some s' -> nsteps step (length schedule) s s'.
Proof.
  revert s. induction schedule as [|[i pick] schedule IH]; intros s Hs.
  - simplify_eq/=. constructor.
  - cbn in Hs. destruct (step_at i pick s) as [s1|] eqn:H1; [|done].
    eapply nsteps_l; [by eapply step_at_step|by apply IH].
Qed.

Lemma run_rtc schedule s s' : run schedule s = Some s' -> rtc step s s'.
Proof. intros Hs%run_nsteps. by eapply rtc_nsteps_2. Qed.

End run.

(** ** What a step of a goroutine does to the lock and to the map *)

Section local.
Context `{UnicodeTables} {chain : Chain}.
Implicit Types (o : object) (p q : pc).

(** The lock is taken and released with the sections: the step keeps the
    account of the readers, of the writer and of the pending writer. *)
Lemma step_thread_lock pick o p o' p' :
  step_thread pick o p = Some (o', p') ->
  exclusive (mutex o) ->
  (readers (mutex o') + Nat.b2n (reading p) =
     readers (mutex o) + Nat.b2n (reading p'))%nat /\
  (Nat.b2n (writer (mutex o')) + Nat.b2n (writing p) =
     Nat.b2n (writer (mutex o)) + Nat.b2n (writing p'))%nat /\
  (Nat.b2n (pending (mutex o')) + Nat.b2n (waiting p) =
     Nat.b2n (pending (mutex o)) + Nat.b2n (waiting p'))%nat /\
  exclusive (mutex o').
Proof.
  unfold exclusive. intros Hstep Hex. destruct o as [filter [n [] []]].
  all: step_inv Hstep; cbn in *; naive_solver lia.
Qed.

(** No writer holds the lock when a goroutine that holds no lock steps. *)
Lemma step_thread_enter pick o p o' p' :
  step_thread pick o p = Some (o', p') ->
  exclusive (mutex o) ->
  reading p = false -> writing p = false -> writer (mutex o) = false.
Proof.
  unfold exclusive. intros Hstep Hex. destruct o as [filter [n [] []]].
  all: step_inv Hstep; cbn in *; naive_solver.
Qed.

(** Only a writer changes the map. *)
Lemma step_thread_data pick o p o' p' :
  step_thread pick o p = Some (o', p') -> writing p = false -> data o' = data o.
Proof. intros Hstep. by step_inv Hstep. Qed.

(** The flags never change. *)
Lemma step_thread_flags pick o p o' p' :
  step_thread pick o p = Some (o', p') -> flags (data o') = flags (data o).
Proof. intros Hstep. by step_inv Hstep. Qed.

(** A goroutine that does not read knows nothing of the map. *)
Lemma pc_inv_idle filter p : reading p = false -> pc_inv filter p.
Proof. by destruct p. Qed.

(** A reader keeps what it knows of the map through its own steps. *)
Lemma step_thread_pc_inv pick o p o' p' :
  step_thread pick o p = Some (o', p') ->
  pc_inv (data o) p -> pc_inv (data o') p'.
Proof.
  intros Hstep Hp. step_inv Hstep; cbn [pc_inv data] in *; try done.
  - split_and!; auto using NoDup_nil_2.
  - destruct Hp as (? & ? & ? & ? & ->).
    split_and!; try done; [by eapply visited_snoc..|by rewrite foldl_snoc].
  - split_and!; auto using NoDup_nil_2. congruence.
  - destruct Hp as (? & ? & ?).
    split_and!; try done; by eapply visited_snoc.
Qed.

(** The goroutines that do not step keep what they know: the map changes
    only when none of them reads. *)
Lemma step_thread_others pick o p o' p' l :
  step_thread pick o p = Some (o', p') ->
  (writing p = true -> Forall (fun q => reading q = false) l) ->
  Forall (pc_inv (data o)) l -> Forall (pc_inv (data o')) l.
Proof.
  intros Hstep Hl Hinv. destruct (writing p) eqn:Hp.
  - eapply Forall_impl; [by apply Hl|]. intros q Hq. by apply pc_inv_idle.
  - by rewrite (step_thread_data _ _ _ _ _ Hstep Hp).
Qed.

(** A goroutine stays in its method. *)
Lemma step_thread_typed pick o p o' p' c :
  step_thread pick o p = Some (o', p') -> typed c p -> typed c p'.
Proof.
  intros Hstep Hc.
  step_inv Hstep; destruct c; cbn [typed] in *; by simplify_eq.
Qed.

End local.

(** ** The invariants of the program *)

Section global.
Context `{UnicodeTables} {chain : Chain}.
Implicit Types (o : object) (p q : pc) (s : state).

Lemma state_inv_init filter calls : state_inv (init filter calls).
Proof.
  split; [split_and!|]; try (symmetry; by apply count_Called); [done|].
  by apply Forall_fmap, Forall_true.
Qed.

(** A goroutine that writes is alone inside. *)
Lemma lock_inv_writing o l1 p l2 :
  lock_inv (mk_state o (l1 ++ p :: l2)) -> writing p = true ->
  Forall (fun q => reading q = false) (l1 ++ l2) /\
  Forall (fun q => writing q = false) (l1 ++ l2).
Proof.
  unfold lock_inv, exclusive. cbn [shared threads].
  rewrite !count_middle, <- !count_0, !count_app.
  intros (HR & HW & _ & Hex) Hw. rewrite Hw in HW.
  destruct (writer (mutex o)); cbn [Nat.b2n] in *; [|lia].
  destruct Hex as [? _]; [done|lia].
Qed.

(** No goroutine writes beside one that can step. *)
Lemma lock_inv_step pick o p o' p' l1 l2 :
  lock_inv (mk_state o (l1 ++ p :: l2)) ->
  step_thread pick o p = Some (o', p') ->
  Forall (fun q => writing q = false) (l1 ++ l2).
Proof.
  intros Hlock Hstep. destruct (writing p) eqn:Hw.
  { by eapply lock_inv_writing. }
  destruct Hlock as (HR & HW & _ & Hex). cbn [shared threads] in *.
  rewrite !count_middle, ?Hw in *. rewrite <- !count_0, !count_app.
  destruct (reading p) eqn:Hr.
  - unfold exclusive in Hex.
    destruct (writer (mutex o)); cbn [Nat.b2n] in *; [|lia].
    destruct Hex as [? _]; [done|lia].
  - rewrite (step_thread_enter _ _ _ _ _ Hstep Hex Hr Hw) in HW.
    cbn [Nat.b2n] in *; lia.
Qed.

Lemma step_state_inv s s' : step s s' -> state_inv s -> state_inv s'.
Proof.
  intros [pick o o' p p' l1 l2 Hstep] [Hlock Hpcs].
  pose proof (lock_inv_writing _ _ _ _ Hlock) as Halone.
  destruct Hlock as (HR & HW & HP & Hex). unfold state_inv, lock_inv.
  cbn [shared threads] in *.
  destruct (step_thread_lock _ _ _ _ _ Hstep Hex) as (HR' & HW' & HP' & Hex').
  split; [split_and!; rewrite ?count_middle in *; try done; lia|].
  apply Forall_app in Hpcs as [H1 [Hp H2]%Forall_cons].
  apply Forall_app; split; [|apply Forall_cons; split].
  - eapply step_thread_others; [done| |done].
    intros Hw. by destruct (Halone Hw) as [[? _]%Forall_app _].
  - by eapply step_thread_pc_inv.
  - eapply step_thread_others; [done| |done].
    intros Hw. by destruct (Halone Hw) as [[_ ?]%Forall_app _].
Qed.

Lemma reachable_state_inv filter calls s :
  reachable_from filter calls s -> state_inv s.
Proof.
  revert s. apply (rtc_ind_r state_inv); [apply state_inv_init|].
  intros s1 s2 _ Hstep Hinv. by eapply step_state_inv.
Qed.

(** C35: Mutual exclusion.  In every state the goroutines can reach from
    [init], whatever the calls and the schedule, a goroutine that holds the
    write lock (it is inside [Add] or [Delete]) is alone inside: no other
    goroutine is inside [Check] or [Words], and no other is inside [Add] or
    [Delete]. *)
Theorem reachable_exclusive filter calls s i j p q :
  reachable_from filter calls s ->
  threads s !! i = Some p -> threads s !! j = Some q -> i <> j ->
  writing p = true -> reading q = false /\ writing q = false.
Proof.
  intros [Hlock _]%reachable_state_inv Hi Hj Hne Hw. destruct s as [o ts].
  cbn in *. destruct (lookup_middle _ _ _ Hi) as (l1 & l2 & -> & <-).
  destruct (lock_inv_writing _ _ _ _ Hlock Hw) as [Hr Hw'].
  apply lookup_middle_ne in Hj; [|done].
  rewrite Forall_forall in Hr, Hw'. auto.
Qed.

(** C28: what a reader has read stays true while it reads.  In every
    state the goroutines can reach, whatever the calls and the schedule,
    a goroutine inside the loop of [Check] holds the message that the
    stages make of its message for the filter as it is now and the
    result of the loop body on the keys it has visited, which are keys
    of the map as it is now, each once; a goroutine inside the loop of
    [Words] holds keys of the map as it is now, each once; and while a
    goroutine reads no writer holds the lock. *)
Theorem reachable_reading filter calls s i p :
  reachable_from filter calls s -> threads s !! i = Some p ->
  pc_inv (data (shared s)) p /\
  (reading p = true -> writer (mutex (shared s)) = false).
Proof.
  intros [(Hr & Hw & _ & Hex) Hpc]%reachable_state_inv Hi.
  split; [by eapply Forall_lookup_1|]. intros Hp.
  destruct (writer (mutex (shared s))) eqn:E; [|done].
  apply Hex in E. destruct (lookup_middle _ _ _ Hi) as (l1 & l2 & Hs & _).
  rewrite Hs, count_middle, Hp in Hr. cbn in Hr. lia.
Qed.

(** Every goroutine stays inside the method it was called with: in a
    state reached from [init filter calls] the program point of the i-th
    goroutine is a point of the method of the i-th call, with the message of
    that call when the point keeps it, and a goroutine that has returned
    has returned a value of the result type of its method. *)
Lemma reachable_typed filter calls s :
  reachable_from filter calls s -> Forall2 typed calls (threads s).
Proof.
  revert s. apply (rtc_ind_r (fun s => Forall2 typed calls (threads s))).
  - cbn. apply Forall2_fmap_r, Forall_Forall2_diag, Forall_true. by intros [].
  - intros s1 s2 _ [pick o o' p p' l1 l2 Hstep] IH. cbn in *.
    apply Forall2_app_inv_r in IH
      as (k1 & k2 & H1 & (c & k3 & Hc & H2 & ->)%Forall2_cons_inv_r & ->).
    apply Forall2_app; [done|]. constructor; [|done].
    by eapply step_thread_typed.
Qed.

End global.

(** ** The execution [demo_schedule] *)

#[local] Existing Instance latin_chain.

(** After five steps the two readers are inside together, at the heads of
    their loops, and the writer is pending; after eleven the readers have
    returned and the writer is still pending; after sixteen the writer has
    returned too. *)
Lemma run_demo_5 :
  run (take 5 demo_schedule) (init demo_filter demo_calls) =
    Some (mk_state (mk_object demo_filter (mk_RWMutex 2 false true))
            [Check_range (str "a foo") (str "a foo") [] ([], false);
             Words_range []; Add_Lock [str "bar"]]).
Proof. vm_compute. reflexivity. Qed.

Lemma run_demo_11 :
  run (take 11 demo_schedule) (init demo_filter demo_calls) =
    Some (mk_state (mk_object demo_filter (mk_RWMutex 0 false true))
            [Returned (ret_Check (Ok [mk_Match (str "foo") 2]));
             Returned (ret_Words [str "foo"]);
             Add_Lock [str "bar"]]).
Proof. vm_compute. reflexivity. Qed.

Lemma run_demo :
  run demo_schedule (init demo_filter demo_calls) =
    Some (mk_state (mk_object (Add demo_filter [str "bar"]) unlocked)
            [Returned (ret_Check (Ok [mk_Match (str "foo") 2]));
             Returned (ret_Words [str "foo"]);
             Returned ret_unit]).
Proof. vm_compute. reflexivity. Qed.

Lemma reachable_exclusive_witness :
  reading (Returned (ret_Words [str "foo"])) = false /\
  writing (Returned (ret_Words [str "foo"])) = false.
Proof.
  eapply (reachable_exclusive demo_filter demo_calls _ 2 1
            (Add_guard [str "bar"]));
    [apply (run_rtc (take 12 demo_schedule)); vm_compute; reflexivity|done..].
Defined.

(** After five steps of [demo_schedule] the call of [Check] is at the head
    of its loop, with the message of the stages and nothing visited. *)
Lemma reachable_reading_witness :
  pc_inv demo_filter (Check_range (str "a foo") (str "a foo") [] ([], false)) /\
  (reading (Check_range (str "a foo") (str "a foo") [] ([], false)) = true ->
   writer (mk_RWMutex 2 false true) = false).
Proof.
  apply (reachable_reading demo_filter demo_calls
           (mk_state (mk_object demo_filter (mk_RWMutex 2 false true))
              [Check_range (str "a foo") (str "a foo") [] ([], false);
               Words_range []; Add_Lock [str "bar"]]) 0);
    [apply (run_rtc (take 5 demo_schedule)), run_demo_5|reflexivity].
Defined.
