(* ===== verification/Atomic.v ===== *)
(** * Atomic: every call is one step on the filter

    The contract of the lock: to its callers a filter behaves as if each
    call of [Check], [Add], [Delete] or [Words] ran alone.  The
    specification is a program [astep] whose state is a filter and, for
    each goroutine, the call it still has to make ([Pending]) or the value
    it got ([Finished]); a step of it is one whole call, by the functions
    of [Vocabulary] and [Check] ([atomic]).

    The goroutines of [Threads] implement it.  [abs] reads a state of the
    goroutines as a state of the specification: a writer's call takes
    place when it gets the lock, and from then on the filter of the
    specification is the shared filter with the rest of the writer's loop
    run on it ([finish]); a reader's call takes place when its result is
    computed.  Every step of the goroutines is then a step of the
    specification or none at all, so what the goroutines return, and the
    filter they leave, are what the calls return and leave when they are
    made one after the other in some order.

    The same read goroutine by goroutine: a filter of the specification
    is one that calls of [Add] and [Delete] of the run make of the first
    filter ([evolves]), and the value a goroutine has returned with is
    the value of its call on such a filter ([returned_atomic]); a word
    that a call of [Check] reports was in the first filter or is added by
    a call of the run ([returned_Check_Word]). *)

From stdpp Require Import gmap.
From S2P Require Import Prelude Utf8 GoStrings Unicode UnicodeLatin.
From S2P Require Import Normalize Whitespace Vocabulary Check Mutex Threads.

(** ** Definitions *)

(** A goroutine of the specification. *)
Inductive apc : Type :=
| Pending (c : call)
| Finished (v : value).

Record astate : Type := mk_astate {
  afilter : swearFilter;
  athreads : list apc;
}.

Section atomic.
Context `{UnicodeTables} {chain : Chain}.

(** A call of a method of the interface [Filter] as one step: the new
    filter and the value returned.  [keys] is the order of the range. *)
Definition atomic (keys : list bytes) (filter : swearFilter) (c : call)
    : swearFilter * value :=
  match c with
  | call_Check msg => (filter, ret_Check (Check_in keys filter msg))
  | call_Add badWords => (Add filter badWords, ret_unit)
  | call_Delete badWords => (Delete filter badWords, ret_unit)
  | call_Words => (filter, ret_Words (Words_in keys filter))
  end.

(** A step of the specification: one goroutine makes its call. *)
Inductive astep : astate -> astate -> Prop :=
| astep_intro keys filter c l1 l2 :
    ranges filter keys ->
    astep (mk_astate filter (l1 ++ Pending c :: l2))
          (mk_astate (atomic keys filter c).1
             (l1 ++ Finished (atomic keys filter c).2 :: l2)).

Definition ainit (filter : swearFilter) (calls : list call) : astate :=
  mk_astate filter (Pending <$> calls).

End atomic.

(** A goroutine as a goroutine of the specification. *)
Definition abs_pc (p : pc) : apc :=
  match p with
  | Called c => Pending c
  | Check_guard msg | Check_range msg _ _ _ => Pending (call_Check msg)
  | Check_defer r => Finished (ret_Check r)
  | Add_Lock badWords => Pending (call_Add badWords)
  | Add_guard _ | Add_range _ | Add_defer => Finished ret_unit
  | Delete_Lock badWords => Pending (call_Delete badWords)
  | Delete_range _ | Delete_defer => Finished ret_unit
  | Words_guard | Words_range _ => Pending call_Words
  | Words_defer activeWords => Finished (ret_Words activeWords)
  | Returned v => Finished v
  end.

(** The filter when the writer at [p] has left its loop. *)
Definition finish (filter : swearFilter) (p : pc) : swearFilter :=
  match p with
  | Add_guard badWords => Add filter badWords
  | Add_range badWords => foldl assign filter badWords
  | Delete_range badWords => foldl delete_word filter badWords
  | _ => filter
  end.

Definition abs (s : state) : astate :=
  mk_astate (foldl finish (data (shared s)) (threads s)) (abs_pc <$> threads s).

(** The filters that calls of [Add] and [Delete] of the list [calls] make
    of [filter]. *)
Inductive evolves (filter : swearFilter) (calls : list call)
    : swearFilter -> Prop :=
| evolves_refl : evolves filter calls filter
| evolves_Add f badWords :
    evolves filter calls f -> call_Add badWords ∈ calls ->
    evolves filter calls (Add f badWords)
| evolves_Delete f badWords :
    evolves filter calls f -> call_Delete badWords ∈ calls ->
    evolves filter calls (Delete f badWords).

Section answers.
Context `{UnicodeTables} {chain : Chain}.

(** The goroutine of the call [c] in the specification: it has its call to
    make, or it has the value of its call on a filter that the writers
    left. *)
Definition answers (filter : swearFilter) (calls : list call) (c : call)
    (a : apc) : Prop :=
  a = Pending c \/
  exists f keys,
    evolves filter calls f /\ ranges f keys /\
    a = Finished (atomic keys f c).2.

(** The invariant of the specification run from [ainit filter calls]. *)
Definition ainv (filter : swearFilter) (calls : list call) (a : astate) : Prop :=
  evolves filter calls (afilter a) /\
  Forall2 (answers filter calls) calls (athreads a).

End answers.

(** ** Tactics *)

(** The step is the call [c] with the range in the order [keys], the order
    of [elements] or the keys a loop has visited: what is left is that the
    call returns the value of the goroutine. *)
Ltac now_call c keys :=
  right; exists c, keys;
  split_and!;
    [first [apply ranges_elements|by apply visited_Over]|done|done| |done];
  cbn [atomic fst snd]; try done; try (do 2 f_equal).

(** Rewrite with the hypothesis that mentions [head]. *)
Ltac rewrite_hyp head :=
  match goal with Heq : context [head] |- _ => rewrite Heq end.

(** ** A step of a goroutine is a call or nothing *)

Section simulation.
Context `{UnicodeTables} {chain : Chain}.
Implicit Types (o : object) (p q : pc) (s : state).

Lemma finish_idle filter p : writing p = false -> finish filter p = filter.
Proof. by destruct p. Qed.

Lemma foldl_finish_idle filter l :
  Forall (fun q => writing q = false) l -> foldl finish filter l = filter.
Proof.
  induction 1 as [|q l Hq _ IH]; [done|]. cbn. by rewrite finish_idle.
Qed.

(** The filter of the specification is the shared filter with the loop of
    the goroutine that steps run to its end. *)
Lemma foldl_finish_middle filter l1 p l2 :
  Forall (fun q => writing q = false) (l1 ++ l2) ->
  foldl finish filter (l1 ++ p :: l2) = finish filter p.
Proof.
  intros [H1 H2]%Forall_app. rewrite foldl_app. cbn.
  by rewrite (foldl_finish_idle _ l1), foldl_finish_idle.
Qed.

(** [Check] when its guard fails, and when the transform fails. *)
Lemma Check_in_guard keys filter msg :
  bool_decide (BadWords filter = None)
    || bool_decide (size (words filter) = 0%nat) = true ->
  Check_in keys filter msg = Ok [].
Proof. unfold Check_in. by intros ->. Qed.

Lemma Check_in_preprocess keys filter msg :
  bool_decide (BadWords filter = None)
    || bool_decide (size (words filter) = 0%nat) = false ->
  Check_in keys filter msg =
    message ← preprocess filter msg;
    let '(trippedWords, checkSpace) :=
      foldl (loop_body filter message) ([], false) keys in
    if checkSpace && bool_decide (message = []) then
      Ok (trippedWords ++ [sentinel])
    else Ok trippedWords.
Proof. unfold Check_in. by intros ->. Qed.

(** What a step of a goroutine is to the specification: nothing, or the
    call of the goroutine on the shared filter. *)
Lemma step_thread_atomic pick o p o' p' :
  step_thread pick o p = Some (o', p') ->
  pc_inv (data o) p ->
  (abs_pc p' = abs_pc p /\ finish (data o') p' = finish (data o) p) \/
  (exists c keys,
      ranges (data o) keys /\ abs_pc p = Pending c /\ finish (data o) p = data o /\
      abs_pc p' = Finished (atomic keys (data o) c).2 /\
      finish (data o') p' = (atomic keys (data o) c).1).
Proof.
  intros Hstep Hp.
  step_inv Hstep; cbn [pc_inv data] in *; try (by left).
  - now_call (call_Check msg) (elements (words (data o'))).
    by rewrite Check_in_guard.
  - now_call (call_Check msg) (elements (words (data o'))).
    rewrite Check_in_preprocess by done. by rewrite_hyp preprocess.
  - destruct Hp as (Hg & Hpre & Hnd & Hin & Hst).
    now_call (call_Check msg) visited.
    rewrite Check_in_preprocess, Hpre by done. cbn. rewrite <- Hst.
    by rewrite_hyp andb.
  - destruct Hp as (Hg & Hpre & Hnd & Hin & Hst).
    now_call (call_Check msg) visited.
    rewrite Check_in_preprocess, Hpre by done. cbn. rewrite <- Hst.
    by rewrite_hyp andb.
  - now_call (call_Add badWords) (elements (words (data o))).
  - left. split; [done|]. cbn. unfold Add. by rewrite_hyp BadWords.
  - left. split; [done|]. cbn. unfold Add. by rewrite_hyp BadWords.
  - now_call (call_Delete badWords) (elements (words (data o))).
  - now_call call_Words (elements (words (data o'))).
    unfold Words_in. by rewrite_hyp BadWords.
  - destruct Hp as (Hm & Hnd & Hin).
    now_call call_Words activeWords.
    unfold Words_in. destruct (BadWords (data o')); [|done].
    by rewrite foldl_snoc_id.
Qed.

(** Every step of the goroutines is a step of the specification or leaves
    its state as it is. *)
Lemma step_astep s s' :
  state_inv s -> step s s' -> abs s' = abs s \/ astep (abs s) (abs s').
Proof.
  intros Hinv Hstep. destruct Hstep as [pick o o' p p' l1 l2 Hstep].
  destruct Hinv as [Hlock Hpcs]. unfold abs.
  pose proof (lock_inv_step _ _ _ _ _ _ _ Hlock Hstep) as Hidle.
  cbn [shared threads]. rewrite !fmap_app, !fmap_cons.
  rewrite !foldl_finish_middle by done.
  apply Forall_app in Hpcs as [_ [Hp _]%Forall_cons].
  destruct (step_thread_atomic _ _ _ _ _ Hstep Hp)
    as [[-> ->]|(c & keys & Hkeys & -> & -> & -> & ->)]; [by left|right].
  by constructor.
Qed.

(** A state in which every goroutine has returned reads as the shared
    filter and the values returned. *)
Lemma abs_Returned o vs :
  abs (mk_state o (Returned <$> vs)) = mk_astate (data o) (Finished <$> vs).
Proof.
  unfold abs. cbn [shared threads]. f_equal.
  - apply foldl_finish_idle, Forall_fmap, Forall_true. done.
  - by rewrite <- list_fmap_compose.
Qed.

Lemma abs_init filter calls : abs (init filter calls) = ainit filter calls.
Proof.
  unfold abs, init, ainit. cbn [shared threads data].
  rewrite foldl_finish_idle by (by apply Forall_fmap, Forall_true).
  by rewrite <- list_fmap_compose.
Qed.

(** C36: The lock makes every call atomic.  Whatever the calls and the
    schedule, a state the goroutines reach from [init filter calls] reads
    ([abs]) as a state the specification reaches from the same filter and
    calls by steps that are each one whole call of [Check_in], [Add],
    [Delete] or [Words_in] on the filter as the calls before it left it.
    With [abs_Returned]: when all have returned, the values returned and
    the filter left are those of the calls made one after the other in
    some order. *)
Theorem reachable_atomic filter calls s :
  reachable_from filter calls s -> rtc astep (ainit filter calls) (abs s).
Proof.
  revert s. apply (rtc_ind_r (fun s => rtc astep (ainit filter calls) (abs s))).
  - by rewrite abs_init.
  - intros s1 s2 Hs1 Hstep IH.
    destruct (step_astep _ _ (reachable_state_inv _ _ _ Hs1) Hstep)
      as [-> | Ha]; [done|by eapply rtc_r].
Qed.

(** ** What a call returns

    The refinement read goroutine by goroutine: the value a call returns
    is the value of the function of [Vocabulary] or [Check] on a filter
    that the writers of the run left. *)

Lemma evolves_flags filter calls f :
  evolves filter calls f -> flags f = flags filter.
Proof.
  induction 1 as [|f ws _ IH _|f ws _ IH _];
    by rewrite ?Add_flags, ?Delete_flags.
Qed.

Lemma evolves_reachable filter calls f :
  reachable filter -> evolves filter calls f -> reachable f.
Proof. induction 2; [done|by constructor..]. Qed.

Lemma astep_ainv filter calls a a' :
  ainv filter calls a -> astep a a' -> ainv filter calls a'.
Proof.
  intros [Hf Hts] Hstep. destruct Hstep as [keys f c l1 l2 Hkeys].
  cbn [afilter athreads] in *.
  apply Forall2_app_inv_r in Hts as (k1 & k2 & H1 & H2 & Hcalls).
  apply Forall2_cons_inv_r in H2 as (c' & k2' & Hc & H2 & ->).
  assert (c' = c) as ->
    by (by destruct Hc as [[= ->]|(? & ? & _ & _ & [=])]).
  assert (c ∈ calls) by (rewrite Hcalls; set_solver).
  split.
  - destruct c; cbn [atomic fst]; by try constructor.
  - rewrite Hcalls at 2. apply Forall2_app; [done|].
    constructor; [|done]. right. by exists f, keys.
Qed.

Lemma reachable_ainv filter calls s :
  reachable_from filter calls s -> ainv filter calls (abs s).
Proof.
  revert s. apply (rtc_ind_r (fun s => ainv filter calls (abs s))).
  - rewrite abs_init. split; [constructor|].
    apply Forall2_fmap_r, Forall_Forall2_diag, Forall_true. by left.
  - intros s1 s2 Hs1 Hstep IH.
    destruct (step_astep _ _ (reachable_state_inv _ _ _ Hs1) Hstep)
      as [-> | Ha]; [done|by eapply astep_ainv].
Qed.

(** When no writer is inside, the shared filter is what the writers that
    came before left. *)
Lemma reachable_evolves filter calls s :
  reachable_from filter calls s ->
  Forall (fun q => writing q = false) (threads s) ->
  evolves filter calls (data (shared s)).
Proof.
  intros [Hf _]%reachable_ainv Hidle. unfold abs in Hf.
  cbn [afilter] in Hf. by rewrite foldl_finish_idle in Hf.
Qed.

(** The goroutine [i] has returned: its value answers its call. *)
Lemma reachable_answers filter calls s i v :
  reachable_from filter calls s -> threads s !! i = Some (Returned v) ->
  exists c, calls !! i = Some c /\ answers filter calls c (Finished v).
Proof.
  intros [_ Hts]%reachable_ainv Hi. unfold abs in Hts. cbn [athreads] in Hts.
  apply (Forall2_lookup_r _ _ _ i (Finished v)) in Hts; [done|].
  by rewrite list_lookup_fmap, Hi.
Qed.

(** The words of a filter of the run were in the first filter or are
    words of a call of [Add]. *)
Lemma evolves_words filter calls f w :
  evolves filter calls f -> w ∈ words f ->
  w ∈ words filter \/ exists badWords, call_Add badWords ∈ calls /\ w ∈ badWords.
Proof.
  induction 1 as [|f ws _ IH Hin|f ws _ IH _]; [by left| |].
  - rewrite words_Add, elem_of_union, elem_of_list_to_set. naive_solver.
  - rewrite words_Delete, elem_of_difference. naive_solver.
Qed.

(** C39: what a call of [Check] reports under concurrency, whatever the
    calls and the schedule: a word of a filter that whole calls of [Add]
    and [Delete] of the run make of the first filter, so a word that the
    filter had at the start or that a call of [Add] of the run adds, and
    never a word that no call has put there. *)
Theorem returned_Check_Word filter calls s i res mt :
  reachable_from filter calls s ->
  threads s !! i = Some (Returned (ret_Check (Ok res))) -> mt ∈ res ->
  (exists f, evolves filter calls f /\ Word mt ∈ words f) /\
  (Word mt ∈ words filter \/
   exists badWords, call_Add badWords ∈ calls /\ Word mt ∈ badWords).
Proof.
  intros Hs Hi Hmt.
  destruct (reachable_answers _ _ _ _ _ Hs Hi)
    as (c & _ & [?|(f & keys & Hf & Hkeys & Hv)]); [done|].
  destruct c; cbn [atomic snd] in Hv; simplify_eq.
  assert (Word mt ∈ words f) as Hw.
  { unfold ranges in Hkeys. eapply elem_of_elements. rewrite <- Hkeys.
    by eapply Check_in_Word. }
  eauto using evolves_words.
Qed.

(** C22: what a call returns under concurrency.  Whatever the calls and
    the schedule, the value with which the goroutine [i] has returned is
    the value of its call, as the function [atomic] computes it
    ([Check_in], [Words_in], or nothing for [Add] and [Delete]), on a
    filter that calls of [Add] and [Delete] of the run make of the filter
    the run started with, with the keys of that filter in some order. *)
Theorem returned_atomic filter calls s i v :
  reachable_from filter calls s -> threads s !! i = Some (Returned v) ->
  exists c f keys,
    calls !! i = Some c /\ evolves filter calls f /\ ranges f keys /\
    v = (atomic keys f c).2.
Proof.
  intros Hs Hi.
  destruct (reachable_answers _ _ _ _ _ Hs Hi)
    as (c & Hc & [?|(f & keys & ? & ? & [= ->])]); [done|eauto 10].
Qed.

End simulation.

(** ** The execution [demo_schedule] *)

#[local] Existing Instance latin_chain.

(** The two readers were inside together and the writer came last: the
    values returned are those of the three calls made in that order. *)
Lemma reachable_atomic_witness :
  rtc astep (ainit demo_filter demo_calls)
    (mk_astate (Add demo_filter [str "bar"])
       [Finished (ret_Check (Ok [mk_Match (str "foo") 2]));
        Finished (ret_Words [str "foo"]); Finished ret_unit]).
Proof.
  refine (reachable_atomic demo_filter demo_calls
            (mk_state (mk_object (Add demo_filter [str "bar"]) unlocked)
               (Returned <$> [ret_Check (Ok [mk_Match (str "foo") 2]);
                              ret_Words [str "foo"]; ret_unit])) _).
  apply (run_rtc demo_schedule), run_demo.
Defined.

(** The call of [Check] of the same execution: what it returned is
    [Check_in] on a filter of the run. *)
Lemma returned_atomic_witness :
  exists c f keys,
    demo_calls !! 0%nat = Some c /\ evolves demo_filter demo_calls f /\
    ranges f keys /\
    ret_Check (Ok [mk_Match (str "foo") 2]) = (atomic keys f c).2.
Proof.
  apply (returned_atomic demo_filter demo_calls
           (mk_state (mk_object (Add demo_filter [str "bar"]) unlocked)
              (Returned <$> [ret_Check (Ok [mk_Match (str "foo") 2]);
                             ret_Words [str "foo"]; ret_unit])));
    [apply (run_rtc demo_schedule), run_demo|reflexivity].
Defined.

(** The same call: the word it reported is a word of the first filter. *)
Lemma returned_Check_Word_witness :
  (exists f, evolves demo_filter demo_calls f /\
     Word (mk_Match (str "foo") 2) ∈ words f) /\
  (Word (mk_Match (str "foo") 2) ∈ words demo_filter \/
   exists badWords,
     call_Add badWords ∈ demo_calls /\
     Word (mk_Match (str "foo") 2) ∈ badWords).
Proof.
  apply (returned_Check_Word demo_filter demo_calls
           (mk_state (mk_object (Add demo_filter [str "bar"]) unlocked)
              (Returned <$> [ret_Check (Ok [mk_Match (str "foo") 2]);
                             ret_Words [str "foo"]; ret_unit])) 0%nat
           [mk_Match (str "foo") 2]);
    [apply (run_rtc demo_schedule), run_demo|reflexivity|set_solver].
Defined.
