(* ===== verification/Progress.v ===== *)
(** * Progress: the calls return

    Two properties of the goroutines of [Threads] that the lock must not
    spoil.  No schedule runs for ever: every step of the program lowers
    [measure], the number of steps the goroutines have left at most, so a
    run from [init] has at most [measure (init filter calls)] steps.  And
    no state is a deadlock: while a goroutine has not returned, some
    goroutine has a step.  Together: every run, continued for as long as
    it can be, ends with every call returned, and every state that is
    reached has such a continuation ([reachable_returns]).  And the
    readers do not wait for each other: any number of calls of [Check]
    and [Words] can be inside together.

    The loops of [Check] and [Words] take one turn for each key of the map,
    and the map can grow before they start.  [keys_bound] bounds the keys
    the map can ever have: those it has and those the calls of [Add] still
    have to insert; no step raises it. *)

From stdpp Require Import gmap.
From S2P Require Import Prelude Utf8 GoStrings Unicode UnicodeLatin.
From S2P Require Import Normalize Whitespace Vocabulary Check Mutex Threads.

(** ** Definitions *)

(** The words a goroutine may still insert. *)
Definition adds (p : pc) : nat :=
  match p with
  | Called (call_Add badWords) | Add_Lock badWords | Add_guard badWords
  | Add_range badWords => length badWords
  | _ => 0
  end.

(** The keys the map can have from now on, at most. *)
Definition keys_bound (s : state) : nat :=
  size (words (data (shared s))) + sum_list_with adds (threads s).

(** The steps a goroutine has left, at most, when the map never has more
    than [n] keys: one to take the lock (two for the write lock), one for
    the guard, one for each turn of the loop and one to leave it, one for
    the deferred release. *)
Definition steps_left (n : nat) (p : pc) : nat :=
  match p with
  | Called (call_Check _) | Called call_Words => n + 4
  | Check_guard _ | Words_guard => n + 3
  | Check_range _ _ visited _ => n - length visited + 2
  | Words_range activeWords => n - length activeWords + 2
  | Called (call_Add badWords) => length badWords + 5
  | Add_Lock badWords => length badWords + 4
  | Add_guard badWords => length badWords + 3
  | Add_range badWords => length badWords + 2
  | Called (call_Delete badWords) => length badWords + 4
  | Delete_Lock badWords => length badWords + 3
  | Delete_range badWords => length badWords + 2
  | Check_defer _ | Words_defer _ | Add_defer | Delete_defer => 1
  | Returned _ => 0
  end.

Definition measure (s : state) : nat :=
  sum_list_with (steps_left (keys_bound s)) (threads s).

Definition returned (p : pc) : bool :=
  match p with
  | Returned _ => true
  | _ => false
  end.

(** The calls that take the read lock, and the point of a reader that has
    just taken it. *)
Definition reads (c : call) : bool :=
  match c with
  | call_Check _ | call_Words => true
  | _ => false
  end.

Definition entered (c : call) : pc :=
  match c with
  | call_Check msg => Check_guard msg
  | call_Words => Words_guard
  | _ => Called c
  end.

(** ** The map stays below its bound *)

Section bound.
Context `{UnicodeTables} {chain : Chain}.
Implicit Types (o : object) (p q : pc) (s : state).

Lemma size_words_assign filter word :
  (size (words (assign filter word)) <= size (words filter) + 1)%nat.
Proof.
  unfold words, assign. destruct (BadWords filter) as [m|]; cbn; [|lia].
  rewrite size_union_alt, size_singleton.
  assert (m ∖ {[word]} ⊆ m) as Hm%subseteq_size by set_solver. lia.
Qed.

Lemma size_words_delete_word filter word :
  (size (words (delete_word filter word)) <= size (words filter))%nat.
Proof.
  unfold words, delete_word. destruct (BadWords filter) as [m|]; cbn; [|lia].
  apply subseteq_size. set_solver.
Qed.

(** A step inserts at most the words it takes off the list of its call. *)
Lemma step_thread_bound pick o p o' p' :
  step_thread pick o p = Some (o', p') ->
  (size (words (data o')) + adds p' <= size (words (data o)) + adds p)%nat.
Proof.
  intros Hstep. step_inv Hstep; cbn [data adds length]; try lia.
  - unfold words. cbn. match goal with Hm : BadWords _ = _ |- _ => by rewrite Hm end.
  - pose proof (size_words_assign (data o) word). lia.
  - pose proof (size_words_delete_word (data o) word). lia.
Qed.

End bound.

(** ** Every step lowers the measure *)

Section termination.
Context `{UnicodeTables} {chain : Chain}.
Implicit Types (o : object) (p q : pc) (s : state) (n : nat).

Lemma steps_left_mono n n' q :
  (n' <= n)%nat -> (steps_left n' q <= steps_left n q)%nat.
Proof. destruct q as [[]| | | | | | | | | | | | | |]; cbn; lia. Qed.

Lemma sum_steps_left_mono n n' l :
  (n' <= n)%nat ->
  (sum_list_with (steps_left n') l <= sum_list_with (steps_left n) l)%nat.
Proof.
  intros Hn. apply sum_list_with_le, Forall_true. intros q.
  by apply steps_left_mono.
Qed.

(** The goroutine that steps has one step less to take, whatever the
    bound on the keys has become. *)
Lemma step_thread_steps_left pick o p o' p' n n' :
  step_thread pick o p = Some (o', p') ->
  pc_inv (data o) p ->
  (size (words (data o)) <= n)%nat -> (n' <= n)%nat ->
  (steps_left n' p' < steps_left n p)%nat.
Proof.
  intros Hstep Hp Hsize Hn.
  step_inv Hstep; cbn [steps_left length pc_inv data] in *; try lia.
  - destruct Hp as (_ & _ & Hnd & Hin & _). rewrite length_app. cbn.
    pose proof (visited_length _ _ pick Hnd Hin ltac:(done) ltac:(done)). lia.
  - destruct Hp as (_ & Hnd & Hin). rewrite length_app. cbn.
    pose proof (visited_length _ _ pick Hnd Hin ltac:(done) ltac:(done)). lia.
Qed.

Lemma step_measure s s' : state_inv s -> step s s' -> (measure s' < measure s)%nat.
Proof.
  intros Hinv Hstep. destruct Hstep as [pick o o' p p' l1 l2 Hstep].
  destruct Hinv as [_ [_ [Hp _]%Forall_cons]%Forall_app].
  unfold measure, keys_bound. cbn [shared threads] in *.
  rewrite !(sum_list_with_middle adds).
  pose proof (step_thread_bound _ _ _ _ _ Hstep) as Hbound.
  set (n := (size (words (data o)) + _)%nat).
  set (n' := (size (words (data o')) + _)%nat).
  assert (n' <= n)%nat as Hn by (subst n n'; lia).
  pose proof (sum_steps_left_mono _ _ l1 Hn).
  pose proof (sum_steps_left_mono _ _ l2 Hn).
  pose proof (step_thread_steps_left _ _ _ _ _ n n' Hstep Hp) as Hlt.
  rewrite !(sum_list_with_middle (steps_left _)). subst n n'. lia.
Qed.

(** The steps from a state are at most its measure. *)
Lemma nsteps_measure s s' n :
  state_inv s -> nsteps step n s s' -> (n + measure s' <= measure s)%nat.
Proof.
  intros Hinv Hrun. induction Hrun as [|n s s1 s' Hstep _ IH]; [done|].
  pose proof (step_measure _ _ Hinv Hstep).
  specialize (IH (step_state_inv _ _ Hstep Hinv)). lia.
Qed.

(** C37: Termination.  A run of [n] steps from [init filter calls], under
    any schedule, has [n] at most [measure (init filter calls)]: five steps
    and one per word for each call of [Add], four and one per word for
    each call of [Delete], and for each call of [Check] or [Words] four
    steps and one per key the map can have, the keys of [filter] and the
    words of the calls of [Add].  What is left of the bound after the run
    bounds the steps still to come. *)
Theorem run_bounded filter calls n s :
  nsteps step n (init filter calls) s ->
  (n + measure s <= measure (init filter calls))%nat.
Proof. apply nsteps_measure, state_inv_init. Qed.

End termination.

(** ** No state is a deadlock *)

Section progress.
Context `{UnicodeTables} {chain : Chain}.
Implicit Types (o : object) (p q : pc) (s : state).

Lemma with_mutex_is_Some method o p :
  is_Some (method (mutex o)) -> is_Some (with_mutex method o p).
Proof. unfold with_mutex. intros [rw ->]. by eexists. Qed.

(** A goroutine that holds the lock has a step; so has the pending writer
    when no reader is inside, and a goroutine that is outside when the
    lock is free and no writer is pending. *)
Lemma step_thread_enabled o p :
  returned p = false ->
  (reading p = true -> (0 < readers (mutex o))%nat) ->
  (writing p = true -> writer (mutex o) = true) ->
  (waiting p = true -> pending (mutex o) = true /\ readers (mutex o) = 0%nat) ->
  (reading p = false -> writing p = false -> waiting p = false ->
   writer (mutex o) = false /\ pending (mutex o) = false) ->
  exists pick, is_Some (step_thread pick o p).
Proof.
  intros Hret Hr Hw Hwait Hfree.
  destruct p as [[]| | |?|?|?|[]| |?|[]| | | |?|];
    cbn [reading writing waiting returned] in *; try done;
    try (exists []; cbn [step_thread step_Check step_Add step_Delete step_Words];
         first [ apply with_mutex_is_Some;
                 try (destruct Hfree as [? ?]; [done..|]);
                 try (destruct Hwait as [? ?]; [done|]);
                 by auto using RLock_free, Lock_wait_free, Lock_pending,
                   Unlock_held, RUnlock_held
               | repeat case_match; by eexists ]).
  - destruct (range_total (words (data o)) visited) as [pick [t Ht]].
    exists pick. cbn. rewrite Ht. repeat case_match; by eexists.
  - destruct (range_total (words (data o)) activeWords) as [pick [t Ht]].
    exists pick. cbn. rewrite Ht. repeat case_match; by eexists.
Qed.

Lemma enabled_red pick o l1 p l2 :
  is_Some (step_thread pick o p) -> red step (mk_state o (l1 ++ p :: l2)).
Proof. intros [[o' p'] Hstep]. eexists. by econstructor. Qed.

(** The lock knows the goroutine that holds it or waits for it. *)
Lemma lock_inv_holder o l1 p l2 :
  lock_inv (mk_state o (l1 ++ p :: l2)) ->
  (reading p = true -> (0 < readers (mutex o))%nat) /\
  (writing p = true -> writer (mutex o) = true) /\
  (waiting p = true -> pending (mutex o) = true).
Proof.
  unfold lock_inv. cbn [shared threads]. rewrite !count_middle.
  intros (HR & HW & HP & _).
  split_and!; intros Hp; rewrite Hp in *; cbn [Nat.b2n] in *; [lia|..].
  - destruct (writer (mutex o)); [done|cbn in HW; lia].
  - destruct (pending (mutex o)); [done|cbn in HP; lia].
Qed.

(** A goroutine of the list that [P] holds of has a step, given what the
    lock says of the goroutines. *)
Lemma count_enabled P o ts :
  lock_inv (mk_state o ts) ->
  (0 < count P ts)%nat ->
  (forall p, P p = true ->
     returned p = false /\
     (writing p = false -> writer (mutex o) = false) /\
     (writing p = false -> reading p = false ->
      readers (mutex o) = 0%nat /\
      (waiting p = false -> pending (mutex o) = false))) ->
  red step (mk_state o ts).
Proof.
  intros Hlock (l1 & p & l2 & -> & Hp)%count_pos Hcase.
  destruct (Hcase p Hp) as (Hret & Hfree & Hnone).
  destruct (lock_inv_holder _ _ _ _ Hlock) as (Hr & Hw & Hwait).
  destruct (step_thread_enabled o p) as [pick Hpick];
    [done..| | |by eapply enabled_red].
  - intros Hp'. split; [by apply Hwait|]. apply Hnone; by destruct p.
  - intros Hr' Hw' Hwait'. split; [by apply Hfree|]. by apply Hnone.
Qed.

(** The holder of the lock has a step; failing one, the pending writer;
    failing one, any goroutine that has not returned. *)
Lemma lock_inv_enabled s :
  lock_inv s -> Forall (fun p => returned p = true) (threads s) \/ red step s.
Proof.
  destruct s as [o ts]. intros Hlock. pose proof Hlock as (HR & HW & HP & _).
  cbn [shared threads] in *.
  destruct (decide (0 < count writing ts)%nat) as [Hw|Hw];
    [|destruct (decide (0 < count reading ts)%nat) as [Hr|Hr];
      [|destruct (decide (0 < count waiting ts)%nat) as [Hp|Hp];
        [|destruct (decide (0 < count (fun p => negb (returned p)) ts)%nat)
            as [Hn|Hn]]]].
  1-4: right; eapply count_enabled; [done..|];
    destruct (writer (mutex o)), (pending (mutex o)); cbn [Nat.b2n] in *;
    intros [[]| | | | | | | | | | | | | |]; cbn; intros; split_and!;
    try done; lia.
  left. assert (count (fun p => negb (returned p)) ts = 0%nat) as H0 by lia.
  apply count_0 in H0. eapply Forall_impl; [done|]. cbn. intros p.
  by destruct (returned p).
Qed.

(** C38: No deadlock.  In every state the goroutines reach from [init],
    either every goroutine has returned or some goroutine has a step: the
    goroutine that holds the write lock, or a goroutine that holds the
    read lock, or the pending writer when no reader is inside, or, when
    nobody holds the lock and no writer is pending, any goroutine that has
    not returned. *)
Theorem reachable_progress filter calls s :
  reachable_from filter calls s ->
  Forall (fun p => returned p = true) (threads s) \/ red step s.
Proof. intros [Hlock _]%reachable_state_inv. by apply lock_inv_enabled. Qed.

(** ** Every run can be completed *)

(** Termination and progress together: from a state that keeps the
    invariant, stepping for as long as a goroutine has a step ends, by
    induction on [measure], in a state in which every call has returned. *)
Lemma state_inv_returns s :
  state_inv s ->
  exists s', rtc step s s' /\ Forall (fun p => returned p = true) (threads s').
Proof.
  remember (measure s) as n eqn:Hn. revert s Hn.
  induction (lt_wf n) as [n _ IH]. intros s -> Hinv.
  destruct (lock_inv_enabled s (proj1 Hinv)) as [Hret|[s1 Hstep]];
    [by exists s|].
  destruct (IH (measure s1) (step_measure _ _ Hinv Hstep) s1 eq_refl)
    as (s' & Hrun & Hret); [by eapply step_state_inv|].
  exists s'. split; [by eapply rtc_l|done].
Qed.

Lemma reachable_returns filter calls s :
  reachable_from filter calls s ->
  exists s', rtc step s s' /\ Forall (fun p => returned p = true) (threads s').
Proof. intros Hinv%reachable_state_inv. by apply state_inv_returns. Qed.

(** ** Readers together *)

(** A reader gets the lock that no writer holds or waits for, however many
    readers hold it. *)
Lemma step_thread_entered o c :
  reads c = true -> writer (mutex o) = false -> pending (mutex o) = false ->
  step_thread [] o (Called c) =
    Some (mk_object (data o) (mk_RWMutex (S (readers (mutex o))) false false),
          entered c).
Proof.
  intros Hc Hw Hp. destruct c; try done;
    cbn [step_thread step_Check step_Words]; unfold with_mutex, RLock;
    by rewrite Hw, Hp.
Qed.

Lemma readers_enter filter n l calls :
  Forall (fun c => reads c = true) calls ->
  rtc step
    (mk_state (mk_object filter (mk_RWMutex n false false))
       (l ++ (Called <$> calls)))
    (mk_state (mk_object filter (mk_RWMutex (n + length calls) false false))
       (l ++ (entered <$> calls))).
Proof.
  intros Hcalls. revert n l.
  induction Hcalls as [|c calls Hc _ IH]; intros n l.
  - cbn [fmap list_fmap length]. by rewrite Nat.add_0_r.
  - rewrite !fmap_cons. eapply rtc_l.
    + eapply (step_intro [] _ _ _ _ l). by apply step_thread_entered.
    + cbn [data mutex readers length].
      rewrite !(cons_middle _ l), !app_assoc, Nat.add_succ_r. apply (IH (S n)).
Qed.

(** C30: the readers share the lock.  With any number of calls of [Check]
    and [Words] on a filter, the state in which all of them are inside
    their methods, each with the read lock, is reached: no reader waits
    for another. *)
Theorem readers_together filter calls :
  Forall (fun c => reads c = true) calls ->
  reachable_from filter calls
    (mk_state (mk_object filter (mk_RWMutex (length calls) false false))
       (entered <$> calls)).
Proof. apply (readers_enter filter 0 []). Qed.

End progress.

(** ** The execution [demo_schedule] *)

#[local] Existing Instance latin_chain.

(** The bound for the three calls is eighteen steps; the schedule takes
    sixteen, the loops having one key to visit and not two. *)
Lemma run_bounded_witness :
  (16 + measure (mk_state (mk_object (Add demo_filter [str "bar"]) unlocked)
                   [Returned (ret_Check (Ok [mk_Match (str "foo") 2]));
                    Returned (ret_Words [str "foo"]); Returned ret_unit])
   <= measure (init demo_filter demo_calls))%nat.
Proof.
  apply (run_bounded demo_filter demo_calls (length demo_schedule)).
  apply run_nsteps, run_demo.
Defined.

(** After eleven steps the readers have returned and the pending writer
    can take the lock. *)
Lemma reachable_progress_witness :
  Forall (fun p => returned p = true)
    [Returned (ret_Check (Ok [mk_Match (str "foo") 2]));
     Returned (ret_Words [str "foo"]); Add_Lock [str "bar"]] \/
  red step (mk_state (mk_object demo_filter (mk_RWMutex 0 false true))
              [Returned (ret_Check (Ok [mk_Match (str "foo") 2]));
               Returned (ret_Words [str "foo"]); Add_Lock [str "bar"]]).
Proof.
  apply (reachable_progress demo_filter demo_calls (mk_state _ _)).
  apply (run_rtc (take 11 demo_schedule)), run_demo_11.
Defined.

(** Three calls of [Check] and one of [Words], all four inside. *)
Lemma readers_together_witness :
  reachable_from demo_filter
    [call_Check (str "a"); call_Check (str "b"); call_Words;
     call_Check (str "c")]
    (mk_state (mk_object demo_filter (mk_RWMutex 4 false false))
       [Check_guard (str "a"); Check_guard (str "b"); Words_guard;
        Check_guard (str "c")]).
Proof.
  apply (readers_together demo_filter
           [call_Check (str "a"); call_Check (str "b"); call_Words;
            call_Check (str "c")]).
  repeat constructor.
Defined.
