(* ===== verification/Tests.v ===== *)
(** * Tests: the test file of the repository, and three messages

    [src/swearfilter_test.go] as definitions: the filters and messages of
    [TestNew] and [TestCheck] and what each test asserts, as a boolean.

    Two theorems that hold with every chain, on messages whose characters
    are in the tables of [UnicodeLatin]: a message whose normalisation
    does not fit the buffer makes [Check] fail, and a message that the
    pipeline changes again when it is run a second time.

    Then the examples, which are run with the tables of [UnicodeLatin]
    and the chain [whole_buffer]: [TestCheck] passes and [TestNew] does
    not, it asserts that the spaced bypass is on in a filter made without
    options; a message of one combining mark leaves nothing to read and
    still is not empty; the messages of section 8 of the specification,
    each with what [Check] returns for it; two messages in which bytes
    and characters differ, and six words that are not found in
    themselves. *)

From stdpp Require Import gmap.
From S2P Require Import Prelude Utf8 GoStrings Unicode UnicodeLatin.
From S2P Require Import Normalize Whitespace Vocabulary Check Pipeline.

Local Open Scope go_scope.

(** ** Definitions *)

(** [TestNew], line 8. *)
Definition TestNew_filter : swearFilter := New [b{"foo"}; b{"bar"}] [].

(** [TestNew], lines 9-26: no [t.Errorf] is reached. *)
Definition TestNew : bool :=
  negb (disableNormalize TestNew_filter)
  && negb (disableSpacedTab TestNew_filter)
  && negb (disableMultiWhitespaceStripping TestNew_filter)
  && negb (disableZeroWidthStripping TestNew_filter)
  && enableSpacedBypass TestNew_filter
  && bool_decide (size (words TestNew_filter) = 2%nat).

(** [TestCheck], lines 30 and 31. *)
Definition TestCheck_filter : swearFilter := New [b{"foo"}] [EnableSpacedBypass].

Definition TestCheck_messages : list bytes :=
  [b{"fooing"}; b{"foo"}; b{"asdf"}; b{"what the f o o dude"}].

(** [TestCheck], lines 34-51: what is asserted of the result for message
    [i]. *)
Definition TestCheck_expect (i : nat) (r : result error (list Match)) : bool :=
  match r with
  | Err _ => false
  | Ok trippers =>
    match i with
    | 0%nat | 1%nat | 3%nat =>
      bool_decide (length trippers = 1%nat)
      && bool_decide (Word <$> head trippers = Some b{"foo"})
    | 2%nat => bool_decide (length trippers = 0%nat)
    | _ => false
    end
  end.

Section tests.
Context `{UnicodeTables} {chain : Chain}.

(** [TestCheck], the loop of lines 33-52. *)
Definition TestCheck : bool :=
  forallb (fun im => TestCheck_expect im.1 (Check TestCheck_filter im.2))
    (imap pair TestCheck_messages).

End tests.

(** A message of an [e] with two acute accents, then two Hangul jamos
    with two spaces between them. *)
Definition jamos : bytes :=
  encode [0x65; 0x301; 0x301; 0x1100; 0x20; 0x20; 0x1161].

(** A message of one combining acute accent. *)
Definition lone_mark : bytes := encode [0x301].

(** A message of one musical symbol, U+1D15E. *)
Definition half_note : bytes := encode [0x1D15E].

(** ** Two messages, with every chain *)

(** C29: the pipeline is not idempotent, with every chain.  With the
    normalisation and the whitespace stage on, whatever the other
    options, the first run takes the accents and the two spaces out of
    the message and leaves the two jamos side by side; a second run
    composes them into a syllable and pads the message with three more
    NUL bytes.  Either run can only fail or return these messages. *)
Theorem preprocess_not_idempotent {chain : Chain} flt m1 m2 :
  disableNormalize flt = false ->
  disableMultiWhitespaceStripping flt = false ->
  preprocess flt jamos = Ok m1 -> preprocess flt m1 = Ok m2 ->
  m1 = encode [0x65; 0x1100; 0x1161] ++ replicate 4 0 /\
  m2 = encode [0x65; 0xAC00] ++ replicate 7 0 /\ m1 <> m2.
Proof.
  intros Hn Hw [-> _]%preprocess_Ok_runes; [|compute_done].
  assert (preprocess_runes flt jamos = [0x65; 0x1100; 0x1161; 0; 0; 0; 0])
    as ->.
  { unfold preprocess_runes, stages_runes. rewrite Hn, Hw.
    by destruct (disableSpacedTab flt), (disableZeroWidthStripping flt);
      vm_compute. }
  intros [-> _]%preprocess_Ok_runes; [|compute_done].
  split_and!; [done| |].
  all: unfold preprocess_runes, stages_runes; rewrite Hn, Hw;
    by destruct (disableSpacedTab flt), (disableZeroWidthStripping flt);
      vm_compute.
Qed.

(** C31: a message whose normalisation is longer than itself makes [Check]
    fail, for every filter that has a word and normalises, every order
    of the visit and every chain: the half note is four bytes,
    decomposes into two runes of four bytes each and does not compose
    again. *)
Theorem Check_half_note {chain : Chain} keys flt :
  words flt <> ∅ -> disableNormalize flt = false ->
  length half_note = 4%nat /\ length (normalized half_note) = 8%nat /\
  Check_in keys flt half_note = Err ErrShortDst.
Proof.
  intros Hwords Hn. split_and!; [by vm_compute..|].
  rewrite Check_in_closed_form. unfold Check_spec.
  rewrite bool_decide_eq_false_2, preprocess_unfold, Hn by done.
  cbn [negb]. rewrite normalize_stage_long; [done|]. vm_compute. lia.
Qed.

(** ** The tests of the repository

    From here on the chain is [whole_buffer]. *)

#[local] Existing Instance latin_chain.

(** [TestCheck] passes: the three messages that hold the word are
    reported once with the word, the fourth through the spaced bypass,
    and the message without it is not reported. *)
Example TestCheck_passes : TestCheck = true.
Proof. by vm_compute. Qed.

(** [TestNew] fails at its fifth assertion: a filter made without options
    has the spaced bypass off, and the test wants it on. *)
Example TestNew_enableSpacedBypass :
  TestNew = false /\ enableSpacedBypass TestNew_filter = false /\
  size (words TestNew_filter) = 2%nat.
Proof. by vm_compute. Qed.

(** A message of one combining mark normalises to the empty text and is
    not reported to a filter that holds the word [" "]: what the loop reads
    is two NUL bytes. *)
Example sentinel_missed :
  normalized (ToLower lone_mark) = [] /\
  preprocess (New [space] []) lone_mark = Ok [0; 0] /\
  Check (New [space] []) lone_mark = Ok [].
Proof. by vm_compute. Qed.

(** ** The examples of the specification

    The messages of section 8 of the specification. *)

Example case_insensitive :
  Forall (fun m => Check_in [b{"foo"}] (New [b{"foo"}] []) m
                   = Ok [mk_Match b{"foo"} 0])
    [b{"FOO"}; b{"Foo"}; b{"fOO"}].
Proof. repeat constructor. Qed.

(** The message is [fóó]; the two accents leave two NUL bytes. *)
Example diacritic_insensitive :
  Check_in [b{"foo"}] (New [b{"foo"}] []) (encode [0x66; 0xF3; 0xF3])
    = Ok [mk_Match b{"foo"} 0] /\
  preprocess (New [b{"foo"}] []) (encode [0x66; 0xF3; 0xF3])
    = Ok (b{"foo"} ++ [0; 0]).
Proof. by vm_compute. Qed.

(** A tab between two letters is a space when the whitespace is read. *)
Example tab_collapsing :
  Check_in [b{"a b"}] (New [b{"a b"}] []) [0x61; 0x09; 0x62]
    = Ok [mk_Match b{"a b"} 0].
Proof. by vm_compute. Qed.

Example zero_width_stripping :
  Check_in [b{"foo"}] (New [b{"foo"}] []) (b{"f"} ++ zwsp ++ b{"oo"})
    = Ok [mk_Match b{"foo"} 0] /\
  Check_in [b{"foo"}] (New [b{"foo"}] [DisableZeroWidthStripping])
      (b{"f"} ++ zwsp ++ b{"oo"})
    = Ok [].
Proof. by vm_compute. Qed.

(** Two spaces are deleted, not made one. *)
Example multi_whitespace :
  Check_in [b{"ab"}; b{"a b"}] (New [b{"ab"}; b{"a b"}] []) b{"a  b"}
    = Ok [mk_Match b{"ab"} 0].
Proof. by vm_compute. Qed.

Example spaced_bypass :
  Check_in [b{"foo"}] (New [b{"foo"}] [EnableSpacedBypass])
      b{"what the f o o dude"}
    = Ok [mk_Match b{"foo"} 7] /\
  Check_in [b{"foo"}] (New [b{"foo"}] []) b{"what the f o o dude"} = Ok [].
Proof. by vm_compute. Qed.

(** The word [" "] is reported for a message of whitespace and for no
    message with a letter; for a message of one accent it is not, though
    nothing is left of it to read ([Check_in_sentinel_padded]). *)
Example sentinel_match :
  Check_in [space] (New [space] []) b{"   "} = Ok [sentinel] /\
  Check_in [space] (New [space] []) b{" a "} = Ok [] /\
  Check_in [space] (New [space] []) lone_mark = Ok [].
Proof. by vm_compute. Qed.

(** ** Bytes and characters

    The index of a match counts bytes, and a word that is not the
    encoding of characters is found inside the encoding of one: the byte
    [0xA9] in the second byte of U+00A9. *)

Example byte_offsets :
  Check_in [b{"bar"}] (New [b{"bar"}] [DisableNormalize])
      (encode [0xE9; 0x20] ++ b{"bar"})
    = Ok [mk_Match b{"bar"} 3] /\
  Check_in [[0xA9]] (New [[0xA9]] []) (encode [0xA9])
    = Ok [mk_Match [0xA9] 1].
Proof. by vm_compute. Qed.

(** ** Words that are not found in themselves

    The message is rewritten and the words are not: a word with a capital
    letter, with an accent, with a tab, with a zero-width space, with two
    spaces side by side or with a space at one end is not reported for
    the message that is that word. *)

Example words_never_found :
  Forall (fun w => Check_in [w] (New [w] []) w = Ok [])
    [b{"Foo"}; encode [0x66; 0xF3; 0xF3]; [0x61; 0x09; 0x62];
     b{"f"} ++ zwsp ++ b{"oo"}; b{"a  b"}; b{" a"}].
Proof. repeat constructor. Qed.

(** ** The theorems at concrete filters *)

Lemma preprocess_not_idempotent_witness :
  encode [0x65; 0x1100; 0x1161] ++ replicate 4 0 =
    encode [0x65; 0x1100; 0x1161] ++ replicate 4 0 /\
  encode [0x65; 0xAC00] ++ replicate 7 0 =
    encode [0x65; 0xAC00] ++ replicate 7 0 /\
  encode [0x65; 0x1100; 0x1161] ++ replicate 4 0 <>
    encode [0x65; 0xAC00] ++ replicate 7 0.
Proof.
  apply (preprocess_not_idempotent (New [] [])); vm_compute; reflexivity.
Defined.

Lemma Check_half_note_witness :
  length half_note = 4%nat /\ length (normalized half_note) = 8%nat /\
  Check_in [b{"foo"}] (New [b{"foo"}] []) half_note = Err ErrShortDst.
Proof. apply Check_half_note; [compute_done|reflexivity]. Defined.
